(* ===== verification/_CoqProject ===== *)
-Q . S2P
Prelude.v
GoStrings.v
Host.v
Config.v
Paths.v
Session.v
Flags.v
StepProcessor.v
Instructions.v
Protocol.v
Completion.v
Net.v
FreeAddresses.v
Md5.v
Disks.v
Regex.v
Uuid.v
Shell.v
GoFloat.v
ImageAvailability.v
UpgradeAgent.v
Network.v
VipsVerifier.v
Http.v
ApiVip.v
Ntp.v
Dhcp.v
DiskSpeed.v
Tang.v
DomainResolution.v
System.v
Interfaces.v
Sort.v
Scanner.v
Inventory.v
Connectivity.v
Workers.v
ConnectivityRunner.v
DiskSpeedRunner.v
BootArtifacts.v
Install.v
Actions.v
ActionFacts.v
StepsReturn.v
Agent.v
LogsSender.v
Args.v
Logging.v
Programs.v
DryRun.v
