(* ===== verification/Prelude.v ===== *)
(** * assisted-installer-agent: a verification development

    The agent runs on a host that is to become a node of an OpenShift cluster. It
    registers the host with the assisted-installer service, starts the next-step
    runner, and the runner asks the service again and again for instructions,
    executes them (inventory, connectivity and disk checks, downloads, the
    installation itself), and posts the replies. The Go sources are under src/;
    here they are translated into Rocq and proved correct. Paths in the comments are
    those of the repository: src/agent is the directory src/src/agent of the tree
    that the map of the manifest names.

    ** The model of Go code

    Prelude.v: an effectful function is a [proc], a tree of atomic actions, which
    are requests to the outside world ([PAsk]) and actions on the memory that the
    goroutines share ([PState]); it returns, panics ([PPanic]: an index out of
    range, a nil pointer, a failed type assertion) or blocks for ever ([PBlock]).
    The answer to a request is a function of the log of all requests made before,
    so a theorem about all such functions covers every stateful environment.
    [run] executes one process alone. [spec P G Q] says that a process returns,
    whatever others do in between, with requests in [P], changes in [G] and a
    result in [Q]; [pspec]/[emits] is the same without the promise to return;
    [at_most] counts requests; [pool] and [pstep] interleave several processes (a
    panic stops only its own process there, so a pool has every execution of the
    program, in which a panic ends all, up to the panic; where it matters that the
    whole process has ended, by os.Exit or log.Fatal, which are requests
    ([exit_process], Host.v), by a panic or because main has returned, the steps
    are those of [process_step], which stops there: StepProcessor.v);
    [rg] is a rely-guarantee logic for pools, [sem_ok] a protocol for semaphores,
    [obeys] an automaton that watches what a process asks for; [sub], [one_less]
    and [lex] are the orders by which schedules end.
    Host.v has the requests, the class [Env] that answers them, the shared memory,
    src/util/execute.go, and [log_map], which reads a log as what one side has
    seen, and the tactics [quiet] and [total] that descend through a whole program
    ([emits] goals, and [always], that it returns); Workers.v has goroutines that share a wait group and a bounded channel;
    GoStrings.v package strings and the string functions of strconv; GoFloat.v
    floats, Sort.v the stable sort; Flags.v package flag;
    Uuid.v, Md5.v, Regex.v, Paths.v, Net.v and Http.v what the code uses of the
    libraries of the same names; Shell.v shellescape and the words a shell reads.
    Integers are Z, wrapped to their width where the code can overflow ([int64]);
    maps are gmap, or association lists where their order is seen.

    ** The parts of the program

    - Programs.v: the main functions (src/agent/main, src/*/main, */main.go): what
      a program prints and the code it exits with. Args.v: its arguments and the
      dry-run environment (src/config). Logging.v: where its log goes
      (src/util/logging.go, pkg/journalLogger).
    - Agent.v: registration with retries, the loop that starts the next-step
      runner (src/agent, src/commands/register_node.go, src/util/dry_reboot.go).
      Scanner.v: the host id (src/scanners). Session.v: the connection to the
      service (src/session). Config.v: the configuration records, the calls of
      the service (src/commands/service_api.go) and the text of their errors.
    - StepProcessor.v: the next-step runner (src/commands/step_processor.go,
      reply_cache.go, runner.go): main loop, reply cache, one goroutine per
      instruction. Instructions.v: no instruction is lost. Protocol.v: the abstract
      specification of the exchange with the service, which the runner refines.
      Completion.v: all goroutines come to an end, if the steps return and the
      process lives. DryRun.v: the runner with the goroutine that waits for the
      fake reboot. The
      runner sees the actions only through the class ToolRunnerFactory and its
      laws, FactoryLaws.
    - Actions.v: the steps (src/commands/actions: action.go and one file per
      step), their validation and command lines. ActionFacts.v: the instance of
      FactoryLaws, and the properties of validation and command lines.
      StepsReturn.v: which steps return ([sound_step]), and with it the liveness of
      the agent with its real actions.
    - the components the steps run: FreeAddresses.v, Disks.v, System.v,
      Interfaces.v, Network.v, Inventory.v (src/free_addresses, src/inventory,
      src/util/network*.go), Connectivity.v and ConnectivityRunner.v
      (src/connectivity_check; the second has its goroutines and channels as a
      step relation), ApiVip.v, Ntp.v, Dhcp.v, DiskSpeed.v and DiskSpeedRunner.v
      (again the second for its goroutines), Tang.v, DomainResolution.v, VipsVerifier.v, ImageAvailability.v, UpgradeAgent.v
      (the directories of these names), Install.v and BootArtifacts.v
      (install_cmd.go, download_boot_artifacts_cmd.go, reboot_for_reclaim.go),
      LogsSender.v (src/logs_sender, with the goroutine of the partial logs).

    A Go function keeps its name; a method that would clash is prefixed by its
    receiver or lives in the file of its component. A piece of a long function has
    a name of its own and is composed by the definition of the whole function. The
    wording of the errors and of the replies is kept, log lines are left out.

    ** What the theorems show

    - the next-step runner, in every interleaving: what the service sees is an
      execution of the abstract protocol, and replies belong to instructions
      (Protocol); no instruction is lost (Instructions), the reply cache holds only
      acknowledged results, the agent restarts only after an upgrade, a goroutine
      posts at most one reply, a reply ends up posted or known (StepProcessor); a
      dry run ends only after the fake reboot, by a panic or, like any run, when a
      session cannot be opened, which is fatal (DryRun); the steps keep the contract
      the runner assumes of them (ActionFacts.New_keeps_session); and when the
      service asks for complete requests and the tools print what they document,
      nothing panics or runs for ever, and every instruction is answered while the
      process lives: it ends with its main loop, or by a fatal error, and takes
      the goroutines of the steps with it
      (StepsReturn.every_instruction_is_answered: the process panics on a null
      instruction, on a missing field, on a download without an HTTP answer, on
      malformed tool output; its hypotheses name these cases);
    - concurrency elsewhere: every schedule of the connectivity check ends with
      its report (ConnectivityRunner), and every schedule of the disk speed check
      with its answer, unless fio reports no job, when it panics (DiskSpeedRunner);
      the partial collection of logs is waited for, unless its folder cannot be
      made, when it can panic, and the service learns of the sending in order, with
      that goroutine running beside it (LogsSender); semaphores admit one holder
      (ActionFacts, UpgradeAgent);
    - registration: its attempts in order, and that it succeeds when the service
      recovers; the agent ends only after the fake reboot of a dry run, or when a
      session cannot be opened (Agent); the identity is always a well-formed id
      (Scanner);
    - programs agree on their command lines: what the agent writes for the runner
      and for the logs sender parses back to the configuration meant (Programs,
      on the round trip of Flags); the shell reads the installer command line
      back as one word per argument (Install, Shell);
    - the inventory only reads files, hardware and the kernel's links and routes, and
      listing the disks returns unless a file vanishes while its directory is read
      (Inventory, Disks); which disks and interfaces get a record and what it says:
      the eligibility of disks, the addresses and the prefixes that the kernel has
      learnt for them (Disks, Interfaces, Network); the host name;
    - scans and downloads: address arithmetic, termination and completeness of the
      free-address scan, retries and the files left by a download, the image pulled
      before the installation, when the network configuration of the host is
      copied, which NTP sources are added, and what a success or an error reply
      implies; what the regular expression for kernel parameters finds
      (BootArtifacts).

    A theorem with hypotheses comes with a witness, at the end of its file, that
    uses it on a concrete input. Definitions are executable, and Examples run them.

    ** Bounds and fuel

    Loops over data are structural. Loops that the world ends take fuel: the main
    loops ([RunAgent], [ProcessSteps], [watch_reboot], [RegisterHostWithRetry],
    [collect_loop], [wg_Wait]) have a result of their own for running out of it, and
    the turns of the goroutine of the partial logs and its caller ([by_turns]) are a
    list after which both are still at work,
    and their theorems hold for every amount of fuel, so they speak of every prefix
    of an execution; where a result is promised (registration_succeeds,
    logs_are_sent) the theorem says how much fuel is enough, or the loop has none.
    The fuel of the free-address scan is proved to suffice for every network of
    prefix 1 to 32. ConnectivityRunner and DiskSpeedRunner have no fuel: their
    schedules are proved to be well-founded, and so are those of the next-step
    runner, for every number of rounds of its main loop (Completion).

    ** What is not modelled, and why

    - libraries: JSON, YAML and XML decoding, netlink, DNS, TLS and the HTTP
      transport with its retries, ghw, html/template beyond the characters it
      escapes in text, the generated client and models of assisted-service, journald.
      They are parameters of the definitions that use them, or fields of the
      classes Env, Http, Connect, Service and External;
    - the text of log lines, and how long a command runs;
    - mocks, the test utilities of src/util, and the system tests (the directory
      subsystem), which are not part of the program. *)
From Stdlib Require Export ZArith Lia Ascii String.
From stdpp Require Export base tactics list strings gmap option numbers relations.

Open Scope string_scope.
Open Scope nat_scope.
Open Scope list_scope.

(** ** Outcomes of Go code

    A Go function returns, panics (index out of range, nil dereference,
    failed type assertion) or blocks for ever ([select {}]). *)
Inductive outcome (A : Type) : Type :=
  | Done (a : A)
  | Panicked
  | Blocked.
Arguments Done {_} _.
Arguments Panicked {_}.
Arguments Blocked {_}.

#[export] Instance outcome_eq_dec {A} `{EqDecision A} : EqDecision (outcome A).
Proof. solve_decision. Defined.

(** ** Processes

    An effectful computation is a tree of atomic actions.  [PAsk r f k] makes
    the request [r] to the outside world, whose answer is [f] of the log of all
    requests made before it (so any stateful environment is covered).
    [PState f k] acts atomically on the memory the goroutines of the process
    share.  Between two actions other goroutines may run. *)
Inductive proc (R S A : Type) : Type :=
  | PRet (a : A)
  | PPanic
  | PBlock
  | PAsk {X : Type} (r : R) (f : list R → X) (k : X → proc R S A)
  | PState {X : Type} (f : S → X * S) (k : X → proc R S A).
Arguments PRet {_ _ _} _.
Arguments PPanic {_ _ _}.
Arguments PBlock {_ _ _}.
Arguments PAsk {_ _ _ _} _ _ _.
Arguments PState {_ _ _ _} _ _.

Fixpoint proc_bind_go {R S A B} (f : A → proc R S B) (m : proc R S A) : proc R S B :=
  match m with
  | PRet a => f a
  | PPanic => PPanic
  | PBlock => PBlock
  | PAsk r g k => PAsk r g (λ x, proc_bind_go f (k x))
  | PState g k => PState g (λ x, proc_bind_go f (k x))
  end.

#[export] Instance proc_ret {R S} : MRet (proc R S) := λ A a, PRet a.
#[export] Instance proc_bind {R S} : MBind (proc R S) := λ A B f m, proc_bind_go f m.
#[export] Instance proc_fmap {R S} : FMap (proc R S) := λ A B f m,
  proc_bind_go (λ a, PRet (f a)) m.

Definition ask {R S A} (r : R) (f : list R → A) : proc R S A := PAsk r f PRet.
Definition panic {R S A} : proc R S A := PPanic.
Definition block {R S A} : proc R S A := PBlock.
Definition shared_get {R S} : proc R S S := PState (λ s, (s, s)) PRet.
Definition shared_do {R S X} (f : S → X * S) : proc R S X := PState f PRet.

(** An index expression or a nil check of Go: panics on [None]. *)
Definition or_panic {R S A} (o : option A) : proc R S A :=
  match o with Some a => PRet a | None => PPanic end.

(** [for _, x := range l { s = f(s, x) }]. *)
Fixpoint foldP {R S T A} (f : T → A → proc R S T) (l : list A) (s : T) : proc R S T :=
  match l with
  | [] => mret s
  | x :: l' => s' ← f s x; foldP f l' s'
  end.

Fixpoint mapP {R S A B} (f : A → proc R S B) (l : list A) : proc R S (list B) :=
  match l with
  | [] => mret []
  | x :: l' => y ← f x; ys ← mapP f l'; mret (y :: ys)
  end.

(** [defer d]: [d] runs when the function returns and when it panics. *)
Fixpoint defer {R S A} (d : proc R S ()) (m : proc R S A) : proc R S A :=
  match m with
  | PRet a => proc_bind_go (λ _, PRet a) d
  | PPanic => proc_bind_go (λ _, PPanic) d
  | PBlock => PBlock
  | PAsk r g k => PAsk r g (λ x, defer d (k x))
  | PState g k => PState g (λ x, defer d (k x))
  end.

(** The same process in a memory that has a further part. *)
Fixpoint lift {R S T A} (m : proc R S A) : proc R (S * T) A :=
  match m with
  | PRet a => PRet a
  | PPanic => PPanic
  | PBlock => PBlock
  | PAsk r g k => PAsk r g (λ x, lift (k x))
  | PState g k => PState (λ s, ((g s.1).1, ((g s.1).2, s.2))) (λ x, lift (k x))
  end.

(** ** Running one process alone *)
Fixpoint run {R S A} (m : proc R S A) (log : list R) (s : S) : outcome A * list R * S :=
  match m with
  | PRet a => (Done a, log, s)
  | PPanic => (Panicked, log, s)
  | PBlock => (Blocked, log, s)
  | PAsk r f k => run (k (f log)) (log ++ [r]) s
  | PState f k => run (k (fst (f s))) log (snd (f s))
  end.

Section Run.
Context {R S : Type}.

Lemma run_bind {A B} (m : proc R S A) (f : A → proc R S B) log s :
  run (m ≫= f) log s =
    match run m log s with
    | (Done a, log', s') => run (f a) log' s'
    | (Panicked, log', s') => (Panicked, log', s')
    | (Blocked, log', s') => (Blocked, log', s')
    end.
Proof.
  unfold mbind, proc_bind. revert log s. induction m; intros log s'; simpl; auto.
Qed.

Lemma bind_ret_l {A B} (a : A) (f : A → proc R S B) : (mret a ≫= f) = f a.
Proof. done. Qed.

Lemma run_bind_done {A B} (m : proc R S A) (f : A → proc R S B) log s a log' s' :
  run m log s = (Done a, log', s') → run (m ≫= f) log s = run (f a) log' s'.
Proof. intros E. by rewrite run_bind, E. Qed.

Lemma run_defer {A} (d : proc R S ()) (m : proc R S A) log s :
  run (defer d m) log s =
    match run m log s with
    | (Blocked, log', s') => (Blocked, log', s')
    | (o, log', s') =>
        match run d log' s' with
        | (Done _, log'', s'') => (o, log'', s'')
        | (Panicked, log'', s'') => (Panicked, log'', s'')
        | (Blocked, log'', s'') => (Blocked, log'', s'')
        end
    end.
Proof.
  revert log s. induction m as [a| | |X r f k IH|X f k IH]; intros log s'; simpl; auto.
  - pose proof (run_bind d (λ _, PRet a) log s') as E. unfold mbind, proc_bind in E. rewrite E.
    destruct (run d log s') as [[[?| |] ?] ?]; done.
  - pose proof (run_bind d (λ _, (PPanic : proc R S A)) log s') as E. unfold mbind, proc_bind in E. rewrite E.
    destruct (run d log s') as [[[?| |] ?] ?]; done.
Qed.

(** The log only grows. *)
Lemma run_log {A} (m : proc R S A) log s :
  ∃ t, (run m log s).1.2 = log ++ t.
Proof.
  revert log s. induction m as [a| | |X r f k IH|X f k IH]; intros log s; simpl.
  1-3: exists []; by rewrite app_nil_r.
  - destruct (IH (f log) (log ++ [r]) s) as [t ->]. exists (r :: t). by rewrite <-(assoc_L (++)).
  - apply IH.
Qed.
End Run.

(** ** Specifications of processes

    [spec P G Q m]: whatever the other goroutines do between the actions of
    [m], [m] returns (it neither panics nor blocks), every request it makes
    satisfies [P], every change it makes to the shared memory is in [G], and
    its result satisfies [Q].  [pspec P G Q m] is the same without the promise
    to return (the result satisfies [Q] if there is one), and [emits P G m]
    says nothing of the result. *)
Fixpoint spec {R S A} (P : R → Prop) (G : S → S → Prop) (Q : A → Prop) (m : proc R S A) : Prop :=
  match m with
  | PRet a => Q a
  | PPanic => False
  | PBlock => False
  | PAsk r f k => P r ∧ ∀ log, spec P G Q (k (f log))
  | PState f k => ∀ s, G s (snd (f s)) ∧ spec P G Q (k (fst (f s)))
  end.

Fixpoint pspec {R S A} (P : R → Prop) (G : S → S → Prop) (Q : A → Prop) (m : proc R S A) : Prop :=
  match m with
  | PRet a => Q a
  | PPanic => True
  | PBlock => True
  | PAsk r f k => P r ∧ ∀ log, pspec P G Q (k (f log))
  | PState f k => ∀ s, G s (snd (f s)) ∧ pspec P G Q (k (fst (f s)))
  end.

Notation emits P G := (pspec P G (λ _, True)).
Notation returns P G := (spec P G (λ _, True)).

Create HintDb prog discriminated.

Section Specs.
Context {R S : Type}.
Implicit Types (P : R → Prop) (G : S → S → Prop).

Lemma spec_ret {A} P G (Q : A → Prop) a : Q a → spec P G Q (mret a : proc R S A).
Proof. done. Qed.

Lemma spec_bind {A B} P G (Q : A → Prop) (Q' : B → Prop) (m : proc R S A) (f : A → proc R S B) :
  spec P G Q m → (∀ a, Q a → spec P G Q' (f a)) → spec P G Q' (m ≫= f).
Proof.
  unfold mbind, proc_bind.
  induction m as [a| | |X r g k IH|X g k IH]; simpl; intros Hm Hf; try naive_solver.
Qed.

Lemma spec_mono {A} P P' G G' (Q Q' : A → Prop) (m : proc R S A) :
  spec P G Q m → (∀ r, P r → P' r) → (∀ s s', G s s' → G' s s') → (∀ a, Q a → Q' a) →
  spec P' G' Q' m.
Proof. intros Hm HP HG HQ. revert Hm. induction m; simpl; naive_solver. Qed.

Lemma spec_conseq {A} P G (Q Q' : A → Prop) (m : proc R S A) :
  spec P G Q m → (∀ a, Q a → Q' a) → spec P G Q' m.
Proof. intros Hm HQ. eapply spec_mono; eauto. Qed.

Lemma spec_fmap {A B} P G (Q : B → Prop) (m : proc R S A) (f : A → B) :
  spec P G (λ a, Q (f a)) m → spec P G Q (f <$> m).
Proof. intros Hm. apply (spec_bind _ _ _ _ _ _ Hm). done. Qed.

Lemma spec_ask {A} P G (Q : A → Prop) r f :
  P r → (∀ log, Q (f log)) → spec P G Q (ask r f : proc R S A).
Proof. done. Qed.

Lemma spec_or_panic {A} P G (Q : A → Prop) (o : option A) a :
  o = Some a → Q a → spec P G Q (or_panic o : proc R S A).
Proof. by intros ->. Qed.

Lemma spec_foldP {T A} P G (I : T → Prop) (f : T → A → proc R S T) l s :
  I s → (∀ s x, x ∈ l → I s → spec P G I (f s x)) → spec P G I (foldP f l s).
Proof.
  revert s. induction l as [|x l IH]; intros s Hs Hf; simpl; [done|].
  eapply spec_bind; [apply Hf; [left|done]|].
  intros s' Hs'. apply IH; [done|]. intros. apply Hf; [by right|done].
Qed.

Lemma spec_mapP {A B} P G (Q : A → B → Prop) (f : A → proc R S B) l :
  (∀ x, x ∈ l → spec P G (Q x) (f x)) → spec P G (Forall2 Q l) (mapP f l).
Proof.
  induction l as [|x l IH]; intros Hf; simpl; [by apply spec_ret|].
  eapply spec_bind; [apply Hf; left|]. intros y Hy.
  eapply spec_bind; [apply IH; intros; apply Hf; by right|].
  intros ys Hys. apply spec_ret. by constructor.
Qed.

(** What a [spec] says of a run alone. *)
Lemma spec_run {A} P G (Q : A → Prop) (m : proc R S A) log s :
  spec P G Q m → ∃ a t s', run m log s = (Done a, log ++ t, s') ∧ Forall P t ∧ Q a ∧ rtc G s s'.
Proof.
  revert log s. induction m as [a| | |X r f k IH|X f k IH]; intros log s; simpl; try done.
  - intros HQ. exists a, [], s. rewrite app_nil_r. repeat split; auto. apply rtc_refl.
  - intros [HP Hk]. destruct (IH (f log) (log ++ [r]) s (Hk log)) as (a & t & s' & -> & Ht & HQ & HG).
    exists a, (r :: t), s'. rewrite <-(assoc_L (++)). repeat split; auto.
  - intros Hk. destruct (Hk s) as [Hg Hk']. destruct (IH _ log (f s).2 Hk') as (a & t & s' & -> & Ht & HQ & HG).
    exists a, t, s'. repeat split; auto. by eapply rtc_l.
Qed.

Lemma spec_pspec {A} P G (Q : A → Prop) (m : proc R S A) : spec P G Q m → pspec P G Q m.
Proof. induction m; simpl; naive_solver. Qed.

Lemma pspec_mono {A} P P' G G' (Q Q' : A → Prop) (m : proc R S A) :
  pspec P G Q m → (∀ r, P r → P' r) → (∀ s s', G s s' → G' s s') → (∀ a, Q a → Q' a) →
  pspec P' G' Q' m.
Proof. intros Hm HP HG HQ. revert Hm. induction m; simpl; naive_solver. Qed.

Lemma pspec_bind {A B} P G (Q : A → Prop) (Q' : B → Prop) (m : proc R S A) (f : A → proc R S B) :
  pspec P G Q m → (∀ a, Q a → pspec P G Q' (f a)) → pspec P G Q' (m ≫= f).
Proof. unfold mbind, proc_bind. induction m; simpl; naive_solver. Qed.

Lemma pspec_ret {A} P G (Q : A → Prop) a : Q a → pspec P G Q (mret a : proc R S A).
Proof. done. Qed.

Lemma pspec_ask {A} P G (Q : A → Prop) r f :
  P r → (∀ log, Q (f log)) → pspec P G Q (ask r f : proc R S A).
Proof. done. Qed.

Lemma spec_emits {A} P G (Q : A → Prop) (m : proc R S A) : spec P G Q m → emits P G m.
Proof. intros H. apply (pspec_mono P P G G Q); auto. by apply spec_pspec. Qed.

Lemma emits_weaken {A} P G (Q : A → Prop) (m : proc R S A) : pspec P G Q m → emits P G m.
Proof. intros H. by apply (pspec_mono P P G G Q). Qed.

Lemma emits_mono {A} P P' G G' (m : proc R S A) :
  emits P G m → (∀ r, P r → P' r) → (∀ s s', G s s' → G' s s') → emits P' G' m.
Proof. intros. by eapply pspec_mono. Qed.

Lemma emits_ret {A} P G a : emits P G (mret a : proc R S A).
Proof. done. Qed.
Lemma emits_panic {A} P G : emits P G (panic : proc R S A).
Proof. done. Qed.
Lemma emits_block {A} P G : emits P G (block : proc R S A).
Proof. done. Qed.
Lemma emits_ask {A} P G r (f : list R → A) : P r → emits P G (ask r f : proc R S A).
Proof. done. Qed.
Lemma emits_shared {X} P G (f : S → X * S) :
  (∀ s, G s (f s).2) → emits P G (shared_do f : proc R S X).
Proof. done. Qed.
Lemma emits_or_panic {A} P G (o : option A) : emits P G (or_panic o : proc R S A).
Proof. by destruct o. Qed.

Lemma emits_bind {A B} P G (m : proc R S A) (f : A → proc R S B) :
  emits P G m → (∀ a, emits P G (f a)) → emits P G (m ≫= f).
Proof. intros Hm Hf. eapply pspec_bind; [exact Hm|auto]. Qed.

Lemma emits_fmap {A B} P G (m : proc R S A) (f : A → B) :
  emits P G m → emits P G (f <$> m).
Proof. intros Hm. by apply (emits_bind P G m (λ a, PRet (f a))). Qed.

Lemma emits_foldP {T A} P G (f : T → A → proc R S T) l s :
  (∀ s x, emits P G (f s x)) → emits P G (foldP f l s).
Proof.
  intros Hf. revert s. induction l as [|x l IH]; intros s; simpl; [done|].
  apply emits_bind; auto.
Qed.

Lemma emits_mapP {A B} P G (f : A → proc R S B) l :
  (∀ x, emits P G (f x)) → emits P G (mapP f l).
Proof.
  intros Hf. induction l as [|x l IH]; simpl; [done|].
  apply emits_bind; [done|]. intros. by apply emits_bind.
Qed.

Lemma emits_mapP_in {A B} P G (f : A → proc R S B) l :
  (∀ x, x ∈ l → emits P G (f x)) → emits P G (mapP f l).
Proof.
  induction l as [|x l IH]; intros Hf; simpl; [done|].
  apply emits_bind; [apply Hf; left|]. intros y. apply emits_bind; [|done]. apply IH. intros. apply Hf. by right.
Qed.

Lemma returns_bind {A B} P G (m : proc R S A) (f : A → proc R S B) :
  returns P G m → (∀ a, returns P G (f a)) → returns P G (m ≫= f).
Proof. intros Hm Hf. eapply spec_bind; [exact Hm|auto]. Qed.

Lemma returns_fmap {A B} P G (m : proc R S A) (f : A → B) : returns P G m → returns P G (f <$> m).
Proof. intros Hm. by apply spec_fmap. Qed.

Lemma returns_foldP {T A} P G (f : T → A → proc R S T) l s :
  (∀ s x, returns P G (f s x)) → returns P G (foldP f l s).
Proof. intros Hf. by apply spec_foldP. Qed.

Lemma returns_mapP {A B} P G (f : A → proc R S B) l :
  (∀ x, returns P G (f x)) → returns P G (mapP f l).
Proof. intros Hf. eapply spec_conseq; [apply (spec_mapP P G (λ _ _, True)); auto|done]. Qed.

Lemma returns_or_panic {A} P G (o : option A) : is_Some o → returns P G (or_panic o : proc R S A).
Proof. by intros [a ->]. Qed.

Lemma spec_returns {A} P G (Q : A → Prop) (m : proc R S A) : spec P G Q m → returns P G m.
Proof. intros H. by eapply spec_conseq. Qed.

(** A process that returns keeps to any guarantee proved without that promise. *)
Lemma spec_with_emits {A} P P' G G' (Q : A → Prop) (m : proc R S A) :
  spec P G Q m → emits P' G' m → spec P' G' Q m.
Proof. induction m; simpl; naive_solver. Qed.

(** ... and has the results that are proved without it. *)
Lemma spec_and_pspec {A} P P' G G' (Q Q' : A → Prop) (m : proc R S A) :
  spec P G Q m → pspec P' G' Q' m → spec P' G' (λ a, Q a ∧ Q' a) m.
Proof. induction m; simpl; naive_solver. Qed.

(** What [pspec] says of a run alone. *)
Lemma pspec_run {A} P G (Q : A → Prop) (m : proc R S A) log s :
  pspec P G Q m → ∃ o t s', run m log s = (o, log ++ t, s') ∧ Forall P t ∧ rtc G s s' ∧
    (∀ a, o = Done a → Q a).
Proof.
  revert log s. induction m as [a| | |X r f k IH|X f k IH]; intros log s; simpl.
  1-3: intros HQ; eexists _, [], s; rewrite app_nil_r; repeat split; auto;
    [apply rtc_refl|intros; by simplify_eq].
  - intros [HP Hk]. destruct (IH (f log) (log ++ [r]) s (Hk log)) as (o & t & s' & -> & Ht & HG & HQ).
    exists o, (r :: t), s'. rewrite <-(assoc_L (++)). repeat split; auto.
  - intros Hk. destruct (Hk s) as [Hg Hk']. destruct (IH _ log (f s).2 Hk') as (o & t & s' & -> & Ht & HG & HQ).
    exists o, t, s'. repeat split; auto. by eapply rtc_l.
Qed.

(** [at_most n c m]: on no path does [m] make more than [n] requests that
    the test [c] counts. *)
Fixpoint at_most {A} (n : nat) (c : R → bool) (m : proc R S A) : Prop :=
  match m with
  | PRet _ => True
  | PPanic => True
  | PBlock => True
  | PAsk r f k =>
      if c r then match n with O => False | Datatypes.S n' => ∀ log, at_most n' c (k (f log)) end
      else ∀ log, at_most n c (k (f log))
  | PState f k => ∀ s, at_most n c (k (fst (f s)))
  end.

Lemma at_most_bind {A B} n1 n2 c (m : proc R S A) (f : A → proc R S B) :
  at_most n1 c m → (∀ a, at_most n2 c (f a)) → at_most (n1 + n2) c (m ≫= f).
Proof.
  unfold mbind, proc_bind. revert n1. induction m as [a| | |X r g k IH|X g k IH]; intros n1; simpl; auto.
  - intros _ Hf. specialize (Hf a). revert n2 Hf. generalize (f a) as m.
    induction n1 as [|n1 IHn]; intros m n2 Hm; [done|]. simpl.
    specialize (IHn m n2 Hm). clear Hm. revert IHn. generalize (n1 + n2). clear n1 n2.
    induction m as [b| | |X r g k IH|X g k IH]; intros n; simpl; auto.
    destruct (c r); [|auto]. destruct n; [done|]. intros H log. apply IH, H.
  - destruct (c r); [|auto]. destruct n1; [done|]. simpl. auto.
Qed.

Lemma at_most_emits {A} n c P G (m : proc R S A) :
  emits P G m → (∀ r, P r → c r = false) → at_most n c m.
Proof.
  intros Hm HP. revert Hm. induction m as [a| | |X r f k IH|X f k IH]; simpl; auto.
  - intros [Hr Hk]. rewrite (HP r Hr). auto.
  - intros Hk s. apply IH, (Hk s).
Qed.

(** What [at_most] says of a run alone. *)
Lemma at_most_run {A} n c (m : proc R S A) log s :
  at_most n c m → ∃ t, (run m log s).1.2 = log ++ t ∧ List.length (base.filter (λ r, c r = true) t) ≤ n.
Proof.
  revert n log s. induction m as [a| | |X r f k IH|X f k IH]; intros n log s; simpl.
  1-3: exists []; rewrite app_nil_r; simpl; split; [done|lia].
  - destruct (c r) eqn:E.
    + destruct n as [|n]; [done|]. intros Hk.
      destruct (IH (f log) n (log ++ [r]) s (Hk log)) as (t & -> & Ht).
      exists (r :: t). rewrite <-(assoc_L (++)). split; [done|].
      rewrite filter_cons_True by done. simpl. lia.
    + intros Hk. destruct (IH (f log) n (log ++ [r]) s (Hk log)) as (t & -> & Ht).
      exists (r :: t). rewrite <-(assoc_L (++)). split; [done|].
      rewrite filter_cons_False by congruence. done.
  - intros Hk. apply IH, Hk.
Qed.
End Specs.

#[export] Hint Resolve spec_ret spec_ask emits_ret emits_ask emits_panic
  emits_block emits_or_panic emits_fmap emits_foldP emits_mapP emits_shared : prog.

(** One step of a [spec] or [emits] proof: descends through binds, matches
    and ifs. *)
Ltac prog_step :=
  lazymatch goal with
  | |- returns _ _ (_ ≫= _) => apply returns_bind; [|intros ?]
  | |- returns _ _ (_ <$> _) => apply returns_fmap
  | |- returns _ _ (foldP _ _ _) => apply returns_foldP; intros ? ?
  | |- returns _ _ (mapP _ _) => apply returns_mapP; intros ?
  | |- spec _ _ _ (_ ≫= _) => eapply spec_bind; [|intros ? ?]
  | |- spec _ _ _ (_ <$> _) => apply spec_fmap
  | |- spec _ _ _ (mret _) => apply spec_ret
  | |- spec _ _ _ (PRet _) => apply spec_ret
  | |- spec _ _ _ (if ?b then _ else _) => destruct b eqn:?
  | |- spec _ _ _ (match ?x with _ => _ end) => destruct x eqn:?
  | |- emits _ _ (_ ≫= _) => apply emits_bind; [|intros ?]
  | |- emits _ _ (_ <$> _) => apply emits_fmap
  | |- emits _ _ (mret _) => apply emits_ret
  | |- emits _ _ (PRet _) => apply emits_ret
  | |- emits _ _ panic => apply emits_panic
  | |- emits _ _ block => apply emits_block
  | |- emits _ _ (or_panic _) => apply emits_or_panic
  | |- pspec _ _ _ (_ ≫= _) => eapply pspec_bind; [|intros ? ?]
  | |- pspec _ _ _ (mret _) => apply pspec_ret
  | |- pspec _ _ _ (PRet _) => apply pspec_ret
  | |- emits _ _ (foldP _ _ _) => apply emits_foldP; intros ? ?
  | |- emits _ _ (mapP _ _) => apply emits_mapP; intros ?
  | |- emits _ _ (if ?b then _ else _) => destruct b eqn:?
  | |- emits _ _ (match ?x with _ => _ end) => destruct x eqn:?
  | |- pspec _ _ _ (if ?b then _ else _) => destruct b eqn:?
  | |- pspec _ _ _ (match ?x with _ => _ end) => destruct x eqn:?
  end.
Ltac prog_steps := repeat prog_step; eauto with prog.

(** ** Goroutines: interleaved execution of a pool of processes

    One transition runs one action of one process of the pool. *)
Section Pool.
Context {R S A : Type}.

Record pool : Type := Pool {
  p_log : list R;
  p_shared : S;
  p_procs : list (proc R S A)
}.

Inductive pstep : pool → pool → Prop :=
  | pstep_ask log s l1 l2 X (r : R) (f : list R → X) k :
      pstep (Pool log s (l1 ++ PAsk r f k :: l2))
            (Pool (log ++ [r]) s (l1 ++ k (f log) :: l2))
  | pstep_state log s l1 l2 X (f : S → X * S) k :
      pstep (Pool log s (l1 ++ PState f k :: l2))
            (Pool log (snd (f s)) (l1 ++ k (fst (f s)) :: l2)).

(** *** A rely-guarantee logic for pools

    [rg I Q m w]: run from the world [w = (log, shared)] in a pool whose
    other members keep the invariant [I] and only append to the log, [m]
    keeps [I], and [Q] holds of its result and of the world it ends in. *)
Definition world : Type := list R * S.

Definition later (w w' : world) : Prop := fst w `prefix_of` fst w'.
End Pool.
Arguments pool : clear implicits.
Arguments world : clear implicits.

#[export] Instance later_preorder {R S} : PreOrder (@later R S).
Proof.
  split; [intros ?; unfold later; done|].
  intros w1 w2 w3 H1 H2. unfold later in *. by etrans.
Qed.

Lemma later_snoc {R S} (log : list R) r (s s' : S) : later (log, s) (log ++ [r], s').
Proof. unfold later. simpl. by exists [r]. Qed.
Lemma later_same {R S} (log : list R) (s s' : S) : later (log, s) (log, s').
Proof. unfold later. done. Qed.
#[export] Hint Resolve later_snoc later_same : prog.

Fixpoint rg {R S A} (I : world R S → Prop) (Q : A → world R S → Prop)
    (m : proc R S A) (w : world R S) : Prop :=
  match m with
  | PRet a => Q a w
  | PPanic => True
  | PBlock => True
  | PAsk r f k =>
      I (w.1 ++ [r], w.2) ∧
      ∀ w', later (w.1 ++ [r], w.2) w' → I w' → rg I Q (k (f w.1)) w'
  | PState f k =>
      I (w.1, snd (f w.2)) ∧
      ∀ w', later w w' → I w' → rg I Q (k (fst (f w.2))) w'
  end.

Section RelyGuarantee.
Context {R S : Type} (I : world R S → Prop).

(** [m] is safe from every later world of [w] that satisfies [I]. *)
Definition rg_from {A} (Q : A → world R S → Prop) (m : proc R S A) (w : world R S) : Prop :=
  ∀ w', later w w' → I w' → rg I Q m w'.

Lemma rg_from_later {A} (Q : A → world R S → Prop) m w w' :
  rg_from Q m w → later w w' → rg_from Q m w'.
Proof. intros H Hl w'' Hl'. apply H. by etrans. Qed.

Lemma rg_bind {A B} (Q : A → world R S → Prop) (Q' : B → world R S → Prop)
    (m : proc R S A) (f : A → proc R S B) w :
  rg I Q m w → (∀ a w', later w w' → Q a w' → rg I Q' (f a) w') → rg I Q' (m ≫= f) w.
Proof.
  unfold mbind, proc_bind.
  revert w. induction m as [a| | |X r g k IH|X g k IH]; intros w; simpl; try done.
  - intros HQ Hf. by apply (Hf a w).
  - intros [HI Hk] Hf. split; [done|]. intros w' Hl HI'. apply IH; [auto|].
    intros a w'' Hl' HQ. apply Hf; [|done].
    etrans; [|exact Hl']. etrans; [|exact Hl]. destruct w. apply later_snoc.
  - intros [HI Hk] Hf. split; [done|]. intros w' Hl HI'. apply IH; [auto|].
    intros a w'' Hl' HQ. apply Hf; [|done]. by etrans.
Qed.

Lemma rg_conseq {A} (Q Q' : A → world R S → Prop) (m : proc R S A) w :
  (∀ a w', Q a w' → Q' a w') → rg I Q m w → rg I Q' m w.
Proof. intros HQ. revert w. induction m; intros w; simpl; naive_solver. Qed.

(** A process whose requests are all in [P] and whose changes to the shared
    memory are all in [G] keeps every invariant that [P] and [G] keep. *)
Lemma rg_pspec {A} (P : R → Prop) (G : S → S → Prop) (Q : A → Prop) (m : proc R S A) w :
  (∀ log s r, P r → I (log, s) → I (log ++ [r], s)) →
  (∀ log s s', G s s' → I (log, s) → I (log, s')) →
  pspec P G Q m → I w → rg I (λ a w', Q a ∧ later w w' ∧ I w') m w.
Proof.
  intros HP HG.
  enough (∀ w0, pspec P G Q m → later w0 w → I w → rg I (λ a w', Q a ∧ later w0 w' ∧ I w') m w) as H.
  { intros Hm HI. apply H; [done|reflexivity|done]. }
  intros w0. revert w. induction m as [a| | |X r f k IH|X f k IH]; intros w; simpl; try done.
  - intros [Hr Hk] Hl HI. assert (I (w.1 ++ [r], w.2)) by (destruct w; by apply HP).
    split; [done|]. intros w' Hl' HI'. apply IH; [done| |done].
    etrans; [exact Hl|]. etrans; [|exact Hl']. destruct w. apply later_snoc.
  - intros Hk Hl HI. destruct (Hk w.2) as [Hg Hk'].
    assert (I (w.1, snd (f w.2))) by (destruct w; eapply HG; eauto).
    split; [done|]. intros w' Hl' HI'. apply IH; [done| |done]. by etrans.
Qed.

(** *** Soundness: [I] is an invariant of a pool of safe processes, of which each
    has its own postcondition. *)
Definition safe_procs {A} (w : world R S) : list (A → world R S → Prop) → list (proc R S A) → Prop :=
  Forall2 (λ Q m, rg_from Q m w).
Definition pool_ok {A} (Qs : list (A → world R S → Prop)) (p : pool R S A) : Prop :=
  I (p_log p, p_shared p) ∧ safe_procs (p_log p, p_shared p) Qs (p_procs p).

Lemma safe_procs_later {A} (Qs : list (A → world R S → Prop)) ms w w' :
  later w w' → safe_procs w Qs ms → safe_procs w' Qs ms.
Proof. intros Hl H. eapply Forall2_impl; [exact H|]. intros Q m Hm. eapply rg_from_later; [exact Hm|exact Hl]. Qed.

Lemma pool_ok_step {A} (Qs : list (A → world R S → Prop)) (p p' : pool R S A) :
  pstep p p' → pool_ok Qs p → pool_ok Qs p'.
Proof.
  intros Hstep [HI Hall]. destruct Hstep as [log s l1 l2 X r f k|log s l1 l2 X f k]; simpl in *;
    apply Forall2_app_inv_r in Hall as (Q1 & Q2' & H1 & H2 & ->);
    apply Forall2_cons_inv_r in H2 as (Q & Q2 & Hm & H2 & ->);
    specialize (Hm (log, s) (reflexivity _) HI); simpl in Hm; destruct Hm as [HI' Hk]; (split; [done|]);
    (apply Forall2_app; [|constructor; [intros w'; apply Hk|]]);
    (eapply safe_procs_later; [|done]); (apply later_snoc || apply later_same).
Qed.
End RelyGuarantee.

(** *** The same with an automaton that watches the process

    [obeys I C next Q g m w]: besides keeping [I] against others that keep it,
    [m] changes the memory only by [C], and each of its requests takes the
    automaton, which is in the state [g], by [next] to another state; [Q] holds of
    the result, of the last state and of the world [m] ends in. *)
Fixpoint obeys {R S G A} (I : world R S → Prop) (C : S → S → Prop) (next : list R → R → G → G → Prop)
    (Q : A → G → world R S → Prop) (g : G) (m : proc R S A) (w : world R S) : Prop :=
  match m with
  | PRet a => Q a g w
  | PPanic => True
  | PBlock => True
  | PAsk r f k =>
      I (w.1 ++ [r], w.2) ∧
      ∃ g', next w.1 r g g' ∧
      ∀ w', later (w.1 ++ [r], w.2) w' → I w' → obeys I C next Q g' (k (f w.1)) w'
  | PState f k =>
      C w.2 (snd (f w.2)) ∧ I (w.1, snd (f w.2)) ∧
      ∀ w', later w w' → I w' → obeys I C next Q g (k (fst (f w.2))) w'
  end.

Section Automata.
Context {R S G : Type} (I : world R S → Prop) (C : S → S → Prop) (next : list R → R → G → G → Prop).

Definition obeys_from {A} (Q : A → G → world R S → Prop) (g : G) (m : proc R S A) (w : world R S) : Prop :=
  ∀ w', later w w' → I w' → obeys I C next Q g m w'.

Lemma obeys_from_later {A} (Q : A → G → world R S → Prop) g m w w' :
  obeys_from Q g m w → later w w' → obeys_from Q g m w'.
Proof. intros H Hl w'' Hl'. apply H. by etrans. Qed.

Lemma obeys_bind {A B} (Q : A → G → world R S → Prop) (Q' : B → G → world R S → Prop) g
    (m : proc R S A) (f : A → proc R S B) w :
  obeys I C next Q g m w → (∀ a g' w', later w w' → Q a g' w' → obeys I C next Q' g' (f a) w') →
  obeys I C next Q' g (m ≫= f) w.
Proof.
  unfold mbind, proc_bind.
  revert g w. induction m as [a| | |X r h k IH|X h k IH]; intros g w; simpl; try done.
  - intros HQ Hf. by apply (Hf a g w).
  - intros (HI & g' & Hg & Hk) Hf. split; [done|]. exists g'. split; [done|]. intros w' Hl HI'. apply IH; [auto|].
    intros a g'' w'' Hl' HQ. apply Hf; [|done].
    etrans; [|exact Hl']. etrans; [|exact Hl]. destruct w. apply later_snoc.
  - intros (HC & HI & Hk) Hf. split_and!; [done..|]. intros w' Hl HI'. apply IH; [auto|].
    intros a g' w'' Hl' HQ. apply Hf; [|done]. by etrans.
Qed.

Lemma obeys_conseq {A} (Q Q' : A → G → world R S → Prop) g (m : proc R S A) w :
  (∀ a g' w', Q a g' w' → Q' a g' w') → obeys I C next Q g m w → obeys I C next Q' g m w.
Proof. intros HQ. revert g w. induction m; intros g w; simpl; naive_solver. Qed.

(** What the logic for pools shows of a process, and what the automaton does. *)
Lemma obeys_rg {A} (Q : A → world R S → Prop) (Q' : A → G → Prop) g (m : proc R S A) w :
  rg I Q m w → obeys (λ _, True) C next (λ a g' _, Q' a g') g m w →
  obeys I C next (λ a g' w', Q a w' ∧ Q' a g') g m w.
Proof.
  revert g w. induction m as [a| | |X r f k IH|X f k IH]; intros g w; simpl; try done.
  - intros [HI Hk] (_ & g' & Hg & Hk'). split; [done|]. exists g'. split; [done|]. intros w' Hl HI'. by apply IH; auto.
  - intros [HI Hk] (HC & _ & Hk'). split_and!; [done..|]. intros w' Hl HI'. by apply IH; auto.
Qed.

(** A process that the automaton does not notice. *)
Lemma obeys_pspec {A} (P : R → Prop) (D : S → S → Prop) (Q : A → Prop) g (m : proc R S A) w :
  (∀ log s r, P r → I (log, s) → I (log ++ [r], s)) → (∀ log r, P r → next log r g g) →
  (∀ s s', D s s' → C s s') → (∀ log s s', D s s' → I (log, s) → I (log, s')) →
  pspec P D Q m → I w → obeys I C next (λ a g' w', Q a ∧ g' = g ∧ I w') g m w.
Proof.
  intros HP Hn HC HD. revert w. induction m as [a| | |X r f k IH|X f k IH]; intros w; simpl; try done.
  - intros [Hr Hk] HI. split; [destruct w; by apply HP|]. exists g. split; [by apply Hn|]. auto.
  - intros Hk HI. destruct (Hk w.2) as [Hg Hk']. split_and!; [by apply HC|destruct w; by eapply HD|]. auto.
Qed.
End Automata.

(** ** An executable scheduler: let process [i] of the pool act *)
Definition pool_act {R S A} (i : nat) (p : pool R S A) : option (pool R S A) :=
  match p_procs p !! i with
  | Some (PAsk r f k) =>
      Some (Pool (p_log p ++ [r]) (p_shared p) (<[i := k (f (p_log p))]> (p_procs p)))
  | Some (PState f k) =>
      Some (Pool (p_log p) (snd (f (p_shared p))) (<[i := k (fst (f (p_shared p)))]> (p_procs p)))
  | _ => None
  end.

Lemma pool_act_sound {R S A} i (p p' : pool R S A) : pool_act i p = Some p' → pstep p p'.
Proof.
  destruct p as [l s ps]. unfold pool_act; simpl.
  destruct (ps !! i) as [m|] eqn:E; [|done].
  assert (Hsplit : ∀ m', <[i:=m']> ps = take i ps ++ m' :: drop (Datatypes.S i) ps).
  { intros m'. apply insert_take_drop. by eapply lookup_lt_Some. }
  assert (Hps : ps = take i ps ++ m :: drop (Datatypes.S i) ps) by by rewrite take_drop_middle.
  destruct m; intros; simplify_eq; rewrite Hsplit.
  - rewrite Hps at 1. apply pstep_ask.
  - rewrite Hps at 1. apply pstep_state.
Qed.

(** A pool that cannot act: each member has returned, panicked or blocked. *)
Lemma pstep_cons {R S A} (m : proc R S A) l s ps l' s' ps' :
  pstep (Pool l s ps) (Pool l' s' ps') → pstep (Pool l s (m :: ps)) (Pool l' s' (m :: ps')).
Proof. intros H. inversion H; subst; rewrite !app_comm_cons; by constructor. Qed.

Definition at_rest {R S A} (m : proc R S A) : Prop :=
  match m with PAsk _ _ _ => False | PState _ _ => False | _ => True end.
Lemma pool_at_rest {R S A} (p : pool R S A) : nf pstep p → Forall at_rest (p_procs p).
Proof.
  destruct p as [l s ps]. intros Hnf. apply Forall_forall. cbn [p_procs]. intros m Hm.
  apply list_elem_of_split in Hm as (l1 & l2 & ->). destruct m; try exact I; destruct Hnf; eexists; constructor.
Qed.
Lemma returns_at_rest {R S A} P G (Q : A → Prop) (m : proc R S A) : spec P G Q m → at_rest m → ∃ a, m = PRet a ∧ Q a.
Proof. destruct m; simpl; try done. eauto. Qed.

(** ** Lists of which each element gives at most one thing *)
Lemma omap_some {A} (l : list A) : omap id (map Some l) = l.
Proof. induction l as [|x l IH]; csimpl; [done|]. by rewrite IH. Qed.
Lemma omap_insert {A B} (f : A → option B) l i x x' :
  l !! i = Some x → option_list (f x) ++ omap f (<[i := x']> l) ≡ₚ option_list (f x') ++ omap f l.
Proof.
  intros H. assert (Hlt : i < length l) by (by eapply lookup_lt_Some).
  rewrite (insert_take_drop l i x' Hlt). rewrite <-(take_drop_middle l i x H) at 3. rewrite !omap_app.
  assert (E : ∀ y k, omap f (y :: k) = option_list (f y) ++ omap f k) by (intros y k; simpl; by destruct (f y)).
  rewrite !E. generalize (omap f (take i l)) (omap f (drop (S i) l)) (option_list (f x)) (option_list (f x')).
  intros a b c d. rewrite (Permutation_app_swap_app c a), (Permutation_app_swap_app d a).
  f_equiv. by rewrite Permutation_app_swap_app.
Qed.
Lemma omap_length {A B} (f : A → option B) l : length (omap f l) ≤ length l.
Proof. induction l as [|x l IH]; csimpl; [lia|]. destruct (f x); csimpl; lia. Qed.
Lemma omap_length_lt {A B} (f : A → option B) l :
  length (omap f l) < length l ↔ ∃ i x, l !! i = Some x ∧ f x = None.
Proof.
  induction l as [|x l IH]; csimpl; [split; [lia|intros (i & x & H & _); by rewrite lookup_nil in H]|].
  destruct (f x) as [y|] eqn:E; csimpl.
  - rewrite <-Nat.succ_lt_mono, IH. split; intros (i & z & Hi & Hz).
    + by exists (S i), z.
    + destruct i as [|i]; [simpl in Hi; congruence|by exists i, z].
  - split; [intros _; by exists 0, x|]. intros _. apply Nat.lt_succ_r, omap_length.
Qed.

(** ** Transition systems: invariants by induction on reachability *)
Lemma invariant_rtc {S} (step : S → S → Prop) (I : S → Prop) s s' :
  (∀ a b, step a b → I a → I b) → rtc step s s' → I s → I s'.
Proof. intros Hpres Hrun. induction Hrun; eauto. Qed.

(** *** Well-founded relations, for termination

    [sub m' m]: [m'] is what is left of the process [m] after one action. *)
Definition sub {R S A} (m' m : proc R S A) : Prop :=
  match m with
  | PAsk r f k => ∃ x, m' = k x
  | PState f k => ∃ x, m' = k x
  | _ => False
  end.
Lemma sub_wf {R S A} : well_founded (@sub R S A).
Proof. intros m. induction m as [a| | |X r f k IH|X f k IH]; constructor; intros m' H; destruct H; subst; auto. Qed.

(** One element of the list goes down. *)
Definition one_less {A} (R : relation A) (l' l : list A) : Prop :=
  ∃ i x x', l !! i = Some x ∧ R x' x ∧ l' = <[i := x']> l.
Lemma one_less_wf {A} (R : relation A) : well_founded R → well_founded (one_less R).
Proof.
  intros HR l. induction l as [|x l IH].
  { constructor. intros l' (i & x & x' & H & _). by rewrite lookup_nil in H. }
  revert l IH. induction (HR x) as [x _ IHx]. intros l Hl. pose proof Hl as Hl0. induction Hl as [l Hl IHl].
  constructor. intros l' ([|i] & y & y' & H & HR' & ->); simpl in *.
  - injection H as ->. by apply IHx.
  - apply IHl; [by exists i, y, y'|]. apply Hl0. by exists i, y, y'.
Qed.

Lemma one_less_middle {A} (R : relation A) l1 x x' l2 : R x' x → one_less R (l1 ++ x' :: l2) (l1 ++ x :: l2).
Proof.
  intros H. exists (length l1), x, x'. split_and!; [by apply list_lookup_middle|done|].
  by rewrite insert_app_r_alt, Nat.sub_diag.
Qed.

(** First one component, then the other. *)
Definition lex {A B} (R : relation A) (T : relation B) (p' p : A * B) : Prop :=
  R p'.1 p.1 ∨ p'.1 = p.1 ∧ T p'.2 p.2.
Lemma lex_wf {A B} (R : relation A) (T : relation B) : well_founded R → well_founded T → well_founded (lex R T).
Proof.
  intros HR HT [a b]. revert b. induction (HR a) as [a _ IHa]. intros b. induction (HT b) as [b _ IHb].
  constructor. intros [a' b'] [H|[H1 H2]]; simpl in *; [by apply IHa|]. subst. by apply IHb.
Qed.

Lemma sn_subrel {S} (R R' : relation S) x : (∀ a b, R' a b → R a b) → sn R x → sn R' x.
Proof. intros H. induction 1 as [x _ IH]. constructor. intros y Hy. apply IH. by apply H. Qed.

(** A step that goes down, as long as an invariant holds, makes every schedule end. *)
Lemma sn_decreasing {S K} (step : relation S) (I : S → Prop) (key : S → K) (R : relation K) s :
  well_founded R → (∀ a b, step a b → I a → I b ∧ R (key b) (key a)) → I s → sn step s.
Proof.
  intros HR Hstep. remember (key s) as k eqn:E. revert s E. induction (HR k) as [k _ IH].
  intros s -> HI. constructor. intros s' H. destruct (Hstep _ _ H HI) as [HI' Hlt]. by apply (IH _ Hlt).
Qed.

(** ** Semaphores: a protocol that keeps its holder unique

    [locked] reads the semaphore in the shared memory, [guarded] says which
    requests need it.  [sem_ok held m]: [m], which holds the semaphore when
    [held], makes guarded requests only while it holds it, takes it only when it
    is free, gives up only what it holds, and does not return with it. *)
Section Semaphore.
Context {R S A : Type} (locked : S → bool) (guarded : R → bool).

Fixpoint sem_ok (held : bool) (m : proc R S A) : Prop :=
  match m with
  | PRet _ => held = false
  | PPanic => True
  | PBlock => True
  | PAsk r f k => (guarded r = true → held = true) ∧ ∀ l, sem_ok held (k (f l))
  | PState f k =>
      ∀ s, (held = true → locked s = true) →
        if held then sem_ok (locked (snd (f s))) (k (fst (f s)))
        else if locked s then locked (snd (f s)) = true ∧ sem_ok false (k (fst (f s)))
        else sem_ok (locked (snd (f s))) (k (fst (f s)))
  end.

Definition holders (bs : list bool) : nat := length (List.filter id bs).

Lemma holders_app b1 b b2 : holders (b1 ++ b :: b2) = holders b1 + (if b then 1 else 0) + holders b2.
Proof. unfold holders. rewrite List.filter_app, length_app. simpl. destruct b; simpl; lia. Qed.

(** The semaphore is taken exactly when one member holds it. *)
Definition exclusive (p : pool R S A) : Prop :=
  ∃ bs, Forall2 sem_ok bs (p_procs p) ∧ holders bs = (if locked (p_shared p) then 1 else 0).

Lemma exclusive_step p p' : pstep p p' → exclusive p → exclusive p'.
Proof.
  intros Hstep (bs & Hbs & Hn). destruct Hstep as [l s l1 l2 X r f k|l s l1 l2 X f k]; cbn [p_procs p_shared] in *;
    apply Forall2_app_inv_r in Hbs as (b1 & b2' & H1 & H2 & ->);
    apply Forall2_cons_inv_r in H2 as (b & b2 & Hb & H2 & ->); rewrite holders_app in Hn; cbn [sem_ok] in Hb.
  - exists (b1 ++ b :: b2). split; [|by rewrite holders_app]. apply Forall2_app; [done|]. constructor; [apply Hb|done].
  - specialize (Hb s). assert (Hlock : b = true → locked s = true).
    { intros ->. destruct (locked s); [done|lia]. }
    specialize (Hb Hlock).
    assert (∃ b', sem_ok b' (k (f s).1) ∧
      holders b1 + (if b' then 1 else 0) + holders b2 = (if locked (f s).2 then 1 else 0)) as (b' & Hb' & Hn').
    { destruct b; [|destruct (locked s) eqn:E].
      - exists (locked (f s).2). split; [done|]. rewrite Hlock in Hn by done. destruct (locked (f s).2); lia.
      - destruct Hb as [-> Hb]. exists false. split; [done|]. lia.
      - exists (locked (f s).2). split; [done|]. destruct (locked (f s).2); lia. }
    exists (b1 ++ b' :: b2). split; [|by rewrite holders_app]. apply Forall2_app; [done|]. constructor; done.
Qed.

Lemma exclusive_rtc p p' : rtc pstep p p' → exclusive p → exclusive p'.
Proof. apply (invariant_rtc pstep exclusive), exclusive_step. Qed.

(** A pool that starts with the semaphore free. *)
Lemma exclusive_start l s (ms : list (proc R S A)) :
  locked s = false → Forall (sem_ok false) ms → exclusive (Pool l s ms).
Proof.
  intros Hs Hms. exists (map (λ _, false) ms). split; cbn [p_procs p_shared].
  - induction Hms; simpl; constructor; done.
  - rewrite Hs. unfold holders. clear. induction ms as [|m ms IH]; [done|exact IH].
Qed.

(** Is the next action of the process a guarded request? *)
Definition about_to (m : proc R S A) : bool := match m with PAsk r _ _ => guarded r | _ => false end.

Lemma about_to_held held m : sem_ok held m → about_to m = true → held = true.
Proof. destruct m; simpl; try done. intros [H _]. exact H. Qed.

(** At most one member is about to make a guarded request. *)
Lemma exclusive_requests p : exclusive p → length (List.filter about_to (p_procs p)) ≤ 1.
Proof.
  intros (bs & Hbs & Hn). assert (Hle : holders bs ≤ 1) by (rewrite Hn; destruct (locked _); lia). clear Hn.
  enough (length (List.filter about_to (p_procs p)) ≤ holders bs) by lia. clear Hle.
  unfold holders. revert Hbs. generalize (p_procs p) as ms. intros ms H.
  induction H as [|b m bs ms Hm _ IH]; [done|]. cbn [List.filter id].
  destruct (about_to m) eqn:E; [rewrite (about_to_held _ _ Hm E); cbn [length]; lia|].
  destruct b; cbn [length]; lia.
Qed.

End Semaphore.

(** A program that leaves the semaphore alone may run while it is held. *)
Lemma sem_ok_held {R S A B} (locked : S → bool) (guarded : R → bool) (m : proc R S A) (f : A → proc R S B) :
  emits (λ _, True) (λ s s', locked s' = locked s) m →
  (∀ a, sem_ok locked guarded true (f a)) → sem_ok locked guarded true (m ≫= f).
Proof.
  unfold mbind, proc_bind. intros Hm Hf. revert Hm.
  induction m as [a| | |X r g k IH|X g k IH]; cbn [proc_bind_go sem_ok pspec]; [auto..| |].
  - intros [_ Hk]. split; [done|]. intros l. apply IH, Hk.
  - intros Hk s Hs. destruct (Hk s) as [-> Hk']. rewrite Hs by done. by apply IH.
Qed.
