(* ===== verification/GoStrings.v ===== *)
(** * The parts of Go's [strings] and [strconv] packages the agent uses

    Go strings are byte strings, so they are Rocq [string]s.  White space and
    letter case follow the ASCII rules; a byte above 127 is neither a space nor
    a letter. *)
From S2P Require Import Prelude.
From Stdlib Require Import DecimalString.

Definition nl : ascii := Ascii.ascii_of_nat 10.
Definition nls : string := String nl "".
(** The double quote. *)
Definition dq : ascii := Ascii.ascii_of_nat 34.
Definition dqs : string := String dq "".

(** ** Characters *)
(** unicode.IsSpace on ASCII: tab, LF, VT, FF, CR and blank. *)
Definition is_space (c : ascii) : bool :=
  let n := Ascii.nat_of_ascii c in
  Nat.eqb n 32 || (Nat.leb 9 n && Nat.leb n 13).

Definition to_lower_char (c : ascii) : ascii :=
  let n := Ascii.nat_of_ascii c in
  if Nat.leb 65 n && Nat.leb n 90 then Ascii.ascii_of_nat (n + 32) else c.

(** ** strings.ToLower, strings.EqualFold *)
Fixpoint ToLower (s : string) : string :=
  match s with
  | "" => ""
  | String c s' => String (to_lower_char c) (ToLower s')
  end.

Definition EqualFold (s t : string) : bool := String.eqb (ToLower s) (ToLower t).

(** ** strings.HasPrefix, strings.HasSuffix, strings.Contains *)
Fixpoint HasPrefix (s prefix : string) : bool :=
  match prefix, s with
  | "", _ => true
  | String p prefix', String c s' => Ascii.eqb p c && HasPrefix s' prefix'
  | _, "" => false
  end.

Fixpoint drop_chars (n : nat) (s : string) : string :=
  match n, s with
  | 0, _ => s
  | S n', String _ s' => drop_chars n' s'
  | S _, "" => ""
  end.

Definition TrimPrefix (s prefix : string) : string :=
  if HasPrefix s prefix then drop_chars (String.length prefix) s else s.

Definition HasSuffix (s suffix : string) : bool :=
  HasPrefix (String.rev s) (String.rev suffix).

Definition TrimSuffix (s suffix : string) : string :=
  if HasSuffix s suffix
  then String.rev (drop_chars (String.length suffix) (String.rev s)) else s.

Fixpoint Contains (s sub : string) : bool :=
  HasPrefix s sub ||
  match s with "" => false | String _ s' => Contains s' sub end.

(** ** strings.TrimSpace, strings.Trim *)
Fixpoint trim_left (p : ascii → bool) (s : string) : string :=
  match s with
  | "" => ""
  | String c s' => if p c then trim_left p s' else s
  end.

Definition trim (p : ascii → bool) (s : string) : string :=
  String.rev (trim_left p (String.rev (trim_left p s))).

Definition TrimSpace (s : string) : string := trim is_space s.

(** strings.Trim with a one-character cutset. *)
Definition TrimChar (s : string) (c : ascii) : string := trim (Ascii.eqb c) s.

(** ** strings.Split with a one-character separator, strings.Join *)
Fixpoint Split (s : string) (sep : ascii) : list string :=
  match s with
  | "" => [""]
  | String c s' =>
      if Ascii.eqb c sep then "" :: Split s' sep
      else match Split s' sep with
           | [] => [String c ""]
           | w :: ws => String c w :: ws
           end
  end.

Fixpoint Join (l : list string) (sep : string) : string :=
  match l with
  | [] => ""
  | [x] => x
  | x :: l' => x +:+ sep +:+ Join l' sep
  end.

(** ** strings.Fields: maximal runs of non-space characters *)
Fixpoint fields_go (cur : string) (s : string) : list string :=
  match s with
  | "" => if String.eqb cur "" then [] else [cur]
  | String c s' =>
      if is_space c
      then (if String.eqb cur "" then [] else [cur]) ++ fields_go "" s'
      else fields_go (cur +:+ String c "") s'
  end.

Definition Fields (s : string) : list string := fields_go "" s.

(** ** strings.ReplaceAll of one character *)
Fixpoint ReplaceAll (s : string) (old : ascii) (new : string) : string :=
  match s with
  | "" => ""
  | String c s' => (if Ascii.eqb c old then new else String c "") +:+ ReplaceAll s' old new
  end.

Fixpoint all_chars (p : ascii → bool) (s : string) : bool :=
  match s with "" => true | String c s' => p c && all_chars p s' end.

(** ** strconv.Itoa / FormatInt(_, 10) and strconv.ParseInt(_, 10, 64) *)
Definition Itoa (z : Z) : string := NilZero.string_of_int (Z.to_int z).

Definition is_digit (c : ascii) : bool :=
  let n := Ascii.nat_of_ascii c in Nat.leb 48 n && Nat.leb n 57.

Definition FormatBool (b : bool) : string := if b then "true" else "false".

Definition int64_min : Z := (- 2 ^ 63)%Z.
Definition int64_max : Z := (2 ^ 63 - 1)%Z.

(** Two's-complement wrap-around of a w-bit signed integer. *)
Definition wrap_signed (w : Z) (z : Z) : Z :=
  ((z + 2 ^ (w - 1)) mod 2 ^ w - 2 ^ (w - 1))%Z.
Definition int64 (z : Z) : Z := wrap_signed 64 z.
Definition uint64 (z : Z) : Z := (z mod 2 ^ 64)%Z.

Fixpoint digits_go (acc : Z) (s : string) : option Z :=
  match s with
  | "" => Some acc
  | String c s' =>
      if is_digit c
      then digits_go (10 * acc + (Z.of_nat (Ascii.nat_of_ascii c) - 48))%Z s'
      else None
  end.

Inductive parse_int_result : Type :=
  | PISyntax
  | PIRange (clamped : Z)
  | PIOk (v : Z).

(** ParseInt in base 10: a sign and decimal digits; a value out of the [bits]
    wide range is clamped and reported. *)
Definition ParseInt (s : string) (bits : Z) : parse_int_result :=
  let '(neg, body) :=
    match s with
    | String "-" s' => (true, s')
    | String "+" s' => (false, s')
    | _ => (false, s)
    end in
  match body with
  | "" => PISyntax
  | _ =>
      match digits_go 0 body with
      | None => PISyntax
      | Some n =>
          let v := if neg then (- n)%Z else n in
          let hi := (2 ^ (bits - 1) - 1)%Z in
          let lo := (- 2 ^ (bits - 1))%Z in
          if (v >? hi)%Z then PIRange hi else
          if (v <? lo)%Z then PIRange lo else PIOk v
      end
  end.

(** ** Facts *)
Lemma append_assoc (s t u : string) : s +:+ (t +:+ u) = (s +:+ t) +:+ u.
Proof.
  induction s as [|c s IH]; [done|].
  change (String c (s +:+ (t +:+ u)) = String c ((s +:+ t) +:+ u)). by rewrite IH.
Qed.

Lemma append_nil_r (s : string) : s +:+ "" = s.
Proof.
  induction s as [|c s IH]; [done|]. change (String c (s +:+ "") = String c s). by rewrite IH.
Qed.

Lemma wrap_signed_id w z :
  (0 < w)%Z → (- 2 ^ (w - 1) <= z < 2 ^ (w - 1))%Z → wrap_signed w z = z.
Proof.
  intros Hw Hz. unfold wrap_signed.
  assert (E : (2 ^ w = 2 * 2 ^ (w - 1))%Z).
  { replace w with (Z.succ (w - 1)) at 1 by lia. rewrite Z.pow_succ_r by lia. done. }
  rewrite Z.mod_small; lia.
Qed.

Lemma int64_id z : (int64_min <= z <= int64_max)%Z → int64 z = z.
Proof. unfold int64_min, int64_max. intros. apply wrap_signed_id; lia. Qed.

Lemma int64_range z : (int64_min <= int64 z <= int64_max)%Z.
Proof.
  unfold int64, wrap_signed, int64_min, int64_max.
  pose proof (Z.mod_pos_bound (z + 2 ^ (64 - 1)) (2 ^ 64)). lia.
Qed.

Lemma all_chars_app q s t : all_chars q (s +:+ t) = all_chars q s && all_chars q t.
Proof.
  induction s as [|c s IH]; [done|]. change (q c && all_chars q (s +:+ t) = q c && all_chars q s && all_chars q t).
  by rewrite IH, andb_assoc.
Qed.

(** Splitting what was joined, on a separator the pieces do not contain. *)
Lemma Split_nosep s sep : all_chars (λ c, negb (Ascii.eqb c sep)) s = true → Split s sep = [s].
Proof.
  induction s as [|c s IH]; simpl; [done|]. intros [Hc Hs]%andb_true_iff.
  destruct (Ascii.eqb c sep); [done|]. by rewrite IH.
Qed.

Lemma Split_cons s t sep :
  all_chars (λ c, negb (Ascii.eqb c sep)) s = true → Split (s +:+ String sep t) sep = s :: Split t sep.
Proof.
  induction s as [|c s IH]; simpl; [by rewrite Ascii.eqb_refl|]. intros [Hc Hs]%andb_true_iff.
  destruct (Ascii.eqb c sep); [done|]. by rewrite IH.
Qed.

Lemma Split_Join l sep :
  l ≠ [] → Forall (λ s, all_chars (λ c, negb (Ascii.eqb c sep)) s = true) l →
  Split (Join l (String sep "")) sep = l.
Proof.
  induction l as [|x l IH]; intros Hne Hl; [done|].
  apply Forall_cons in Hl as [Hx Hl]. destruct l as [|y l]; [by apply Split_nosep|].
  change (Join (x :: y :: l) (String sep "")) with (x +:+ String sep (Join (y :: l) (String sep ""))).
  rewrite Split_cons by done. f_equal. by apply IH.
Qed.

(** ** strings.Fields of what is written with blanks *)
Lemma fields_go_app cur l s : fields_go cur (l +:+ String " " s) = fields_go cur l ++ Fields s.
Proof.
  unfold Fields. revert cur. induction l as [|c l IH]; intros cur.
  - change ((if String.eqb cur "" then [] else [cur]) ++ fields_go "" s = fields_go cur "" ++ fields_go "" s). done.
  - change (String c l +:+ String " " s) with (String c (l +:+ String " " s)). cbn [fields_go].
    destruct (is_space c); [|apply IH]. by rewrite IH, (assoc_L (++)).
Qed.
Lemma Fields_space l s : Fields (l +:+ String " " s) = Fields l ++ Fields s.
Proof. apply fields_go_app. Qed.
Lemma fields_go_word cur w : all_chars (λ c, negb (is_space c)) w = true →
  fields_go cur w = if String.eqb (cur +:+ w) "" then [] else [cur +:+ w].
Proof.
  revert cur. induction w as [|c w IH]; intros cur; cbn [all_chars fields_go]; [by rewrite append_nil_r|].
  intros [Hc Hw]%andb_true_iff. apply negb_true_iff in Hc. rewrite Hc, IH by done.
  by rewrite <-append_assoc.
Qed.
Lemma Fields_word w : all_chars (λ c, negb (is_space c)) w = true → w ≠ "" → Fields w = [w].
Proof. intros H Hn. unfold Fields. rewrite fields_go_word by done.
  change ("" +:+ w) with w. by apply String.eqb_neq in Hn as ->. Qed.
