(* ===== verification/Host.v ===== *)
(** * The host: errors, files, commands (src/util/execute.go)

    The requests a process makes to the outside world, the environment that
    answers them, and the command-execution helpers of [util]. *)
From S2P Require Import Prelude GoStrings.

(** ** Errors

    A Go [error] is its message with what the code asks of its dynamic type:
    [os.IsNotExist(err)] and the exit code of an [exec.ExitError]. *)
Inductive error_kind : Type :=
  | KPlain
  | KNotExist
  | KExit (code : Z).
Record error : Type := Err { err_kind : error_kind; err_msg : string }.

#[export] Instance error_kind_eq_dec : EqDecision error_kind.
Proof. solve_decision. Defined.
#[export] Instance error_eq_dec : EqDecision error.
Proof. solve_decision. Defined.

Definition errorf (msg : string) : error := Err KPlain msg.
(** errors.Wrap and errors.Wrapf of github.com/pkg/errors: a message prefix. *)
Definition wrap (e : error) (msg : string) : error := Err KPlain (msg +:+ ": " +:+ err_msg e).
Definition is_not_exist (e : error) : bool :=
  match err_kind e with KNotExist => true | _ => false end.

Inductive result (A : Type) : Type :=
  | Good (a : A)
  | Bad (e : error).
Arguments Good {_} _.
Arguments Bad {_} _.

Definition is_good {A} (r : result A) : bool := match r with Good _ => true | Bad _ => false end.
Definition is_nil {A} (o : option A) : bool := match o with None => true | Some _ => false end.

(** ** Data *)
Record file_info : Type := FileInfo {
  fi_name : string; fi_is_dir : bool; fi_symlink : bool;
  fi_size : Z; fi_mode : Z; fi_mtime : Z
}.

(** models.StepReply *)
Record step_reply : Type := StepReply {
  r_step_type : string; r_step_id : string; r_exit_code : Z;
  r_output : string; r_error : string
}.
#[export] Instance step_reply_eq_dec : EqDecision step_reply.
Proof. solve_decision. Defined.

(** models.Step *)
Record step : Type := Step { s_step_type : string; s_step_id : string; s_args : list string }.
#[export] Instance step_eq_dec : EqDecision step.
Proof. solve_decision. Defined.

(** ** Requests to the outside world *)
Inductive request : Type :=
  | RExec (command : string) (args : list string)
  | RExecToFile (path command : string) (args : list string)
  | RFile (op path : string)
  | RWriteFile (path data : string)
  | RFsOp (op : string) (args : list string)
  | RPost (params : list string) (r : step_reply)
  | RNet (op : string) (args : list string)
  | RNow
  | RSleep (ns : Z)
  | RSchedule
  | RExit (code : Z).
#[export] Instance request_eq_dec : EqDecision request.
Proof. solve_decision. Defined.

(** os.Exit, and log.Fatal with it, is a request after which nothing happens: a
    process whose log has one has ended ([ended], StepProcessor.v). *)
Definition exits (r : request) : bool := match r with RExit _ => true | _ => false end.
(** Does the request run a command? *)
Definition is_exec (r : request) : bool := match r with RExec _ _ => true | RExecToFile _ _ _ => true | _ => false end.

(** ** Memory the goroutines of one agent process share: the step cache
    (commands/reply_cache.go; a value and its expiry time in nanoseconds), the
    cancel flag of the context, the instructions whose goroutine has been
    started with [go] and not run yet, and the two package-level semaphores
    (actions.sem and upgrade_agent.pullSem; [true] when acquired). *)
Record shared : Type := Shared {
  sh_cache : gmap string (string * Z);
  sh_cancelled : bool;
  sh_go : list (option step);
  sh_image_sem : bool;
  sh_pull_sem : bool
}.
Definition shared_init : shared := Shared ∅ false [] false false.

Abbreviation Go := (proc request shared).
Abbreviation log := (list request).

(** The end of the whole process, which no deferred function survives. *)
Definition exit_process {A} (code : Z) : Go A := _ ← ask (RExit code) (λ _, tt); block.

(** What the requests of a log say, each given the log before it. *)
Definition log_map {B} (f : log → request → list B) (l : log) : list B :=
  (fold_left (λ acc r, (acc.1 ++ [r], acc.2 ++ f acc.1 r)) l ([], [])).2.
Lemma log_map_snoc {B} (f : log → request → list B) l r : log_map f (l ++ [r]) = log_map f l ++ f l r.
Proof.
  unfold log_map. rewrite fold_left_app. cbn [fold_left snd].
  assert (E : ∀ acc, (fold_left (λ acc r, (acc.1 ++ [r], acc.2 ++ f acc.1 r)) l acc).1 = acc.1 ++ l).
  { induction l as [|x l IH]; intros acc; cbn [fold_left]; [by rewrite app_nil_r|]. rewrite IH. cbn [fst].
    by rewrite <-(assoc_L (++)). }
  by rewrite E.
Qed.
Lemma log_map_prefix {B} (f : log → request → list B) l l' : l `prefix_of` l' → log_map f l `prefix_of` log_map f l'.
Proof.
  intros [t ->]. induction t as [|r t IH] using rev_ind; [by rewrite app_nil_r|].
  rewrite (assoc_L (++)), log_map_snoc. by apply prefix_app_r.
Qed.

(** Changes nothing in the shared memory. *)
Definition no_change (s s' : shared) : Prop := s = s'.
Lemma rtc_no_change s s' : rtc no_change s s' → s = s'.
Proof. by induction 1 as [|x y z [] _ IH]. Qed.

(** ** The environment
    The entries of a directory come with their information, or without when it
    cannot be read because the file is gone. *)
Class Env : Type := {
  e_run : log → string → list string → string * string * option error;
  e_run_to_file : log → string → string → list string → string * option error;
  e_create : log → string → option error;
  e_read_file : log → string → result string;
  e_stat : log → string → result file_info;
  e_read_dir : log → string → result (list (option file_info));
  e_eval_symlinks : log → string → result string;
  e_abs : log → string → result string;
  e_open : log → string → option error;
  e_read_full : log → string → nat → option error;
  e_write_file : log → string → string → option error;
  e_fs_op : log → string → list string → option error;
  e_now : log → Z;
  e_timer_fired : log → bool;
  e_schedule : log → list nat
}.

(** A host on which nothing works: for tests. *)
Definition enoent : error := Err KNotExist "no such file or directory".
Definition null_env : Env := {|
  e_run := λ _ _ _, ("", "", Some (errorf "executable file not found"));
  e_run_to_file := λ _ _ _ _, ("", Some (errorf "executable file not found"));
  e_create := λ _ _, None;
  e_read_file := λ _ _, Bad enoent;
  e_stat := λ _ _, Bad enoent;
  e_read_dir := λ _ _, Bad enoent;
  e_eval_symlinks := λ _ _, Bad enoent;
  e_abs := λ _ p, Good p;
  e_open := λ _ _, Some enoent;
  e_read_full := λ _ _ _, Some enoent;
  e_write_file := λ _ _ _, None;
  e_fs_op := λ _ _ _, None;
  e_now := λ _, 0%Z;
  e_timer_fired := λ _, true;
  e_schedule := λ _, []
|}.

(** A directory that does not change while it is listed *)
Definition steady (dir : log → string → result (list file_info)) (l : log) (p : string) : result (list (option file_info)) :=
  match dir l p with Bad err => Bad err | Good files => Good (map Some files) end.

(** The same with given answers to commands, file reads, directory listings and
    symbolic links. *)
Definition host_with (cmd : log → string → list string → string * string * option error)
    (read : log → string → result string) (dir : log → string → result (list file_info))
    (links : log → string → result string) : Env := {|
  e_run := cmd;
  e_run_to_file := e_run_to_file (Env := null_env);
  e_create := e_create (Env := null_env);
  e_read_file := read;
  e_stat := e_stat (Env := null_env);
  e_read_dir := steady dir;
  e_eval_symlinks := links;
  e_abs := e_abs (Env := null_env);
  e_open := e_open (Env := null_env);
  e_read_full := e_read_full (Env := null_env);
  e_write_file := e_write_file (Env := null_env);
  e_fs_op := e_fs_op (Env := null_env);
  e_now := e_now (Env := null_env);
  e_timer_fired := e_timer_fired (Env := null_env);
  e_schedule := e_schedule (Env := null_env)
|}.
(** Another host but for its directories *)
Definition with_entries (dir : log → string → result (list (option file_info))) (h : Env) : Env := {|
  e_run := e_run; e_run_to_file := e_run_to_file; e_create := e_create; e_read_file := e_read_file;
  e_stat := e_stat; e_read_dir := dir; e_eval_symlinks := e_eval_symlinks; e_abs := e_abs; e_open := e_open;
  e_read_full := e_read_full; e_write_file := e_write_file; e_fs_op := e_fs_op; e_now := e_now;
  e_timer_fired := e_timer_fired; e_schedule := e_schedule
|}.
Definition cmd_host (cmd : log → string → list string → string * string * option error) : Env :=
  host_with cmd (λ _ _, Bad enoent) (λ _ _, Bad enoent) (λ _ _, Bad enoent).

(** The same with given answers to status queries, file reads and directory
    listings; every file can be opened. *)
Definition host_files (stat : log → string → result file_info) (read : log → string → result string)
    (dir : log → string → result (list file_info)) : Env := {|
  e_run := e_run (Env := null_env);
  e_run_to_file := e_run_to_file (Env := null_env);
  e_create := e_create (Env := null_env);
  e_read_file := read;
  e_stat := stat;
  e_read_dir := steady dir;
  e_eval_symlinks := e_eval_symlinks (Env := null_env);
  e_abs := e_abs (Env := null_env);
  e_open := λ _ _, None;
  e_read_full := e_read_full (Env := null_env);
  e_write_file := e_write_file (Env := null_env);
  e_fs_op := e_fs_op (Env := null_env);
  e_now := e_now (Env := null_env);
  e_timer_fired := e_timer_fired (Env := null_env);
  e_schedule := e_schedule (Env := null_env)
|}.

Section Files.
Context {env : Env}.
Definition ReadFile (p : string) : Go (result string) := ask (RFile "ReadFile" p) (λ l, e_read_file l p).
Definition Stat (p : string) : Go (result file_info) := ask (RFile "Stat" p) (λ l, e_stat l p).
(** util.Dependencies.ReadDir (src/util/dependencies.go): the error of
    entry.Info() is dropped, and what has none is nil. *)
Definition dep_ReadDir (p : string) : Go (result (list (option file_info))) :=
  ask (RFile "ReadDir" p) (λ l, e_read_dir l p).
(** afero.ReadDir leaves out what is gone. *)
Definition still_there (r : result (list (option file_info))) : result (list file_info) :=
  match r with Bad err => Bad err | Good entries => Good (omap id entries) end.
Definition ReadDir (p : string) : Go (result (list file_info)) :=
  ask (RFile "ReadDir" p) (λ l, still_there (e_read_dir l p)).
Definition EvalSymlinks (p : string) : Go (result string) := ask (RFile "EvalSymlinks" p) (λ l, e_eval_symlinks l p).
Definition Abs (p : string) : Go (result string) := ask (RFile "Abs" p) (λ l, e_abs l p).
Definition Open (p : string) : Go (option error) := ask (RFile "Open" p) (λ l, e_open l p).
Definition ReadFull (p : string) (n : nat) : Go (option error) := ask (RFile "ReadFull" p) (λ l, e_read_full l p n).
Definition WriteFile (p d : string) : Go (option error) := ask (RWriteFile p d) (λ l, e_write_file l p d).
Definition FsOp (op : string) (args : list string) : Go (option error) := ask (RFsOp op args) (λ l, e_fs_op l op args).
Definition Now : Go Z := ask RNow e_now.
Definition Sleep (ns : Z) : Go () := ask (RSleep ns) (λ _, ()).
End Files.

(** ** Goroutines that send one result each to a channel

    The processes are listed in the order they are started, and their requests
    are logged in that order; their results arrive in any order, which the
    scheduler chooses. *)
Section Gather.
Context {env : Env}.

Fixpoint shuffle {A} (fuel : nat) (choices : list nat) (xs : list A) : list A :=
  match fuel, xs with
  | S fuel', _ :: _ =>
      let i := (hd 0 choices mod length xs)%nat in
      match xs !! i with
      | Some x => x :: shuffle fuel' (tl choices) (delete i xs)
      | None => xs
      end
  | _, _ => xs
  end.

Lemma shuffle_Permutation {A} fuel choices (xs : list A) : shuffle fuel choices xs ≡ₚ xs.
Proof.
  revert choices xs. induction fuel as [|fuel IH]; intros choices xs; simpl; [done|].
  destruct xs as [|y ys]; [done|]. destruct ((y :: ys) !! _) as [x|] eqn:E; [|done].
  rewrite IH. symmetry. by apply delete_Permutation.
Qed.

Definition gather {A B} (f : B → Go A) (l : list B) : Go (list A) :=
  rs ← mapP f l;
  choices ← ask RSchedule e_schedule;
  mret (shuffle (length rs) choices rs).

Lemma spec_gather {A B} P G (Q : B → A → Prop) (f : B → Go A) l :
  (∀ x, x ∈ l → spec P G (Q x) (f x)) → P RSchedule →
  spec P G (λ rs, ∃ vs, rs ≡ₚ vs ∧ Forall2 Q l vs) (gather f l).
Proof.
  intros Hm HP. unfold gather. eapply spec_bind; [by apply (spec_mapP _ _ Q)|].
  intros vs Hvs. eapply (spec_bind _ _ (λ _, True)); [by apply spec_ask|].
  intros choices _. apply spec_ret. exists vs. split; [apply shuffle_Permutation|done].
Qed.

Lemma emits_gather {A B} P G (f : B → Go A) l :
  (∀ x, emits P G (f x)) → P RSchedule → emits P G (gather f l).
Proof.
  intros Hm HP. unfold gather. apply emits_bind; [by apply emits_mapP|].
  intros; apply emits_bind; [by apply emits_ask|done].
Qed.

Lemma emits_gather_in {A B} P G (f : B → Go A) l :
  (∀ x, x ∈ l → emits P G (f x)) → P RSchedule → emits P G (gather f l).
Proof.
  intros Hm HP. unfold gather. apply emits_bind; [by apply emits_mapP_in|].
  intros; apply emits_bind; [apply emits_ask; done|done].
Qed.
End Gather.

(** ** Commands (src/util/execute.go) *)
Section Execute.
Context {env : Env}.

Definition TimeoutExitCode : Z := 124.

Definition getExitCode (err : option error) : Z :=
  match err with
  | None => 0
  | Some e => match err_kind e with KExit code => code | _ => -1 end
  end.

Definition getErrorStr (err : option error) (stderr : string) : string :=
  match stderr with
  | "" => match err with Some e => err_msg e | None => "" end
  | _ => stderr
  end.

Definition Execute (command : string) (args : list string) : Go (string * string * Z) :=
  '(stdout, stderr, err) ← ask (RExec command args) (λ l, e_run l command args);
  mret (stdout, getErrorStr err stderr, getExitCode err).

Definition buildPrivilegedCommand (command : string) (args : list string) : string * list string :=
  ("nsenter",
   ["--target"; "1"; "--cgroup"; "--mount"; "--ipc"; "--net"; "--"; command] ++ args).

Definition ExecutePrivileged (command : string) (args : list string) : Go (string * string * Z) :=
  let '(command', arguments) := buildPrivilegedCommand command args in
  Execute command' arguments.

Definition ExecuteOutputToFile (outputFilePath command : string) (args : list string) : Go (string * Z) :=
  created ← ask (RFsOp "Create" [outputFilePath]) (λ l, e_create l outputFilePath);
  match created with
  | Some err => mret (err_msg err, (-1)%Z)
  | None =>
      '(stderr, err) ← ask (RExecToFile outputFilePath command args)
                           (λ l, e_run_to_file l outputFilePath command args);
      mret (getErrorStr err stderr, getExitCode err)
  end.

Definition ExecutePrivilegedToFile (outputFilePath command : string) (args : list string) : Go (string * Z) :=
  let '(command', arguments) := buildPrivilegedCommand command args in
  ExecuteOutputToFile outputFilePath command' arguments.

Definition ExecuteShell (command : string) : Go (string * string * Z) :=
  Execute "bash" ["-c"; command].

(** Writing to an open log file; a write error is only logged. *)
Definition logToFile (logfile message : string) : Go () :=
  _ ← FsOp "WriteString" [logfile; message]; mret ().
Definition loglnToFile (logfile message : string) : Go () := logToFile logfile (message +:+ nls).

(** The accumulated errors are the list of go-multierror. *)
Definition LogPrivilegedCommandOutput (logfile : string) (res : list error)
    (commandDescription command : string) (args : list string) : Go (list error) :=
  _ ← loglnToFile logfile commandDescription;
  _ ← loglnToFile logfile (command +:+ " " +:+ Join args " ");
  '(stdout, stderr, exitcode) ← ExecutePrivileged command args;
  res' ← (if negb (String.eqb stderr "") || negb (exitcode =? 0)%Z
          then _ ← loglnToFile logfile stderr;
               mret (res ++ [errorf (command +:+ " failed: " +:+ Itoa exitcode +:+ " " +:+ stderr +:+ nls)])
          else mret res);
  _ ← loglnToFile logfile stdout;
  mret res'.

(** The message of a go-multierror. *)
Definition multierror_Error (es : list error) : string :=
  match es with
  | [e] => "1 error occurred:" +:+ nls +:+ String "009" ("* " +:+ err_msg e) +:+ nls +:+ nls
  | _ => Itoa (Z.of_nat (length es)) +:+ " errors occurred:" +:+ nls +:+ String "009" "" +:+
         Join (map (λ e, "* " +:+ err_msg e) es) (nls +:+ String "009" "") +:+ nls +:+ nls
  end.
End Execute.

(** ** What requests a helper makes *)
Definition runs_only (command : string) (args : list string) (r : request) : Prop :=
  r = RExec command args.

Definition privileged (command : string) (args : list string) : request :=
  RExec "nsenter" (["--target"; "1"; "--cgroup"; "--mount"; "--ipc"; "--net"; "--"; command] ++ args).

Section ExecuteFacts.
Context {env : Env}.

Lemma spec_Execute (P : request → Prop) (G : shared → shared → Prop) command args :
  P (RExec command args) → spec P G (λ _, True) (Execute command args).
Proof.
  intros HP. unfold Execute. eapply spec_bind; [apply (spec_ask _ _ (λ _, True)); auto|].
  intros [[o e] err] _. done.
Qed.

Lemma spec_ExecutePrivileged P G command args :
  P (privileged command args) → spec P G (λ _, True) (ExecutePrivileged command args).
Proof. apply spec_Execute. Qed.

Lemma emits_Execute P G command args :
  P (RExec command args) → emits P G (Execute command args).
Proof. intros. eapply spec_emits, spec_Execute. done. Qed.

Lemma emits_ExecutePrivileged P G command args :
  P (privileged command args) → emits P G (ExecutePrivileged command args).
Proof. apply emits_Execute. Qed.

Lemma getExitCode_0 err : getExitCode err = 0%Z ↔ err = None ∨ ∃ m, err = Some (Err (KExit 0) m).
Proof.
  destruct err as [[[| |c] m]|]; simpl; split; intros H; try done; try (by left).
  - destruct H as [H|[? H]]; simplify_eq.
  - destruct H as [H|[? H]]; simplify_eq.
  - right. exists m. by subst.
  - destruct H as [H|[? H]]; by simplify_eq.
Qed.
End ExecuteFacts.

#[export] Hint Resolve spec_Execute spec_ExecutePrivileged emits_Execute emits_ExecutePrivileged : prog.

(** The single-request helpers, in [spec] and [pspec] goals. *)
Ltac host_ask :=
  unfold ReadFile, Stat, dep_ReadDir, ReadDir, EvalSymlinks, Abs, Open, ReadFull, WriteFile, FsOp, Now, Sleep;
  lazymatch goal with
  | |- spec _ _ _ (ask _ _) => apply spec_ask; [try done|done]
  | |- pspec _ _ _ (ask _ _) => apply pspec_ask; [try done|done]
  end.
#[export] Hint Extern 3 (pspec _ _ _ _) => host_ask : prog.
#[export] Hint Extern 3 (spec _ _ _ _) => host_ask : prog.

(** ** Descending through whole programs

    [quiet] proves an [emits] goal whose requests are all of the allowed kind by
    computation: it unfolds the definitions of the program; the lemmas on what
    recurs are in the database of the same name. *)
Create HintDb quiet discriminated.
Ltac head_of t := lazymatch t with ?f _ => head_of f | _ => t end.
Ltac quiet_unfold :=
  lazymatch goal with |- pspec _ _ _ ?m => let h := head_of m in is_const h; progress unfold h end.
Ltac quiet_step :=
  first [ lazymatch goal with
          | |- emits _ _ (Execute _ _) => apply emits_Execute; reflexivity
          | |- emits _ _ (ExecutePrivileged _ _) => apply emits_ExecutePrivileged; reflexivity
          end
        | prog_step
        | solve [eauto 2 with quiet]
        | lazymatch goal with
          | |- emits _ _ (gather _ _) => apply emits_gather; [intros ?|reflexivity]
          | |- emits _ _ (ask _ _) => apply emits_ask; reflexivity
          | |- emits _ _ (shared_do _) => apply emits_shared; intros ?; cbn; repeat case_match; done
          end
        | lazymatch goal with |- emits _ _ (match ?x with _ => _ end _) => destruct x; cbv beta iota end
        | quiet_unfold; cbv beta zeta ].
Ltac quiet := repeat quiet_step.

(** [total] proves in the same way that a program always returns; it stops at an
    index or a pointer that may be missing. *)
Abbreviation always m := (returns (λ _ : request, True) (λ _ _ : shared, True) m).
Create HintDb total discriminated.
#[export] Hint Resolve returns_or_panic : total.

Lemma spec_always {A} P G (Q : A → Prop) (m : Go A) : spec P G Q m → always m.
Proof. intros H. by eapply spec_mono. Qed.
Lemma always_ask {A} r (f : log → A) : always (ask r f).
Proof. by apply spec_ask. Qed.
Lemma always_gather {env : Env} {A B} (f : B → Go A) l : (∀ x, always (f x)) → always (gather f l).
Proof. intros H. unfold gather. apply returns_bind; [by apply returns_mapP|]. intros rs. by apply returns_bind. Qed.

Ltac total_unfold :=
  lazymatch goal with
  | |- spec _ _ _ (or_panic _) => fail
  | |- spec _ _ _ ?m => let h := head_of m in is_const h; progress unfold h
  end.
Ltac total_step :=
  first [ lazymatch goal with
          | |- spec _ _ _ (Execute _ _) => apply spec_Execute; exact I
          | |- spec _ _ _ (ExecutePrivileged _ _) => apply spec_ExecutePrivileged; exact I
          | |- spec _ _ _ (mret _) => apply spec_ret; exact I
          | |- spec _ _ _ (or_panic (Some _)) => exact I
          | |- spec _ _ _ (ask _ _) => apply always_ask
          | |- spec _ _ _ (shared_do _) => intros ?; split; exact I
          end
        | prog_step
        | solve [eauto 2 with total]
        | lazymatch goal with |- spec _ _ _ (gather _ _) => apply always_gather; intros ? end
        | lazymatch goal with |- spec _ _ _ (match ?x with _ => _ end _) => destruct x; cbv beta iota end
        | total_unfold; cbv beta zeta ].
Ltac total := repeat total_step.
