(* ===== verification/Config.v ===== *)
(** * Configuration records (src/config) and the client of the assisted service
    (src/commands/service_api.go, errors.go)

    The command-line flags are read by Go's [flag] package into these records;
    the records are the input of every component. *)
From S2P Require Import Prelude GoStrings Host.

Record DryRunConfig : Type := mkDryRunConfig {
  DryRunEnabled : bool; ForcedHostID : string; ForcedHostIPv4 : string;
  ForcedMacAddress : string; ForcedHostname : string; FakeRebootMarkerPath : string
}.

Record LoggingConfig : Type := mkLoggingConfig {
  TextLogging : bool; JournalLogging : bool; StdoutLogging : bool
}.

Record ConnectivityConfig : Type := mkConnectivityConfig {
  TargetURL : string; ClusterID : string; InfraEnvID : string; AgentVersion : string;
  PullSecretToken : string; InsecureConnection : bool; CACertificatePath : string
}.

Record AgentConfig : Type := mkAgentConfig {
  ac_dry : DryRunConfig; ac_conn : ConnectivityConfig;
  IntervalSecs : Z; HostID : string; ac_logging : LoggingConfig
}.

(** config.InventoryConfig and config.SubprocessConfig *)
Record InventoryConfig : Type := mkInventoryConfig {
  ic_dry : DryRunConfig; ic_logging : LoggingConfig; GPUConfigFile : string
}.
Record SubprocessConfig : Type := mkSubprocessConfig {
  sc_logging : LoggingConfig; sc_dry : DryRunConfig
}.

(** ** Errors of the service client

    The generated client returns one Go type per HTTP status; the code asks
    which one it is, and by reflection whether it has a [GetPayload] method. *)
Inductive api_error_class : Type :=
  | EUnauthorized | EForbidden | ENotFound | EConflict | EOther.

(** models.Error, models.InfraError, any other payload type *)
Inductive api_payload : Type :=
  | PError (code : option string) (reason : option string)
  | PInfraError (code : option Z) (message : option string)
  | PUnknown.

Record api_error : Type := ApiError {
  ae_class : api_error_class;
  ae_payload : option api_payload;
  ae_text : string
}.

(** swag.StringValue *)
Definition StringValue (o : option string) : string := default "" o.

(** commands.getErrorMessage *)
Definition getErrorMessage (err : api_error) : string :=
  match ae_payload err with
  | Some (PError code reason) =>
      let message := match code with Some c => "[" +:+ c +:+ "] " | None => "" end in
      message +:+ StringValue reason
  | Some (PInfraError code msg) =>
      let message := match code with Some c => "[" +:+ Itoa c +:+ "] " | None => "" end in
      message +:+ StringValue msg
  | Some PUnknown => ""
  | None => ae_text err
  end.

(** models.Steps: the answer to "what next"; an instruction is a pointer, and the
    answer is not validated. *)
Record steps : Type := Steps {
  Instructions : list (option step); NextInstructionSeconds : Z; PostStepAction : option string
}.

(** models.HostRegistrationResponseAO1NextStepRunnerCommand *)
Record runner_command : Type := RunnerCommand {
  rc_command : string; rc_args : list string; RetrySeconds : Z
}.

(** ** The service, reached through the generated HTTP client *)
Class Service : Type := {
  e_post : log → step_reply → option api_error;
  e_next_steps : log → steps + api_error;
  e_register : log → string → option runner_command + api_error;
  e_backoff : log → option Z
}.

Section ServiceApi.
Context {env : Env} {srv : Service}.

(** v2ServiceAPI: the request carries host and infra-env ids and the agent
    version of the configuration. *)
Definition v2_params (cfg : AgentConfig) : list string :=
  [HostID cfg; InfraEnvID (ac_conn cfg); AgentVersion (ac_conn cfg)].

Definition PostStepReply (cfg : AgentConfig) (reply : step_reply) : Go (option api_error) :=
  ask (RPost (v2_params cfg) reply) (λ l, e_post l reply).

Definition GetNextSteps (cfg : AgentConfig) : Go (steps + api_error) :=
  now ← Now;
  ask (RNet "V2GetNextSteps" (v2_params cfg ++ [Itoa (now / 1000000000)])) e_next_steps.

(** [readId] is scanners.ReadId, run only when not in dry mode. *)
Definition RegisterHost (cfg : AgentConfig) (readId : Go string) : Go (option runner_command + api_error) :=
  hostID ← (if DryRunEnabled (ac_dry cfg) then mret (ForcedHostID (ac_dry cfg)) else readId);
  ask (RNet "V2RegisterHost" [hostID; InfraEnvID (ac_conn cfg); AgentVersion (ac_conn cfg)])
      (λ l, e_register l hostID).
End ServiceApi.
