(* ===== verification/Paths.v ===== *)
(** * Path names (Go's [path/filepath] on Unix): Clean, Join, Base, Dir *)
From S2P Require Import Prelude GoStrings.

(** One component of the path onto the reversed stack of components kept. *)
Definition clean_step (rooted : bool) (stack : list string) (c : string) : list string :=
  match c with
  | "" => stack
  | "." => stack
  | ".." =>
      match stack with
      | [] => if rooted then [] else [".."]
      | ".." :: _ => ".." :: stack
      | _ :: stack' => stack'
      end
  | _ => c :: stack
  end.

(** filepath.Clean *)
Definition Clean (p : string) : string :=
  match p with
  | "" => "."
  | String c _ =>
      let rooted := Ascii.eqb c "/" in
      let comps := Join (reverse (fold_left (clean_step rooted) (Split p "/") [])) "/" in
      if rooted then "/" +:+ comps else match comps with "" => "." | _ => comps end
  end.

(** filepath.Join: empty elements at the front are ignored. *)
Fixpoint path_join (elem : list string) : string :=
  match elem with
  | [] => ""
  | "" :: elem' => path_join elem'
  | _ => Clean (Join elem "/")
  end.

(** filepath.Base *)
Definition Base (p : string) : string :=
  match p with
  | "" => "."
  | _ => match last (List.filter (λ c, negb (String.eqb c "")) (Split p "/")) with
         | Some c => c
         | None => "/"
         end
  end.

(** filepath.Dir *)
Definition Dir (p : string) : string :=
  Clean (match reverse (Split p "/") with
         | [] => ""
         | [_] => ""
         | _ :: dirs => Join (reverse dirs) "/" +:+ "/"
         end).

Example Clean_1 : Clean "/sys//block/./sda/../sdb/" = "/sys/block/sdb".
Proof. vm_compute. reflexivity. Qed.
Example Clean_2 : map Clean [""; "/"; "a/../.."; "/.."; "a//b"] = ["."; "/"; ".."; "/"; "a/b"].
Proof. vm_compute. reflexivity. Qed.
Example Base_1 : map Base ["/a/b"; "a"; "/"; ""; "a/"] = ["b"; "a"; "/"; "."; "a"].
Proof. vm_compute. reflexivity. Qed.
Example Dir_1 : map Dir ["/a/b"; "a"; "/a"; "/a/b/"] = ["/a"; "."; "/"; "/a/b"].
Proof. vm_compute. reflexivity. Qed.
