(* ===== verification/Session.v ===== *)
(** * Sessions with the assisted service (src/session/inventory_session.go)

    A session is the base address of the service and the way its certificate is
    checked; the requests made in it go through the generated client. *)
From S2P Require Import Prelude GoStrings Host Paths Config.

(** net/url's URL: its path, and the rest of it. *)
Record url : Type := mkUrl { u_rest : string; u_Path : string }.

(** The certificate authorities a session trusts: none are asked for (an
    insecure connection), those of the system, or those and the ones of a
    file. *)
Inductive trust : Type := TrustAnyone | TrustSystem | TrustAlso (pem : string).

Record session : Type := mkSession { se_URL : url; se_trust : trust; se_token : string }.

(** The standard library: url.Parse, x509.SystemCertPool (its error), and
    whether AppendCertsFromPEM finds a certificate. *)
Class Connect : Type := {
  url_Parse : string → result url;
  system_cert_pool : log → option error;
  certs_from_pem : string → bool
}.

(** client.DefaultBasePath *)
Definition DefaultBasePath : string := "/api/assisted-install".

Section Session.
Context {env : Env} {connect : Connect}.

Definition createUrl (inventoryUrl : string) : result url :=
  match url_Parse inventoryUrl with
  | Bad err => Bad (wrap err "Failed parsing inventory URL")
  | Good u => Good (mkUrl (u_rest u) (path_join [u_Path u; DefaultBasePath]))
  end.

Definition readCACertificate (cfg : AgentConfig) : Go (result trust) :=
  let path := CACertificatePath (ac_conn cfg) in
  if String.eqb path "" then mret (Good TrustSystem) else
  caData ← ReadFile path;
  match caData with
  | Bad err => mret (Bad err)
  | Good pem =>
      pool ← ask (RFile "SystemCertPool" "") system_cert_pool;
      match pool with
      | Some err => mret (Bad (errorf ("failed to load system cert pool: " +:+ err_msg err)))
      | None => mret (if certs_from_pem pem then Good (TrustAlso pem)
                      else Bad (errorf ("failed to load certificate: " +:+ path)))
      end
  end.

Definition createBmInventoryClient (cfg : AgentConfig) (inventoryUrl pullSecretToken : string) : Go (result session) :=
  match createUrl inventoryUrl with
  | Bad err => mret (Bad err)
  | Good u =>
      certs ← (if InsecureConnection (ac_conn cfg) then mret (Good TrustAnyone) else readCACertificate cfg);
      mret (match certs with Bad err => Bad err | Good t => Good (mkSession u t pullSecretToken) end)
  end.

Definition New (cfg : AgentConfig) (inventoryUrl pullSecretToken : string) : Go (result session) :=
  createBmInventoryClient cfg inventoryUrl pullSecretToken.

(** The session a component opens for the service of its configuration. *)
Definition open_session (cfg : AgentConfig) : Go (result session) :=
  New cfg (TargetURL (ac_conn cfg)) (PullSecretToken (ac_conn cfg)).
End Session.

(** ** HTMLConsumer: answers that are not the service's own

    The kinds of values the generated client decodes an answer into. *)
Inductive target : Type :=
  | TNil | TNotPointer
  | TText (unmarshal : string → option error)
  | TError (reason : option string)
  | TInfraError (message : option string)
  | TOtherPointer.

(** The error and what the target holds afterwards; [body] is what reading the
    answer gives, [None] when there is no reader. *)
Definition HTMLConsumer (body : option (result string)) (data : target) : option error * target :=
  match body with
  | None => (Some (errorf "HTMLConsumer requires a reader"), data)
  | Some (Bad err) => (Some err, data)
  | Some (Good msg) =>
      if String.eqb msg "" then (None, data) else
      match data with
      | TNil | TNotPointer => (Some (errorf "data should be a non nil pointer"), data)
      | TText unmarshal => (unmarshal msg, data)
      | TError _ => (None, TError (Some msg))
      | TInfraError _ => (None, TInfraError (Some msg))
      | TOtherPointer => (Some (errorf "is not supported by the Agent's Custom Consumer"), data)
      end
  end.

(** ** Facts *)
Section Facts.
Context {env : Env} {connect : Connect}.

(** A secure session never trusts just anyone, and opening one only reads. *)
Lemma spec_New cfg u token :
  spec (λ r, ∃ op p, r = RFile op p) no_change
    (λ o, match o with
          | Good s => se_token s = token ∧ (se_trust s = TrustAnyone ↔ InsecureConnection (ac_conn cfg) = true) ∧
              (∀ pem, se_trust s = TrustAlso pem → certs_from_pem pem = true)
          | Bad _ => True
          end) (New cfg u token).
Proof.
  unfold New, createBmInventoryClient. destruct (createUrl u) as [v|e]; [|by apply spec_ret].
  destruct (InsecureConnection (ac_conn cfg)); [by apply spec_ret|].
  eapply (spec_bind _ _ (λ o, match o with Good t => t ≠ TrustAnyone ∧ ∀ pem, t = TrustAlso pem → certs_from_pem pem = true
                                         | Bad _ => True end)).
  - unfold readCACertificate. destruct (String.eqb _ ""); [by apply spec_ret|].
    eapply (spec_bind _ _ (λ _, True)); [apply spec_ask; by eauto|]. intros [pem|e] _; [|by apply spec_ret].
    eapply (spec_bind _ _ (λ _, True)); [apply spec_ask; by eauto|]. intros [e|] _; [by apply spec_ret|].
    apply spec_ret. destruct (certs_from_pem pem) eqn:E; [|done]. split; [done|]. intros p Hp. by injection Hp as <-.
  - intros [t|e] Ht; [|by apply spec_ret]. apply spec_ret. split; [done|]. split; [|apply Ht].
    simpl. destruct Ht as [Ht _]. naive_solver.
Qed.

(** What keeps a session from opening: the address does not parse, or the CA
    certificates asked for cannot be read. *)
Definition bad_certificates (path : string) (l : log) : Prop :=
  match e_read_file l path with Bad _ => True | Good pem => certs_from_pem pem = false end ∨
  is_Some (system_cert_pool l).
Definition cannot_connect (cfg : AgentConfig) : Prop :=
  (∃ err, url_Parse (TargetURL (ac_conn cfg)) = Bad err) ∨
  (InsecureConnection (ac_conn cfg) = false ∧ CACertificatePath (ac_conn cfg) ≠ "" ∧
   ∃ l, bad_certificates (CACertificatePath (ac_conn cfg)) l).

Lemma open_session_fails cfg :
  spec (λ r, ∃ op p, r = RFile op p) no_change (λ o, ∀ err, o = Bad err → cannot_connect cfg) (open_session cfg).
Proof.
  unfold open_session, New, createBmInventoryClient, createUrl.
  destruct (url_Parse _) as [u|e] eqn:Eu; [|apply spec_ret; intros; left; by eexists].
  destruct (InsecureConnection (ac_conn cfg)) eqn:Ei; [by apply spec_ret|].
  eapply (spec_bind _ _ (λ o, ∀ err, o = Bad err → cannot_connect cfg)).
  - unfold readCACertificate. destruct (String.eqb_spec (CACertificatePath (ac_conn cfg)) "") as [|Hp]; [by apply spec_ret|].
    assert (Hc : ∀ l, bad_certificates (CACertificatePath (ac_conn cfg)) l → cannot_connect cfg).
    { intros l H. right. split_and!; [done..|by exists l]. }
    eapply (spec_bind _ _ (λ r, ∃ l, e_read_file l (CACertificatePath (ac_conn cfg)) = r)); [apply spec_ask; by eauto|].
    intros [pem|e] [l Hl]; [|apply spec_ret; intros _ _; apply (Hc l); left; by rewrite Hl].
    eapply (spec_bind _ _ (λ r, ∃ l', system_cert_pool l' = r)); [apply spec_ask; by eauto|].
    intros [e|] [l' Hl']; apply spec_ret; intros err H.
    + apply (Hc l'). right. by rewrite Hl'.
    + destruct (certs_from_pem pem) eqn:Ep; [done|]. apply (Hc l). left. by rewrite Hl.
  - intros [t|e] Ht; apply spec_ret; intros err H; [done|]. by apply (Ht e).
Qed.

(** What opens in any state of the host: an insecure or default configuration
    with a valid address. *)
Lemma open_session_ok cfg u l s :
  url_Parse (TargetURL (ac_conn cfg)) = Good u →
  InsecureConnection (ac_conn cfg) = true ∨ CACertificatePath (ac_conn cfg) = "" →
  ∃ se, run (open_session cfg) l s = (Done (Good se), l, s).
Proof.
  intros Hu Hc. unfold open_session, New, createBmInventoryClient, createUrl. rewrite Hu.
  destruct (InsecureConnection (ac_conn cfg)); [by eexists|]. destruct Hc as [|Hc]; [done|].
  unfold readCACertificate. rewrite Hc. by eexists.
Qed.
End Facts.

(** For tests: every address has only a path. *)
Definition plain_connect : Connect := {|
  url_Parse := λ s, Good (mkUrl "" s); system_cert_pool := λ _, None; certs_from_pem := λ _, true
|}.
