(* ===== verification/Flags.v ===== *)
(** * Command lines (Go's [flag] package)

    A flag set is the registered flags with their defaults; parsing goes over
    the arguments up to the first that is not a flag and gives the values, the
    names that were set and the arguments that are left. *)
From S2P Require Import Prelude GoStrings.

Inductive flag_value : Type :=
  | FBool (b : bool)
  | FString (s : string)
  | FInt (z : Z).
#[export] Instance flag_value_eq_dec : EqDecision flag_value.
Proof. solve_decision. Defined.

(** flag.CommandLine: the registered flags, the names that were set. *)
Abbreviation flag_set := (gmap string flag_value).

(** ** strconv.ParseBool *)
Definition ParseBool (s : string) : option bool :=
  if existsb (String.eqb s) ["1"; "t"; "T"; "TRUE"; "true"; "True"] then Some true
  else if existsb (String.eqb s) ["0"; "f"; "F"; "FALSE"; "false"; "False"] then Some false
  else None.

(** ** strconv.ParseInt(_, 0, 64): the base is that of the prefix, underscores
    may separate digits *)
Definition digit_value (c : ascii) : option Z :=
  let n := Z.of_nat (Ascii.nat_of_ascii (to_lower_char c)) in
  if (48 <=? n)%Z && (n <=? 57)%Z then Some (n - 48)%Z
  else if (97 <=? n)%Z && (n <=? 122)%Z then Some (n - 87)%Z
  else None.

(** The digits of a base, underscores skipped; [None] when there is another
    character. *)
Fixpoint base_digits (base acc : Z) (s : string) : option Z :=
  match s with
  | "" => Some acc
  | String c s' =>
      if Ascii.eqb c "_" then base_digits base acc s' else
      match digit_value c with
      | Some d => if (d <? base)%Z then base_digits base (base * acc + d) s' else None
      | None => None
      end
  end.

(** The base of a number and what follows its prefix. *)
Definition number_base (s : string) : Z * string :=
  match s with
  | String "0" (String c s') =>
      let c := to_lower_char c in
      match s' with
      | "" => (8, String c s')%Z
      | _ => if Ascii.eqb c "b" then (2, s')%Z else if Ascii.eqb c "o" then (8, s')%Z
             else if Ascii.eqb c "x" then (16, s')%Z else (8, String c s')%Z
      end
  | _ => (10, s)%Z
  end.

(** underscoreOK: underscores only between digits or after the prefix. The last
    character seen: [Some true] a digit (or the prefix), [Some false] an
    underscore, [None] another. *)
Fixpoint underscores_ok (hex : bool) (last : option bool) (s : string) : bool :=
  match s with
  | "" => match last with Some false => false | _ => true end
  | String c s' =>
      let n := Ascii.nat_of_ascii (to_lower_char c) in
      if (Nat.leb 48 n && Nat.leb n 57) || (hex && Nat.leb 97 n && Nat.leb n 102)
      then underscores_ok hex (Some true) s'
      else if Ascii.eqb c "_" then
        match last with Some true => underscores_ok hex (Some false) s' | _ => false end
      else match last with Some false => false | _ => underscores_ok hex None s' end
  end.
Definition underscoreOK (body : string) : bool :=
  match body with
  | String "0" (String c s') =>
      let c := to_lower_char c in
      if Ascii.eqb c "b" || Ascii.eqb c "o" || Ascii.eqb c "x"
      then underscores_ok (Ascii.eqb c "x") (Some true) s'
      else underscores_ok false None body
  | _ => underscores_ok false None body
  end.

(** [None]: not a number, or out of the range of 64 bits. *)
Definition ParseInt0 (s : string) : option Z :=
  let '(neg, body) :=
    match s with
    | String "-" s' => (true, s')
    | String "+" s' => (false, s')
    | _ => (false, s)
    end in
  match body with
  | "" => None
  | _ =>
      let '(base, digits) := number_base body in
      match base_digits base 0 digits with
      | None => None
      | Some n =>
          if negb (underscoreOK body) then None else
          let v := if neg then (- n)%Z else n in
          if (int64_min <=? v)%Z && (v <=? int64_max)%Z then Some v else None
      end
  end.

Example ParseInt0_1 :
  map ParseInt0 ["60"; "-1"; "0x1F"; "0b101"; "017"; "1_000"; "0x_1f"; "_1"; "1__0"; "09"; ""; "9223372036854775808"] =
  [Some 60; Some (-1); Some 31; Some 5; Some 15; Some 1000; Some 31; None; None; None; None; None]%Z.
Proof. vm_compute. reflexivity. Qed.

(** ** Parsing *)
(** flag.Value's Set *)
Definition set_value (old : flag_value) (text : string) : option flag_value :=
  match old with
  | FBool _ => FBool <$> ParseBool text
  | FString _ => Some (FString text)
  | FInt _ => FInt <$> ParseInt0 text
  end.

Inductive parse_result : Type :=
  | Parsed (values : flag_set) (seen : list string) (rest : list string)
  | HelpWanted
  | BadUsage.

(** What one argument is: not a flag (the end), the end of the flags, a flag
    with or without a value, or wrong. *)
Inductive arg_kind : Type :=
  | NoFlag | Terminator | BadSyntax
  | FlagArg (name : string) (value : option string).

Fixpoint cut_equals (s : string) : string * option string :=
  match s with
  | "" => ("", None)
  | String c s' =>
      if Ascii.eqb c "=" then ("", Some s') else
      let '(name, value) := cut_equals s' in (String c name, value)
  end.

Definition flag_name (body : string) : arg_kind :=
  match body with
  | "" => BadSyntax
  | String c s' =>
      if Ascii.eqb c "-" || Ascii.eqb c "=" then BadSyntax else
      let '(name, value) := cut_equals s' in FlagArg (String c name) value
  end.

Definition classify (s : string) : arg_kind :=
  match s with
  | String "-" (String "-" body) => match body with "" => Terminator | _ => flag_name body end
  | String "-" (String c s') => flag_name (String c s')
  | _ => NoFlag
  end.

(** FlagSet.Parse of the command line, which exits on an error. *)
Fixpoint parse_flags (values : flag_set) (seen : list string) (args : list string) : parse_result :=
  match args with
  | [] => Parsed values seen []
  | s :: args' =>
      match classify s with
      | NoFlag => Parsed values seen args
      | Terminator => Parsed values seen args'
      | BadSyntax => BadUsage
      | FlagArg name value =>
          match values !! name with
          | None => if String.eqb name "help" || String.eqb name "h" then HelpWanted else BadUsage
          | Some (FBool _ as old) =>
              match set_value old (default "true" value) with
              | Some new => parse_flags (<[name := new]> values) (seen ++ [name]) args'
              | None => BadUsage
              end
          | Some old =>
              match value, args' with
              | Some text, _ =>
                  match set_value old text with
                  | Some new => parse_flags (<[name := new]> values) (seen ++ [name]) args'
                  | None => BadUsage
                  end
              | None, text :: args'' =>
                  match set_value old text with
                  | Some new => parse_flags (<[name := new]> values) (seen ++ [name]) args''
                  | None => BadUsage
                  end
              | None, [] => BadUsage
              end
          end
      end
  end.

(** The variables the flags are bound to *)
Definition get_bool (v : flag_set) (name : string) : bool :=
  match v !! name with Some (FBool b) => b | _ => false end.
Definition get_string (v : flag_set) (name : string) : string :=
  match v !! name with Some (FString s) => s | _ => "" end.
Definition get_int (v : flag_set) (name : string) : Z :=
  match v !! name with Some (FInt z) => z | _ => 0%Z end.

Definition demo_flags : flag_set :=
  list_to_map [("url", FString ""); ("insecure", FBool false); ("interval", FInt 60)].
Example parse_1 :
  parse_flags demo_flags [] ["--url"; "-x"; "-insecure=true"; "--interval=0x10"; "a"; "-url"] =
  Parsed (<["interval" := FInt 16]> (<["insecure" := FBool true]> (<["url" := FString "-x"]> demo_flags)))
    ["url"; "insecure"; "interval"] ["a"; "-url"].
Proof. vm_compute. reflexivity. Qed.
Example parse_2 :
  map (parse_flags demo_flags []) [["-url"]; ["-h"]; ["--url=a=b"; "--"; "--url"]; ["-insecure=maybe"]; ["---url"]; ["-"]] =
  [BadUsage; HelpWanted; Parsed (<["url" := FString "a=b"]> demo_flags) ["url"] ["--url"]; BadUsage; BadUsage;
   Parsed demo_flags [] ["-"]].
Proof. vm_compute. reflexivity. Qed.

(** ** Facts *)
(** Parsing keeps the names and kinds of the flags. *)
Definition same_kind (v w : flag_value) : Prop :=
  match v, w with FBool _, FBool _ | FString _, FString _ | FInt _, FInt _ => True | _, _ => False end.
Lemma same_kind_refl v : same_kind v v.
Proof. by destruct v. Qed.
Lemma same_kind_trans u v w : same_kind u v → same_kind v w → same_kind u w.
Proof. by destruct u, v, w. Qed.
Lemma set_value_kind old text new : set_value old text = Some new → same_kind old new.
Proof. destruct old; simpl; [destruct (ParseBool text)|..|destruct (ParseInt0 text)]; intros H; simplify_eq/=; done. Qed.

Definition well_kinded (v w : flag_set) : Prop :=
  ∀ name, match v !! name, w !! name with
          | Some x, Some y => same_kind x y
          | None, None => True
          | _, _ => False
          end.
Lemma well_kinded_refl v : well_kinded v v.
Proof. intros name. destruct (v !! name); [apply same_kind_refl|done]. Qed.
Lemma well_kinded_insert v w name old new :
  w !! name = Some old → same_kind old new → well_kinded v w → well_kinded v (<[name := new]> w).
Proof.
  intros Hn Hk H name'. specialize (H name'). destruct (decide (name' = name)) as [->|Hne].
  - rewrite lookup_insert_eq. rewrite Hn in H. destruct (v !! name); [|done]. by eapply same_kind_trans.
  - by rewrite lookup_insert_ne.
Qed.

Definition parsed_ok (v : flag_set) (seen args : list string) (r : parse_result) : Prop :=
  match r with
  | Parsed v' seen' rest => well_kinded v v' ∧ rest `suffix_of` args ∧ seen `prefix_of` seen' ∧
      (∀ name, name ∈ seen' → name ∈ seen ∨ is_Some (v !! name)) ∧
      (∀ name, name ∉ seen' → v' !! name = v !! name)
  | _ => True
  end.

Lemma parsed_step v w seen name old new args args' r :
  well_kinded v w → (∀ n, n ∉ seen → w !! n = v !! n) →
  w !! name = Some old → same_kind old new → args' `suffix_of` args →
  (well_kinded v (<[name := new]> w) → (∀ n, n ∉ seen ++ [name] → <[name := new]> w !! n = v !! n) →
   parsed_ok v (seen ++ [name]) args' r) →
  parsed_ok v seen args r.
Proof.
  intros Hw Hs Hn Hk Hsuf H. destruct r as [v' seen' rest| |]; [|done..].
  destruct H as (H1 & H2 & H3 & H4 & H5).
  - by eapply well_kinded_insert.
  - intros n Hin. rewrite elem_of_app in Hin. rewrite lookup_insert_ne; [|set_solver]. apply Hs. set_solver.
  - split_and!; [done|by etrans| |intros n Hin|done].
    + etrans; [|exact H3]. by exists [name].
    + destruct (H4 n Hin) as [Hin'|]; [|by right]. rewrite elem_of_app, list_elem_of_singleton in Hin'.
      destruct Hin' as [| ->]; [by left|right]. specialize (Hw name). rewrite Hn in Hw. destruct (v !! name); [done|done].
Qed.

Lemma parse_flags_sound n v w seen args :
  length args ≤ n → well_kinded v w → (∀ name, name ∉ seen → w !! name = v !! name) →
  parsed_ok v seen args (parse_flags w seen args).
Proof.
  revert w seen args. induction n as [|n IH]; intros w seen [|s args] Hl Hw Hs; try (simpl in Hl; lia).
  1, 2: cbn; split_and!; try done; by left.
  cbn [parse_flags]. simpl in Hl.
  assert (Hsame : ∀ rest, rest `suffix_of` s :: args → parsed_ok v seen (s :: args) (Parsed w seen rest)).
  { intros rest Hr. split_and!; try done. by left. }
  destruct (classify s) as [| | |name value]; [by apply Hsame|apply Hsame; by exists [s]|done|].
  destruct (w !! name) as [old|] eqn:Hn; [|by destruct (_ || _)].
  assert (Hset : ∀ text args', args' `suffix_of` args → parsed_ok v seen (s :: args)
    match set_value old text with
    | Some new => parse_flags (<[name := new]> w) (seen ++ [name]) args'
    | None => BadUsage
    end).
  { intros text args' Hsuf. destruct (set_value old text) as [new|] eqn:E; [|done].
    eapply (parsed_step v w seen name old new _ args'); [done|done|done|by eapply set_value_kind|by apply suffix_cons_r|].
    intros. apply IH; [|done|done]. apply suffix_length in Hsuf. lia. }
  destruct old as [b|t|z]; [by apply Hset|..]; destruct value as [text|]; try by apply Hset.
  all: destruct args as [|text args]; [done|]; apply Hset; by apply suffix_cons_r.
Qed.

(** ** Round trip: settings written as words *)
Inductive setting : Type :=
  | Separate (name text : string)
  | Joined (name text : string).
Definition setting_name (s : setting) : string := match s with Separate n _ | Joined n _ => n end.
Definition setting_text (s : setting) : string := match s with Separate _ t | Joined _ t => t end.

(** With one dash or two *)
Definition setting_words (dashes : string) (s : setting) : list string :=
  match s with
  | Separate n t => [dashes +:+ n; t]
  | Joined n t => [dashes +:+ n +:+ "=" +:+ t]
  end.

Definition good_name (n : string) : bool :=
  match n with
  | "" => false
  | String c _ => negb (Ascii.eqb c "-") && all_chars (λ c, negb (Ascii.eqb c "=")) n
  end.

(** The setting fits a registered flag; a flag that needs no value takes it
    joined. *)
Definition fits (v : flag_set) (s : setting) : Prop :=
  good_name (setting_name s) = true ∧
  ∃ old new, v !! setting_name s = Some old ∧ set_value old (setting_text s) = Some new ∧
    match s, old with Separate _ _, FBool _ => False | _, _ => True end.

Definition apply_setting (v : flag_set) (s : setting) : flag_set :=
  match v !! setting_name s ≫= λ old, set_value old (setting_text s) with
  | Some new => <[setting_name s := new]> v
  | None => v
  end.

Lemma cut_equals_name n : all_chars (λ c, negb (Ascii.eqb c "=")) n = true → cut_equals n = (n, None).
Proof.
  induction n as [|c n IH]; cbn [cut_equals all_chars]; [done|]. intros [Hc Hn]%andb_true_iff.
  apply negb_true_iff in Hc. rewrite Hc. by rewrite (IH Hn).
Qed.
Lemma cut_equals_joined n t :
  all_chars (λ c, negb (Ascii.eqb c "=")) n = true → cut_equals (n +:+ "=" +:+ t) = (n, Some t).
Proof.
  induction n as [|c n IH]; cbn [all_chars]; [done|]. intros [Hc Hn]%andb_true_iff.
  change (cut_equals (String c (n +:+ "=" +:+ t)) = (String c n, Some t)). cbn [cut_equals].
  apply negb_true_iff in Hc. rewrite Hc. by rewrite (IH Hn).
Qed.

Lemma classify_words dashes n :
  dashes = "-" ∨ dashes = "--" → good_name n = true →
  classify (dashes +:+ n) = FlagArg n None ∧ ∀ t, classify (dashes +:+ n +:+ "=" +:+ t) = FlagArg n (Some t).
Proof.
  intros Hd Hn. destruct n as [|c n]; [done|]. cbn [good_name] in Hn.
  apply andb_true_iff in Hn as [Hdash Hall]. apply negb_true_iff in Hdash.
  pose proof Hall as Hall'. cbn [all_chars] in Hall'. apply andb_true_iff in Hall' as [Heq Hrest].
  apply negb_true_iff in Heq.
  assert (H1 : flag_name (String c n) = FlagArg (String c n) None).
  { cbn [flag_name]. rewrite Hdash, Heq. cbn [orb]. by rewrite cut_equals_name. }
  assert (H2 : ∀ t, flag_name (String c (n +:+ "=" +:+ t)) = FlagArg (String c n) (Some t)).
  { intros t. cbn [flag_name]. rewrite Hdash, Heq. cbn [orb]. by rewrite cut_equals_joined. }
  assert (Hone : ∀ s, classify (String "-" (String c s)) = flag_name (String c s)).
  { intros s. unfold classify. destruct c as [[] [] [] [] [] [] [] []]; try reflexivity. discriminate Hdash. }
  destruct Hd as [-> | ->]; (split; [|intros t]).
  - change (classify (String "-" (String c n)) = FlagArg (String c n) None). by rewrite Hone.
  - change (classify (String "-" (String c (n +:+ "=" +:+ t))) = FlagArg (String c n) (Some t)). by rewrite Hone.
  - exact H1.
  - exact (H2 t).
Qed.

Lemma parse_setting dashes v seen s args :
  dashes = "-" ∨ dashes = "--" → fits v s →
  parse_flags v seen (setting_words dashes s ++ args) =
  parse_flags (apply_setting v s) (seen ++ [setting_name s]) args.
Proof.
  intros Hd (Hn & old & new & Hold & Hset & Hkind). destruct (classify_words dashes _ Hd Hn) as [H1 H2].
  unfold apply_setting. rewrite Hold. cbn [mbind option_bind]. rewrite Hset.
  destruct s as [n t|n t]; cbn [setting_words setting_name setting_text app parse_flags] in *.
  - rewrite H1, Hold. destruct old; [done|..]; by rewrite Hset.
  - rewrite H2, Hold. change (default "true" (Some t)) with t. destruct old; by rewrite Hset.
Qed.

(** Settings fit one after another. *)
Fixpoint all_fit (v : flag_set) (l : list setting) : Prop :=
  match l with [] => True | s :: l' => fits v s ∧ all_fit (apply_setting v s) l' end.

(** Each setting with the dashes it is written with *)
Definition dashed_words (p : string * setting) : list string := setting_words p.1 p.2.
Definition dashes_ok (p : string * setting) : Prop := p.1 = "-" ∨ p.1 = "--".
Lemma parse_dashed v seen l args :
  Forall dashes_ok l → all_fit v (map snd l) →
  parse_flags v seen (flat_map dashed_words l ++ args) =
  parse_flags (fold_left apply_setting (map snd l) v) (seen ++ map setting_name (map snd l)) args.
Proof.
  intros Hd. revert v seen. induction Hd as [|[d s] l Hd _ IH]; intros v seen; cbn [flat_map fold_left map all_fit snd].
  - intros _. by rewrite app_nil_r.
  - intros [Hs Hl]. unfold dashed_words at 1. cbn [fst snd].
    rewrite <-(assoc_L (++)), parse_setting by done. rewrite IH by done. by rewrite <-(assoc_L (++)).
Qed.

Lemma parse_settings dashes v seen l args :
  dashes = "-" ∨ dashes = "--" → all_fit v l →
  parse_flags v seen (flat_map (setting_words dashes) l ++ args) =
  parse_flags (fold_left apply_setting l v) (seen ++ map setting_name l) args.
Proof.
  intros Hd Hl. pose proof (parse_dashed v seen (map (λ s, (dashes, s)) l) args) as H.
  rewrite map_map in H. cbn [snd] in H. rewrite map_id in H. rewrite <-H; [|by apply Forall_map, Forall_forall|done].
  f_equal. f_equal. clear. induction l as [|s l IH]; [done|]. cbn [flat_map map]. by rewrite IH.
Qed.

(** Words that write settings of registered flags parse back to the settings,
    in order, and stop at the first word that is not a flag; what is parsed keeps
    the kinds of the flags, sets only registered ones, and leaves a suffix of the
    arguments. *)
Theorem settings_round_trip dashes v l rest :
  dashes = "-" ∨ dashes = "--" → all_fit v l → match rest with [] => True | s :: _ => classify s = NoFlag end →
  let v' := fold_left apply_setting l v in
  parse_flags v [] (flat_map (setting_words dashes) l ++ rest) = Parsed v' (map setting_name l) rest ∧
  well_kinded v v' ∧ (∀ name, name ∉ map setting_name l → v' !! name = v !! name).
Proof.
  intros Hd Hl Hrest v'.
  assert (E : parse_flags v [] (flat_map (setting_words dashes) l ++ rest) = Parsed v' (map setting_name l) rest).
  { rewrite parse_settings by done. destruct rest as [|s rest]; [done|]. cbn [parse_flags]. by rewrite Hrest. }
  split; [done|].
  pose proof (parse_flags_sound _ v v [] (flat_map (setting_words dashes) l ++ rest) (le_n _) (well_kinded_refl v)
                (λ _ _, eq_refl)) as H.
  rewrite E in H. destruct H as (H1 & _ & _ & _ & H5). done.
Qed.

Lemma settings_round_trip_witness :
  let l := [Separate "url" "-x"; Joined "insecure" "1"] in
  let v' := fold_left apply_setting l demo_flags in
  parse_flags demo_flags [] (flat_map (setting_words "--") l ++ ["file"]) = Parsed v' ["url"; "insecure"] ["file"] ∧
  well_kinded demo_flags v' ∧ (∀ name, name ∉ map setting_name l → v' !! name = demo_flags !! name).
Proof.
  intros l v'. apply (settings_round_trip "--" demo_flags l ["file"]); [by right| |reflexivity].
  split; [|split; [|exact I]].
  - split; [reflexivity|]. exists (FString ""), (FString "-x"). split; [reflexivity|]. split; [reflexivity|exact I].
  - split; [reflexivity|]. exists (FBool false), (FBool true). split; [vm_compute; reflexivity|]. split; [reflexivity|exact I].
Defined.
