(* ===== verification/StepProcessor.v ===== *)
(** * The next-step runner (src/commands/step_processor.go, reply_cache.go,
    runner.go)

    One session asks the service for the next steps, starts one goroutine per
    instruction, and each goroutine diagnoses the system, runs the step, posts
    the reply (unless the service has it already) and cancels the process after
    a successful self-upgrade. *)
From S2P Require Import Prelude GoStrings Host Config Session.

Definition hour : Z := 3600 * 1000000000.
Definition second : Z := 1000000000.

(** ** The reply cache *)
Section ReplyCache.
Context {env : Env}.

(** go-cache's Get, then funk.Equal: an item past its expiry is absent. *)
Definition alreadyExistsInService (stepType value : string) : Go bool :=
  item ← shared_do (λ s, (sh_cache s !! stepType, s));
  match item with
  | None => mret false
  | Some (storedValue, expiration) =>
      if (expiration >? 0)%Z then
        now ← Now;
        if (now >? expiration)%Z then mret false else mret (String.eqb storedValue value)
      else mret (String.eqb storedValue value)
  end.

(** go-cache's Set with the default expiration of newCache, one hour. *)
Definition storeInCache (stepType value : string) : Go () :=
  now ← Now;
  shared_do (λ s, ((), Shared (<[stepType := (value, (now + hour)%Z)]> (sh_cache s))
                        (sh_cancelled s) (sh_go s) (sh_image_sem s) (sh_pull_sem s))).

Definition invalidateCache : Go () :=
  shared_do (λ s, ((), Shared ∅ (sh_cancelled s) (sh_go s) (sh_image_sem s) (sh_pull_sem s))).
End ReplyCache.

(** ** Runners: what [actions.New] hands back (runner.go) *)
Record Runner : Type := mkRunner {
  rn_Run : Go (string * string * Z);
  rn_Command : string;
  rn_Args : Go (list string)
}.

Class ToolRunnerFactory : Type := {
  Create : AgentConfig → string → list string → Go (result Runner)
}.

Definition Undetected : Z := 999.
Definition MediaDisconnected : Z := 256.

Inductive session_result : Type :=
  | SessionFatal (e : error)
  | SessionErr (e : error)
  | SessionOk (delay : Z) (exit : bool).

Section StepSession.
Context {env : Env} {srv : Service} {connect : Connect} {factory : ToolRunnerFactory}.
(** encoding/json into models.UpgradeAgentResponse; the [result] field. *)
Context (unmarshalUpgradeAgentResponse : string → result string).
Context (cfg : AgentConfig).

Definition sendStepReply (reply : step_reply) : Go () :=
  known ← (if (r_exit_code reply =? 0)%Z
           then alreadyExistsInService (r_step_type reply) (r_output reply) else mret false);
  if (known : bool) then mret () else
  err ← PostStepReply cfg reply;
  match err with
  | Some _ => mret ()
  | None => if (r_exit_code reply =? 0)%Z
            then storeInCache (r_step_type reply) (r_output reply) else mret ()
  end.

Definition createStepReply (stepType stepID output errStr : string) (exitCode : Z) : step_reply :=
  StepReply stepType stepID exitCode output errStr.

(** A failed run is logged with the runner's arguments, which [Args] computes. *)
Definition handleSingleStep (stepType stepID : string) (runner : Runner) : Go step_reply :=
  '(stdout, stderr, exitCode) ← rn_Run runner;
  _ ← (if negb (exitCode =? 0)%Z then _ ← rn_Args runner; mret () else mret ());
  mret (createStepReply stepType stepID stdout stderr exitCode).

Definition handleSingleStepV2 (stepType stepID : string) (args : list string) : Go step_reply :=
  nextStepRunner ← Create cfg stepType args;
  match nextStepRunner with
  | Bad err => mret (createStepReply stepType stepID "" (err_msg err) (-1))
  | Good runner => handleSingleStep stepType stepID runner
  end.

Definition mediaPath : string := "/run/media/iso".

Definition getMountpointSourceDeviceFile : Go (result string) :=
  st ← Stat mediaPath;
  match st with
  | Bad _ => mret (Good "")
  | Good _ =>
      '(stdout, stderr, exitCode) ← ExecutePrivileged "findmnt"
        ["--raw"; "--noheadings"; "--output"; "SOURCE,TARGET"; "--target"; mediaPath];
      let errorMessage := "failed to validate media disconnection - continuing" in
      if negb (exitCode =? 0)%Z then mret (Bad (errorf (errorMessage +:+ ": " +:+ stderr))) else
      if String.eqb stdout ""
      then mret (Bad (errorf (errorMessage +:+ ": cannot find ISO mountpoint source"))) else
      let fields := Fields stdout in
      target ← or_panic (fields !! 1);
      if negb (String.eqb target mediaPath)
      then mret (Bad (errorf (errorMessage +:+ ": media mounted to " +:+ target +:+
                              " instead of directly to " +:+ mediaPath))) else
      source ← or_panic (fields !! 0);
      if String.eqb source "" || negb (HasPrefix source "/dev")
      then mret (Bad (errorf (errorMessage +:+ ": the mount source isn't a device file " +:+ source)))
      else mret (Good source)
  end.

Definition diagnoseSystem : Go (Z * option error) :=
  if DryRunEnabled (ac_dry cfg) then mret (Undetected, None) else
  r ← getMountpointSourceDeviceFile;
  match r with
  | Bad _ => mret (Undetected, None)
  | Good source =>
      if String.eqb source "" then mret (Undetected, None) else
      opened ← Open source;
      match opened with
      | Some err => mret (MediaDisconnected,
          Some (wrap err "cannot access the media (ISO) - media was likely disconnected"))
      | None =>
          rd ← ReadFull source 2;
          match rd with
          | Some err => mret (MediaDisconnected,
              Some (wrap err "cannot read from the media (ISO) - media was likely disconnected"))
          | None => mret (Undetected, None)
          end
      end
  end.

(** requiresRestart: only an upgrade-agent reply whose output decodes to
    success restarts the agent. *)
Definition requiresRestart (reply : step_reply) : bool :=
  if negb (String.eqb (r_step_type reply) "upgrade-agent") then false else
  match unmarshalUpgradeAgentResponse (r_output reply) with
  | Bad _ => false
  | Good res => String.eqb res "success"
  end.

Definition cancel : Go () :=
  shared_do (λ s, ((), Shared (sh_cache s) true (sh_go s) (sh_image_sem s) (sh_pull_sem s))).

(** The message of the error a diagnosis returned; [err.Error()] on nil panics. *)
Definition errString (err : option error) : Go string :=
  e ← or_panic err; mret (err_msg e).

Definition set_exit (reply : step_reply) (code : Z) : step_reply :=
  StepReply (r_step_type reply) (r_step_id reply) code (r_output reply) (r_error reply).

(** The body of the goroutine of one instruction, which is not nil. *)
Definition handleStep (s : step) : Go () :=
  '(code, err) ← diagnoseSystem;
  if negb (code =? Undetected)%Z then
    msg ← errString err;
    sendStepReply (createStepReply (s_step_type s) (s_step_id s) "" msg code)
  else
  reply ← handleSingleStepV2 (s_step_type s) (s_step_id s) (s_args s);
  reply' ← (if negb (r_exit_code reply =? 0)%Z then
              '(code, err) ← diagnoseSystem;
              if negb (code =? Undetected)%Z
              then _ ← errString err; mret (set_exit reply code) else mret reply
            else mret reply);
  _ ← sendStepReply reply';
  if requiresRestart reply' then cancel else mret ().

(** The goroutine of an instruction: whatever the diagnosis says, the next thing
    it reads is a field of the step. *)
Definition handleInstruction (i : option step) : Go () :=
  match i with
  | Some s => handleStep s
  | None => _ ← diagnoseSystem; panic
  end.

(** [go func(step){...}(step)] for every instruction. *)
Definition handleSteps (sts : steps) : Go () :=
  shared_do (λ s, ((), Shared (sh_cache s) (sh_cancelled s) (sh_go s ++ Instructions sts)
                              (sh_image_sem s) (sh_pull_sem s))).

Definition processSingleSession : Go session_result :=
  res ← GetNextSteps cfg;
  match res with
  | inr err =>
      _ ← invalidateCache;
      match ae_class err with
      | ENotFound => block
      | EUnauthorized => mret (SessionErr (errorf
          ("user is not authenticated to perform the operation: " +:+ ae_text err)))
      | EForbidden => mret (SessionErr (errorf
          ("user is forbidden to perform the operation: " +:+ ae_text err)))
      | _ => mret (SessionErr (errorf ("could not query next steps: " +:+ getErrorMessage err)))
      end
  | inl sts =>
      _ ← handleSteps sts;
      mret (SessionOk (int64 (int64 (NextInstructionSeconds sts) * second))
                      (String.eqb (StringValue (PostStepAction sts)) "exit"))
  end.

(** newSession; a failure is fatal to the process (log.Fatalf). *)
Definition newSession : Go (result session) := open_session cfg.

(** backoff.RetryNotify around the session: retry after the delay the
    back-off gives, stop when it gives none.  [fuel] bounds the attempts; the
    result is [None] when it runs out. *)
Fixpoint retrySession (fuel : nat) : Go (option session_result) :=
  match fuel with
  | O => mret None
  | S fuel' =>
      s ← newSession;
      match s with
      | Bad err => mret (Some (SessionFatal err))
      | Good _ =>
          r ← processSingleSession;
          match r with
          | SessionErr err =>
              next ← ask (RNet "NextBackOff" []) e_backoff;
              match next with
              | None => mret (Some (SessionErr err))
              | Some d => _ ← Sleep d; retrySession fuel'
              end
          | done => mret (Some done)
          end
      end
  end.

Inductive loop_exit : Type := ExitAction | ExitBackoff | ExitCancelled | ExitFatal | OutOfFuel.

(** ProcessSteps: loop until the service says exit, the back-off gives up or
    the context is cancelled.  When both the timer and the context are ready,
    Go's [select] takes either. *)
Fixpoint ProcessSteps (fuel : nat) (attempts : nat) : Go loop_exit :=
  match fuel with
  | O => mret OutOfFuel
  | S fuel' =>
      r ← retrySession attempts;
      match r with
      | None => mret OutOfFuel
      | Some (SessionFatal _) => mret ExitFatal
      | Some (SessionErr _) => mret ExitBackoff
      | Some (SessionOk delay exit) =>
          timer ← ask (RSleep delay) e_timer_fired;
          cancelled ← shared_do (λ s, (sh_cancelled s, s));
          if (cancelled && negb timer) then mret ExitCancelled else
          if (exit : bool) then mret ExitAction else ProcessSteps fuel' attempts
      end
  end.
End StepSession.

(** * Theorems *)

(** Is this request the posting of a reply? *)
Definition is_post (r : request) : bool := match r with RPost _ _ => true | _ => false end.
(** ... or the question for the next steps? *)
Definition is_next_steps (r : request) : bool :=
  match r with RNet op _ => String.eqb op "V2GetNextSteps" | _ => false end.
(** ... neither of which, nor the end of the process, is the business of a step. *)
Definition service_call (r : request) : bool := is_post r || is_next_steps r || exits r.
Lemma no_service_call r : service_call r = false → is_post r = false ∧ is_next_steps r = false.
Proof. unfold service_call. intros [H _]%orb_false_iff. by apply orb_false_iff. Qed.
Lemma no_exit r : service_call r = false → exits r = false.
Proof. by intros [_ H]%orb_false_iff. Qed.

(** What a step's runner may do to the shared memory: it may take and release
    the semaphores, never touch the cache, the cancel flag or the queue. *)
Definition runner_guar (s s' : shared) : Prop :=
  sh_cache s' = sh_cache s ∧ sh_cancelled s' = sh_cancelled s ∧ sh_go s' = sh_go s.

Definition runner_ok (r : Runner) : Prop :=
  emits (λ q, service_call q = false) runner_guar (rn_Run r) ∧
  emits (λ q, service_call q = false) runner_guar (rn_Args r).

(** The contract of a tool-runner factory: building and running a step never
    posts a reply or asks for steps, and leaves the session's memory alone. *)
Class FactoryLaws {factory : ToolRunnerFactory} : Prop := {
  create_ok : ∀ cfg stepType args,
    pspec (λ q, service_call q = false) runner_guar
          (λ r, match r with Good runner => runner_ok runner | Bad _ => True end)
          (Create cfg stepType args)
}.

(** What besides an upgrade may have cancelled the process, read off the log:
    nothing, unless other goroutines than those of this file can (DryRun.v). *)
Class OtherReason : Type := {
  other_reason : log → Prop;
  other_reason_later : ∀ l l', l `prefix_of` l' → other_reason l → other_reason l'
}.
#[export] Instance no_other_reason : OtherReason | 100 :=
  {| other_reason := λ _, False; other_reason_later := λ _ _ _ H, H |}.

Section Facts.
Context {env : Env} {srv : Service} {connect : Connect} {factory : ToolRunnerFactory} {laws : FactoryLaws}.
Context {reasons : OtherReason}.
Context (unmarshalUpgradeAgentResponse : string → result string).
Context (cfg : AgentConfig).

Notation sendStepReply := (sendStepReply cfg).
Notation handleStep := (handleStep unmarshalUpgradeAgentResponse cfg).
Notation handleInstruction := (handleInstruction unmarshalUpgradeAgentResponse cfg).
Notation requiresRestart := (requiresRestart unmarshalUpgradeAgentResponse).

(** ** What has happened, read off the log *)

(** The service has accepted a reply of this type and output, exit code 0. *)
Definition acked (l : log) (stepType output : string) : Prop :=
  ∃ l1 ps r, (l1 ++ [RPost ps r]) `prefix_of` l ∧ e_post l1 r = None ∧
    r_step_type r = stepType ∧ r_output r = output ∧ r_exit_code r = 0%Z.

(** The reply was posted, or the service had accepted the same result. *)
Definition reported (l : log) (reply : step_reply) : Prop :=
  (∃ ps, RPost ps reply ∈ l) ∨
  (r_exit_code reply = 0%Z ∧ acked l (r_step_type reply) (r_output reply)).

Definition session_inv (w : world request shared) : Prop :=
  (∀ k v e, sh_cache w.2 !! k = Some (v, e) → acked w.1 k v) ∧
  (sh_cancelled w.2 = true → (∃ reply, requiresRestart reply = true ∧ reported w.1 reply) ∨ other_reason w.1).

Lemma acked_later l l' k v : l `prefix_of` l' → acked l k v → acked l' k v.
Proof. intros Hp (l1 & ps & r & Hl & H). exists l1, ps, r. split; [by etrans|done]. Qed.

Lemma reported_later l l' r : l `prefix_of` l' → reported l r → reported l' r.
Proof.
  intros Hp [[ps Hin]|[He Ha]]; [left|right].
  - exists ps. destruct Hp as [k ->]. set_solver.
  - split; [done|]. by eapply acked_later.
Qed.

Lemma session_inv_log l s t : session_inv (l, s) → session_inv (l ++ t, s).
Proof.
  intros [Hc Hx]. split; simpl in *.
  - intros k v e Hk. eapply acked_later; [|by eapply Hc]. by exists t.
  - intros Hs. destruct (Hx Hs) as [(r & Hr & Hrep)|H]; [left|right; eapply other_reason_later; [by exists t|done]].
    exists r. split; [done|]. eapply reported_later; [|done]. by exists t.
Qed.

(** A change that keeps the cancel flag and keeps or empties the cache. *)
Definition session_guar (s s' : shared) : Prop :=
  sh_cancelled s' = sh_cancelled s ∧ (sh_cache s' = sh_cache s ∨ sh_cache s' = ∅).

Lemma session_inv_guar l s s' : session_guar s s' → session_inv (l, s) → session_inv (l, s').
Proof.
  intros [Hx Hc] [H1 H2]. split; simpl in *.
  - intros k v e. destruct Hc as [-> | ->]; [apply H1|]. by rewrite lookup_empty.
  - by rewrite Hx.
Qed.

Lemma runner_session_guar s s' : runner_guar s s' → session_guar s s'.
Proof. intros (Hc & Hx & _). split; auto. Qed.

(** Anything that leaves cache and cancel flag alone keeps the invariant. *)
Lemma rg_session {A} (Q : A → Prop) (m : Go A) w :
  pspec (λ _, True) session_guar Q m → session_inv w →
  rg session_inv (λ a w', Q a ∧ later w w' ∧ session_inv w') m w.
Proof.
  intros Hm HI. apply (rg_pspec _ (λ _, True) session_guar); auto.
  - intros. by apply session_inv_log.
  - intros. by eapply session_inv_guar.
Qed.

Lemma restart_upgrade reply :
  requiresRestart reply = true →
  r_step_type reply = "upgrade-agent" ∧ unmarshalUpgradeAgentResponse (r_output reply) = Good "success".
Proof.
  unfold StepProcessor.requiresRestart. destruct (String.eqb_spec (r_step_type reply) "upgrade-agent"); [|done]. simpl.
  destruct (unmarshalUpgradeAgentResponse _); [|done]. by intros ->%String.eqb_eq.
Qed.

(** ** The pieces of a goroutine and of the main loop *)
Lemma diagnose_emits P G :
  (∀ r, service_call r = false → P r) →
  pspec P G (λ '(code, err), (code = Undetected ∧ err = None) ∨
                             (code = MediaDisconnected ∧ is_Some err)) (diagnoseSystem cfg).
Proof.
  intros HP. unfold diagnoseSystem.
  assert (Hm : emits P G getMountpointSourceDeviceFile).
  { unfold getMountpointSourceDeviceFile. prog_steps. }
  destruct (DryRunEnabled _); [by left|].
  eapply pspec_bind; [exact Hm|]. intros [source|e] _; [|by left].
  destruct (String.eqb source ""); [by left|].
  eapply pspec_bind; [by apply (pspec_ask _ _ (λ _, True)); auto|]. intros [e|] _; [right; by eauto|].
  eapply pspec_bind; [by apply (pspec_ask _ _ (λ _, True)); auto|]. intros [e|] _; [right; by eauto|by left].
Qed.

Lemma handleSingleStepV2_emits stepType stepID args :
  pspec (λ q, service_call q = false) runner_guar
    (λ r, r_step_type r = stepType ∧ r_step_id r = stepID)
    (handleSingleStepV2 cfg stepType stepID args).
Proof.
  unfold handleSingleStepV2. eapply pspec_bind; [apply create_ok|].
  intros [runner|e] Hr; [|done]. destruct Hr as [Hrun Hargs].
  unfold handleSingleStep. eapply pspec_bind; [exact Hrun|].
  intros [[o e] c] _. eapply pspec_bind; [|intros; by apply pspec_ret].
  instantiate (1 := λ _, True).
  destruct (negb _); [|done]. by apply emits_bind.
Qed.

(** The second diagnosis of a failed step. *)
Definition rediagnose (reply : step_reply) : Go step_reply :=
  if negb (r_exit_code reply =? 0)%Z then
    '(code, err) ← diagnoseSystem cfg;
    if negb (code =? Undetected)%Z
    then _ ← errString err; mret (set_exit reply code) else mret reply
  else mret reply.

Lemma rediagnose_emits P G reply :
  (∀ r, service_call r = false → P r) →
  pspec P G (λ r, r = reply ∨ r = set_exit reply MediaDisconnected) (rediagnose reply).
Proof.
  intros HP. unfold rediagnose. destruct (negb _); [|by left].
  eapply pspec_bind; [by apply diagnose_emits|]. intros [code err] [[-> ->]|[-> [e ->]]]; simpl; auto.
Qed.

(** ** Sending a reply: posted, or known to the service already *)
Lemma posted_later l s (w' : world request shared) ps reply :
  later (l ++ [RPost ps reply], s) w' → reported w'.1 reply.
Proof. intros [k Hk]. left. exists ps. simpl in Hk. rewrite Hk. set_solver. Qed.

Lemma rg_storeInCache k v w :
  acked w.1 k v → session_inv w →
  rg session_inv (λ _ w', later w w' ∧ session_inv w') (storeInCache k v) w.
Proof.
  destruct w as [l s]. simpl. intros Hack HI. split; [by apply session_inv_log|].
  intros [l' s'] Hl HI'. simpl. assert (later (l, s) (l', s')).
  { etrans; [apply (later_snoc _ RNow _ s)|done]. }
  split; [|intros; split; [by etrans|done]].
  destruct HI' as [Hc Hx]. split; simpl; [|done]. intros k' v' e.
  destruct (decide (k' = k)) as [->|Hne].
  - rewrite lookup_insert_eq. intros [= <- <-]. eapply acked_later; [|done].
    eapply prefix_app_l. exact Hl.
  - rewrite lookup_insert_ne by done. apply Hc.
Qed.

(** The part of sendStepReply after the cache lookup. *)
Definition post_and_store (reply : step_reply) : Go () :=
  err ← PostStepReply cfg reply;
  match err with
  | Some _ => mret ()
  | None => if (r_exit_code reply =? 0)%Z
            then storeInCache (r_step_type reply) (r_output reply) else mret ()
  end.

Lemma rg_post_and_store reply w :
  session_inv w →
  rg session_inv (λ _ w', reported w'.1 reply ∧ later w w' ∧ session_inv w') (post_and_store reply) w.
Proof.
  destruct w as [l s]. intros HI. split; [by apply session_inv_log|].
  intros [l1 s1] Hl1 HI1. cbn [proc_bind_go fst].
  assert (Hlater : later (l, s) (l1, s1)) by (etrans; [apply later_snoc|exact Hl1]).
  assert (Hrep : ∀ w', later (l1, s1) w' → session_inv w' →
            reported w'.1 reply ∧ later (l, s) w' ∧ session_inv w').
  { intros w' Hl HI'. split_and!; [|by etrans|done]. eapply posted_later. etrans; [exact Hl1|exact Hl]. }
  destruct (e_post l reply) as [err|] eqn:Epost; [by apply (Hrep (l1, s1))|].
  destruct (r_exit_code reply =? 0)%Z eqn:E; [|by apply (Hrep (l1, s1))].
  apply (rg_conseq _ (λ _ w', later (l1, s1) w' ∧ session_inv w')); [naive_solver|].
  apply rg_storeInCache; [|done]. exists l, (v2_params cfg), reply.
  split_and!; auto. by apply Z.eqb_eq.
Qed.

Lemma rg_alreadyExistsInService k v w :
  session_inv w →
  rg session_inv (λ known w', later w w' ∧ session_inv w' ∧ (known = true → acked w'.1 k v))
    (alreadyExistsInService k v) w.
Proof.
  destruct w as [l s]. intros HI. simpl. split; [done|]. intros [l1 s1] Hl1 HI1.
  destruct (sh_cache s !! k) as [[v' exp]|] eqn:Ec; simpl; [|done].
  assert (Hrep : ∀ w2, later (l1, s1) w2 → session_inv w2 →
     later (l, s) w2 ∧ session_inv w2 ∧ (String.eqb v' v = true → acked w2.1 k v)).
  { intros w2 Hl2 HI2. split_and!; [by etrans|done|]. intros ->%String.eqb_eq.
    eapply acked_later; [|by eapply (proj1 HI)]. by etrans. }
  destruct (exp >? 0)%Z; simpl; [|by apply (Hrep (l1, s1))].
  split; [by apply session_inv_log|]. intros w2 Hl2 HI2.
  assert (later (l1, s1) w2) by (etrans; [apply later_snoc|done]).
  destruct (_ >? exp)%Z; simpl; [split_and!; [by etrans|done|done]|by apply Hrep].
Qed.

Lemma rg_sendStepReply reply w :
  session_inv w →
  rg session_inv (λ _ w', reported w'.1 reply ∧ later w w' ∧ session_inv w') (sendStepReply reply) w.
Proof.
  intros HI. unfold StepProcessor.sendStepReply.
  apply (rg_bind _ (λ known w', later w w' ∧ session_inv w' ∧ (known = true → reported w'.1 reply))).
  - destruct (r_exit_code reply =? 0)%Z eqn:E0; [|done]. apply Z.eqb_eq in E0.
    eapply rg_conseq; [|by apply rg_alreadyExistsInService]. intros known w' (Hl & HI' & Hk).
    split_and!; [done..|]. intros E. right. auto.
  - intros known w' Hl (_ & HI' & Hk). destruct known; [by split; [apply Hk|]|].
    apply (rg_conseq _ (λ _ w'', reported w''.1 reply ∧ later w' w'' ∧ session_inv w'')).
    + intros _ w'' (? & ? & ?). split_and!; [done| |done]. by etrans.
    + by apply rg_post_and_store.
Qed.

(** ** A goroutine and the main loop keep the session invariant *)
(** The service has the answer to the instruction. *)
Definition answered (s : step) (l : log) : Prop :=
  ∃ reply, r_step_type reply = s_step_type s ∧ r_step_id reply = s_step_id s ∧ reported l reply.

Lemma rg_answer s reply w :
  session_inv w → r_step_type reply = s_step_type s → r_step_id reply = s_step_id s →
  rg session_inv (λ _ w', answered s w'.1) (sendStepReply reply) w.
Proof.
  intros HI H1 H2. eapply rg_conseq; [|by apply rg_sendStepReply]. intros _ w' (H & _). by exists reply.
Qed.

Lemma rg_handleStep s w : session_inv w → rg session_inv (λ _ w', answered s w'.1) (handleStep s) w.
Proof.
  intros HI. unfold StepProcessor.handleStep.
  eapply rg_bind; [apply (rg_session _ _ _ (diagnose_emits (λ _, True) session_guar (λ _ _, I)) HI)|].
  intros [code err] w1 _ (Hd & Hl1 & HI1).
  destruct Hd as [[-> ->]|[-> [e ->]]].
  2: { change (rg session_inv (λ _ w', answered s w'.1) (sendStepReply (createStepReply (s_step_type s)
         (s_step_id s) "" (err_msg e) MediaDisconnected)) w1). by apply rg_answer. }
  change (negb (Undetected =? Undetected)%Z) with false. cbv iota.
  eapply rg_bind.
  { apply rg_session; [|exact HI1].
    eapply pspec_mono; [apply handleSingleStepV2_emits|done|apply runner_session_guar|].
    intros a Ha. exact Ha. }
  intros reply w2 _ ((Hty & Hid) & _ & HI2).
  eapply rg_bind; [apply (rg_session _ _ _ (rediagnose_emits (λ _, True) session_guar reply (λ _ _, I)) HI2)|].
  intros reply' w3 _ (Hreply & _ & HI3).
  assert (Hsame : r_step_type reply' = s_step_type s ∧ r_step_id reply' = s_step_id s) by (by destruct Hreply as [->| ->]).
  eapply rg_bind; [by apply rg_sendStepReply|].
  intros _ [l4 s4] _ (Hrep & _ & HI4). assert (Hans : answered s l4) by (exists reply'; naive_solver).
  destruct (requiresRestart reply') eqn:Er; [|exact Hans]. simpl.
  split; [|intros w' [t Ht] _; simpl in *; destruct Hans as (r & ? & ? & Hr); exists r; split_and!; [done..|];
           eapply reported_later; [by exists t|done]].
  destruct HI4 as [Hc _]. split; simpl; [done|]. eauto.
Qed.

(** An instruction is answered; a nil never is. *)
Definition answered_instruction (i : option step) (l : log) : Prop := ∃ s, i = Some s ∧ answered s l.

(** The service can crash the agent: a null in its list of instructions makes the
    goroutine panic, and with it the process. *)
Theorem null_instruction_never_returns : pspec (λ _, True) (λ _ _, True) (λ _, False) (handleInstruction None).
Proof. eapply pspec_bind; [by apply (diagnose_emits (λ _, True) (λ _ _, True))|]. by intros. Qed.

Lemma rg_handleInstruction i w :
  session_inv w → rg session_inv (λ _ w', answered_instruction i w'.1) (handleInstruction i) w.
Proof.
  intros HI. destruct i as [s|]; cbn [handleInstruction].
  - eapply rg_conseq; [|by apply rg_handleStep]. intros ? w' H. by exists s.
  - eapply rg_bind; [apply (rg_session _ _ _ (diagnose_emits (λ _, True) session_guar (λ _ _, I)) HI)|]. done.
Qed.

Lemma ProcessSteps_emits fuel attempts :
  emits (λ r, is_post r = false) session_guar (ProcessSteps cfg fuel attempts).
Proof.
  assert (Hs : emits (λ r, is_post r = false) session_guar (processSingleSession cfg)).
  { unfold processSingleSession, GetNextSteps, invalidateCache, handleSteps.
    prog_steps; apply emits_shared; intros sh; split; auto. }
  assert (Ho : emits (λ r, is_post r = false) session_guar (newSession cfg)).
  { eapply emits_mono; [eapply spec_emits, spec_New|by intros r (op & q & ->)|]. intros sh ? <-. split; auto. }
  assert (Hr : ∀ n, emits (λ r, is_post r = false) session_guar (retrySession cfg n)).
  { induction n; [done|]. cbn [retrySession]. prog_steps. }
  induction fuel; [done|]. cbn [ProcessSteps]. prog_steps.
  apply emits_shared. intros sh; split; auto.
Qed.

(** ** The whole process: the main loop and the goroutines of the steps *)
(** [go commands.ProcessSteps(...)]: a fatal error ends the process with code 1;
    out of fuel the loop just stops, and the rest may go on. *)
Definition main_loop (fuel attempts : nat) : Go () :=
  r ← ProcessSteps cfg fuel attempts;
  match r with
  | ExitFatal => exit_process 1
  | OutOfFuel => block
  | _ => mret ()
  end.

Lemma main_loop_emits fuel attempts : emits (λ r, is_post r = false) session_guar (main_loop fuel attempts).
Proof. apply emits_bind; [apply ProcessSteps_emits|]. by intros []. Qed.

Lemma rg_main_loop fuel attempts w : session_inv w → rg session_inv (λ _ _, True) (main_loop fuel attempts) w.
Proof.
  intros HI. apply (rg_conseq _ (λ a w1, True ∧ later w w1 ∧ session_inv w1)); [done|].
  apply rg_session; [|done]. eapply emits_mono; [apply main_loop_emits|done..].
Qed.

Definition dequeue (s : shared) : shared :=
  Shared (sh_cache s) (sh_cancelled s) (tail (sh_go s)) (sh_image_sem s) (sh_pull_sem s).

(** One action of any goroutine, or the start of a queued one. *)
Inductive agent_step : pool request shared () → pool request shared () → Prop :=
  | agent_act p p' : pstep p p' → agent_step p p'
  | agent_go l sh procs s q :
      sh_go sh = s :: q →
      agent_step (Pool l sh procs) (Pool l (dequeue sh) (procs ++ [handleInstruction s])).

(** The process ends when its main goroutine, the first, returns, when any
    goroutine panics, and when any calls os.Exit; the others go no further then. *)
Definition ended (p : pool request shared ()) : Prop :=
  head (p_procs p) = Some (PRet ()) ∨ Exists (λ m, m = PPanic) (p_procs p) ∨ Exists (λ r, exits r = true) (p_log p).
Inductive process_step (p p' : pool request shared ()) : Prop :=
  | process_act : ¬ ended p → agent_step p p' → process_step p p'.

Lemma process_sub p p' : process_step p p' → agent_step p p'.
Proof. by intros []. Qed.
Lemma process_agent p p' : rtc process_step p p' → rtc agent_step p p'.
Proof. apply rtc_subrel, process_sub. Qed.

(** A step of the process that leaves the main goroutine where it is. *)
Inductive side_step : pool request shared () → pool request shared () → Prop :=
  | side_act l s l' s' main gs gs' :
      ¬ ended (Pool l s (main :: gs)) → pstep (Pool l s gs) (Pool l' s' gs') →
      side_step (Pool l s (main :: gs)) (Pool l' s' (main :: gs'))
  | side_go l sh main gs i q :
      ¬ ended (Pool l sh (main :: gs)) → sh_go sh = i :: q →
      side_step (Pool l sh (main :: gs)) (Pool l (dequeue sh) (main :: gs ++ [handleInstruction i])).

Lemma side_process p p' : side_step p p' → process_step p p'.
Proof.
  intros [l s l' s' main gs gs' Hl Hs|l sh main gs i q Hl Hq]; (split; [done|]).
  - apply agent_act. by apply pstep_cons.
  - apply (agent_go l sh (main :: gs) i q Hq).
Qed.

Definition initial (fuel attempts : nat) : pool request shared () :=
  Pool [] shared_init [main_loop fuel attempts].

(** A pool whose first processes have the postconditions [Qs]. *)
Definition agent_ok (Qs : list (() → world request shared → Prop)) (p : pool request shared ()) : Prop :=
  ∃ Qs', pool_ok session_inv (Qs ++ Qs') p.

Lemma agent_step_ok Qs p p' : agent_step p p' → agent_ok Qs p → agent_ok Qs p'.
Proof.
  intros [q q' Hs|l sh procs s q Hq] [Qs' Hok]; [exists Qs'; by eapply pool_ok_step|].
  destruct Hok as [HI Hall]. simpl in *. exists (Qs' ++ [λ _ w', answered_instruction s w'.1]). split; simpl.
  - eapply session_inv_guar; [|exact HI]. split; auto.
  - rewrite (assoc_L (++)). apply Forall2_app; [eapply safe_procs_later; [apply later_same|exact Hall]|].
    constructor; [|constructor]. intros w' _ HI'. by apply rg_handleInstruction.
Qed.

Lemma session_inv_init : session_inv ([], shared_init).
Proof. split; simpl; [intros k v e; by rewrite lookup_empty|done]. Qed.

Lemma reachable_session_inv fuel attempts p :
  rtc agent_step (initial fuel attempts) p → session_inv (p_log p, p_shared p).
Proof.
  intros Hrun. cut (agent_ok [λ _ _, True] p); [by intros [Qs [HI _]]|].
  apply (invariant_rtc _ _ _ _ (agent_step_ok _) Hrun). exists []. split; [apply session_inv_init|].
  constructor; [|constructor]. intros w' _. apply rg_main_loop.
Qed.

(** No result is lost to the cache: run from a state of the process in
    which the cache is truthful, with any goroutines interleaved, sendStepReply
    ends with the reply posted or with the same result accepted before. *)
Theorem sendStepReply_reports reply w :
  session_inv w →
  rg session_inv (λ _ w', reported w'.1 reply) (sendStepReply reply) w.
Proof.
  intros HI. eapply rg_conseq; [|by apply rg_sendStepReply]. by intros _ w' [? _].
Qed.

Lemma at_most_sendStepReply reply : at_most 1 is_post (sendStepReply reply).
Proof.
  apply (at_most_bind 0 1).
  - apply (at_most_emits _ _ (λ r, is_post r = false) (λ _ _, True)); [|done].
    destruct (_ =? 0)%Z; [|done]. unfold alreadyExistsInService. prog_steps.
  - intros [|]; [done|]. apply (at_most_bind 1 0); [by intros l|].
    intros [e|]; [done|]. destruct (_ =? 0)%Z; [|done]. by intros l s.
Qed.

(** Every instruction is answered at most once: on no path does the
    goroutine of a step post more than one reply. *)
Theorem handleStep_posts_at_most_once s : at_most 1 is_post (handleStep s).
Proof.
  unfold StepProcessor.handleStep.
  assert (Hdiag : at_most 0 is_post (diagnoseSystem cfg)).
  { eapply at_most_emits; [eapply emits_weaken, (diagnose_emits (λ r, service_call r = false) (λ _ _, True))|]; [auto|apply no_service_call]. }
  apply (at_most_bind 0 1); [done|]. intros [code err]. destruct (negb _).
  { apply (at_most_bind 0 1); [by destruct err|]. intros. apply at_most_sendStepReply. }
  apply (at_most_bind 0 1).
  { eapply at_most_emits; [eapply emits_weaken, handleSingleStepV2_emits|apply no_service_call]. }
  intros reply. apply (at_most_bind 0 1).
  { eapply at_most_emits; [eapply emits_weaken, (rediagnose_emits (λ r, service_call r = false) (λ _ _, True))|]; [auto|apply no_service_call]. }
  intros reply'. apply (at_most_bind 1 0); [apply at_most_sendStepReply|].
  intros _. by destruct (requiresRestart reply').
Qed.

(** C24. A step is not started on a broken system: when the first diagnosis
    finds the installation media gone, the goroutine does nothing but post the
    diagnosis with exit code 256 and an empty output. *)
Theorem broken_media_skips_the_step s l sh code err l1 sh1 :
  run (diagnoseSystem cfg) l sh = (Done (code, err), l1, sh1) → code ≠ Undetected →
  ∃ msg, err = Some msg ∧ code = MediaDisconnected ∧
    run (handleStep s) l sh =
    run (sendStepReply (StepReply (s_step_type s) (s_step_id s) 256 "" (err_msg msg))) l1 sh1.
Proof.
  intros Hrun Hne.
  destruct (pspec_run _ _ _ _ l sh (diagnose_emits (λ _, True) (λ _ _, True) (λ _ _, I)))
    as (o & t & s' & E & _ & _ & HQ).
  rewrite Hrun in E. simplify_eq. destruct (HQ _ eq_refl) as [[? _]|[-> [msg ->]]]; [done|].
  exists msg. split_and!; [done..|]. unfold StepProcessor.handleStep.
  by rewrite (run_bind_done _ _ _ _ _ _ _ Hrun).
Qed.

(** A failed step is diagnosed again: when the second diagnosis finds the
    media gone, the reply keeps the step's output and error and its exit code
    becomes 256; otherwise the reply is the runner's own. *)
Theorem rediagnose_outcome reply l sh o l' sh' :
  run (rediagnose reply) l sh = (Done o, l', sh') →
  (o = reply ∨ o = set_exit reply 256) ∧ (r_exit_code reply = 0%Z → o = reply ∧ l' = l).
Proof.
  intros Hrun.
  destruct (pspec_run _ _ _ _ l sh (rediagnose_emits (λ _, True) (λ _ _, True) reply (λ _ _, I)))
    as (o' & t & s' & E & _ & _ & HQ).
  rewrite Hrun in E. simplify_eq. split; [by apply HQ|].
  intros E0. unfold rediagnose in Hrun. rewrite E0 in Hrun. simpl in Hrun. by simplify_eq.
Qed.

(** The polling delay is the number of seconds the service asks for, as
    long as it fits the nanosecond range of time.Duration, and the loop exits
    exactly on the post-step action "exit"; the instructions are queued in order. *)
Theorem session_delay sts l sh :
  e_next_steps (l ++ [RNow]) = inl sts →
  (0 <= NextInstructionSeconds sts <= 9223372036)%Z →
  run (processSingleSession cfg) l sh =
    (Done (SessionOk (NextInstructionSeconds sts * 1000000000)
                     (bool_decide (PostStepAction sts = Some "exit"))),
     l ++ [RNow; RNet "V2GetNextSteps" (v2_params cfg ++ [Itoa (e_now l / 1000000000)])],
     Shared (sh_cache sh) (sh_cancelled sh) (sh_go sh ++ Instructions sts)
            (sh_image_sem sh) (sh_pull_sem sh)).
Proof.
  intros E Hrange. unfold processSingleSession, GetNextSteps. cbn -[int64].
  rewrite E. cbn -[int64]. rewrite <-(assoc_L (++)). cbn -[int64].
  rewrite (int64_id (NextInstructionSeconds sts)) by (unfold int64_min, int64_max; lia).
  rewrite int64_id by (unfold second, int64_min, int64_max; lia).
  unfold second. do 4 f_equal.
  destruct (PostStepAction sts) as [a|]; simpl; [|done].
  destruct (String.eqb_spec a "exit"); symmetry; [apply bool_decide_eq_true|apply bool_decide_eq_false]; naive_solver.
Qed.
End Facts.

(** ** The agent, whatever the interleaving *)
Section Reachable.
Context {env : Env} {srv : Service} {connect : Connect} {factory : ToolRunnerFactory} {laws : FactoryLaws}.
Context (unmarshalUpgradeAgentResponse : string → result string).
Context (cfg : AgentConfig).

(** C1. The reply cache never lies: whatever the interleaving of the main
    loop and of the goroutines of the steps, a result it holds for a step type
    has been accepted by the service, as a reply of that type with exit code 0. *)
Theorem cached_results_are_acknowledged fuel attempts p :
  rtc (agent_step unmarshalUpgradeAgentResponse cfg) (initial cfg fuel attempts) p →
  ∀ stepType output expiry,
    sh_cache (p_shared p) !! stepType = Some (output, expiry) → acked (p_log p) stepType output.
Proof. intros Hrun. apply (reachable_session_inv _ _ _ _ _ Hrun). Qed.

(** C6. The process only cancels itself for a restart after an upgrade:
    in every reachable state in which the context is cancelled, an
    upgrade-agent reply whose output decodes to success has been posted, or was
    already known to the service. *)
Theorem cancelled_only_after_upgrade fuel attempts p :
  rtc (agent_step unmarshalUpgradeAgentResponse cfg) (initial cfg fuel attempts) p →
  sh_cancelled (p_shared p) = true →
  ∃ reply, r_step_type reply = "upgrade-agent" ∧
    unmarshalUpgradeAgentResponse (r_output reply) = Good "success" ∧ reported (p_log p) reply.
Proof.
  intros Hrun Hc. destruct (reachable_session_inv _ _ _ _ _ Hrun) as [_ Hx].
  destruct (Hx Hc) as [(reply & Hr%restart_upgrade & Hrep)|[]]. exists reply. naive_solver.
Qed.
End Reachable.

(** * A concrete agent: every hypothesis above can hold *)
Module StepDemo.
Definition upgrade_step : step := Step "upgrade-agent" "upgrade-1" ["{}"].
Definition srv : Service := {|
  e_post := λ _ _, None;
  e_next_steps := λ _, inl (Steps [Some upgrade_step] 60 None);
  e_register := λ _ _, inl None;
  e_backoff := λ _, None
|}.
Definition factory : ToolRunnerFactory := {|
  Create := λ _ _ _, mret (Good (mkRunner (mret ("success", "", 0%Z)) "upgrade_agent" (mret [])))
|}.
Definition laws : @FactoryLaws factory.
Proof. split. intros cfg st args. simpl. by split. Defined.

Definition dry : DryRunConfig := mkDryRunConfig false "" "" "" "" "".
Definition cfg : AgentConfig :=
  mkAgentConfig dry (mkConnectivityConfig "https://svc" "" "env" "v1" "" false "") 60 "host"
                (mkLoggingConfig false true false).

(** A host with the full ISO mounted whose device has gone. *)
Definition lost_media : Env := {|
  e_run := λ _ _ _, ("/dev/sr0 /run/media/iso", "", None);
  e_run_to_file := e_run_to_file (Env := null_env);
  e_create := e_create (Env := null_env);
  e_read_file := e_read_file (Env := null_env);
  e_stat := λ _ p, Good (FileInfo p true false 0 0 0);
  e_read_dir := e_read_dir (Env := null_env);
  e_eval_symlinks := e_eval_symlinks (Env := null_env);
  e_abs := e_abs (Env := null_env);
  e_open := λ _ _, Some (errorf "no medium found");
  e_read_full := e_read_full (Env := null_env);
  e_write_file := e_write_file (Env := null_env);
  e_fs_op := e_fs_op (Env := null_env);
  e_now := e_now (Env := null_env);
  e_timer_fired := e_timer_fired (Env := null_env);
  e_schedule := e_schedule (Env := null_env)
|}.

(** A scheduler for the whole agent: [Some i] lets process [i] act, [None]
    starts a queued goroutine. *)
Section Schedule.
Context (env : Env).
Definition agent_act1 (c : option nat) (p : pool request shared ()) : option (pool request shared ()) :=
  match c with
  | Some i => pool_act i p
  | None =>
      match sh_go (p_shared p) with
      | [] => None
      | s :: _ => Some (Pool (p_log p) (dequeue (p_shared p))
                          (p_procs p ++ [@handleInstruction env srv factory Good cfg s]))
      end
  end.
Fixpoint agent_run (cs : list (option nat)) (p : pool request shared ()) : option (pool request shared ()) :=
  match cs with
  | [] => Some p
  | c :: cs' => p' ← agent_act1 c p; agent_run cs' p'
  end.
Lemma agent_run_sound cs p p' :
  agent_run cs p = Some p' → rtc (@agent_step env srv factory Good cfg) p p'.
Proof.
  revert p. induction cs as [|c cs IH]; intros p; simpl; [intros [= ->]; apply rtc_refl|].
  destruct (agent_act1 c p) as [p1|] eqn:E; simpl; [|done]. intros H.
  eapply rtc_l; [|by apply IH]. destruct c as [i|]; simpl in E.
  - apply agent_act, (pool_act_sound i). done.
  - destruct p as [l sh ps]. simpl in *. destruct (sh_go sh) as [|s q] eqn:Eq; [done|].
    simplify_eq. by eapply agent_go.
Qed.
  End Schedule.

  (** The main loop polls (three actions) and waits while the upgrade goroutine
  runs: stat, cache lookup, post, time, store, cancel. *)
Definition schedule : list (option nat) :=
  [Some 0; Some 0; Some 0; None] ++ replicate 6 (Some 1).
Definition start := @initial null_env srv plain_connect cfg 3 3.
Definition final : option (pool request shared ()) := agent_run null_env schedule start.

Definition final_cache : option (string * Z) :=
  p ← final; sh_cache (p_shared p) !! "upgrade-agent".
Definition final_cancelled : bool :=
  match final with Some p => sh_cancelled (p_shared p) | None => false end.

Lemma demo_reachable p : final = Some p → rtc (@agent_step null_env srv factory Good cfg) start p.
Proof. apply agent_run_sound. Qed.
Lemma demo_cache : final_cache = Some ("success", hour).
Proof. vm_compute. reflexivity. Qed.
Lemma demo_cancelled : final_cancelled = true.
Proof. vm_compute. reflexivity. Qed.
Lemma demo_reaches :
  ∃ p, final = Some p ∧ rtc (@agent_step null_env srv factory Good cfg) start p ∧
       sh_cache (p_shared p) !! "upgrade-agent" = Some ("success", hour) ∧ sh_cancelled (p_shared p) = true.
Proof.
  pose proof demo_cache as Hc. pose proof demo_cancelled as Hx. unfold final_cache, final_cancelled in *.
  destruct final as [p|] eqn:E; [|discriminate]. exists p. split_and!; [done|by apply demo_reachable|done..].
Qed.
End StepDemo.

Section Witnesses.
  Import StepDemo.
#[local] Existing Instance laws.

Lemma cached_results_are_acknowledged_witness :
  ∃ p, final = Some p ∧ sh_cache (p_shared p) !! "upgrade-agent" = Some ("success", hour) ∧
       @acked srv (p_log p) "upgrade-agent" "success".
Proof.
  destruct demo_reaches as (p & E & Hr & H & _). exists p. split; [exact E|]. split; [exact H|].
  exact (@cached_results_are_acknowledged null_env srv plain_connect factory laws Good cfg 3 3 p Hr _ _ _ H).
Defined.

Lemma cancelled_only_after_upgrade_witness :
  ∃ p, final = Some p ∧ sh_cancelled (p_shared p) = true ∧
    ∃ reply, r_step_type reply = "upgrade-agent" ∧ Good (r_output reply) = Good "success" ∧
             @reported srv (p_log p) reply.
Proof.
  destruct demo_reaches as (p & E & Hr & _ & H). exists p. split; [exact E|]. split; [exact H|].
  exact (@cancelled_only_after_upgrade null_env srv plain_connect factory laws Good cfg 3 3 p Hr H).
Defined.

Lemma sendStepReply_reports_witness :
  rg (@session_inv srv no_other_reason Good) (λ _ w', @reported srv w'.1 (StepReply "inventory" "i" 0 "{}" ""))
     (@sendStepReply null_env srv cfg (StepReply "inventory" "i" 0 "{}" "")) ([], shared_init).
Proof.
  apply (@sendStepReply_reports null_env srv factory laws no_other_reason Good cfg).
  split; [intros k v e H; simpl in H; rewrite lookup_empty in H; discriminate H|intros H; discriminate H].
Defined.

Lemma handleStep_posts_at_most_once_witness :
  at_most 1 is_post (@handleStep null_env srv factory Good cfg upgrade_step).
Proof. apply (@handleStep_posts_at_most_once null_env srv factory laws Good cfg). Defined.

Lemma broken_media_skips_the_step_witness :
  ∃ msg, Some (wrap (errorf "no medium found") "cannot access the media (ISO) - media was likely disconnected")
           = Some msg ∧ 256%Z = MediaDisconnected ∧
    run (@handleStep lost_media srv factory Good cfg upgrade_step) [] shared_init =
    run (@sendStepReply lost_media srv cfg (StepReply "upgrade-agent" "upgrade-1" 256 "" (err_msg msg)))
        [RFile "Stat" "/run/media/iso";
         privileged "findmnt" ["--raw"; "--noheadings"; "--output"; "SOURCE,TARGET"; "--target"; "/run/media/iso"];
         RFile "Open" "/dev/sr0"] shared_init.
Proof.
  apply (@broken_media_skips_the_step lost_media srv factory Good cfg upgrade_step [] shared_init);
    [vm_compute; reflexivity|discriminate].
Defined.

Lemma rediagnose_outcome_witness :
  let reply := StepReply "inventory" "i" 1 "out" "err" in
  let o := set_exit reply 256 in
  let l := [RFile "Stat" "/run/media/iso";
            privileged "findmnt" ["--raw"; "--noheadings"; "--output"; "SOURCE,TARGET"; "--target"; "/run/media/iso"];
            RFile "Open" "/dev/sr0"] in
  (o = reply ∨ o = set_exit reply 256) ∧ (r_exit_code reply = 0%Z → o = reply ∧ l = []).
Proof.
  intros reply o l.
  refine (@rediagnose_outcome lost_media cfg reply [] shared_init o l shared_init _).
  vm_compute. reflexivity.
Defined.

Lemma session_delay_witness :
  run (@processSingleSession null_env srv cfg) [] shared_init =
    (Done (SessionOk (60 * 1000000000) false),
     [RNow; RNet "V2GetNextSteps" (v2_params cfg ++ ["0"])],
     Shared ∅ false [Some upgrade_step] false false).
Proof.
  apply (@session_delay null_env srv Good cfg (Steps [Some upgrade_step] 60 None) [] shared_init);
    [reflexivity|simpl; lia].
Defined.
End Witnesses.
