(* ===== verification/Instructions.v ===== *)
(** * No instruction of the service is lost (src/commands/step_processor.go)

    The main loop and the goroutines of the steps, interleaved in any way: every
    instruction the service has sent is about to be queued by the main loop, waits
    for its goroutine to start, is being handled, or has been answered. *)
From S2P Require Import Prelude GoStrings Host Config Session StepProcessor.

Section Instructions.
Context {env : Env} {srv : Service} {connect : Connect} {factory : ToolRunnerFactory} {laws : FactoryLaws}.
Context (unmarshalUpgradeAgentResponse : string → result string).
Context (cfg : AgentConfig).

Notation handleInstruction := (handleInstruction unmarshalUpgradeAgentResponse cfg).
Notation agent_step := (agent_step unmarshalUpgradeAgentResponse cfg).
Notation session_inv := (session_inv unmarshalUpgradeAgentResponse).
Notation initial := (initial cfg).

(** ** What the service has sent, read off the log *)
(** The instructions in the answer to a question asked after [l]. *)
Definition sent_after (l : log) : list (option step) :=
  match e_next_steps l with inl sts => Instructions sts | inr _ => [] end.
Definition received : log → list (option step) := log_map (λ l r, if is_next_steps r then sent_after l else []).

Lemma received_snoc l r : received (l ++ [r]) = received l ++ (if is_next_steps r then sent_after l else []).
Proof. apply log_map_snoc. Qed.

(** ** The main loop

    [queueing Q pending m]: [m], with the instructions [pending] received and not
    queued yet, queues what it has received, in order, and nothing else; it does
    not stop, wait or ask for anything with instructions pending. *)
Fixpoint queueing {A} (Q : A → list (option step) → Prop) (pending : list (option step)) (m : Go A) : Prop :=
  match m with
  | PRet a => Q a pending
  | PPanic => False
  | PBlock => pending = []
  | PAsk r f k => pending = [] ∧ ∀ l, queueing Q (if is_next_steps r then sent_after l else []) (k (f l))
  | PState f k => ∀ s, ∃ q rest, pending = q ++ rest ∧ sh_go (f s).2 = sh_go s ++ q ∧ queueing Q rest (k (f s).1)
  end.

Lemma queueing_bind {A B} (Q : A → list (option step) → Prop) (Q' : B → list (option step) → Prop) pending (m : Go A) (f : A → Go B) :
  queueing Q pending m → (∀ a p, Q a p → queueing Q' p (f a)) → queueing Q' pending (m ≫= f).
Proof.
  unfold mbind, proc_bind. revert pending. induction m as [a| | |X r g k IH|X g k IH]; intros pending; simpl; auto.
  { intros [-> H] Hf. auto. }
  intros H Hf s. destruct (H s) as (q & rest & H1 & H2 & H3). exists q, rest. auto.
Qed.

(** Code that does not ask for steps and leaves the queue alone. *)
Lemma queueing_spec {A} (Q : A → Prop) (m : Go A) :
  spec (λ r, is_next_steps r = false) (λ s s', sh_go s' = sh_go s) Q m → queueing (λ a p, Q a ∧ p = []) [] m.
Proof.
  induction m as [a| | |X r f k IH|X f k IH]; simpl; auto; try done.
  - intros [-> H]. split; [done|]. intros l. by apply IH.
  - intros H s. destruct (H s) as [E Hk]. exists [], []. rewrite E.
    split; [done|]. split; [by rewrite app_nil_r|by apply IH].
Qed.
Lemma queueing_mono {A} (Q Q' : A → list (option step) → Prop) pending (m : Go A) :
  queueing Q pending m → (∀ a p, Q a p → Q' a p) → queueing Q' pending m.
Proof. intros Hm HQ. revert pending Hm. induction m; simpl; naive_solver. Qed.

Notation idle := (λ _ p, p = @nil (option step)).

Lemma queueing_newSession : queueing idle [] (newSession cfg).
Proof.
  apply (queueing_mono (λ a p, True ∧ p = [])); [|naive_solver]. apply queueing_spec.
  eapply spec_mono; [apply spec_New|by intros r (op & p & ->)|by intros sh _ <-|done].
Qed.

Lemma queueing_session : queueing idle [] (processSingleSession cfg).
Proof.
  unfold processSingleSession, GetNextSteps. split; [done|]. intros l. split; [done|]. intros l'. cbn [is_next_steps app proc_bind_go ask].
  change (String.eqb "V2GetNextSteps" "V2GetNextSteps") with true. unfold sent_after.
  destruct (e_next_steps l') as [sts|err].
  - intros s. exists (Instructions sts), []. rewrite app_nil_r. done.
  - intros s. exists [], []. rewrite !app_nil_r. split; [done|]. split; [done|]. by destruct (ae_class err).
Qed.

Lemma queueing_retry n : queueing idle [] (retrySession cfg n).
Proof.
  induction n as [|n IH]; [done|]. cbn [retrySession].
  eapply queueing_bind; [apply queueing_newSession|]. intros [se|err] p ->; [|done].
  eapply queueing_bind; [apply queueing_session|]. intros [e|e|d ex] p ->; [done| |done].
  split; [done|]. intros l. cbn [is_next_steps app proc_bind_go]. change (String.eqb "NextBackOff" "V2GetNextSteps") with false.
  destruct (e_backoff l); [|done]. split; [done|]. intros l'. exact IH.
Qed.

Lemma queueing_main fuel attempts : queueing idle [] (main_loop cfg fuel attempts).
Proof.
  unfold main_loop. apply (queueing_bind idle); [|by intros [] p ->].
  induction fuel as [|fuel IH]; [done|]. cbn [ProcessSteps].
  eapply queueing_bind; [apply queueing_retry|]. intros [[e|e|d ex]|] p ->; [done..| |done].
  split; [done|]. intros l. cbn [is_next_steps app proc_bind_go]. intros s. exists [], []. cbn [fst snd].
  split; [done|]. split; [by rewrite app_nil_r|].
  change (queueing idle [] (if sh_cancelled s && negb (e_timer_fired l) then mret ExitCancelled
    else if ex then mret ExitAction else ProcessSteps cfg fuel attempts)).
  destruct (sh_cancelled s && negb (e_timer_fired l)); [done|]. by destruct ex.
Qed.

(** ** The goroutine of a step *)
Definition silent_request (r : request) : Prop := is_next_steps r = false ∧ exits r = false.
Notation silent := (emits silent_request (λ s s', sh_go s' = sh_go s)).

Lemma silent_no_service_call r : service_call r = false → silent_request r.
Proof. intros H. split; [by apply no_service_call|by apply no_exit]. Qed.

Lemma silent_sendStepReply reply : silent (sendStepReply cfg reply).
Proof.
  unfold sendStepReply, alreadyExistsInService, storeInCache, PostStepReply. prog_steps.
Qed.

Lemma silent_diagnose : silent (diagnoseSystem cfg).
Proof. eapply emits_weaken, diagnose_emits, silent_no_service_call. Qed.

Lemma silent_handleStep s : silent (StepProcessor.handleStep unmarshalUpgradeAgentResponse cfg s).
Proof.
  unfold StepProcessor.handleStep. pose proof silent_diagnose as Hd.
  assert (He : ∀ err, silent (errString err)) by (intros err; unfold errString; prog_steps).
  assert (Hv : silent (handleSingleStepV2 cfg (s_step_type s) (s_step_id s) (s_args s))).
  { eapply emits_mono; [eapply emits_weaken, handleSingleStepV2_emits|apply silent_no_service_call|].
    by intros sh sh' (_ & _ & ->). }
  pose proof silent_sendStepReply as Hr.
  apply emits_bind; [done|]. intros [code err]. destruct (negb _).
  { apply emits_bind; [done|]. intros. apply Hr. }
  apply emits_bind; [done|]. intros reply. apply emits_bind.
  { destruct (negb _); [|done]. apply emits_bind; [done|]. intros [code' err']. destruct (negb _); [|done].
    apply emits_bind; [done|]. done. }
  intros reply'. apply emits_bind; [apply Hr|]. intros _. destruct (requiresRestart _ _); [|done].
  by intros sh.
Qed.

Lemma silent_handleInstruction i : silent (handleInstruction i).
Proof. destruct i as [s|]; [apply silent_handleStep|]. apply emits_bind; [apply silent_diagnose|done]. Qed.

(** ** How the process may end
    Only the main loop ends the process itself, with code 1, when it cannot open a
    session. *)
Definition exit_reason (r : request) : Prop :=
  match r with RExit code => code = 1%Z ∧ cannot_connect cfg | _ => True end.
Lemma exit_reason_silent r : exits r = false → exit_reason r.
Proof. by destruct r. Qed.

Lemma processSingleSession_reason :
  pspec exit_reason (λ _ _, True) (λ r, ∀ e, r ≠ SessionFatal e) (processSingleSession cfg).
Proof.
  unfold processSingleSession, GetNextSteps. simpl. split; [done|]. intros l. split; [done|]. intros l'.
  destruct (e_next_steps l') as [sts|err]; intros s; (split; [done|]); [done|]. by destruct (ae_class err).
Qed.
Lemma retrySession_reason n :
  pspec exit_reason (λ _ _, True) (λ r, ∀ e, r = Some (SessionFatal e) → cannot_connect cfg) (retrySession cfg n).
Proof.
  induction n as [|n IH]; [done|]. cbn [retrySession]. eapply pspec_bind.
  { eapply pspec_mono; [apply spec_pspec, open_session_fails|by intros r (op & q & ->)|done|]. intros a Ha. exact Ha. }
  intros [se|err] Hse; [|apply pspec_ret; intros e _; by apply (Hse err)].
  eapply pspec_bind; [apply processSingleSession_reason|]. intros [e|e|d ex] Hr; [by destruct (Hr e)| |done].
  simpl. split; [done|]. intros l. destruct (e_backoff l); [|done]. simpl. split; [done|]. intros l'. exact IH.
Qed.
Lemma main_loop_reason fuel attempts : emits exit_reason (λ _ _, True) (main_loop cfg fuel attempts).
Proof.
  unfold main_loop. eapply (pspec_bind _ _ (λ r, r = ExitFatal → cannot_connect cfg)).
  - induction fuel as [|fuel IH]; [done|]. cbn [ProcessSteps]. eapply pspec_bind; [apply retrySession_reason|].
    intros [[e|e|d ex]|] Hr; [intros _; by apply (Hr e)|done| |done]. simpl. split; [done|]. intros l s. split; [done|].
    change (pspec exit_reason (λ _ _, True) (λ r, r = ExitFatal → cannot_connect cfg)
      (if sh_cancelled s && negb (e_timer_fired l) then mret ExitCancelled
       else if ex then mret ExitAction else ProcessSteps cfg fuel attempts)).
    destruct (sh_cancelled s && negb (e_timer_fired l)); [done|]. destruct ex; [done|exact IH].
  - intros [] Hr; try done. simpl. split; [by split; [|apply Hr]|done].
Qed.

(** Whatever goroutines a pool starts from, as long as they end the process only so. *)
Definition exits_so (p : pool request shared ()) : Prop :=
  Forall exit_reason (p_log p) ∧ Forall (λ m, emits exit_reason (λ _ _, True) m) (p_procs p).
Lemma exits_so_step p p' : agent_step p p' → exits_so p → exits_so p'.
Proof.
  intros [q q' [l s l1 l2 X r f k|l s l1 l2 X f k]|l sh procs i q Hgo] [Hl Hp]; cbn [p_log p_procs] in *.
  - apply Forall_app in Hp as [H1 [Hm H2]%Forall_cons]. destruct Hm as [Hr Hk].
    split; cbn [p_log p_procs]; [by apply Forall_app; split; [|constructor]|]. apply Forall_app; split; [done|]. by constructor.
  - apply Forall_app in Hp as [H1 [Hm H2]%Forall_cons]. split; cbn [p_log p_procs]; [done|].
    apply Forall_app; split; [done|]. constructor; [apply (Hm s)|done].
  - split; cbn [p_log p_procs]; [done|]. apply Forall_app; split; [done|]. constructor; [|constructor].
    eapply emits_mono; [apply silent_handleInstruction| |done]. intros r [_ Hr]. by apply exit_reason_silent.
Qed.

(** ** The whole process *)
(** [m], the goroutine of [s], answers it if it ends, and is silent otherwise. *)
Definition handles (w : world request shared) (s : option step) (m : Go ()) : Prop :=
  rg_from session_inv (λ _ w', answered_instruction s w'.1) m w ∧ silent m.

(** The log is that of a process whose main loop has [pending] still to queue and
    that has started goroutines for the instructions [started], in order. *)
Definition process_inv (p : pool request shared ()) : Prop :=
  session_inv (p_log p, p_shared p) ∧
  ∃ main gs started pending,
    p_procs p = main :: gs ∧ rg_from session_inv (λ _ _, True) main (p_log p, p_shared p) ∧
    queueing idle pending main ∧ Forall2 (handles (p_log p, p_shared p)) started gs ∧
    received (p_log p) = started ++ sh_go (p_shared p) ++ pending.

Lemma handles_later w w' s m : later w w' → handles w s m → handles w' s m.
Proof. intros Hl [H Hs]. split; [by eapply rg_from_later|done]. Qed.

(** One action of a process that is safe from the current world *)
Lemma act_ask {A X} (Q : A → world request shared → Prop) r (f : log → X) (k : X → Go A) l s :
  session_inv (l, s) → rg_from session_inv Q (PAsk r f k) (l, s) →
  session_inv (l ++ [r], s) ∧ rg_from session_inv Q (k (f l)) (l ++ [r], s).
Proof. intros HI H. destruct (H (l, s) (reflexivity _) HI) as [H1 H2]. split; [done|]. intros w'. apply H2. Qed.
Lemma act_state {A X} (Q : A → world request shared → Prop) (f : shared → X * shared) (k : X → Go A) l s :
  session_inv (l, s) → rg_from session_inv Q (PState f k) (l, s) →
  session_inv (l, (f s).2) ∧ rg_from session_inv Q (k (f s).1) (l, (f s).2).
Proof. intros HI H. destruct (H (l, s) (reflexivity _) HI) as [H1 H2]. split; [done|]. intros w'. apply H2. Qed.

Lemma process_inv_step p p' : agent_step p p' → process_inv p → process_inv p'.
Proof.
  intros Hstep (HI & main & gs & started & pending & Hprocs & Hmain & Hq & Hgs & Hrec).
  destruct Hstep as [p p' Hstep|l sh procs s q Hgo].
  - destruct Hstep as [l s l1 l2 X r f k|l s l1 l2 X f k]; cbn [p_procs p_log p_shared] in *;
      destruct l1 as [|m l1]; cbn [app] in Hprocs; injection Hprocs as <- <-.
    + destruct (act_ask _ r f k l s HI Hmain) as [HI' Hk]. split; [done|]. destruct Hq as [-> Hq].
      exists (k (f l)), l2, started, ([] ++ if is_next_steps r then sent_after l else []).
      split_and!; [done|done|apply Hq| |].
      * eapply Forall2_impl; [exact Hgs|]. intros x y. apply handles_later, later_snoc.
      * cbn [p_log p_shared]. by rewrite received_snoc, Hrec, <-!(assoc_L (++)).
    + apply Forall2_app_inv_r in Hgs as (s1 & s2' & H1 & H2 & ->). apply Forall2_cons_inv_r in H2 as (x & s2 & [Hx Hsx] & H2 & ->).
      destruct (act_ask _ r f k l s HI Hx) as [HI' Hk]. split; [done|]. destruct Hsx as [[Hr Hx0] Hsk].
      exists m, (l1 ++ k (f l) :: l2), (s1 ++ x :: s2), pending. cbn [p_log p_shared p_procs].
      split_and!; [done|eapply rg_from_later; [exact Hmain|apply later_snoc]|done| |].
      * apply Forall2_app; [eapply Forall2_impl; [exact H1|]|constructor; [by split|eapply Forall2_impl; [exact H2|]]];
          intros ? ?; apply handles_later, later_snoc.
      * by rewrite received_snoc, Hr, app_nil_r.
    + destruct (act_state _ f k l s HI Hmain) as [HI' Hk]. split; [done|].
      destruct (Hq s) as (q & rest & -> & Hgo & Hq'). exists (k (f s).1), l2, started, rest. cbn [p_log p_shared p_procs].
      split_and!; [done|done|done| |by rewrite Hgo, <-(assoc_L (++))].
      eapply Forall2_impl; [exact Hgs|]. intros x y. apply handles_later, later_same.
    + apply Forall2_app_inv_r in Hgs as (s1 & s2' & H1 & H2 & ->). apply Forall2_cons_inv_r in H2 as (x & s2 & [Hx Hsx] & H2 & ->).
      destruct (act_state _ f k l s HI Hx) as [HI' Hk]. split; [done|]. destruct (Hsx s) as [Hgo Hsk].
      exists m, (l1 ++ k (f s).1 :: l2), (s1 ++ x :: s2), pending. cbn [p_log p_shared p_procs].
      split_and!; [done|eapply rg_from_later; [exact Hmain|apply later_same]|done| |by rewrite Hgo].
      apply Forall2_app; [eapply Forall2_impl; [exact H1|]|constructor; [by split|eapply Forall2_impl; [exact H2|]]];
        intros ? ?; apply handles_later, later_same.
  - cbn [p_procs p_log p_shared] in *. subst procs.
    assert (HI' : session_inv (l, dequeue sh)) by (eapply session_inv_guar; [|exact HI]; split; auto).
    split; [done|]. exists main, (gs ++ [handleInstruction s]), (started ++ [s]), pending. cbn [p_log p_shared p_procs].
    split_and!; [done|eapply rg_from_later; [exact Hmain|apply later_same]|done| |].
    + apply Forall2_app; [eapply Forall2_impl; [exact Hgs|]; intros ? ?; apply handles_later, later_same|].
      constructor; [|constructor]. split; [|apply silent_handleInstruction]. intros w' _ HIw. by apply rg_handleInstruction.
    + cbn [dequeue sh_go]. rewrite Hrec, Hgo. cbn [tail]. by rewrite <-(assoc_L (++)).
Qed.

Lemma process_inv_initial fuel attempts : process_inv (initial fuel attempts).
Proof.
  assert (HI : session_inv ([], shared_init)) by apply session_inv_init.
  split; [done|]. exists (main_loop cfg fuel attempts), [], [], []. split_and!; [done| |apply queueing_main|constructor|done].
  intros w' _. apply rg_main_loop.
Qed.

(** C4. No instruction is lost and none is made up: in every reachable state the
    instructions the service has sent are, in order, those whose goroutine has
    been started, those that wait to be started, and those the main loop is about
    to queue; a goroutine that has ended has left an answer to its instruction
    with the service, under its type and id, and a main loop that has ended or
    blocked has nothing left to queue. *)
Theorem no_instruction_is_lost fuel attempts p :
  rtc agent_step (initial fuel attempts) p →
  ∃ main gs started pending,
    p_procs p = main :: gs ∧
    received (p_log p) = started ++ sh_go (p_shared p) ++ pending ∧
    Forall2 (λ s g, g = PRet () → answered_instruction s (p_log p)) started gs ∧
    (main = PRet () ∨ main = PBlock → pending = []) ∧ main ≠ PPanic.
Proof.
  intros Hrun. destruct (invariant_rtc _ _ _ _ process_inv_step Hrun (process_inv_initial fuel attempts))
    as (HI & main & gs & started & pending & Hp & _ & Hq & Hgs & Hrec).
  exists main, gs, started, pending. split_and!; [done|done| | |by intros ->].
  - eapply Forall2_impl; [exact Hgs|]. intros s g [H _] ->. apply (H _ (reflexivity _) HI).
  - by intros [-> | ->].
Qed.
End Instructions.

Section Witness.
Import StepDemo.
#[local] Existing Instance laws.

Lemma no_instruction_is_lost_witness :
  ∃ p, final = Some p ∧ ∃ main gs started pending,
    p_procs p = main :: gs ∧
    @received srv (p_log p) = started ++ sh_go (p_shared p) ++ pending ∧
    Forall2 (λ s g, g = PRet () → @answered_instruction srv s (p_log p)) started gs ∧
    (main = PRet () ∨ main = PBlock → pending = []) ∧ main ≠ PPanic.
Proof.
  destruct demo_reaches as (p & E & Hr & _). exists p. split; [exact E|].
  exact (@no_instruction_is_lost null_env srv plain_connect factory laws Good cfg 3 3 p Hr).
Defined.
End Witness.
