(* ===== verification/Protocol.v ===== *)
(** * What the service sees of the next-step runner (src/commands/step_processor.go)

    An abstract specification of the next-step runner: a list of instructions, each
    of which waits, is worked on, has been replied to, or needs no reply because the
    service has the same result already. Every interleaving of the main loop and of
    the goroutines of the steps is an execution of it. *)
From S2P Require Import Prelude GoStrings Host Config Session StepProcessor Instructions.

(** ** The specification *)
Inductive status : Type := Waiting | Working | Replied (r : step_reply) | Known (r : step_reply).
Abbreviation item := (option step * status)%type.

(** The instructions received, in order, and the replies the service accepted. *)
Record view : Type := View { v_items : list item; v_accepted : list step_reply }.

(** What passes between the runner and the service. *)
Inductive event : Type :=
  | Sent (sts : list (option step))
  | Posted (r : step_reply) (accepted : bool).
Definition accepted_of (t : list event) : list step_reply :=
  t ≫= λ e, match e with Posted r true => [r] | _ => [] end.
Definition posted_of (t : list event) : list step_reply :=
  t ≫= λ e, match e with Posted r _ => [r] | _ => [] end.
Definition sent_of (t : list event) : list (option step) :=
  t ≫= λ e, match e with Sent sts => sts | _ => [] end.

Definition reply_key (r : step_reply) : string * string := (r_step_type r, r_step_id r).
Definition step_key (s : step) : string * string := (s_step_type s, s_step_id s).
(** The key of an instruction that is not nil. *)
Definition instruction_key (i : option step) : option (string * string) := step_key <$> i.
Definition answers (i : option step) (r : step_reply) : Prop := instruction_key i = Some (reply_key r).
(** The reply says nothing new: one of its type and output, and successful too,
    was accepted. *)
Definition says_nothing_new (acc : list step_reply) (r : step_reply) : Prop :=
  r_exit_code r = 0%Z ∧
  ∃ r', r' ∈ acc ∧ r_step_type r' = r_step_type r ∧ r_output r' = r_output r ∧ r_exit_code r' = 0%Z.

(** An instruction that is worked on ends with one reply, or without one when it
    would say nothing new. *)
Inductive item_step (acc : list step_reply) : item → list event → item → Prop :=
  | item_post s r ok : answers s r → item_step acc (s, Working) [Posted r ok] (s, Replied r)
  | item_known s r : answers s r → says_nothing_new acc r → item_step acc (s, Working) [] (s, Known r).

Inductive view_step : view → list event → view → Prop :=
  | view_send its acc sts :
      view_step (View its acc) [Sent sts] (View (its ++ map (λ s, (s, Waiting)) sts) acc)
  (** in the order in which they were received *)
  | view_start l1 s l2 acc : Forall (λ it, it.2 ≠ Waiting) l1 →
      view_step (View (l1 ++ (s, Waiting) :: l2) acc) [] (View (l1 ++ (s, Working) :: l2) acc)
  | view_item l1 it l2 acc e it' : item_step acc it e it' →
      view_step (View (l1 ++ it :: l2) acc) e (View (l1 ++ it' :: l2) (acc ++ accepted_of e)).

Inductive view_exec : list event → view → Prop :=
  | exec_start : view_exec [] (View [] [])
  | exec_step t v e v' : view_exec t v → view_step v e v' → view_exec (t ++ e) v'.

(** ** What the specification promises *)
Definition replied (it : item) : option step_reply := match it.2 with Replied r => Some r | _ => None end.

Lemma accepted_of_app t t' : accepted_of (t ++ t') = accepted_of t ++ accepted_of t'.
Proof. apply bind_app. Qed.
Lemma posted_of_app t t' : posted_of (t ++ t') = posted_of t ++ posted_of t'.
Proof. apply bind_app. Qed.
Lemma sent_of_app t t' : sent_of (t ++ t') = sent_of t ++ sent_of t'.
Proof. apply bind_app. Qed.

(** The state of an execution is told by its trace: who was sent, who was replied
    to, and what was accepted. *)
Definition view_inv (t : list event) (v : view) : Prop :=
  map fst (v_items v) = sent_of t ∧ omap replied (v_items v) ≡ₚ posted_of t ∧ v_accepted v = accepted_of t ∧
  Forall (λ it, match it.2 with
                | Replied r => answers it.1 r
                | Known r => answers it.1 r ∧ says_nothing_new (v_accepted v) r
                | _ => True end) (v_items v).

Lemma nothing_new_app acc acc' r : says_nothing_new acc r → says_nothing_new (acc ++ acc') r.
Proof. intros (H & r' & Hin & Hr). split; [done|]. exists r'. split; [|done]. apply elem_of_app. by left. Qed.

Lemma view_step_inv t v e v' : view_step v e v' → view_inv t v → view_inv (t ++ e) v'.
Proof.
  unfold view_inv. rewrite sent_of_app, posted_of_app, accepted_of_app.
  destruct 1 as [its acc sts|l1 s l2 acc _|l1 it l2 acc e it' Hit]; cbn [v_items v_accepted]; intros (<- & Hp & -> & Hok).
  - split_and!; [|by rewrite omap_app, Hp; f_equiv; clear; induction sts|by rewrite app_nil_r|].
    + rewrite map_app, map_map. cbn [sent_of mbind list_bind fst]. by rewrite map_id, app_nil_r.
    + apply Forall_app. split; [done|]. clear. by induction sts; constructor.
  - rewrite !app_nil_r. split_and!; [by rewrite !map_app|by rewrite <-Hp, !omap_app|done|].
    apply Forall_app in Hok as [H1 H2]. apply Forall_app. split; [done|]. apply Forall_cons_1 in H2 as [_ H2]. by constructor.
  - assert (Hmono : Forall (λ it, match it.2 with
        | Replied r => answers it.1 r | Known r => answers it.1 r ∧ says_nothing_new (accepted_of t ++ accepted_of e) r
        | _ => True end) (l1 ++ it :: l2)).
    { eapply Forall_impl; [exact Hok|]. intros [s [| |r|r]]; try done. intros [? ?]. split; [done|]. by apply nothing_new_app. }
    apply Forall_app in Hmono as [H1 H2]. apply Forall_cons_1 in H2 as [_ H2].
    destruct Hit as [s r ok Hr|s r Hr Hk]; rewrite !map_app, ?app_nil_r in *; (split_and!; [done| |done|]).
    + rewrite omap_app in *. csimpl in *. rewrite <-Hp. by rewrite <-Permutation_middle, <-Permutation_cons_append.
    + apply Forall_app. split; [done|]. by constructor.
    + by rewrite <-Hp, !omap_app.
    + apply Forall_app. split; [done|]. by constructor.
Qed.

Lemma view_exec_inv t v : view_exec t v → view_inv t v.
Proof. induction 1; [by split_and!|by eapply view_step_inv]. Qed.

(** Every reply belongs to an instruction of its own. *)
Lemma replies_answer its :
  Forall (λ it, match it.2 with Replied r => answers it.1 r | _ => True end) its →
  map reply_key (omap replied its) ⊆+ omap instruction_key (map fst its).
Proof.
  induction 1 as [|[i st] its H _ IH]; [done|]. destruct st as [| |r|r]; csimpl.
  3: { simpl in H. rewrite H. by apply submseteq_skip. }
  all: destruct (instruction_key i); [by apply submseteq_cons|done].
Qed.
Lemma exec_replies t v : view_exec t v → map reply_key (posted_of t) ⊆+ omap instruction_key (sent_of t).
Proof.
  intros (Hs & Hp & _ & Hok)%view_exec_inv. rewrite <-Hs, <-Hp. apply replies_answer.
  eapply Forall_impl; [exact Hok|]. by intros [s [| |r|r]].
Qed.

(** ** The runner keeps to the specification *)
Section Refinement.
Context {env : Env} {srv : Service} {connect : Connect} {factory : ToolRunnerFactory} {laws : FactoryLaws}.
Context (unmarshalUpgradeAgentResponse : string → result string).
Context (cfg : AgentConfig).

Notation handleStep := (handleStep unmarshalUpgradeAgentResponse cfg).
Notation handleInstruction := (handleInstruction unmarshalUpgradeAgentResponse cfg).
Notation agent_step := (agent_step unmarshalUpgradeAgentResponse cfg).
Notation session_inv := (session_inv unmarshalUpgradeAgentResponse).
Notation initial := (initial cfg).

(** *** The events of a log *)
Definition event_of (l : log) (r : request) : list event :=
  match r with
  | RPost _ reply => [Posted reply (is_nil (e_post l reply))]
  | RNet _ _ => if is_next_steps r
                then match e_next_steps l with inl sts => [Sent (Instructions sts)] | inr _ => [] end else []
  | _ => []
  end.
Definition events : log → list event := log_map event_of.

Lemma event_of_silent l r : is_post r = false → is_next_steps r = false → event_of l r = [].
Proof. destruct r; try done. simpl. by intros _ ->. Qed.
Lemma events_silent l r : is_post r = false → is_next_steps r = false → events (l ++ [r]) = events l.
Proof. intros H1 H2. unfold events. by rewrite log_map_snoc, event_of_silent, app_nil_r. Qed.

Lemma acked_nothing_new l r :
  r_exit_code r = 0%Z → acked l (r_step_type r) (r_output r) → says_nothing_new (accepted_of (events l)) r.
Proof.
  intros H0 (l1 & ps & r' & Hpre & Hpost & Hty & Hout & Hex). split; [done|]. exists r'. split; [|done].
  apply (log_map_prefix event_of) in Hpre as [t Ht]. unfold events. rewrite Ht, accepted_of_app, log_map_snoc, accepted_of_app.
  simpl. rewrite Hpost. simpl. set_solver.
Qed.

(** *** A goroutine: one reply, for its own instruction

    The automaton remembers what the goroutine of [s] has posted. *)
Definition posting (s : option step) (l : log) (r : request) (g g' : option step_reply) : Prop :=
  is_next_steps r = false ∧
  match r with RPost _ reply => g = None ∧ g' = Some reply ∧ answers s reply | _ => g' = g end.
Definition go_same (s s' : shared) : Prop := sh_go s' = sh_go s.
Notation keeps s := (obeys session_inv go_same (posting s)).

(** Without a post, the answer is known to the service. *)
Definition replied_or_known (s : option step) (g : option step_reply) (w : world request shared) : Prop :=
  g = None → ∃ reply, answers s reply ∧ r_exit_code reply = 0%Z ∧ acked w.1 (r_step_type reply) (r_output reply).

Lemma posting_silent s l r g : service_call r = false → posting s l r g g.
Proof. intros [H1 H2]%no_service_call. split; [done|]. by destruct r. Qed.

Lemma keeps_pspec {A} s (D : shared → shared → Prop) (Q : A → Prop) g (m : Go A) w :
  (∀ sh sh', D sh sh' → runner_guar sh sh') → pspec (λ r, service_call r = false) D Q m → session_inv w →
  keeps s (λ a g' w', Q a ∧ g' = g ∧ session_inv w') g m w.
Proof.
  intros HD. apply obeys_pspec.
  - intros. by apply session_inv_log.
  - intros. by apply posting_silent.
  - by intros sh sh' (_ & _ & ?)%HD.
  - intros l sh sh' H%HD. by apply session_inv_guar, runner_session_guar.
Qed.

Lemma keeps_alreadyExistsInService s k v w :
  session_inv w →
  keeps s (λ known g w', (later w w' ∧ session_inv w' ∧ (known = true → acked w'.1 k v)) ∧ g = None) None
    (alreadyExistsInService k v) w.
Proof.
  intros HI. apply obeys_rg; [by apply rg_alreadyExistsInService|]. unfold alreadyExistsInService. simpl.
  split_and!; [done..|]. intros w1 _ _. simpl. destruct (sh_cache w.2 !! k) as [[v' e]|]; [|done].
  destruct (e >? 0)%Z; [|done]. simpl. split; [done|]. exists None. split; [done|]. intros w2 _ _. by destruct (_ >? e)%Z.
Qed.

Lemma keeps_post_and_store s reply w :
  session_inv w → answers s reply →
  keeps s (λ _ g w', (reported w'.1 reply ∧ later w w' ∧ session_inv w') ∧ g = Some reply) None
    (post_and_store cfg reply) w.
Proof.
  intros HI Hs. apply obeys_rg; [by apply rg_post_and_store|]. unfold post_and_store, PostStepReply. simpl.
  split; [done|]. exists (Some reply). split; [done|]. intros w1 _ _. destruct (e_post w.1 reply); [done|].
  destruct (r_exit_code reply =? 0)%Z; [|done]. simpl. split; [done|]. exists (Some reply). split; [done|]. done.
Qed.

Lemma keeps_sendStepReply s reply w :
  session_inv w → answers s reply →
  keeps s (λ _ g w', replied_or_known s g w' ∧ reported w'.1 reply ∧ session_inv w') None (sendStepReply cfg reply) w.
Proof.
  intros HI Hs. unfold sendStepReply.
  eapply (obeys_bind _ _ _ (λ (known : bool) g w', session_inv w' ∧ g = None ∧
    (known = true → r_exit_code reply = 0%Z ∧ acked w'.1 (r_step_type reply) (r_output reply)))).
  - destruct (Z.eqb_spec (r_exit_code reply) 0) as [E|]; [|done].
    eapply obeys_conseq; [|by apply keeps_alreadyExistsInService]. intros known g w' [(_ & HI' & Hk) ->]. auto.
  - intros known g w' _ (HI' & -> & Hk). destruct known.
    + destruct (Hk eq_refl) as [E Ha]. split_and!; [intros _; by exists reply|by right|done].
    + eapply obeys_conseq; [|by apply keeps_post_and_store]. intros _ g w'' [(Hr & _ & HI'') ->]. by split_and!.
Qed.

Lemma keeps_handleStep s w :
  session_inv w → keeps (Some s) (λ _ g w', replied_or_known (Some s) g w') None (handleStep s) w.
Proof.
  intros HI. unfold StepProcessor.handleStep.
  assert (Hdiag := diagnose_emits cfg (λ r, service_call r = false) runner_guar (λ _ H, H)).
  eapply obeys_bind; [by apply (keeps_pspec (Some s) _ _ None _ _ (λ _ _ H, H) Hdiag)|].
  intros [code err] g w1 Hl1 (Hd & -> & HI1). destruct Hd as [[-> ->]|[-> [e ->]]].
  2: { eapply obeys_conseq; [|by apply (keeps_sendStepReply (Some s) _ w1)]. by intros _ g w' (H & _). }
  change (negb (Undetected =? Undetected)%Z) with false. cbv iota.
  eapply obeys_bind; [by apply (keeps_pspec (Some s) _ _ None _ _ (λ _ _ H, H) (handleSingleStepV2_emits cfg _ _ _))|].
  intros reply g w2 Hl2 ((Hty & Hid) & -> & HI2).
  eapply obeys_bind; [by apply (keeps_pspec (Some s) _ _ None _ _ (λ _ _ H, H)
    (rediagnose_emits cfg (λ r, service_call r = false) runner_guar reply (λ _ H, H)))|].
  intros reply' g w3 Hl3 (Hreply & -> & HI3).
  assert (Hs : answers (Some s) reply') by (unfold answers, instruction_key, reply_key, step_key; destruct Hreply as [->| ->]; simpl; congruence).
  eapply obeys_bind; [by apply keeps_sendStepReply|].
  intros _ g w4 Hl4 (Hrep & Hr & HI4). destruct (requiresRestart _ reply') eqn:E; [|exact Hrep]. simpl.
  split; [done|]. split; [by split; [apply HI4|]; intros _; left; exists reply'|].
  intros w5 Hl5 _ Hg. destruct (Hrep Hg) as (r & Hsr & H0 & Ha). exists r. split_and!; [done..|]. by eapply acked_later.
Qed.
Lemma keeps_handleInstruction i w :
  session_inv w → keeps i (λ _ g w', replied_or_known i g w') None (handleInstruction i) w.
Proof.
  intros HI. destruct i as [s|]; [by apply keeps_handleStep|]. cbn [StepProcessor.handleInstruction].
  assert (Hdiag := diagnose_emits cfg (λ r, service_call r = false) runner_guar (λ _ H, H)).
  by eapply obeys_bind; [by apply (keeps_pspec None _ _ None _ _ (λ _ _ H, H) Hdiag)|].
Qed.

(** *** The simulation *)
Notation follows s := (obeys_from session_inv go_same (posting s) (λ _ g w', replied_or_known s g w')).

(** The goroutine [m] stands for the instruction [it]. *)
Definition tracks (w : world request shared) (it : item) (m : Go ()) : Prop :=
  match it.2 with
  | Waiting => False
  | Working => follows it.1 None m w ∧ m ≠ PRet ()
  | Replied r => follows it.1 (Some r) m w
  | Known r => m = PRet ()
  end.
Lemma tracks_later w w' it m : later w w' → tracks w it m → tracks w' it m.
Proof.
  intros Hl. unfold tracks. destruct it.2; [done| | |done]; [intros [H ?]; split; [|done]|intros H]; by eapply obeys_from_later.
Qed.

(** A goroutine that has ended without a post was about a known result. *)
Lemma settles l sh s m :
  session_inv (l, sh) → follows s None m (l, sh) →
  ∃ it, it.1 = s ∧ tracks (l, sh) it m ∧ (it = (s, Working) ∨ item_step (accepted_of (events l)) (s, Working) [] it).
Proof.
  intros HI H. destruct m as [[]| | | |].
  - destruct (H (l, sh) (reflexivity _) HI eq_refl) as (r & Hr & H0 & Ha). exists (s, Known r).
    split_and!; [done..|]. right. constructor; [done|]. by apply acked_nothing_new.
  - by exists (s, Working); split_and!; [done|split|left].
  - by exists (s, Working); split_and!; [done|split|left].
  - by exists (s, Working); split_and!; [done|split|left].
  - by exists (s, Working); split_and!; [done|split|left].
Qed.

(** What an action of a goroutine does to its instruction: nothing, or it is
    replied to, or its result turns out to be known. *)
Definition item_moves (l l' : log) (it it' : item) : Prop :=
  it' = it ∧ events l' = events l ∨
  ∃ e, item_step (accepted_of (events l)) it e it' ∧ events l' = events l ++ e.

Lemma tracks_state l sh it X (f : shared → X * shared) (k : X → Go ()) :
  session_inv (l, sh) → tracks (l, sh) it (PState f k) →
  go_same sh (f sh).2 ∧ session_inv (l, (f sh).2) ∧
  ∃ it', tracks (l, (f sh).2) it' (k (f sh).1) ∧ item_moves l l it it'.
Proof.
  intros HI Ht. destruct it as [s [| |r|r]]; [done| | |done]; unfold tracks in Ht; cbn [fst snd] in Ht.
  - destruct Ht as [H _]. destruct (H (l, sh) (reflexivity _) HI) as (HC & HI' & Hk). split_and!; [done..|].
    destruct (settles l (f sh).2 s (k (f sh).1) HI') as (it' & _ & Ht' & Hm); [intros w' Hl; by apply Hk|].
    exists it'. split; [done|]. destruct Hm as [->|Hm]; [by left|]. right. exists []. by rewrite app_nil_r.
  - destruct (Ht (l, sh) (reflexivity _) HI) as (HC & HI' & Hk). split_and!; [done..|]. exists (s, Replied r).
    split; [|by left]. intros w' Hl. by apply Hk.
Qed.

Lemma tracks_ask l sh it X r (f : log → X) (k : X → Go ()) :
  session_inv (l, sh) → tracks (l, sh) it (PAsk r f k) →
  is_next_steps r = false ∧ session_inv (l ++ [r], sh) ∧
  ∃ it', tracks (l ++ [r], sh) it' (k (f l)) ∧ item_moves l (l ++ [r]) it it'.
Proof.
  intros HI Ht. destruct it as [s [| |r0|r0]]; [done| | |done]; unfold tracks in Ht; cbn [fst snd] in Ht.
  - destruct Ht as [H _]. destruct (H (l, sh) (reflexivity _) HI) as (HI' & g' & [Hn Hg] & Hk). split_and!; [done..|].
    destruct (is_post r) eqn:Hpost.
    + destruct r as [| | | | |ps reply| | | | |]; try done. destruct Hg as (_ & -> & Hs). exists (s, Replied reply).
      split; [intros w' Hl; by apply Hk|]. right. eexists. split; [by apply item_post|].
      unfold events. by rewrite log_map_snoc.
    + assert (g' = None) as -> by (by destruct r).
      destruct (settles (l ++ [r]) sh s (k (f l)) HI') as (it' & _ & Ht' & Hm); [intros w' Hl; by apply Hk|].
      exists it'. split; [done|]. rewrite events_silent in Hm by done. unfold item_moves. rewrite events_silent by done.
      destruct Hm as [->|Hm]; [by left|]. right. exists []. by rewrite app_nil_r.
  - destruct (Ht (l, sh) (reflexivity _) HI) as (HI' & g' & [Hn Hg] & Hk). split_and!; [done..|]. exists (s, Replied r0).
    destruct (is_post r) eqn:Hpost; [by destruct r; try done; destruct Hg|].
    assert (g' = Some r0) as -> by (by destruct r). split; [intros w' Hl; by apply Hk|]. left. by rewrite events_silent.
Qed.
(** *** The whole process *)
Definition waiting (ss : list (option step)) : list item := map (λ s, (s, Waiting)) ss.
Notation idle := (λ _ p, p = @nil (option step)).
Notation world_of p := (p_log p, p_shared p).

(** What the service has seen is an execution of the specification, and each
    goroutine is where the specification has its instruction. *)
Definition view_of (l : log) (items : list item) (ss : list (option step)) : Prop :=
  view_exec (events l) (View (items ++ waiting ss) (accepted_of (events l))).
Definition simulated (p : pool request shared ()) : Prop :=
  session_inv (world_of p) ∧
  ∃ main gs items pending,
    p_procs p = main :: gs ∧ emits (λ r, is_post r = false) session_guar main ∧ queueing idle pending main ∧
    Forall2 (tracks (world_of p)) items gs ∧ view_of (p_log p) items (sh_go (p_shared p) ++ pending).

Lemma view_item_moves l l' l1 it l2 it' ss :
  item_moves l l' it it' → view_of l (l1 ++ it :: l2) ss → view_of l' (l1 ++ it' :: l2) ss.
Proof.
  unfold view_of. rewrite <-!(assoc_L (++)). cbn [app]. intros [[-> ->]|(e & Hit & ->)] Hv; [done|].
  rewrite accepted_of_app. eapply exec_step; [exact Hv|]. by constructor.
Qed.

(** The question for the next steps, and any other request of the main loop *)
Lemma view_main l r its ss :
  is_post r = false → view_of l its ss → view_of (l ++ [r]) its (ss ++ if is_next_steps r then sent_after l else []).
Proof.
  unfold view_of. intros Hp Hv. destruct (is_next_steps r) eqn:Hn; [|by rewrite events_silent, app_nil_r].
  unfold events in *. rewrite log_map_snoc. destruct r as [| | | | | |op args| | | |]; try done. simpl in Hn. cbn [event_of is_next_steps].
  rewrite Hn. unfold sent_after. destruct (e_next_steps l) as [sts|err]; [|by rewrite !app_nil_r].
  rewrite accepted_of_app. cbn [accepted_of mbind list_bind app]. rewrite app_nil_r. unfold waiting. rewrite map_app, (assoc_L (++)).
  eapply exec_step; [exact Hv|]. constructor.
Qed.

Lemma tracks_all_later w w' items gs : later w w' → Forall2 (tracks w) items gs → Forall2 (tracks w') items gs.
Proof. intros Hl H. eapply Forall2_impl; [exact H|]. intros it m. by apply tracks_later. Qed.

Lemma tracks_app w items1 it items2 gs1 m gs2 :
  Forall2 (tracks w) items1 gs1 → tracks w it m → Forall2 (tracks w) items2 gs2 →
  Forall2 (tracks w) (items1 ++ it :: items2) (gs1 ++ m :: gs2).
Proof. intros. apply Forall2_app; [done|]. by constructor. Qed.

Lemma simulated_pstep p p' : pstep p p' → simulated p → simulated p'.
Proof.
  intros Hstep (HI & main & gs & items & pending & Hprocs & Hmain & Hq & Hgs & Hv).
  destruct Hstep as [l s l1 l2 X r f k|l s l1 l2 X f k]; cbn [p_procs p_log p_shared] in *;
    destruct l1 as [|m l1]; cbn [app] in Hprocs; injection Hprocs as <- <-.
  - destruct Hmain as [Hr Hk]. split; [by apply session_inv_log|]. destruct Hq as [-> Hq].
    exists (k (f l)), l2, items, ([] ++ if is_next_steps r then sent_after l else []). cbn [p_log p_shared p_procs].
    split_and!; [done|apply Hk|apply Hq|by eapply tracks_all_later; [apply later_snoc|]|].
    rewrite (assoc_L (++)). by apply view_main.
  - apply Forall2_app_inv_r in Hgs as (i1 & i2' & H1 & H2 & ->). apply Forall2_cons_inv_r in H2 as (it & i2 & Ht & H2 & ->).
    destruct (tracks_ask _ _ _ _ _ _ _ HI Ht) as (Hr & HI' & it' & Ht' & Hm). split; [done|].
    exists m, (l1 ++ k (f l) :: l2), (i1 ++ it' :: i2), pending. cbn [p_log p_shared p_procs]. split_and!; [done..| |].
    + by apply tracks_app; try (eapply tracks_all_later; [apply later_snoc|]).
    + by eapply view_item_moves.
  - destruct (Hmain s) as [HG Hk]. destruct (Hq s) as (q & rest & -> & Hgo & Hq').
    split; [by eapply session_inv_guar|]. exists (k (f s).1), l2, items, rest. cbn [p_log p_shared p_procs].
    split_and!; [done|done|done|by eapply tracks_all_later; [apply later_same|]|]. by rewrite Hgo, <-(assoc_L (++)).
  - apply Forall2_app_inv_r in Hgs as (i1 & i2' & H1 & H2 & ->). apply Forall2_cons_inv_r in H2 as (it & i2 & Ht & H2 & ->).
    destruct (tracks_state _ _ _ _ _ _ HI Ht) as (Hgo & HI' & it' & Ht' & Hm). split; [done|].
    exists m, (l1 ++ k (f s).1 :: l2), (i1 ++ it' :: i2), pending. cbn [p_log p_shared p_procs]. split_and!; [done..| |].
    + by apply tracks_app; try (eapply tracks_all_later; [apply later_same|]).
    + rewrite Hgo. by eapply view_item_moves.
Qed.

Lemma simulated_step p p' : agent_step p p' → simulated p → simulated p'.
Proof.
  intros [q q' Hstep|l sh procs s q Hgo]; [by apply simulated_pstep|].
  intros (HI & main & gs & items & pending & Hprocs & Hmain & Hq & Hgs & Hv). cbn [p_procs p_log p_shared] in *. subst procs.
  assert (HI' : session_inv (l, dequeue sh)) by (eapply session_inv_guar; [|exact HI]; split; auto). split; [done|].
  destruct (settles l (dequeue sh) s (handleInstruction s) HI') as (it & _ & Ht & Hm); [intros w' _; apply keeps_handleInstruction|].
  exists main, (gs ++ [handleInstruction s]), (items ++ [it]), pending. cbn [p_log p_shared p_procs dequeue sh_go].
  split_and!; [done..| |].
  - apply tracks_app; [by eapply tracks_all_later; [apply later_same|]|done|constructor].
  - rewrite Hgo in *. cbn [tail]. apply (view_item_moves l l items (s, Working) [] it).
    + destruct Hm as [->|Hm]; [by left|]. right. exists []. by rewrite app_nil_r.
    + unfold view_of in *. rewrite <-(app_nil_r (events l)) at 1. eapply exec_step; [exact Hv|].
      rewrite <-(assoc_L (++)). cbn [waiting map app]. apply view_start.
      clear -Hgs. induction Hgs as [|it g items gs Ht _ IH]; constructor; [|done].
      intros E. unfold tracks in Ht. by rewrite E in Ht.
Qed.

Lemma reachable_simulated fuel attempts p : rtc agent_step (initial fuel attempts) p → simulated p.
Proof.
  intros Hrun. apply (invariant_rtc _ _ _ _ simulated_step Hrun). split.
  - apply session_inv_init.
  - exists (main_loop cfg fuel attempts), [], [], []. split_and!; [done|apply main_loop_emits|apply queueing_main|constructor|].
    apply exec_start.
Qed.

(** C2. The next-step runner implements its specification: in every
    interleaving of the main loop and of the goroutines of the steps, what the
    service has seen is an execution of the specification, in which the
    instructions of the goroutines that were started come first, then those that
    wait; an instruction whose goroutine has ended has been replied to, or its
    result is known to the service. *)
Theorem runner_refines_protocol fuel attempts p :
  rtc agent_step (initial fuel attempts) p →
  ∃ main gs items pending,
    p_procs p = main :: gs ∧ (main = PRet () ∨ main = PBlock → pending = []) ∧
    Forall2 (λ it g, it.2 ≠ Waiting ∧ (g = PRet () → it.2 ≠ Working)) items gs ∧
    view_exec (events (p_log p))
      (View (items ++ waiting (sh_go (p_shared p) ++ pending)) (accepted_of (events (p_log p)))).
Proof.
  intros (_ & main & gs & items & pending & Hp & _ & Hq & Hgs & Hv)%reachable_simulated. exists main, gs, items, pending.
  split_and!; [done|by intros [-> | ->]| |exact Hv].
  eapply Forall2_impl; [exact Hgs|]. intros [s [| |r|r]] g; try done. intros [_ ?]. by split.
Qed.

(** *** Replies and instructions *)
Definition posts (l : log) : list step_reply := omap (λ r, match r with RPost _ reply => Some reply | _ => None end) l.

Lemma posted_events l : posted_of (events l) = posts l.
Proof.
  induction l as [|r l IH] using rev_ind; [done|]. unfold events, posts in *. rewrite log_map_snoc, posted_of_app, omap_app, IH.
  f_equal. destruct r; try done. simpl. destruct (String.eqb _ _); [|done]. by destruct (e_next_steps l).
Qed.
Lemma sent_events l : sent_of (events l) = received l.
Proof.
  induction l as [|r l IH] using rev_ind; [done|]. rewrite received_snoc, <-IH. unfold events. rewrite log_map_snoc, sent_of_app.
  f_equal. destruct r; try done. cbn [event_of is_next_steps]. destruct (String.eqb _ _); [|done]. unfold sent_after.
  destruct (e_next_steps l); [|done]. cbn. by rewrite app_nil_r.
Qed.

(** C5. The service gets no reply it has not asked for and never two for one
    instruction: in every interleaving, counted with their multiplicity, the types
    and ids of the replies that were posted are among those of the instructions
    that the service has sent. *)
Theorem replies_belong_to_instructions fuel attempts p :
  rtc agent_step (initial fuel attempts) p →
  map reply_key (posts (p_log p)) ⊆+ omap instruction_key (received (p_log p)).
Proof.
  intros (_ & main & gs & items & pending & _ & _ & _ & _ & Hv)%reachable_simulated.
  rewrite <-posted_events, <-sent_events. by eapply exec_replies.
Qed.
End Refinement.

Section Witnesses.
Import StepDemo.
#[local] Existing Instance laws.

(** The upgrade that the demonstration runs is replied to. *)
Example demo_posts :
  match final with
  | Some p => map reply_key (posts (p_log p)) = [("upgrade-agent", "upgrade-1")] ∧
              omap instruction_key (@received srv (p_log p)) = [("upgrade-agent", "upgrade-1")]
  | None => False end.
Proof. vm_compute. split; reflexivity. Qed.

Lemma replies_belong_to_instructions_witness :
  ∃ p, final = Some p ∧ map reply_key (posts (p_log p)) ⊆+ omap instruction_key (@received srv (p_log p)).
Proof.
  destruct demo_reaches as (p & E & Hr & _). exists p. split; [exact E|].
  exact (@replies_belong_to_instructions null_env srv plain_connect factory laws Good cfg 3 3 p Hr).
Defined.

Lemma runner_refines_protocol_witness :
  ∃ p, final = Some p ∧ ∃ main gs items pending,
    p_procs p = main :: gs ∧ (main = PRet () ∨ main = PBlock → pending = []) ∧
    Forall2 (λ it g, it.2 ≠ Waiting ∧ (g = PRet () → it.2 ≠ Working)) items gs ∧
    view_exec (@events srv (p_log p))
      (View (items ++ waiting (sh_go (p_shared p) ++ pending)) (accepted_of (@events srv (p_log p)))).
Proof.
  destruct demo_reaches as (p & E & Hr & _). exists p. split; [exact E|].
  exact (@runner_refines_protocol null_env srv plain_connect factory laws Good cfg 3 3 p Hr).
Defined.
End Witnesses.
