(* ===== verification/Completion.v ===== *)
(** * Every instruction is answered in the end (src/commands/step_processor.go)

    The next-step runner with its goroutines, scheduled in any way, provided the
    steps that the service asks for return: every schedule comes to an end and no
    goroutine panics; while the process lives and its main loop waits, the
    goroutines of the steps come to an end, and each instruction the service has
    sent has been answered then. The process ends with its main loop, or when that
    fails to open a session, and what is running is lost. *)
From S2P Require Import Prelude GoStrings Host Config Session StepProcessor Instructions.

Section Completion.
Context {env : Env} {srv : Service} {connect : Connect} {factory : ToolRunnerFactory} {laws : FactoryLaws}.
Context (unmarshalUpgradeAgentResponse : string → result string).
Context (cfg : AgentConfig).

Notation handleStep := (handleStep unmarshalUpgradeAgentResponse cfg).
Notation handleInstruction := (handleInstruction unmarshalUpgradeAgentResponse cfg).
Notation agent_step := (agent_step unmarshalUpgradeAgentResponse cfg).
Notation process_step := (process_step unmarshalUpgradeAgentResponse cfg).
Notation side_step := (side_step unmarshalUpgradeAgentResponse cfg).
Notation process_inv := (process_inv unmarshalUpgradeAgentResponse).
Notation initial := (initial cfg).

(** ** Every schedule is finite

    What is left of the main loop, then the instructions that wait, then what is
    left of the goroutines: an action of the main loop may queue instructions, and
    starting a goroutine takes one off the queue. *)
Definition agent_key (p : pool request shared ()) : Go () * (nat * list (Go ())) :=
  (hd PPanic (p_procs p), (length (sh_go (p_shared p)), tail (p_procs p))).

Lemma agent_step_decreases p p' :
  agent_step p p' → process_inv p → process_inv p' ∧ lex sub (lex lt (one_less sub)) (agent_key p') (agent_key p).
Proof.
  intros Hstep Hinv. split; [by eapply process_inv_step|].
  destruct Hinv as (_ & main & gs & started & pending & Hprocs & _ & _ & Hgs & _).
  destruct Hstep as [p p' [l s l1 l2 X r f k|l s l1 l2 X f k]|l sh procs s q Hgo]; unfold agent_key; cbn [p_procs p_shared] in *.
  - destruct l1 as [|m l1]; [left; by exists (f l)|]. right. split; [done|]. right. split; [done|].
    apply one_less_middle. by exists (f l).
  - destruct l1 as [|m l1]; [left; by exists (f s).1|]. right. split; [done|]. right.
    injection Hprocs as -> <-. apply Forall2_app_inv_r in Hgs as (s1 & s2' & _ & H2 & _).
    apply Forall2_cons_inv_r in H2 as (x & s2 & [_ Hx] & _ & _). destruct (Hx s) as [Hgo _].
    split; [by rewrite <-Hgo|]. apply one_less_middle. by exists (f s).1.
  - right. subst procs. split; [done|]. left. cbn [dequeue sh_go]. rewrite Hgo. simpl. lia.
Qed.

Lemma agent_terminates fuel attempts : sn agent_step (initial fuel attempts).
Proof.
  apply (sn_decreasing _ process_inv agent_key (lex sub (lex lt (one_less sub)))).
  - apply lex_wf; [apply sub_wf|]. apply lex_wf; [apply lt_wf|apply one_less_wf, sub_wf].
  - apply agent_step_decreases.
  - apply process_inv_initial.
Qed.

(** ** Goroutines that return *)
(** findmnt prints the source and the target of a mount point, or nothing. *)
Definition findmnt_prints : Prop := ∀ l stdout stderr err,
  e_run l "nsenter" ["--target"; "1"; "--cgroup"; "--mount"; "--ipc"; "--net"; "--"; "findmnt";
                     "--raw"; "--noheadings"; "--output"; "SOURCE,TARGET"; "--target"; mediaPath] = (stdout, stderr, err) →
  getExitCode err = 0%Z → stdout = "" ∨ 2 ≤ length (Fields stdout).

(** The step returns: it can be made, run, and described. *)
Definition step_returns (s : step) : Prop :=
  always (handleSingleStepV2 cfg (s_step_type s) (s_step_id s) (s_args s)).
Definition instruction_returns (i : option step) : Prop := ∃ s, i = Some s ∧ step_returns s.

Section Returns.
Hypothesis findmnt : findmnt_prints.

Lemma returns_mountpoint : always getMountpointSourceDeviceFile.
Proof.
  unfold getMountpointSourceDeviceFile. apply returns_bind; [by apply spec_ask|]. intros [st|err]; [|by apply spec_ret].
  unfold ExecutePrivileged, buildPrivilegedCommand, Execute.
  eapply (spec_bind _ _ (λ '(o, _, c), c = 0%Z → o = "" ∨ 2 ≤ length (Fields o))).
  { eapply (spec_bind _ _ (λ '(o, _, err), getExitCode err = 0%Z → o = "" ∨ 2 ≤ length (Fields o))).
    - apply spec_ask; [done|]. intros l. destruct (e_run l _ _) as [[o e] err] eqn:E. by eapply findmnt.
    - intros [[o e] err] H. by apply spec_ret. }
  intros [[o e] c] H. destruct (Z.eqb_spec c 0) as [->|]; cbn [negb]; [|by apply spec_ret].
  destruct (String.eqb_spec o "") as [|Ho]; [by apply spec_ret|]. destruct (H eq_refl) as [|Hf]; [done|].
  apply returns_bind; [apply returns_or_panic, lookup_lt_is_Some; lia|]. intros target.
  destruct (negb _); [by apply spec_ret|].
  apply returns_bind; [apply returns_or_panic, lookup_lt_is_Some; lia|]. intros source.
  destruct (_ || _); by apply spec_ret.
Qed.

Lemma returns_diagnose :
  spec (λ _, True) (λ _ _, True) (λ '(code, err), (code = Undetected ∧ err = None) ∨
                                  (code = MediaDisconnected ∧ is_Some err)) (diagnoseSystem cfg).
Proof.
  eapply spec_conseq; [eapply spec_and_pspec; [|by apply (diagnose_emits cfg (λ _, True) (λ _ _, True))]|].
  - instantiate (1 := λ _, True). unfold diagnoseSystem, Open, ReadFull. destruct (DryRunEnabled _); [done|].
    apply returns_bind; [apply returns_mountpoint|]. intros [source|err]; [|done].
    destruct (String.eqb source ""); [done|]. apply returns_bind; [by apply spec_ask|]. intros [err|]; [done|].
    apply returns_bind; [by apply spec_ask|]. by intros [err|].
  - by intros a [_ H].
Qed.

Lemma returns_sendStepReply reply : always (sendStepReply cfg reply).
Proof. total. Qed.

Lemma returns_handleStep s : step_returns s → always (handleStep s).
Proof.
  intros Hs. unfold StepProcessor.handleStep. eapply spec_bind; [apply returns_diagnose|].
  intros [code err] Hd. destruct (negb _) eqn:E.
  { destruct Hd as [[-> _]|[_ [e ->]]]; [discriminate E|]. apply returns_sendStepReply. }
  eapply returns_bind; [exact Hs|]. intros reply. apply returns_bind; [|intros reply'].
  - clear E. destruct (negb (r_exit_code reply =? 0)%Z); [|by apply spec_ret]. eapply spec_bind; [apply returns_diagnose|]. intros [code' err'] Hd'.
    destruct (negb _) eqn:E'; [|by apply spec_ret]. destruct Hd' as [[-> _]|[_ [e ->]]]; [discriminate E'|exact I].
  - apply returns_bind; [apply returns_sendStepReply|]. intros _. by destruct (requiresRestart _ _).
Qed.

Lemma returns_handleInstruction i : instruction_returns i → always (handleInstruction i).
Proof. intros (s & -> & Hs). by apply returns_handleStep. Qed.

(** ** Everything is answered *)
(** The service asks only for steps that return. *)
Hypothesis sound_service : ∀ l sts, e_next_steps l = inl sts → Forall instruction_returns (Instructions sts).

Lemma received_returns l : Forall instruction_returns (received l).
Proof.
  induction l as [|r l IH] using rev_ind; [constructor|]. rewrite received_snoc. apply Forall_app. split; [done|].
  destruct (is_next_steps r); [|constructor]. unfold sent_after. destruct (e_next_steps l) eqn:E; [|constructor].
  by eapply sound_service.
Qed.

Definition live (p : pool request shared ()) : Prop :=
  process_inv p ∧ Forall (λ m, always m) (tail (p_procs p)).

Lemma live_step p p' : agent_step p p' → live p → live p'.
Proof.
  intros Hstep [Hinv Hgs]. split; [by eapply process_inv_step|].
  destruct Hinv as (_ & main & gs & started & pending & Hprocs & _ & _ & _ & Hrec).
  destruct Hstep as [p p' [l s l1 l2 X r f k|l s l1 l2 X f k]|l sh procs s q Hgo]; cbn [p_procs p_log p_shared] in *.
  - destruct l1 as [|m l1]; [done|]. cbn [app tail] in *. apply Forall_app in Hgs as [H1 H2].
    apply Forall_cons in H2 as [Hm H2]. apply Forall_app. split; [done|]. constructor; [apply Hm|done].
  - destruct l1 as [|m l1]; [done|]. cbn [app tail] in *. apply Forall_app in Hgs as [H1 H2].
    apply Forall_cons in H2 as [Hm H2]. apply Forall_app. split; [done|]. constructor; [apply (Hm s)|done].
  - subst procs. cbn [app tail] in *. apply Forall_app. split; [done|]. constructor; [|constructor].
    apply returns_handleInstruction. pose proof (received_returns l) as H. rewrite Hrec, Hgo in H.
    apply Forall_app in H as [_ H]. cbn [app] in H. by apply Forall_cons in H as [H _].
Qed.

(** *** The process while its main loop waits *)
(** The main loop waits: for the service, for a delay, or for ever. *)
Definition waits (p : pool request shared ()) : Prop :=
  match p_procs p with PAsk _ _ _ :: _ => True | PBlock :: _ => True | _ => False end.
(** Every goroutine has returned, and whatever the service has sent is answered. *)
Definition settled (p : pool request shared ()) : Prop :=
  sh_go (p_shared p) = [] ∧ Forall (λ g, g = PRet ()) (tail (p_procs p)) ∧
  Forall (λ i, answered_instruction i (p_log p)) (received (p_log p)).
Definition alive (p : pool request shared ()) : Prop := live p ∧ ¬ ended p.

Lemma live_no_panic p : live p → Forall (λ m, m ≠ PPanic) (p_procs p).
Proof.
  intros [(_ & main & gs & started & pending & Hp & _ & Hq & _) Hret]. rewrite Hp in *.
  constructor; [by intros ->|]. eapply Forall_impl; [exact Hret|]. by intros m H ->.
Qed.

Lemma not_ended p : live p → (∃ main gs, p_procs p = main :: gs ∧ main ≠ PRet ()) →
  Forall (λ r, exits r = false) (p_log p) → ¬ ended p.
Proof.
  intros Hl (main & gs & Hp & Hm) Hlog [H|[H|H]].
  - rewrite Hp in H. by injection H as ->.
  - apply Exists_exists in H as (m & Hin & ->). by apply (proj1 (Forall_forall _ _) (live_no_panic p Hl)) in Hin.
  - apply Exists_exists in H as (r & Hin & Hr). apply (proj1 (Forall_forall _ _) Hlog) in Hin. congruence.
Qed.

(** The goroutines neither end the process nor ask the service for more. *)
Lemma side_alive p p' : side_step p p' → alive p → alive p'.
Proof.
  intros Hs [Hl He]. pose proof (live_step _ _ (process_sub _ _ _ _ (side_process _ _ _ _ Hs)) Hl) as Hl'. split; [done|].
  assert (Hlog : Forall (λ r, exits r = false) (p_log p)).
  { apply Forall_forall. intros r Hr. apply not_true_is_false. intros E. apply He. right; right. apply Exists_exists. eauto. }
  destruct Hl as [(_ & main' & gs0 & started & pending & Hp & _ & _ & Hgs & _) _].
  destruct Hs as [l s l' s' main gs gs' _ Hs|l sh main gs i q _ Hq]; cbn [p_procs p_log p_shared] in *;
    injection Hp as -> ->.
  - apply not_ended; [done|exists main', gs'; split; [done|intros ->; apply He; by left]|]. cbn [p_log].
    inversion Hs; subst; [|done]. apply Forall_app. split; [done|]. constructor; [|constructor].
    apply Forall2_app_inv_r in Hgs as (s1 & s2' & _ & H2 & _). apply Forall2_cons_inv_r in H2 as (x & s2 & [_ [[_ Hx] _]] & _).
    exact Hx.
  - apply not_ended; [done|exists main'; eexists; split; [done|intros ->; apply He; by left]|done].
Qed.

Lemma side_main p p' : side_step p p' → head (p_procs p') = head (p_procs p).
Proof. by intros []. Qed.
Lemma rtc_side_main p p' : rtc side_step p p' → head (p_procs p') = head (p_procs p).
Proof. induction 1 as [|p p1 p' H _ IH]; [done|]. rewrite IH. by apply side_main. Qed.
Lemma waits_head p p' : head (p_procs p') = head (p_procs p) → waits p → waits p'.
Proof. unfold waits. destruct (p_procs p), (p_procs p'); cbn; try done. by intros [= ->]. Qed.

(** Nothing but the main loop is left to move. *)
Lemma stuck_settled p : alive p → waits p → nf side_step p → settled p.
Proof.
  intros [[(HI & main & gs & started & pending & Hp & _ & Hq & Hgs & Hrec) Hret] He] Hw Hnf.
  destruct p as [l s procs]. unfold settled, waits in *. cbn [p_procs p_log p_shared] in *. subst procs. cbn [tail] in *.
  assert (Hgo : sh_go s = []).
  { destruct (sh_go s) as [|i q] eqn:E; [done|]. destruct Hnf. eexists. by eapply side_go. }
  assert (Hrest : Forall at_rest gs).
  { apply (pool_at_rest (Pool l s gs)). intros [[l' s' gs'] H]. apply Hnf. eexists. by apply side_act. }
  assert (Hdone : Forall (λ g, g = PRet ()) gs).
  { apply Forall_forall. intros g Hg. rewrite Forall_forall in Hret, Hrest.
    by destruct (returns_at_rest _ _ _ _ (Hret g Hg) (Hrest g Hg)) as ([] & -> & _). }
  assert (pending = []) as -> by (by destruct main as [[]| | | |]; try done; destruct Hq).
  split_and!; [done..|]. rewrite Hrec, Hgo, !app_nil_r.
  clear -Hgs Hdone HI. induction Hgs as [|i g started gs [Hs _] _ IH]; [constructor|].
  apply Forall_cons in Hdone as [-> Hdone]. constructor; [|by apply IH]. apply (Hs _ (reflexivity _) HI).
Qed.

(** A process that cannot go on has ended, or its main loop waits for ever. *)
Lemma stuck_or_ended p : live p → nf process_step p → ended p ∨ (¬ ended p ∧ waits p).
Proof.
  intros Hl Hnf. destruct (Exists_dec (λ r, exits r = true) (p_log p)) as [Hx|Hx]; [by left; right; right|].
  pose proof Hl as [(_ & main & gs & started & pending & Hp & _ & Hq & _) _].
  assert (Hm : main = PRet () ∨ main ≠ PRet ()) by (destruct main as [[]| | | |]; [by left|by right..]).
  destruct Hm as [->|Hm]; [by left; left; rewrite Hp|]. right.
  assert (He : ¬ ended p).
  { apply not_ended; [done|by exists main, gs|]. apply Forall_forall. intros r Hr. apply not_true_is_false. intros E.
    apply Hx, Exists_exists. eauto. }
  split; [done|]. assert (Hrest : Forall at_rest (main :: gs)).
  { rewrite <-Hp. apply pool_at_rest. intros [p' H]. apply Hnf. exists p'. split; [done|]. by apply agent_act. }
  apply Forall_cons in Hrest as [Hrest _]. unfold waits. rewrite Hp. by destruct main as [[]| | | |].
Qed.

(** However many rounds the main loop goes and however it and the goroutines of the
    steps are scheduled, no goroutine panics and the process cannot run for ever.
    Whenever the main loop waits, the goroutines come to an end if they are given
    the time, and then everything the service has sent is answered; the process
    stops only by ending, which leaves the goroutines that still run without an
    answer, or with everything answered. *)
Lemma answered_in_the_end fuel attempts :
  sn process_step (initial fuel attempts) ∧
  ∀ p, rtc process_step (initial fuel attempts) p →
    Forall (λ m, m ≠ PPanic) (p_procs p) ∧
    (¬ ended p → waits p →
       sn side_step p ∧ ∀ p', rtc side_step p p' → nf side_step p' → ¬ ended p' ∧ settled p') ∧
    (nf process_step p → ended p ∨ settled p) ∧
    (ended p → head (p_procs p) = Some (PRet ()) ∨ cannot_connect cfg).
Proof.
  assert (Hsn : sn process_step (initial fuel attempts)).
  { eapply sn_subrel; [apply (process_sub unmarshalUpgradeAgentResponse cfg)|apply agent_terminates]. }
  split; [done|]. intros p Hrun.
  assert (Hl : live p).
  { apply (invariant_rtc _ _ _ _ live_step (process_agent _ _ _ _ Hrun)). split; [apply process_inv_initial|constructor]. }
  split_and!; [by apply live_no_panic| | |].
  - intros He Hw. split; [eapply sn_subrel; [apply (side_process unmarshalUpgradeAgentResponse cfg)|by eapply sn_step_rtc]|].
    intros p' Hside Hnf. assert (Ha : alive p') by (by apply (invariant_rtc _ _ _ _ side_alive Hside)).
    split; [apply Ha|]. apply stuck_settled; [done| |done]. eapply waits_head; [|exact Hw]. by apply rtc_side_main.
  - intros Hnf. destruct (stuck_or_ended p Hl Hnf) as [He|[He Hw]]; [by left|right].
    apply stuck_settled; [done..|]. intros [p' H]. apply Hnf. exists p'. by apply side_process.
  - assert (Hex : exits_so cfg p).
    { apply (invariant_rtc _ _ _ _ (exits_so_step _ _) (process_agent _ _ _ _ Hrun)). split; [constructor|].
      repeat constructor. apply main_loop_reason. }
    intros [H|[H|H]]; [by left| |right].
    + apply Exists_exists in H as (m & Hin & ->). by apply (proj1 (Forall_forall _ _) (live_no_panic p Hl)) in Hin.
    + apply Exists_exists in H as (r & Hin & Hr). apply (proj1 (Forall_forall _ _) (proj1 Hex)) in Hin.
      destruct r; try done. apply Hin.
Qed.
End Returns.
End Completion.
