(* ===== verification/Net.v ===== *)
(** * IP addresses and networks (Go's [net] and [net/netip] packages)

    An address is its bytes, most significant first: 4 for IPv4, 16 for IPv6.
    [ParseAddr] follows netip.ParseAddr, [ParseCIDR] and [Contains] follow the
    package net; zones are rejected, as ParseCIDR and ParseIP do. *)
From S2P Require Import Prelude GoStrings Host.

Abbreviation bytes := (list Z).

(** ** Cutting a string at the first occurrence of a character *)
Fixpoint cut (s : string) (c : ascii) : option (string * string) :=
  match s with
  | "" => None
  | String d s' =>
      if Ascii.eqb d c then Some ("", s')
      else match cut s' c with
           | Some (a, b) => Some (String d a, b)
           | None => None
           end
  end.

Definition has_char (s : string) (c : ascii) : bool := negb (all_chars (λ d, negb (Ascii.eqb d c)) s).

(** ** IPv4 *)
(** One octet: decimal digits, no leading zero, at most 255. *)
Definition parse_octet (s : string) : option Z :=
  match s with
  | "" => None
  | String "0" "" => Some 0%Z
  | String "0" _ => None
  | _ => match digits_go 0 s with
         | Some v => if (v <=? 255)%Z then Some v else None
         | None => None
         end
  end.

Definition parse_ipv4 (s : string) : option bytes :=
  match map parse_octet (Split s ".") with
  | [Some a; Some b; Some c; Some d] => Some [a; b; c; d]
  | _ => None
  end.

Definition format_ipv4 (ip : bytes) : string := Join (map Itoa ip) ".".

(** ** IPv6 *)
Definition hex_value (c : ascii) : option Z :=
  let n := Z.of_nat (Ascii.nat_of_ascii c) in
  if ((48 <=? n) && (n <=? 57))%Z then Some (n - 48)%Z else
  if ((97 <=? n) && (n <=? 102))%Z then Some (n - 87)%Z else
  if ((65 <=? n) && (n <=? 70))%Z then Some (n - 55)%Z else None.

(** The hexadecimal digits at the head of [s]: their number, value, the rest. *)
Fixpoint take_hex (s : string) (n : nat) (acc : Z) : nat * Z * string :=
  match s with
  | "" => (n, acc, "")
  | String c s' =>
      match hex_value c with
      | Some v => take_hex s' (S n) (16 * acc + v)%Z
      | None => (n, acc, s)
      end
  end.

Definition group_bytes (acc : Z) : bytes := [(acc / 256)%Z; (acc mod 256)%Z].

(** The loop over colon-separated groups; [done] are the bytes read so far and
    [ell] is the position of the ellipsis. *)
Fixpoint ipv6_groups (fuel : nat) (s : string) (done : bytes) (ell : option nat)
    : option (bytes * option nat) :=
  match fuel with
  | O => match s with "" => Some (done, ell) | _ => None end
  | S fuel' =>
      let '(n, acc, rest) := take_hex s 0 0%Z in
      if Nat.eqb n 0 || Nat.ltb 4 n then None else
      match rest with
      | String "." _ =>
          if bool_decide (ell = None) && negb (Nat.eqb (length done) 12) then None else
          if Nat.ltb 12 (length done) then None else
          match parse_ipv4 s with Some v4 => Some (done ++ v4, ell) | None => None end
      | "" => Some (done ++ group_bytes acc, ell)
      | String ":" "" => None
      | String ":" (String ":" rest') =>
          match ell with
          | Some _ => None
          | None =>
              let done' := done ++ group_bytes acc in
              match rest' with
              | "" => Some (done', Some (length done'))
              | _ => ipv6_groups fuel' rest' done' (Some (length done'))
              end
          end
      | String ":" rest' => ipv6_groups fuel' rest' (done ++ group_bytes acc) ell
      | _ => None
      end
  end.

Definition expand_ellipsis (done : bytes) (ell : option nat) : option bytes :=
  match ell with
  | None => if Nat.eqb (length done) 16 then Some done else None
  | Some p =>
      if Nat.ltb (length done) 16
      then Some (take p done ++ replicate (16 - length done) 0%Z ++ drop p done) else None
  end.

Definition parse_ipv6 (s : string) : option bytes :=
  let r := match s with
           | String ":" (String ":" "") => Some ([], Some 0)
           | String ":" (String ":" s') => ipv6_groups 8 s' [] (Some 0)
           | _ => ipv6_groups 8 s [] None
           end in
  match r with Some (done, ell) => expand_ellipsis done ell | None => None end.

(** netip.ParseAddr: the first dot, colon or percent sign decides. *)
Fixpoint addr_family (s : string) : ascii :=
  match s with
  | "" => " "
  | String c s' =>
      if Ascii.eqb c "." || Ascii.eqb c ":" || Ascii.eqb c "%" then c else addr_family s'
  end.

Definition ParseAddr (s : string) : option bytes :=
  if Ascii.eqb (addr_family s) "." then parse_ipv4 s
  else if Ascii.eqb (addr_family s) ":" then parse_ipv6 s else None.

(** ** net.IP *)
Definition v4_in_v6_prefix : bytes := replicate 10 0%Z ++ [255; 255]%Z.

(** To4: the four bytes of an IPv4 address, also when mapped into IPv6. *)
Definition To4 (ip : bytes) : option bytes :=
  if Nat.eqb (length ip) 4 then Some ip
  else if Nat.eqb (length ip) 16 && bool_decide (take 12 ip = v4_in_v6_prefix)
  then Some (drop 12 ip) else None.

(** net.ParseIP; the 16-byte form of IPv4 is represented by its 4 bytes. *)
Definition ParseIP (s : string) : option bytes := ParseAddr s.

Definition to_hex_digit (v : Z) : ascii :=
  Ascii.ascii_of_nat (Z.to_nat (if (v <? 10)%Z then 48 + v else 87 + v)%Z).

(** A group in hexadecimal without leading zeros. *)
Definition hex_group (v : Z) : string :=
  let d i := String (to_hex_digit (v / i mod 16)) "" in
  (if (v >=? 4096)%Z then d 4096%Z else "") +:+ (if (v >=? 256)%Z then d 256%Z else "") +:+
  (if (v >=? 16)%Z then d 16%Z else "") +:+ d 1%Z.

Fixpoint ip_groups (ip : bytes) : list Z :=
  match ip with
  | a :: b :: ip' => (256 * a + b)%Z :: ip_groups ip'
  | _ => []
  end.

Fixpoint zero_run (l : list Z) : nat :=
  match l with (0%Z) :: l' => S (zero_run l') | _ => 0 end.

(** The first longest run of at least two zero groups: position and length. *)
Fixpoint best_run (l : list Z) (pos : nat) (best : nat * nat) : nat * nat :=
  match l with
  | [] => best
  | _ :: l' =>
      let n := zero_run l in
      best_run l' (S pos) (if Nat.ltb (snd best) n && Nat.leb 2 n then (pos, n) else best)
  end.

Definition format_ipv6 (ip : bytes) : string :=
  let g := ip_groups ip in
  let '(p, n) := best_run g 0 (0, 0) in
  if Nat.eqb n 0 then Join (map hex_group g) ":"
  else Join (map hex_group (take p g)) ":" +:+ "::" +:+ Join (map hex_group (drop (p + n) g)) ":".

(** IP.String *)
Definition IP_String (ip : bytes) : string :=
  match To4 ip with
  | Some v4 => format_ipv4 v4
  | None => if Nat.eqb (length ip) 16 then format_ipv6 ip else "<nil>"
  end.

(** ** Masks and networks *)
(** net.CIDRMask *)
Definition mask_byte (ones : Z) (i : nat) : Z :=
  let k := Z.min 8 (Z.max 0 (ones - 8 * Z.of_nat i)) in (256 - 2 ^ (8 - k))%Z.
Definition CIDRMask (ones : Z) (len : nat) : bytes := map (mask_byte ones) (seq 0 len).

(** net.IPNet with a prefix mask of [net_ones] ones, as long as the address: four
    bytes also stand for the 16-byte form of an IPv4 address with a mask of four,
    which the functions of package net treat alike. *)
Record IPNet : Type := mkIPNet { net_ip : bytes; net_ones : Z }.
(** IPMask.Size: the ones and the bits of a mask *)
Definition Mask_Size (n : IPNet) : Z * Z := (net_ones n, (8 * Z.of_nat (length (net_ip n)))%Z).

Definition mask_ip (ip mask : bytes) : bytes := zip_with Z.land ip mask.

(** networkNumberAndMask: an IPv4-mapped network is an IPv4 network. *)
Definition number_and_mask (n : IPNet) : bytes * bytes :=
  let m := CIDRMask (net_ones n) (length (net_ip n)) in
  match To4 (net_ip n) with
  | Some v4 => (v4, drop (length m - 4) m)
  | None => (net_ip n, m)
  end.

(** IPNet.Contains *)
Definition Contains_ip (n : IPNet) (ip : bytes) : bool :=
  let ip' := default ip (To4 ip) in
  let '(nn, m) := number_and_mask n in
  Nat.eqb (length ip') (length nn) && bool_decide (mask_ip nn m = mask_ip ip' m).

(** IPNet.String *)
Definition IPNet_String (n : IPNet) : string :=
  let '(nn, m) := number_and_mask n in
  IP_String nn +:+ "/" +:+
  Itoa (Z.max 0 (net_ones n - 8 * (Z.of_nat (length (net_ip n)) - Z.of_nat (length nn)))).

(** net.ParseCIDR *)
Definition ParseCIDR (s : string) : option (bytes * IPNet) :=
  match cut s "/" with
  | None => None
  | Some (addr, mask) =>
      match ParseAddr addr with
      | None => None
      | Some ip =>
          match mask with
          | "" => None
          | _ =>
              match digits_go 0 mask with
              | None => None
              | Some n =>
                  let bits := (8 * Z.of_nat (length ip))%Z in
                  if (n >? bits)%Z then None
                  else Some (ip, mkIPNet (mask_ip ip (CIDRMask n (length ip))) n)
              end
          end
      end
  end.

(** The error message of net.ParseCIDR. *)
Definition cidr_error (s : string) : error := errorf ("invalid CIDR address: " +:+ s).

(** IP.IsGlobalUnicast *)
Definition IsGlobalUnicast (ip : bytes) : bool :=
  let v4 := default ip (To4 ip) in
  (Nat.eqb (length v4) 4 || Nat.eqb (length v4) 16) &&
  negb (bool_decide (v4 = [255; 255; 255; 255]%Z)) &&
  negb (bool_decide (v4 = replicate (length v4) 0%Z)) &&
  negb (if Nat.eqb (length v4) 4
        then (nth 0 v4 0 =? 127)%Z || (Z.land (nth 0 v4 0) 240 =? 224)%Z ||
             ((nth 0 v4 0 =? 169)%Z && (nth 1 v4 0 =? 254)%Z)
        else bool_decide (v4 = replicate 15 0%Z ++ [1%Z]) || (nth 0 v4 0 =? 255)%Z ||
             ((nth 0 v4 0 =? 254)%Z && (Z.land (nth 1 v4 0) 192 =? 128)%Z)).

(** ** Facts *)
Example parse_v6_1 : option_map IP_String (ParseAddr "fe80::1:0:0:a") = Some "fe80::1:0:0:a".
Proof. vm_compute. reflexivity. Qed.
Example parse_v6_2 : option_map (λ p, IPNet_String (snd p)) (ParseCIDR "2001:db8:1::ff/48") = Some "2001:db8:1::/48".
Proof. vm_compute. reflexivity. Qed.
Example parse_v6_3 : option_map IP_String (ParseAddr "::ffff:1.2.3.4") = Some "1.2.3.4".
Proof. vm_compute. reflexivity. Qed.
Example parse_v6_bad : map ParseAddr ["1::2::3"; "12345::"; "1:2:3:4:5:6:7"; "::1%eth0"; ":1"; "1.2.3"; "1.2.3.04"; ""] =
  replicate 8 None.
Proof. vm_compute. reflexivity. Qed.

(** ** IPv4 addresses as numbers *)
Definition ip4 (v : Z) : bytes :=
  [(v / 16777216 mod 256)%Z; (v / 65536 mod 256)%Z; (v / 256 mod 256)%Z; (v mod 256)%Z].

Definition two32 : Z := 4294967296.

(** A finite check over the values of a byte. *)
Lemma byte_cases (P : Z → bool) :
  forallb (λ n, P (Z.of_nat n)) (seq 0 256) = true → ∀ b, (0 <= b < 256)%Z → P b = true.
Proof.
  intros H b Hb. rewrite forallb_forall in H. specialize (H (Z.to_nat b)).
  rewrite Z2Nat.id in H by lia. apply H, in_seq. lia.
Qed.

Definition octet_check (b : Z) : bool :=
  match parse_octet (Itoa b) with Some v => (v =? b)%Z | None => false end &&
  all_chars (λ c, negb (Ascii.eqb c ".")) (Itoa b) &&
  all_chars (λ c, negb (Ascii.eqb c "/")) (Itoa b) && all_chars is_digit (Itoa b).

Lemma octet_roundtrip b : (0 <= b < 256)%Z →
  parse_octet (Itoa b) = Some b ∧ all_chars (λ c, negb (Ascii.eqb c ".")) (Itoa b) = true ∧
  all_chars (λ c, negb (Ascii.eqb c "/")) (Itoa b) = true ∧ all_chars is_digit (Itoa b) = true.
Proof.
  intros Hb. assert (H : forallb (λ n, octet_check (Z.of_nat n)) (seq 0 256) = true) by (vm_compute; done).
  apply (byte_cases octet_check) with (b := b) in H; [|done]. unfold octet_check in H.
  rewrite !andb_true_iff in H. destruct H as [[[H1 H2] H3] H4].
  destruct (parse_octet (Itoa b)); [|done]. apply Z.eqb_eq in H1. by subst.
Qed.

Definition is_bytes (ip : bytes) : Prop := Forall (λ b, (0 <= b < 256)%Z) ip.

Lemma is_bytes_ip4 v : is_bytes (ip4 v).
Proof. repeat constructor; apply Z.mod_pos_bound; lia. Qed.

(** IPv4 addresses survive printing and parsing. *)
Lemma ipv4_roundtrip ip : is_bytes ip → length ip = 4 → parse_ipv4 (format_ipv4 ip) = Some ip.
Proof.
  intros Hb Hlen. unfold parse_ipv4, format_ipv4.
  rewrite Split_Join; [|by destruct ip|].
  2: { apply Forall_map. eapply Forall_impl; [exact Hb|]. intros b H. apply octet_roundtrip, H. }
  rewrite map_map.
  assert (E : map (λ x, parse_octet (Itoa x)) ip = map Some ip).
  { apply map_ext_in. intros b Hin. apply octet_roundtrip.
    unfold is_bytes in Hb. rewrite Forall_forall in Hb. apply Hb, list_elem_of_In, Hin. }
  rewrite E. destruct ip as [|a [|b [|c [|d [|e ip]]]]]; simpl in Hlen; try lia. done.
Qed.

Definition ip4_val (ip : bytes) : Z := fold_left (λ a b, (256 * a + b)%Z) ip 0%Z.

Lemma ip4_val_ip4 v : ip4_val (ip4 v) = (v mod two32)%Z.
Proof.
  unfold two32. change 4294967296%Z with (256 * (256 * (256 * 256)))%Z.
  rewrite !Z.rem_mul_r by lia. unfold ip4, ip4_val; simpl.
  replace (v / 65536)%Z with (v / 256 / 256)%Z by (by rewrite Z.div_div by lia).
  replace (v / 16777216)%Z with (v / 256 / 256 / 256)%Z by (by rewrite !Z.div_div by lia). lia.
Qed.

Lemma ip4_inj v w : (0 <= v < two32)%Z → (0 <= w < two32)%Z → ip4 v = ip4 w → v = w.
Proof.
  intros Hv Hw H. apply (f_equal ip4_val) in H. rewrite !ip4_val_ip4 in H.
  by rewrite !Z.mod_small in H.
Qed.

(** *** Masking *)
Definition mask_val (p : Z) : Z := Z.shiftl (Z.ones p) (32 - p).

Lemma byte_shift v k : (0 <= k)%Z → (v / 2 ^ k mod 256 = Z.land (Z.shiftr v k) 255)%Z.
Proof.
  intros Hk. rewrite Z.shiftr_div_pow2 by done. change 255%Z with (Z.ones 8).
  rewrite Z.land_ones by done. done.
Qed.

Lemma ip4_land v w : ip4 (Z.land v w) = zip_with Z.land (ip4 v) (ip4 w).
Proof.
  assert (H : ∀ k, (0 <= k)%Z →
    (Z.land v w / 2 ^ k mod 256 = Z.land (v / 2 ^ k mod 256) (w / 2 ^ k mod 256))%Z).
  { intros k Hk. rewrite !byte_shift by done. rewrite Z.shiftr_land.
    apply Z.bits_inj'. intros n Hn. rewrite !Z.land_spec. by destruct (Z.testbit 255 n), (Z.testbit (Z.shiftr v k) n), (Z.testbit (Z.shiftr w k) n). }
  unfold ip4; simpl. repeat f_equal.
  - apply (H 24%Z). lia.
  - apply (H 16%Z). lia.
  - apply (H 8%Z). lia.
  - specialize (H 0%Z ltac:(lia)). rewrite !Z.div_1_r in H. exact H.
Qed.

Lemma prefix_cases (P : Z → bool) :
  forallb (λ n, P (Z.of_nat n)) (seq 0 33) = true → ∀ p, (0 <= p <= 32)%Z → P p = true.
Proof.
  intros H b Hb. rewrite forallb_forall in H. specialize (H (Z.to_nat b)).
  rewrite Z2Nat.id in H by lia. apply H, in_seq. lia.
Qed.

Definition mask_check (p : Z) : bool := bool_decide (CIDRMask p 4 = ip4 (mask_val p)).

Lemma CIDRMask_4 p : (0 <= p <= 32)%Z → CIDRMask p 4 = ip4 (mask_val p).
Proof.
  intros Hp. assert (H : forallb (λ n, mask_check (Z.of_nat n)) (seq 0 33) = true) by (vm_compute; done).
  apply (prefix_cases mask_check) with (p := p) in H; [|done]. by apply bool_decide_eq_true in H.
Qed.

(** The first address of the [/p] block that [v] is in. *)
Definition block_base (p v : Z) : Z := (v / 2 ^ (32 - p) * 2 ^ (32 - p))%Z.

Lemma land_mask_val p v : (0 <= p <= 32)%Z → (0 <= v < two32)%Z → Z.land v (mask_val p) = block_base p v.
Proof.
  intros Hp Hv. unfold block_base, mask_val.
  rewrite <-Z.shiftl_mul_pow2, <-Z.shiftr_div_pow2 by lia.
  rewrite <-Z.ldiff_ones_r by lia. apply Z.bits_inj'. intros n Hn.
  rewrite Z.land_spec, Z.ldiff_spec, Z.shiftl_spec by lia.
  destruct (decide (n < 32)%Z) as [H32|H32].
  - destruct (decide (n < 32 - p)%Z).
    + rewrite (Z.testbit_neg_r _ (n - (32 - p))) by lia.
      rewrite Z.ones_spec_low by lia. by rewrite !andb_false_r.
    + rewrite Z.ones_spec_low by lia. rewrite Z.ones_spec_high by lia. done.
  - assert (E : Z.testbit v n = false).
    { apply (Z.testbit_false); [lia|]. rewrite Z.div_small; [done|].
      unfold two32 in Hv. split; [lia|]. eapply Z.lt_le_trans; [apply Hv|].
      change 4294967296%Z with (2 ^ 32)%Z. apply Z.pow_le_mono_r; lia. }
    by rewrite E.
Qed.

Lemma mask_ip4 p v : (0 <= p <= 32)%Z → (0 <= v < two32)%Z →
  mask_ip (ip4 v) (CIDRMask p 4) = ip4 (block_base p v).
Proof. intros. unfold mask_ip. rewrite CIDRMask_4, <-ip4_land, land_mask_val by done. done. Qed.

Lemma block_base_bound p v : (0 <= p <= 32)%Z → (0 <= v < two32)%Z →
  (0 <= block_base p v <= v)%Z ∧ (block_base p v < two32)%Z ∧ (v < block_base p v + 2 ^ (32 - p))%Z.
Proof.
  intros Hp Hv. unfold block_base. assert (0 < 2 ^ (32 - p))%Z by (apply Z.pow_pos_nonneg; lia).
  pose proof (Z.div_mod v (2 ^ (32 - p))). pose proof (Z.mod_pos_bound v (2 ^ (32 - p))).
  pose proof (Z.div_pos v (2 ^ (32 - p))). nia.
Qed.

(** A network of prefix [p] starting at [v] contains the addresses from [v]
    to the next multiple of the block size. *)
Lemma Contains_ip4 p v w : (0 <= p <= 32)%Z → (0 <= v < two32)%Z → (0 <= w < two32)%Z →
  block_base p v = v →
  Contains_ip (mkIPNet (ip4 v) p) (ip4 w) = bool_decide (v <= w < v + 2 ^ (32 - p))%Z.
Proof.
  intros Hp Hv Hw Hb. unfold Contains_ip, number_and_mask.
  change (To4 (net_ip (mkIPNet (ip4 v) p))) with (Some (ip4 v)). cbn -[ip4 CIDRMask mask_ip Z.pow Z.sub].
  change (default (ip4 w) (To4 (ip4 w))) with (ip4 w). change (length (ip4 v)) with 4. change (length (ip4 w)) with 4.
  replace (drop (length (CIDRMask p 4) - 4) (CIDRMask p 4)) with (CIDRMask p 4) by done.
  rewrite !mask_ip4 by done. simpl.
  destruct (block_base_bound p w) as (H1 & H2 & H3); [done..|].
  assert (0 < 2 ^ (32 - p))%Z by (apply Z.pow_pos_nonneg; lia).
  apply bool_decide_ext. rewrite Hb. split; intros H0.
  - apply ip4_inj in H0; [|lia..]. lia.
  - f_equal. unfold block_base in *. set (B := (2 ^ (32 - p))%Z) in *.
    assert (v / B = w / B)%Z; [|lia].
    apply Z.div_unique with (r := (w - v)%Z); lia.
Qed.

(** *** Printing and parsing networks *)
Lemma cut_nosep s t c : all_chars (λ d, negb (Ascii.eqb d c)) s = true → cut (s +:+ String c t) c = Some (s, t).
Proof.
  induction s as [|d s IH]; simpl; [by rewrite Ascii.eqb_refl|]. intros [Hd Hs]%andb_true_iff.
  destruct (Ascii.eqb d c); [done|]. by rewrite IH.
Qed.

Lemma all_chars_Join p sep l :
  all_chars p sep = true → Forall (λ s, all_chars p s = true) l → all_chars p (Join l sep) = true.
Proof.
  intros Hsep Hl. induction Hl as [|x l Hx Hl IH]; [done|]. destruct l as [|y l]; [done|].
  change (Join (x :: y :: l) sep) with (x +:+ sep +:+ Join (y :: l) sep).
  by rewrite !all_chars_app, Hx, Hsep, IH.
Qed.

Lemma addr_family_digits s t : all_chars is_digit s = true → addr_family (s +:+ String "." t) = "."%char.
Proof.
  induction s as [|c s IH]; simpl; [done|]. intros [Hc Hs]%andb_true_iff.
  destruct (Ascii.eqb c "." || Ascii.eqb c ":" || Ascii.eqb c "%") eqn:E; [|by apply IH].
  rewrite !orb_true_iff, !Ascii.eqb_eq in E. destruct E as [[->| ->]| ->]; vm_compute in Hc; done.
Qed.

Lemma ParseAddr_ip4 v : ParseAddr (format_ipv4 (ip4 v)) = Some (ip4 v).
Proof.
  unfold ParseAddr. assert (E : addr_family (format_ipv4 (ip4 v)) = "."%char).
  { unfold format_ipv4, ip4. apply addr_family_digits. apply octet_roundtrip. apply Z.mod_pos_bound. lia. }
  rewrite E. apply ipv4_roundtrip; [apply is_bytes_ip4|done].
Qed.

Lemma IP_String_ip4 v : IP_String (ip4 v) = format_ipv4 (ip4 v).
Proof. done. Qed.

Lemma IP_String_inj v w : IP_String (ip4 v) = IP_String (ip4 w) → ip4 v = ip4 w.
Proof.
  rewrite !IP_String_ip4. intros E. apply (f_equal ParseAddr) in E. rewrite !ParseAddr_ip4 in E. congruence.
Qed.

Definition prefix_check (p : Z) : bool :=
  match digits_go 0 (Itoa p) with Some v => (v =? p)%Z | None => false end &&
  negb (String.eqb (Itoa p) "").

Lemma prefix_roundtrip p : (0 <= p <= 32)%Z → digits_go 0 (Itoa p) = Some p ∧ Itoa p ≠ "".
Proof.
  intros Hp. assert (H : forallb (λ n, prefix_check (Z.of_nat n)) (seq 0 33) = true) by (vm_compute; done).
  apply (prefix_cases prefix_check) with (p := p) in H; [|done]. unfold prefix_check in H.
  rewrite andb_true_iff in H. destruct H as [H1 H2].
  destruct (digits_go 0 (Itoa p)); [|done]. apply Z.eqb_eq in H1. split; [by subst|].
  intros E. by rewrite E in H2.
Qed.

(** The name of a segment, as Sprintf and as IPNet.String print it. *)
Definition net_name (v p : Z) : string := IP_String (ip4 v) +:+ "/" +:+ Itoa p.

Lemma IPNet_String_ip4 v p : (0 <= p <= 32)%Z → IPNet_String (mkIPNet (ip4 v) p) = net_name v p.
Proof.
  intros Hp. unfold IPNet_String, number_and_mask, net_name.
  change (To4 (net_ip (mkIPNet (ip4 v) p))) with (Some (ip4 v)). cbn -[ip4 CIDRMask Z.sub Z.mul Itoa IP_String].
  repeat f_equal. change (Z.of_nat (length (ip4 v))) with 4%Z. lia.
Qed.

Lemma ParseCIDR_ip4 v p : (0 <= p <= 32)%Z → (0 <= v < two32)%Z → block_base p v = v →
  ParseCIDR (net_name v p) = Some (ip4 v, mkIPNet (ip4 v) p).
Proof.
  intros Hp Hv Hb. unfold ParseCIDR, net_name. rewrite IP_String_ip4.
  change ("/" +:+ Itoa p) with (String "/" (Itoa p)). rewrite cut_nosep.
  2: { apply all_chars_Join; [done|]. apply Forall_map. eapply Forall_impl; [apply is_bytes_ip4|].
       intros b H. apply octet_roundtrip, H. }
  rewrite ParseAddr_ip4. destruct (prefix_roundtrip p Hp) as [E1 E2].
  destruct (Itoa p) as [|c s]; [done|]. rewrite E1. change (length (ip4 v)) with 4.
  replace (p >? 8 * Z.of_nat 4)%Z with false by (symmetry; rewrite Z.gtb_ltb; apply Z.ltb_ge; lia).
  rewrite mask_ip4 by done. by rewrite Hb.
Qed.

(** *** The bytes of a number, most significant first *)
Fixpoint be (k : nat) (v : Z) : bytes :=
  match k with O => [] | S k' => be k' (v / 256) ++ [(v mod 256)%Z] end.

Lemma be_length k v : length (be k v) = k.
Proof. revert v. induction k; intros; simpl; [done|]. rewrite length_app, IHk. simpl. lia. Qed.

Lemma ip4_be v : ip4 v = be 4 v.
Proof. unfold ip4. simpl. by rewrite !Z.div_div by lia. Qed.

Lemma be_app a b v : be (a + b) v = be a (v / 256 ^ Z.of_nat b) ++ be b v.
Proof.
  revert v. induction b as [|b IH]; intros v.
  - rewrite Nat.add_0_r. simpl. by rewrite Z.div_1_r, app_nil_r.
  - rewrite Nat.add_succ_r. simpl. rewrite IH, <-(assoc_L (++)). f_equal. f_equal.
    rewrite Z.div_div by lia. f_equal. rewrite Nat2Z.inj_succ, Z.pow_succ_r by lia. lia.
Qed.

Lemma be_shift k v x : be k (v + x * 256 ^ Z.of_nat k) = be k v.
Proof.
  revert v x. induction k as [|k IH]; intros v x; [done|]. simpl.
  rewrite Nat2Z.inj_succ, Z.pow_succ_r by lia.
  replace (v + x * (256 * 256 ^ Z.of_nat k))%Z with (v + (x * 256 ^ Z.of_nat k) * 256)%Z by lia.
  rewrite Z.div_add, Z.mod_add by lia. by rewrite IH.
Qed.
