(* ===== verification/FreeAddresses.v ===== *)
(** * Free addresses of the networks of a host (src/free_addresses,
    src/util/nmap/types.go)

    [scanner.scanNetwork] cuts a network into segments of at most 1024
    addresses, runs nmap on each and keeps the addresses nobody answers at. *)
From stdpp Require Import list_numbers sorting.
From S2P Require Import Prelude GoStrings Host Net.

(** ** nmap's report (util/nmap/types.go) *)
Record Status : Type := mkStatus { State : string; Reason : string }.
Record Address : Type := mkAddress { Addr : string; AddrType : string }.
Record nmap_host : Type := mkNmapHost { h_Status : Status; Addresses : list Address }.
Record Nmaprun : Type := mkNmaprun { Hosts : list nmap_host }.

(** models.FreeNetworkAddresses *)
Record FreeNetworkAddresses : Type := mkFree { Network : string; FreeAddresses : list string }.

Definition AddressLimit : nat := 8000.
Definition MinSubnetMaskSize : Z := 22.

(** ** Address arithmetic *)
(** The carry loop of [inc], from the last byte. *)
Fixpoint inc_rev (l : bytes) : bytes :=
  match l with
  | [] => []
  | b :: l' => let b' := ((b + 1) mod 256)%Z in if (b' >? 0)%Z then b' :: l' else b' :: inc_rev l'
  end.
Definition inc (ip : bytes) : bytes := reverse (inc_rev (reverse ip)).

(** [None]: ip[start] is out of range. *)
Definition incSubnet (ip : bytes) (mask : Z) : option bytes :=
  if (mask =? 0)%Z then Some ip else
  let start := Z.to_nat ((mask - 1) / 8) in
  let add := (Z.shiftl 1 (7 - (mask - 1) mod 8) mod 256)%Z in
  match ip !! start with
  | None => None
  | Some prev =>
      let b := ((prev + add) mod 256)%Z in
      let ip' := <[start := b]> ip in
      Some (if (b <? prev)%Z then inc (take start ip') ++ drop start ip' else ip')
  end.

(** ** The scanner *)
Section Scanner.
Context {env : Env}.
(** encoding/xml and encoding/json *)
Variable unmarshal_nmap : string → result Nmaprun.
Variable unmarshal_request : string → result (list string).
Variable marshal_free : list FreeNetworkAddresses → result string.

(** The first IPv4 address of each host that is up. *)
Definition occupied_addresses (run : Nmaprun) : list string :=
  omap (λ h, if String.eqb (State (h_Status h)) "up"
             then Addr <$> List.find (λ a, String.eqb (AddrType a) "ipv4") (Addresses h)
             else None) (Hosts run).

(** The loop over the addresses of a segment; it only runs out of fuel on a
    network of prefix 0, where the code never leaves it. *)
Fixpoint collect_free (fuel : nat) (cidr : IPNet) (occupied : list string) (ip : bytes)
    (ret : list string) : option (list string) :=
  if Contains_ip cidr ip then
    match fuel with
    | O => None
    | S fuel' =>
        let ret' := if bool_decide (IP_String ip ∈ occupied) then ret else ret ++ [IP_String ip] in
        collect_free fuel' cidr occupied (inc ip) ret'
    end
  else Some ret.

Definition segment_size (ones : Z) : nat := Z.to_nat (2 ^ (32 - ones)).

Definition nmap_args (subNetwork : string) : list string :=
  ["-sn"; "-PR"; "-n"; "-oX"; "-"; subNetwork].

Definition scanSubNetwork (subNetwork : string) : Go (list string * string * Z) :=
  match ParseCIDR subNetwork with
  | None =>
      mret ([], err_msg (wrap (cidr_error subNetwork)
                          ("Network " +:+ subNetwork +:+ " is not a valid CIDR ")), (-1)%Z)
  | Some (ip, cidr) =>
      if negb (String.eqb (IPNet_String cidr) subNetwork)
      then mret ([], "Requested CIDR " +:+ IPNet_String cidr +:+
                     " is not equal to provided subNetwork " +:+ subNetwork, (-1)%Z)
      else
        '(o, e, exitCode) ← Execute "nmap" (nmap_args subNetwork);
        if negb (exitCode =? 0)%Z then mret ([], e, exitCode) else
        match unmarshal_nmap o with
        | Bad err => mret ([], err_msg err, (-1)%Z)
        | Good nmaprun =>
            match collect_free (segment_size (net_ones cidr)) cidr
                    (occupied_addresses nmaprun) (default [] (To4 ip)) [] with
            | Some ret => mret (ret, "", 0%Z)
            | None => block
            end
        end
  end.

(** fmt.Sprintf("%s/%d", ip.To4().String(), mask) *)
Definition segment_name (ip : bytes) (mask : Z) : string :=
  IP_String (default [] (To4 ip)) +:+ "/" +:+ Itoa mask.

(** The loop over the segments of a network. *)
Fixpoint scan_segments (fuel : nat) (cidr : IPNet) (mask : Z) (ip : bytes)
    (ret : FreeNetworkAddresses) : Go (FreeNetworkAddresses * string * Z) :=
  if Contains_ip cidr ip && Nat.ltb (length (FreeAddresses ret)) AddressLimit then
    match fuel with
    | O => block
    | S fuel' =>
        '(res, e, exitCode) ← scanSubNetwork (segment_name ip mask);
        if negb (exitCode =? 0)%Z then mret (ret, e, exitCode) else
        ip' ← or_panic (incSubnet ip mask);
        scan_segments fuel' cidr mask ip' (mkFree (Network ret) (FreeAddresses ret ++ res))
    end
  else mret (ret, "", 0%Z).

Definition scanNetwork (fuel : nat) (network : string) : Go (FreeNetworkAddresses * string * Z) :=
  let ret := mkFree network [] in
  match ParseCIDR network with
  | None =>
      mret (ret, err_msg (wrap (cidr_error network)
                           ("Network " +:+ network +:+ " is not a valid CIDR")), (-1)%Z)
  | Some (ip, cidr) =>
      if negb (String.eqb (IPNet_String cidr) network)
      then mret (ret, "Requested CIDR " +:+ IPNet_String cidr +:+
                      " is not equal to provided network " +:+ network, (-1)%Z)
      else
        let ones := net_ones cidr in
        let mask := if (ones <? MinSubnetMaskSize)%Z then MinSubnetMaskSize else ones in
        scan_segments fuel cidr mask (default [] (To4 ip)) ret
  end.

(** The loop over the networks of the request. *)
Fixpoint scan_networks (fuel : nat) (networks : list string) (acc : list FreeNetworkAddresses)
    : Go (list FreeNetworkAddresses + string * Z) :=
  match networks with
  | [] => mret (inl acc)
  | r :: networks' =>
      '(rec, e, exitCode) ← scanNetwork fuel r;
      if negb (exitCode =? 0)%Z then mret (inr (e, exitCode))
      else scan_networks fuel networks' (acc ++ [rec])
  end.

Definition GetFreeAddresses (fuel : nat) (freeAddressesRequestStr : string) : Go (string * string * Z) :=
  match unmarshal_request freeAddressesRequestStr with
  | Bad err => mret ("", err_msg err, (-1)%Z)
  | Good request =>
      res ← scan_networks fuel request [];
      match res with
      | inr (e, exitCode) => mret ("", e, exitCode)
      | inl freeAddresses =>
          match marshal_free freeAddresses with
          | Bad err => mret ("", err_msg err, (-1)%Z)
          | Good b => mret (b, "", 0%Z)
          end
      end
  end.
End Scanner.

(** ** Facts: address arithmetic *)
Lemma inc_be k v : inc (be k v) = be k (v + 1).
Proof.
  unfold inc. rewrite <-(reverse_involutive (be k (v + 1))). f_equal.
  revert v. induction k as [|k IH]; intros v; [done|]. simpl.
  rewrite !reverse_app. change (reverse [(v mod 256)%Z]) with [(v mod 256)%Z].
  change (reverse [((v + 1) mod 256)%Z]) with [((v + 1) mod 256)%Z]. simpl.
  rewrite Z.add_mod_idemp_l by lia.
  destruct ((v + 1) mod 256 >? 0)%Z eqn:E.
  - rewrite Z.gtb_lt in E. do 3 f_equal. Z.to_euclidean_division_equations. lia.
  - rewrite Z.gtb_ltb, Z.ltb_ge in E. rewrite IH. do 3 f_equal. Z.to_euclidean_division_equations. lia.
Qed.

Lemma inc_ip4 v : inc (ip4 v) = ip4 (v + 1).
Proof. by rewrite !ip4_be, inc_be. Qed.

(** Adding to one byte and carrying into the bytes before it. *)
Lemma add_byte k u add : (0 < add < 256)%Z →
  (if ((u mod 256 + add) mod 256 <? u mod 256)%Z then inc (be k (u / 256)) else be k (u / 256)) ++
    [((u mod 256 + add) mod 256)%Z] = be (S k) (u + add).
Proof.
  intros Ha. simpl. rewrite Z.add_mod_idemp_l by lia. f_equal.
  destruct ((u + add) mod 256 <? u mod 256)%Z eqn:E.
  - apply Z.ltb_lt in E. rewrite inc_be. f_equal. Z.to_euclidean_division_equations. lia.
  - apply Z.ltb_ge in E. f_equal. Z.to_euclidean_division_equations. lia.
Qed.

Lemma incSubnet_be s t v add :
  (0 < add < 256)%Z →
  let ip := be (s + 1 + t) v in let b := ((nth s ip 0 + add) mod 256)%Z in
  ip !! s = Some (nth s ip 0%Z) ∧
  (let ip' := <[s := b]> ip in
   if (b <? nth s ip 0)%Z then inc (take s ip') ++ drop s ip' else ip') =
  be (s + 1 + t) (v + add * 256 ^ Z.of_nat t).
Proof.
  intros Ha. set (u := (v / 256 ^ Z.of_nat t)%Z).
  assert (E : be (s + 1 + t) v = be s (u / 256) ++ (u mod 256)%Z :: be t v).
  { rewrite be_app. fold u. replace (s + 1) with (S s) by lia. simpl. by rewrite <-(assoc_L (++)). }
  rewrite E. assert (Hn : nth s (be s (u / 256) ++ (u mod 256)%Z :: be t v) 0%Z = (u mod 256)%Z).
  { rewrite app_nth2; rewrite be_length; [|lia]. by rewrite Nat.sub_diag. }
  cbv zeta. rewrite Hn. split.
  { rewrite lookup_app_r; rewrite be_length; [|lia]. by rewrite Nat.sub_diag. }
  rewrite insert_app_r_alt by (by rewrite be_length). rewrite be_length, Nat.sub_diag. simpl.
  rewrite (take_app_length' _ _ s), (drop_app_length' _ _ s) by by rewrite be_length.
  rewrite be_app, be_shift. rewrite Z.div_add by (apply Z.pow_nonzero; lia). fold u.
  replace (s + 1) with (S s) by lia. rewrite <-(add_byte s u add) by done.
  destruct (_ <? _)%Z; by rewrite <-(assoc_L (++)).
Qed.

Lemma incSubnet_correct v mask : (1 <= mask <= 32)%Z →
  incSubnet (ip4 v) mask = Some (ip4 (v + 2 ^ (32 - mask))).
Proof.
  intros Hm. unfold incSubnet. replace (mask =? 0)%Z with false by (symmetry; apply Z.eqb_neq; lia).
  set (q := ((mask - 1) / 8)%Z). set (r := ((mask - 1) mod 8)%Z).
  assert (Hq : (0 <= q <= 3)%Z) by (subst q; Z.to_euclidean_division_equations; lia).
  assert (Hr : (0 <= r < 8)%Z) by (apply Z.mod_pos_bound; lia).
  assert (Hqr : (mask = 8 * q + r + 1)%Z) by (subst q r; Z.to_euclidean_division_equations; lia).
  assert (Hadd : (Z.shiftl 1 (7 - r) mod 256 = 2 ^ (7 - r))%Z).
  { rewrite Z.shiftl_mul_pow2, Z.mul_1_l by lia. apply Z.mod_small. split; [apply Z.pow_nonneg; lia|].
    apply (Z.lt_le_trans _ (2 ^ 8)); [|done]. apply Z.pow_lt_mono_r; lia. }
  assert (Ha : (0 < 2 ^ (7 - r) < 256)%Z).
  { split; [apply Z.pow_pos_nonneg; lia|]. apply (Z.lt_le_trans _ (2 ^ 8)); [|done].
    apply Z.pow_lt_mono_r; lia. }
  rewrite Hadd. clearbody q r. rewrite !ip4_be.
  destruct (incSubnet_be (Z.to_nat q) (3 - Z.to_nat q) v (2 ^ (7 - r)) Ha) as [E1 E2].
  replace (Z.to_nat q + 1 + (3 - Z.to_nat q)) with 4 in * by lia.
  rewrite E1. cbv zeta in *. rewrite E2. do 3 f_equal.
  replace 256%Z with (2 ^ 8)%Z by done. rewrite <-Z.pow_mul_r, <-Z.pow_add_r by lia. f_equal. lia.
Qed.

(** C39. [incSubnet] adds 2^(32-mask) to an IPv4 address, modulo 2^32, as its
    comment says, and never indexes out of range. *)
Theorem incSubnet_adds v mask : (1 <= mask <= 32)%Z →
  incSubnet (ip4 v) mask = Some (ip4 (v + 2 ^ (32 - mask))).
Proof. apply incSubnet_correct. Qed.

(** ** Facts: what the scanner returns *)
(** The addresses with the numbers of [ws], as printed. *)
Definition address (w : Z) : string := IP_String (ip4 w).

(** Addresses of [w, w+n) not in [occ], by number. *)
Definition free_numbers (occ : list string) (w n : Z) : list Z :=
  base.filter (λ z, address z ∉ occ) (seqZ w n).

Definition ascending_in (v n : Z) (ws : list Z) : Prop :=
  StronglySorted Z.lt ws ∧ Forall (λ w, (v <= w < v + n)%Z) ws.

Lemma ascending_seqZ w n : StronglySorted Z.lt (seqZ w n).
Proof.
  destruct (decide (n <= 0)%Z) as [Hn|Hn]; [rewrite seqZ_nil by lia; constructor|].
  replace n with (Z.of_nat (Z.to_nat n)) by lia. generalize (Z.to_nat n) as k. clear n Hn.
  intros k. revert w. induction k as [|k IH]; intros w; [constructor|].
  rewrite seqZ_cons by lia. replace (Z.pred (Z.of_nat (S k))) with (Z.of_nat k) by lia.
  constructor; [apply IH|]. apply Forall_forall. intros z Hz. apply elem_of_seqZ in Hz. lia.
Qed.

Lemma StronglySorted_filter {A} (R : relation A) (P : A → Prop) `{∀ x, Decision (P x)} l :
  StronglySorted R l → StronglySorted R (base.filter P l).
Proof.
  induction 1 as [|x l Hl IH Hx]; [constructor|]. rewrite filter_cons. destruct (decide (P x)); [|done].
  constructor; [done|]. rewrite Forall_forall in *. intros y Hy. apply list_elem_of_filter in Hy as [? Hy]. auto.
Qed.

Lemma free_numbers_ascending occ w n : ascending_in w n (free_numbers occ w n).
Proof.
  split; [apply StronglySorted_filter, ascending_seqZ|]. apply Forall_forall. intros z Hz.
  apply list_elem_of_filter in Hz as [_ Hz]. apply elem_of_seqZ in Hz. lia.
Qed.

Lemma free_numbers_length occ w n : length (free_numbers occ w n) ≤ Z.to_nat n.
Proof. unfold free_numbers. etrans; [apply length_filter|]. by rewrite length_seqZ. Qed.

Lemma ascending_app v n1 n2 ws1 ws2 : (0 <= n1)%Z → (0 <= n2)%Z →
  ascending_in v n1 ws1 → ascending_in (v + n1) n2 ws2 → ascending_in v (n1 + n2) (ws1 ++ ws2).
Proof.
  intros ? ? [S1 F1] [S2 F2]. split.
  - apply StronglySorted_app_2; [|done..]. intros x1 x2 H1 H2.
    rewrite Forall_forall in F1, F2. specialize (F1 _ H1). specialize (F2 _ H2). lia.
  - apply Forall_app. split; (eapply Forall_impl; [done|]); simpl; lia.
Qed.

(** The first segment of a [/p] network at [v] that does not contain [w]. *)
Definition aligned (p v : Z) : Prop := (0 <= v < two32)%Z ∧ block_base p v = v.

Lemma pow_block p : (0 <= p <= 32)%Z → (0 < 2 ^ (32 - p))%Z ∧ (2 ^ (32 - p) * 2 ^ p = two32)%Z.
Proof.
  intros Hp. split; [apply Z.pow_pos_nonneg; lia|]. rewrite <-Z.pow_add_r by lia.
  by replace (32 - p + p)%Z with 32%Z by lia.
Qed.

Lemma aligned_end p v : (0 <= p <= 32)%Z → aligned p v → (v + 2 ^ (32 - p) <= two32)%Z.
Proof.
  intros Hp [Hv Hb]. destruct (pow_block p Hp) as [H1 H2]. unfold block_base in Hb.
  set (B := (2 ^ (32 - p))%Z) in *. assert (v / B < 2 ^ p)%Z; [|nia].
  apply Z.div_lt_upper_bound; lia.
Qed.

(** Outside the segment, also when the last address wraps to 0.0.0.0. *)
Lemma Contains_end p v : (1 <= p <= 32)%Z → aligned p v →
  Contains_ip (mkIPNet (ip4 v) p) (ip4 (v + 2 ^ (32 - p))) = false.
Proof.
  intros Hp Ha. pose proof (aligned_end p v ltac:(lia) Ha) as He. destruct Ha as [Hv Hb].
  destruct (pow_block p ltac:(lia)) as [H1 H2].
  destruct (decide (v + 2 ^ (32 - p) = two32)%Z) as [E|E].
  - rewrite E. change (ip4 two32) with (ip4 0). rewrite Contains_ip4; [|lia|lia|done|done].
    apply bool_decide_eq_false. assert (2 ^ 1 <= 2 ^ p)%Z by (apply Z.pow_le_mono_r; lia).
    change (2 ^ 1)%Z with 2%Z in *. nia.
  - rewrite Contains_ip4 by (first [done|lia]). apply bool_decide_eq_false. lia.
Qed.

Lemma Contains_inside p v w : (0 <= p <= 32)%Z → aligned p v → (v <= w < v + 2 ^ (32 - p))%Z →
  Contains_ip (mkIPNet (ip4 v) p) (ip4 w) = true.
Proof.
  intros Hp Ha Hw. pose proof (aligned_end p v Hp Ha). destruct Ha as [Hv Hb].
  rewrite Contains_ip4 by (first [done|lia]). by apply bool_decide_eq_true.
Qed.

Lemma collect_free_exact p v occ fuel n ret :
  (1 <= p <= 32)%Z → aligned p v → n ≤ fuel → (Z.of_nat n <= 2 ^ (32 - p))%Z →
  collect_free fuel (mkIPNet (ip4 v) p) occ (ip4 (v + 2 ^ (32 - p) - Z.of_nat n)) ret =
    Some (ret ++ map address (free_numbers occ (v + 2 ^ (32 - p) - Z.of_nat n) (Z.of_nat n))).
Proof.
  intros Hp Ha. revert n ret. induction fuel as [|fuel IH]; intros n ret Hn Hle.
  - assert (n = 0) as -> by lia. cbn -[Z.pow Contains_ip Z.sub Z.add Z.of_nat].
    change (Z.of_nat 0) with 0%Z. rewrite Z.sub_0_r, Contains_end by done. by rewrite app_nil_r.
  - destruct n as [|n].
    + cbn -[Z.pow Contains_ip Z.sub Z.add Z.of_nat].
      change (Z.of_nat 0) with 0%Z. rewrite Z.sub_0_r, Contains_end by done. by rewrite app_nil_r.
    + cbn -[Z.pow Contains_ip Z.sub Z.add Z.of_nat IP_String ip4].
      rewrite Contains_inside by (done || lia). rewrite inc_ip4.
      replace (v + 2 ^ (32 - p) - Z.of_nat (S n) + 1)%Z with (v + 2 ^ (32 - p) - Z.of_nat n)%Z by lia.
      rewrite IH by lia. f_equal. unfold free_numbers. rewrite (seqZ_cons _ (Z.of_nat (S n))) by lia.
      rewrite filter_cons.
      replace (Z.succ (v + 2 ^ (32 - p) - Z.of_nat (S n)))%Z with (v + 2 ^ (32 - p) - Z.of_nat n)%Z by lia.
      replace (Z.pred (Z.of_nat (S n))) with (Z.of_nat n) by lia.
      unfold address at 2. destruct (decide (_ ∉ occ)) as [Hd|Hd].
      * rewrite bool_decide_eq_false_2 by done. simpl. by rewrite <-(assoc_L (++)).
      * rewrite bool_decide_eq_true_2; [done|]. by apply dec_stable.
Qed.

Lemma collect_free_segment p v occ : (1 <= p <= 32)%Z → aligned p v →
  collect_free (segment_size p) (mkIPNet (ip4 v) p) occ (ip4 v) [] =
    Some (map address (free_numbers occ v (2 ^ (32 - p)))).
Proof.
  intros Hp Ha. destruct (pow_block p ltac:(lia)) as [H1 _].
  pose proof (collect_free_exact p v occ (segment_size p) (segment_size p) [] Hp Ha) as H.
  unfold segment_size in *. rewrite Z2Nat.id in H by lia.
  replace (v + 2 ^ (32 - p) - 2 ^ (32 - p))%Z with v in H by lia. apply H; lia.
Qed.

Section ScannerFacts.
Context {env : Env}.
Variable unmarshal_nmap : string → result Nmaprun.
Notation scanSub := (scanSubNetwork unmarshal_nmap).

Lemma scanSubNetwork_unfold p v : (1 <= p <= 32)%Z → aligned p v →
  scanSub (net_name v p) =
  ('(o, e, exitCode) ← Execute "nmap" (nmap_args (net_name v p));
   if negb (exitCode =? 0)%Z then mret ([], e, exitCode) else
   match unmarshal_nmap o with
   | Bad err => mret ([], err_msg err, (-1)%Z)
   | Good r =>
       match collect_free (segment_size p) (mkIPNet (ip4 v) p) (occupied_addresses r) (ip4 v) [] with
       | Some ret => mret (ret, "", 0%Z)
       | None => block
       end
   end).
Proof.
  intros Hp Ha. unfold scanSubNetwork. rewrite ParseCIDR_ip4 by (destruct Ha; first [done|lia]).
  rewrite IPNet_String_ip4 by lia. by rewrite String.eqb_refl.
Qed.

(** What one segment contributes: addresses of the segment, in ascending order. *)
Definition segment_result (v n : Z) (res : list string * string * Z) : Prop :=
  ∃ ws, res.1.1 = map address ws ∧ ascending_in v n ws ∧ length ws ≤ Z.to_nat n.

Lemma scanSubNetwork_spec p v (P : request → Prop) : (1 <= p <= 32)%Z → aligned p v →
  P (RExec "nmap" (nmap_args (net_name v p))) →
  spec P no_change (segment_result v (2 ^ (32 - p))) (scanSub (net_name v p)).
Proof.
  intros Hp Ha HP. rewrite scanSubNetwork_unfold by done.
  assert (Hnil : ∀ e c, segment_result v (2 ^ (32 - p)) ([], e, c)).
  { intros. exists []. repeat split; [constructor|constructor|simpl; lia]. }
  eapply spec_bind; [apply spec_Execute; exact HP|]. intros [[o e] c] _.
  destruct (negb _); [apply spec_ret, Hnil|]. destruct (unmarshal_nmap o) as [r|]; [|apply spec_ret, Hnil].
  rewrite collect_free_segment by done. apply spec_ret. eexists. split; [reflexivity|]. split; [apply free_numbers_ascending|].
  apply free_numbers_length.
Qed.

Definition segment_mask (p : Z) : Z := if (p <? MinSubnetMaskSize)%Z then MinSubnetMaskSize else p.

(** nmap is only run on segments of the network, of at most 1024 addresses. *)
Definition scans_segment (p v : Z) (r : request) : Prop :=
  ∃ w m, r = RExec "nmap" (nmap_args (net_name w m)) ∧ (22 <= m <= 32)%Z ∧ aligned m w ∧
         (v <= w)%Z ∧ (w + 2 ^ (32 - m) <= v + 2 ^ (32 - p))%Z.

Definition network_result (network : string) (v n : Z) (res : FreeNetworkAddresses * string * Z) : Prop :=
  Network res.1.1 = network ∧
  ∃ ws, FreeAddresses res.1.1 = map address ws ∧ ascending_in v n ws ∧ length ws < AddressLimit + 1024.

Lemma aligned_segment p m v i : (0 <= p <= m)%Z → (m <= 32)%Z → aligned p v → (0 <= i)%Z →
  (v + (i + 1) * 2 ^ (32 - m) <= v + 2 ^ (32 - p))%Z → aligned m (v + i * 2 ^ (32 - m)).
Proof.
  intros Hp Hm Ha Hi Hle. pose proof (aligned_end p v ltac:(lia) Ha) as He. destruct Ha as [Hv Hb].
  destruct (pow_block m ltac:(lia)) as [H1 H2].
  assert (E : (2 ^ (32 - p) = 2 ^ (m - p) * 2 ^ (32 - m))%Z).
  { rewrite <-Z.pow_add_r by lia. f_equal. lia. }
  split; [nia|]. unfold block_base in *. rewrite E in Hb.
  set (B := (2 ^ (32 - m))%Z) in *. set (C := (2 ^ (m - p))%Z) in *.
  rewrite <-Hb. replace (v / (C * B) * (C * B) + i * B)%Z with ((v / (C * B) * C + i) * B)%Z by lia.
  rewrite Z.div_mul by lia. done.
Qed.

Lemma scan_segments_spec p v network fuel : (1 <= p <= 32)%Z → aligned p v →
  let m := segment_mask p in
  ∀ i ret, (0 <= i)%Z → (v + i * 2 ^ (32 - m) <= v + 2 ^ (32 - p))%Z →
  (2 ^ (m - p) - i <= Z.of_nat fuel)%Z →
  network_result network v (i * 2 ^ (32 - m)) (ret, "", 0%Z) →
  spec (scans_segment p v) no_change (network_result network v (2 ^ (32 - p)))
    (scan_segments unmarshal_nmap fuel (mkIPNet (ip4 v) p) m (ip4 (v + i * 2 ^ (32 - m))) ret).
Proof.
  intros Hp Ha m. assert (Hm : (22 <= m <= 32)%Z ∧ (p <= m)%Z).
  { subst m. unfold segment_mask, MinSubnetMaskSize. destruct (p <? 22)%Z eqn:E; [apply Z.ltb_lt in E|apply Z.ltb_ge in E]; lia. }
  destruct Hm as [Hm Hpm]. clearbody m.
  assert (E : (2 ^ (32 - p) = 2 ^ (m - p) * 2 ^ (32 - m))%Z).
  { rewrite <-Z.pow_add_r by lia. f_equal. lia. }
  destruct (pow_block m ltac:(lia)) as [HB _]. destruct (pow_block p ltac:(lia)) as [HN _].
  assert (HB' : (2 ^ (32 - m) <= 1024)%Z) by (change 1024%Z with (2 ^ 10)%Z; apply Z.pow_le_mono_r; lia).
  remember (2 ^ (32 - m))%Z as B eqn:EB. remember (2 ^ (m - p))%Z as K eqn:EK.
  assert (Hmono : ∀ ret n, (n <= 2 ^ (32 - p))%Z → network_result network v n ret →
                           network_result network v (2 ^ (32 - p)) ret).
  { intros ret n Hn (Hnet & ws & Hws & [Hs Hf] & Hl). split; [done|]. exists ws. repeat split; try done.
    eapply Forall_impl; [exact Hf|]. simpl. lia. }
  induction fuel as [|fuel IH]; intros i ret Hi Hle Hfuel Hret; cbn [scan_segments].
  - assert (i * B = 2 ^ (32 - p))%Z as -> by nia. rewrite Contains_end by done. cbn [andb]. apply spec_ret.
    eapply (Hmono _ (i * B)%Z); [lia|exact Hret].
  - destruct (decide (i = K)) as [Hik|Hik].
    { assert (i * B = 2 ^ (32 - p))%Z as -> by nia. rewrite Contains_end by done. cbn [andb]. apply spec_ret.
      eapply (Hmono _ (i * B)%Z); [lia|exact Hret]. }
    assert (HiK : (i + 1 <= K)%Z) by nia. assert (Hend : (v + (i + 1) * B <= v + 2 ^ (32 - p))%Z) by nia.
    rewrite Contains_inside by (done || nia). cbn [andb].
    destruct (Nat.ltb (length (FreeAddresses ret)) AddressLimit) eqn:Elim.
    2: { apply spec_ret. eapply (Hmono _ (i * B)%Z); [lia|exact Hret]. }
    apply Nat.ltb_lt in Elim.
    assert (Ha' : aligned m (v + i * B)) by (subst B; apply (aligned_segment p); first [done|lia]).
    change (segment_name (ip4 (v + i * B)) m) with (net_name (v + i * B) m).
    eapply spec_bind; [apply (scanSubNetwork_spec m (v + i * B)); [lia|done|]|].
    { exists (v + i * B)%Z, m. split; [done|]. rewrite <-EB. repeat split; try done; try apply Ha'; nia. }
    intros [[res e] c] (ws' & Hres & Hasc & Hlen). cbn [fst snd] in Hres. rewrite <-EB in *.
    destruct (negb (c =? 0)%Z) eqn:Ec.
    { apply spec_ret. eapply (Hmono _ (i * B)%Z); [lia|]. exact Hret. }
    rewrite incSubnet_correct by lia. rewrite <-EB.
    eapply spec_bind; [apply (spec_or_panic _ _ (λ x, x = ip4 (v + i * B + B)) _ _ eq_refl); done|].
    intros ip' ->. replace (v + i * B + B)%Z with (v + (i + 1) * B)%Z by lia.
    apply IH; [lia|done|lia|]. destruct Hret as (Hnet & ws & Hws & Hasc0 & Hl). split; [done|].
    exists (ws ++ ws'). cbn [fst FreeAddresses] in *. rewrite Hws, Hres, map_app. split; [done|]. split.
    + replace ((i + 1) * B)%Z with (i * B + B)%Z by lia. apply ascending_app; [lia|lia|done|done].
    + rewrite length_app. rewrite Hws, length_map in Elim. lia.
Qed.

(** C13. On every IPv4 network of prefix 1 to 32, whatever nmap answers,
    [scanNetwork] terminates without panicking, runs nmap only on segments of
    at most 1024 addresses inside the network, and returns addresses of the
    network, in ascending order without repetition, fewer than 8000 + 1024. *)
Theorem scanNetwork_safe p v fuel : (1 <= p <= 32)%Z → aligned p v →
  (2 ^ (segment_mask p - p) <= Z.of_nat fuel)%Z →
  spec (scans_segment p v) no_change (network_result (net_name v p) v (2 ^ (32 - p)))
    (scanNetwork unmarshal_nmap fuel (net_name v p)).
Proof.
  intros Hp Ha Hfuel. unfold scanNetwork. rewrite ParseCIDR_ip4 by (destruct Ha; first [done|lia]).
  rewrite IPNet_String_ip4 by lia. rewrite String.eqb_refl. cbn [negb net_ones].
  change (default [] (To4 (ip4 v))) with (ip4 v). fold (segment_mask p).
  pose proof (scan_segments_spec p v (net_name v p) fuel Hp Ha 0%Z (mkFree (net_name v p) []) ltac:(lia)) as H.
  replace (v + 0 * 2 ^ (32 - segment_mask p))%Z with v in H by lia.
  destruct (pow_block p ltac:(lia)) as [HN _].
  apply H; [lia|lia|]. split; [done|]. exists []. repeat split; [constructor|constructor|simpl; unfold AddressLimit; lia].
Qed.
End ScannerFacts.

(** ** Facts: completeness on a host where nmap works *)
Section ScannerComplete.
Context {env : Env}.
Variable unmarshal_nmap : string → result Nmaprun.
(** nmap's answer for a segment does not change during the scan. *)
Variable report : string → string * string.
Variable hosts : string → Nmaprun.
Hypothesis nmap_works : ∀ l sub, e_run l "nmap" (nmap_args sub) = (report sub, None).
Hypothesis nmap_parses : ∀ sub, unmarshal_nmap (report sub).1 = Good (hosts sub).

Definition segment_free (m w : Z) : list string :=
  map address (free_numbers (occupied_addresses (hosts (net_name w m))) w (2 ^ (32 - m))).

Lemma scanSubNetwork_exact p v l s : (1 <= p <= 32)%Z → aligned p v →
  run (scanSubNetwork unmarshal_nmap (net_name v p)) l s =
    (Done (segment_free p v, "", 0%Z), l ++ [RExec "nmap" (nmap_args (net_name v p))], s).
Proof.
  intros Hp Ha. rewrite scanSubNetwork_unfold by done. unfold Execute. rewrite !run_bind. simpl.
  rewrite nmap_works. pose proof (nmap_parses (net_name v p)) as Hpar.
  destruct (report (net_name v p)) as [o e]. simpl in *.
  rewrite Hpar, collect_free_segment by done. done.
Qed.

(** The segments of the network from number [i] on. *)
Definition segments_free (p v i K : Z) : list string :=
  flat_map (λ j, segment_free (segment_mask p) (v + j * 2 ^ (32 - segment_mask p))) (seqZ i (K - i)).

Lemma scan_segments_complete p v network fuel : (20 <= p <= 32)%Z → aligned p v →
  let m := segment_mask p in let K := (2 ^ (m - p))%Z in
  ∀ i ret l s, (0 <= i <= K)%Z → (K - i <= Z.of_nat fuel)%Z → (length ret <= Z.to_nat (i * 2 ^ (32 - m)))%nat →
  ∃ l', run (scan_segments unmarshal_nmap fuel (mkIPNet (ip4 v) p) m (ip4 (v + i * 2 ^ (32 - m)))
              (mkFree network ret)) l s =
    (Done (mkFree network (ret ++ segments_free p v i K), "", 0%Z), l', s).
Proof.
  intros Hp Ha m K. assert (Hm : (22 <= m <= 32)%Z ∧ (p <= m)%Z).
  { subst m. unfold segment_mask, MinSubnetMaskSize. destruct (p <? 22)%Z eqn:E; [apply Z.ltb_lt in E|apply Z.ltb_ge in E]; lia. }
  destruct Hm as [Hm Hpm]. subst K. unfold segments_free. fold m. clearbody m.
  assert (E : (2 ^ (32 - p) = 2 ^ (m - p) * 2 ^ (32 - m))%Z).
  { rewrite <-Z.pow_add_r by lia. f_equal. lia. }
  destruct (pow_block m ltac:(lia)) as [HB _].
  assert (HN : (2 ^ (32 - p) <= 4096)%Z) by (change 4096%Z with (2 ^ 12)%Z; apply Z.pow_le_mono_r; lia).
  remember (2 ^ (32 - m))%Z as B eqn:EB. remember (2 ^ (m - p))%Z as K eqn:EK.
  induction fuel as [|fuel IH]; intros i ret l s Hi Hfuel Hlen; cbn [scan_segments].
  - assert (i = K) as -> by lia. replace (K * B)%Z with (2 ^ (32 - p))%Z by lia.
    rewrite Contains_end by (done || lia). exists l. rewrite Z.sub_diag. simpl. by rewrite app_nil_r.
  - destruct (decide (i = K)) as [->|Hik].
    { replace (K * B)%Z with (2 ^ (32 - p))%Z by lia.
      rewrite Contains_end by (done || lia). exists l. rewrite Z.sub_diag. simpl. by rewrite app_nil_r. }
    assert (HiB : (i * B + B <= K * B)%Z) by nia.
    rewrite Contains_inside by (first [done|nia]).
    replace (Nat.ltb _ AddressLimit) with true.
    2: { symmetry. apply Nat.ltb_lt. assert (Z.of_nat AddressLimit = 8000%Z) by reflexivity. cbn [FreeAddresses]. lia. }
    cbn [andb].
    assert (Ha' : aligned m (v + i * B)) by (subst B; apply (aligned_segment p); first [done|lia]).
    change (segment_name (ip4 (v + i * B)) m) with (net_name (v + i * B) m).
    rewrite run_bind, scanSubNetwork_exact by (first [done|lia]). cbn -[scan_segments incSubnet segment_free].
    rewrite incSubnet_correct by lia. rewrite <-EB. cbn -[scan_segments segment_free].
    replace (v + i * B + B)%Z with (v + (i + 1) * B)%Z by lia.
    destruct (IH (i + 1)%Z (ret ++ segment_free m (v + i * B)) (l ++ [RExec "nmap" (nmap_args (net_name (v + i * B) m))]) s)
      as [l' Hl']; [lia|lia| |].
    { rewrite length_app. unfold segment_free. rewrite length_map. rewrite <-EB.
      pose proof (free_numbers_length (occupied_addresses (hosts (net_name (v + i * B) m))) (v + i * B) B).
      replace ((i + 1) * B)%Z with (i * B + B)%Z by lia. rewrite Z2Nat.inj_add by nia. lia. }
    exists l'. rewrite Hl'. do 4 f_equal. rewrite <-(assoc_L (++)). f_equal.
    rewrite (seqZ_cons i) by lia. replace (Z.pred (K - i)) with (K - (i + 1))%Z by lia.
    by replace (Z.succ i) with (i + 1)%Z by lia.
Qed.

(** C16. When nmap works, the scan of a network of at most 4096 addresses
    succeeds and returns exactly the addresses of each of its segments that no
    live host of the segment's report has as its first IPv4 address, in order. *)
Theorem scanNetwork_complete p v fuel l s : (20 <= p <= 32)%Z → aligned p v →
  (2 ^ (segment_mask p - p) <= Z.of_nat fuel)%Z →
  ∃ l', run (scanNetwork unmarshal_nmap fuel (net_name v p)) l s =
    (Done (mkFree (net_name v p) (segments_free p v 0 (2 ^ (segment_mask p - p))), "", 0%Z), l', s).
Proof.
  intros Hp Ha Hfuel. unfold scanNetwork. rewrite ParseCIDR_ip4 by (destruct Ha; first [done|lia]).
  rewrite IPNet_String_ip4 by lia. rewrite String.eqb_refl. cbn [negb net_ones].
  change (default [] (To4 (ip4 v))) with (ip4 v). fold (segment_mask p).
  pose proof (scan_segments_complete p v (net_name v p) fuel Hp Ha 0%Z [] l s) as H.
  replace (v + 0 * 2 ^ (32 - segment_mask p))%Z with v in H by lia.
  apply H; [|lia|simpl; lia]. split; [lia|]. apply Z.pow_nonneg. lia.
Qed.
End ScannerComplete.

(** ** Errors *)
Section ScannerErrors.
Context {env : Env}.
Variable unmarshal_nmap : string → result Nmaprun.

(** A network that is not written in canonical form is refused with exit
    code -1 without running anything. *)
Theorem scanNetwork_canonical fuel network ip cidr l s :
  ParseCIDR network = Some (ip, cidr) → IPNet_String cidr ≠ network →
  run (scanNetwork unmarshal_nmap fuel network) l s =
    (Done (mkFree network [], "Requested CIDR " +:+ IPNet_String cidr +:+
             " is not equal to provided network " +:+ network, (-1)%Z), l, s).
Proof.
  intros E Hne. unfold scanNetwork. rewrite E. apply String.eqb_neq in Hne. by rewrite Hne.
Qed.
End ScannerErrors.

(** ** Witnesses *)
Section ScannerWitness.
Definition demo_report (sub : string) : string * string := ("xml", "").
Definition demo_env : Env := cmd_host (λ _ _ _, (demo_report "", None)).
Definition demo_run : Nmaprun :=
  mkNmaprun [mkNmapHost (mkStatus "up" "") [mkAddress "AA" "mac"; mkAddress "1.2.3.5" "ipv4"];
             mkNmapHost (mkStatus "down" "") [mkAddress "1.2.3.6" "ipv4"]].
Definition v1234 : Z := 16909060.

Lemma incSubnet_adds_witness : incSubnet (ip4 v1234) 24 = Some (ip4 (v1234 + 256)).
Proof. apply (incSubnet_adds v1234 24). lia. Defined.

Lemma aligned_v1234 : aligned 30 v1234.
Proof. split; [unfold two32, v1234; lia|reflexivity]. Qed.

Lemma scanNetwork_safe_witness :
  spec (scans_segment 30 v1234) no_change
    (network_result (net_name v1234 30) v1234 4)
    (@scanNetwork demo_env (λ _, Good demo_run) 1 (net_name v1234 30)).
Proof. apply (@scanNetwork_safe demo_env (λ _, Good demo_run) 30 v1234 1); [lia|apply aligned_v1234|reflexivity]. Defined.

Lemma scanNetwork_complete_witness :
  segments_free (λ _, demo_run) 30 v1234 0 1 = ["1.2.3.4"; "1.2.3.6"; "1.2.3.7"] ∧
  ∃ l', run (@scanNetwork demo_env (λ _, Good demo_run) 1 (net_name v1234 30)) [] shared_init =
    (Done (mkFree (net_name v1234 30) (segments_free (λ _, demo_run) 30 v1234 0 (2 ^ (segment_mask 30 - 30))), "", 0%Z),
     l', shared_init).
Proof.
  split; [vm_compute; reflexivity|].
  apply (@scanNetwork_complete demo_env (λ _, Good demo_run) demo_report (λ _, demo_run));
    [done|done|lia|apply aligned_v1234|reflexivity].
Defined.

Lemma scanNetwork_canonical_witness :
  ∃ r, run (@scanNetwork demo_env (λ _, Good demo_run) 1 "1.2.3.4/24") [] shared_init = (Done r, [], shared_init).
Proof.
  eexists. apply (@scanNetwork_canonical demo_env (λ _, Good demo_run) 1 "1.2.3.4/24" (ip4 v1234) (mkIPNet [1;2;3;0]%Z 24));
    [reflexivity|discriminate].
Defined.
End ScannerWitness.
