(* ===== verification/Md5.v ===== *)
(** * MD5 (Go's [crypto/md5], RFC 1321)

    Words are 32-bit integers, bytes are integers from 0 to 255. *)
From S2P Require Import Prelude GoStrings.

Definition w32 (z : Z) : Z := (z mod 2 ^ 32)%Z.
Definition rotl (x : Z) (n : Z) : Z := w32 (Z.lor (Z.shiftl x n) (Z.shiftr x (32 - n))).
Definition not32 (x : Z) : Z := (2 ^ 32 - 1 - x)%Z.

(** The sines of RFC 1321 and the rotations of each round. *)
Definition md5_k : list Z :=
  [0xd76aa478; 0xe8c7b756; 0x242070db; 0xc1bdceee; 0xf57c0faf; 0x4787c62a; 0xa8304613; 0xfd469501;
   0x698098d8; 0x8b44f7af; 0xffff5bb1; 0x895cd7be; 0x6b901122; 0xfd987193; 0xa679438e; 0x49b40821;
   0xf61e2562; 0xc040b340; 0x265e5a51; 0xe9b6c7aa; 0xd62f105d; 0x02441453; 0xd8a1e681; 0xe7d3fbc8;
   0x21e1cde6; 0xc33707d6; 0xf4d50d87; 0x455a14ed; 0xa9e3e905; 0xfcefa3f8; 0x676f02d9; 0x8d2a4c8a;
   0xfffa3942; 0x8771f681; 0x6d9d6122; 0xfde5380c; 0xa4beea44; 0x4bdecfa9; 0xf6bb4b60; 0xbebfbc70;
   0x289b7ec6; 0xeaa127fa; 0xd4ef3085; 0x04881d05; 0xd9d4d039; 0xe6db99e5; 0x1fa27cf8; 0xc4ac5665;
   0xf4292244; 0x432aff97; 0xab9423a7; 0xfc93a039; 0x655b59c3; 0x8f0ccc92; 0xffeff47d; 0x85845dd1;
   0x6fa87e4f; 0xfe2ce6e0; 0xa3014314; 0x4e0811a1; 0xf7537e82; 0xbd3af235; 0x2ad7d2bb; 0xeb86d391]%Z.
Definition md5_s : list (list Z) := [[7; 12; 17; 22]; [5; 9; 14; 20]; [4; 11; 16; 23]; [6; 10; 15; 21]]%Z.

Record md5_state : Type := Md5State { md_a : Z; md_b : Z; md_c : Z; md_d : Z }.
Definition md5_init : md5_state := Md5State 0x67452301 0xefcdab89 0x98badcfe 0x10325476.

(** Step [i] of 64 on the 16 words of a block. *)
Definition md5_step (block : list Z) (st : md5_state) (i : nat) : md5_state :=
  let '(Md5State a b c d) := st in
  let round := (i / 16)%nat in
  let '(f, g) :=
    match round with
    | 0 => (Z.lor (Z.land b c) (Z.land (not32 b) d), i)
    | 1 => (Z.lor (Z.land d b) (Z.land (not32 d) c), (5 * i + 1)%nat)
    | 2 => (Z.lxor b (Z.lxor c d), (3 * i + 5)%nat)
    | _ => (Z.lxor c (Z.lor b (not32 d)), (7 * i)%nat)
    end in
  let sum := w32 (a + f + nth i md5_k 0%Z + nth (g mod 16) block 0%Z) in
  let s := nth (i mod 4) (nth round md5_s []) 0%Z in
  Md5State d (w32 (b + rotl sum s)) b c.

Definition md5_block (st : md5_state) (block : list Z) : md5_state :=
  let st' := fold_left (md5_step block) (seq 0 64) st in
  Md5State (w32 (md_a st + md_a st')) (w32 (md_b st + md_b st')) (w32 (md_c st + md_c st')) (w32 (md_d st + md_d st')).

(** Little-endian numbers of [n] bytes. *)
Fixpoint le_bytes (n : nat) (z : Z) : list Z :=
  match n with O => [] | S n' => (z mod 256)%Z :: le_bytes n' (z / 256) end.
Fixpoint le_value (bs : list Z) : Z := match bs with [] => 0%Z | b :: bs' => (b + 256 * le_value bs')%Z end.

Fixpoint string_bytes (s : string) : list Z :=
  match s with "" => [] | String c s' => Z.of_nat (Ascii.nat_of_ascii c) :: string_bytes s' end.

(** The message, a one bit, zeros up to 56 bytes modulo 64, its length in bits. *)
Definition md5_pad (m : list Z) : list Z :=
  m ++ [128%Z] ++ replicate ((119 - length m mod 64) mod 64) 0%Z ++ le_bytes 8 (8 * Z.of_nat (length m)).

(** Pieces of [k] elements; [n] bounds their number. *)
Fixpoint pieces {A} (n k : nat) (l : list A) : list (list A) :=
  match n, l with
  | S n', _ :: _ => take k l :: pieces n' k (drop k l)
  | _, _ => []
  end.

Definition md5_blocks (m : list Z) : list (list Z) :=
  let p := md5_pad m in
  map (λ b, map le_value (pieces 16 4 b)) (pieces (length p) 64 p).

Definition md5_Sum (s : string) : list Z :=
  let st := fold_left md5_block (md5_blocks (string_bytes s)) md5_init in
  flat_map (le_bytes 4) [md_a st; md_b st; md_c st; md_d st].

(** fmt.Sprintf("%x", _) of bytes *)
Definition hex_digit (z : Z) : ascii :=
  Ascii.ascii_of_nat (Z.to_nat (if (z <? 10)%Z then 48 + z else 87 + z)).
Fixpoint hex_bytes (bs : list Z) : string :=
  match bs with [] => "" | b :: bs' => String (hex_digit (b / 16)) (String (hex_digit (b mod 16)) (hex_bytes bs')) end.
Definition md5_hex (s : string) : string := hex_bytes (md5_Sum s).

Example md5_empty : md5_hex "" = "d41d8cd98f00b204e9800998ecf8427e".
Proof. vm_compute. reflexivity. Qed.
Example md5_abc : md5_hex "abc" = "900150983cd24fb0d6963f7d28e17f72".
Proof. vm_compute. reflexivity. Qed.
Example md5_long :
  md5_hex "12345678901234567890123456789012345678901234567890123456789012345678901234567890" =
  "57edf4a22be3c955ac49da2e2107b67a".
Proof. vm_compute. reflexivity. Qed.

(** ** Facts: the sum is always 16 bytes, 32 hexadecimal digits *)
Lemma le_bytes_length n z : length (le_bytes n z) = n.
Proof. revert z. induction n as [|n IH]; intros z; simpl; [done|by rewrite IH]. Qed.
Lemma le_bytes_range n z : Forall (λ b, (0 <= b < 256)%Z) (le_bytes n z).
Proof. revert z. induction n as [|n IH]; intros z; simpl; constructor; [apply Z.mod_pos_bound; lia|apply IH]. Qed.

Lemma md5_Sum_length s : length (md5_Sum s) = 16.
Proof. reflexivity. Qed.
Lemma md5_Sum_range s : Forall (λ b, (0 <= b < 256)%Z) (md5_Sum s).
Proof.
  unfold md5_Sum. cbn [flat_map]. repeat apply Forall_app_2; try apply le_bytes_range. constructor.
Qed.

Definition is_hex (c : ascii) : bool :=
  let n := Ascii.nat_of_ascii c in (Nat.leb 48 n && Nat.leb n 57) || (Nat.leb 97 n && Nat.leb n 102).

Lemma hex_digit_is_hex z : (0 <= z < 16)%Z → is_hex (hex_digit z) = true.
Proof.
  intros H. assert (Hz : z ∈ map Z.of_nat (seq 0 16)).
  { apply list_elem_of_In, in_map_iff. exists (Z.to_nat z). split; [lia|]. apply in_seq. lia. }
  revert z H Hz. assert (∀ z, z ∈ map Z.of_nat (seq 0 16) → is_hex (hex_digit z) = true); [|auto].
  apply Forall_forall. vm_compute. repeat constructor.
Qed.

Lemma hex_bytes_hex bs : Forall (λ b, (0 <= b < 256)%Z) bs → all_chars is_hex (hex_bytes bs) = true.
Proof.
  induction 1 as [|b bs Hb _ IH]; [done|]. cbn [hex_bytes all_chars].
  rewrite !hex_digit_is_hex, IH; [done|apply Z.mod_pos_bound; lia|].
  split; [apply Z.div_pos; lia|apply Z.div_lt_upper_bound; lia].
Qed.

Lemma hex_bytes_length bs : String.length (hex_bytes bs) = 2 * length bs.
Proof. induction bs as [|b bs IH]; simpl; [done|]. rewrite IH. lia. Qed.
