(* ===== verification/Disks.v ===== *)
(** * The disks of the inventory (src/inventory/disks.go)

    What ghw found is read from the environment; every other answer comes from
    sysfs, /dev and two read-only commands. *)
From S2P Require Import Prelude GoStrings Host Config Paths.

(** ** Data *)
(** ghw: drive types and storage controllers *)
Inductive ghw_drive : Type := GUnknown | GHDD | GFDD | GODD | GSSD | GVirtual.
Inductive ghw_controller : Type := SCUnknown | SCIDE | SCSCSI | SCNVMe | SCVirtIO | SCMMC | SCLoop.
#[export] Instance ghw_drive_eq_dec : EqDecision ghw_drive.
Proof. solve_decision. Defined.
#[export] Instance ghw_controller_eq_dec : EqDecision ghw_controller.
Proof. solve_decision. Defined.

(** ghw block.Partition and block.Disk, the fields the code reads *)
Record partition : Type := mkPartition { p_Name : string; p_Label : string; MountPoint : string }.
Record block_disk : Type := mkBlockDisk {
  b_Name : string; b_SizeBytes : Z; b_DriveType : ghw_drive; IsRemovable : bool;
  StorageController : ghw_controller; BusPath : string; b_Vendor : string; b_Model : string;
  SerialNumber : string; WWN : string; Partitions : list partition
}.

(** models.DriveType *)
Inductive drive_type : Type :=
  | DTUnknown | DTHDD | DTFDD | DTODD | DTSSD | DTMultipath | DTISCSI | DTFC | DTLVM | DTRAID
  | DTECKD | DTECKDESE | DTFBA.
#[export] Instance drive_type_eq_dec : EqDecision drive_type.
Proof. solve_decision. Defined.

(** models.Disk *)
Record disk : Type := mkDisk {
  d_ID : string; ByID : string; ByPath : string; Hctl : string; Model : string; Name : string;
  Path : string; DriveType : drive_type; Serial : string; SizeBytes : Z; Vendor : string;
  Wwn : string; Bootable : bool; Removable : bool; IsInstallationMedia : bool;
  NotEligibleReasons : list string; Eligible : bool; HasUUID : bool; Holders : string;
  Iscsi : option string
}.

Definition applianceAgentPrefix : string := "agent".
Definition byIdLocation : string := "/dev/disk/by-id".
Definition ibftBasePath : string := "/sys/firmware/ibft".
Definition wwnPrefix : string := "wwn-".
(** ghw's util.UNKNOWN *)
Definition UNKNOWN : string := "unknown".

Definition getPureWWN (wwn byId : string) : string :=
  if String.eqb wwn UNKNOWN then TrimPrefix byId (byIdLocation +:+ "/" +:+ wwnPrefix) else wwn.

Definition unknownToEmpty (value : string) : string := if String.eqb value UNKNOWN then "" else value.

Definition isDeviceMapper (d : block_disk) : bool := HasPrefix (b_Name d) "dm-".
Definition isISCSIDisk (d : block_disk) : bool := Contains (BusPath d) "-iscsi-".
Definition isFCDisk (d : block_disk) : bool := Contains (BusPath d) "-fc-" || HasPrefix (BusPath d) "fc-".
Definition isMultipleDevices (d : block_disk) : bool := HasPrefix (b_Name d) "md".
Definition isDASD (d : block_disk) : bool := HasPrefix (b_Name d) "dasd".

Section Disks.
Context {env : Env}.
(** ghw.Block *)
Variable ghw_block : log → result (list block_disk).

(** One file of /dev/disk/by-id as a (disk path, disk id) pair; a file that
    does not resolve gives the pair of two empty strings. *)
Definition wwn_entry (f : file_info) : Go (string * string) :=
  let diskId := path_join [byIdLocation; fi_name f] in
  r ← EvalSymlinks diskId;
  match r with
  | Bad _ => mret ("", "")
  | Good p =>
      r' ← Abs p;
      match r' with
      | Bad _ => mret ("", "")
      | Good diskPath => mret (diskPath, diskId)
      end
  end.

Definition is_wwn_link (f : file_info) : bool :=
  let basename := Base (fi_name f) in
  (HasPrefix basename wwnPrefix || HasPrefix basename "nvme-eui") && fi_symlink f.

(** The map from disk path to disk id: the last file wins. A nil file panics. *)
Definition getDisksWWNs : Go (gmap string string) :=
  r ← dep_ReadDir byIdLocation;
  match r with
  | Bad _ => mret ∅
  | Good entries =>
      filesInfo ← mapP or_panic entries;
      pairs ← mapP wwn_entry (List.filter is_wwn_link filesInfo);
      mret (fold_left (λ m p, <[p.1 := p.2]> m) pairs ∅)
  end.

Definition getPath (busPath diskName : string) : Go string :=
  let path := path_join ["/dev"; diskName] in
  r ← Stat path;
  if is_good r then mret path else
  r ← EvalSymlinks (path_join ["/dev/disk/by-path"; busPath]);
  match r with
  | Bad _ => mret ""
  | Good evaledPath =>
      r ← Abs evaledPath;
      match r with Bad _ => mret "" | Good ret => mret ret end
  end.

Definition getByPath (busPath : string) : Go string :=
  if negb (String.eqb busPath UNKNOWN) then
    let path := path_join ["/dev/disk/by-path"; busPath] in
    r ← Stat path;
    mret (if is_good r then path else "")
  else mret "".

Definition getHctl (name : string) : Go string :=
  r ← dep_ReadDir ("/sys/block/" +:+ name +:+ "/device/scsi_device");
  match r with
  | Good (entry :: _) => f ← or_panic entry; mret (fi_name f)
  | _ => mret ""
  end.

Definition getBootable (path : string) : Go bool :=
  if String.eqb path "" then mret false else
  '(stdout, _, exitCode) ← Execute "file" ["-s"; path];
  if negb (exitCode =? 0)%Z then mret false
  else mret (Contains stdout "DOS/MBR boot sector").

Definition hasUUID (path : string) : Go bool :=
  if String.eqb path "" then mret false else
  '(_, _, exitCode) ← Execute "sg_inq" ["-p"; "0x83"; path];
  mret (exitCode =? 0)%Z.

Definition dmUUIDHasPrefix (d : block_disk) (prefix : string) : Go bool :=
  if negb (isDeviceMapper d) then mret false else
  r ← ReadFile (path_join ["/sys"; "block"; b_Name d; "dm"; "uuid"]);
  match r with
  | Bad _ => mret false
  | Good b => mret (HasPrefix b prefix)
  end.

Definition isMultipath (d : block_disk) : Go bool := dmUUIDHasPrefix d "mpath-".
Definition isLVM (d : block_disk) : Go bool := dmUUIDHasPrefix d "LVM-".

Definition isAppliance (d : block_disk) : Go bool :=
  if HasPrefix (b_Name d) "dm-" then
    r ← ReadFile (path_join ["/sys"; "block"; b_Name d; "dm"; "name"]);
    match r with
    | Bad _ => mret false
    | Good dmName => mret (HasPrefix dmName applianceAgentPrefix)
    end
  else mret false.

(** funk.Find: the first element with the property. *)
Fixpoint findP {A} (f : A → Go bool) (l : list A) : Go (option A) :=
  match l with
  | [] => mret None
  | x :: l' => b ← f x; if b : bool then mret (Some x) else findP f l'
  end.

(** The disk reported for an appliance: mock data that passes every validation. *)
Definition appliance_disk (dm : block_disk) (byId byPath path : string) (uuid : bool) : disk := {|
  d_ID := ""; ByID := byId; ByPath := byPath; Hctl := ""; Model := ""; Name := b_Name dm; Path := path;
  DriveType := DTSSD; Serial := ""; SizeBytes := (100 * 2 ^ 30)%Z; Vendor := ""; Wwn := "";
  Bootable := false; Removable := false; IsInstallationMedia := false; NotEligibleReasons := [];
  Eligible := true; HasUUID := uuid; Holders := ""; Iscsi := None |}.

Definition getApplianceDisks (blockDisks : list block_disk) : Go (list disk) :=
  found ← findP isAppliance blockDisks;
  match found with
  | None => mret []
  | Some dmDevice =>
      path ← getPath (BusPath dmDevice) (b_Name dmDevice);
      uuids ← mapP (λ b, p ← getPath (BusPath b) (b_Name b); hasUUID p) blockDisks;
      wwns ← getDisksWWNs;
      byPath ← getByPath (BusPath dmDevice);
      mret [appliance_disk dmDevice (default "" (wwns !! path)) byPath path (existsb id uuids)]
  end.

Definition getHolders (diskName : string) : Go string :=
  r ← dep_ReadDir ("/sys/block/" +:+ diskName +:+ "/holders");
  match r with
  | Bad _ => mret ""
  | Good entries => files ← mapP or_panic entries; mret (Join (map fi_name files) ",")
  end.

(** [splitPath[:len(splitPath)-2]] with a file name appended; [None] when the
    path has fewer than two components (the slice expression panics). *)
Definition dasd_attribute (splitPath : list string) (name : string) : option string :=
  if Nat.ltb (length splitPath) 2 then None
  else Some (Join (take (length splitPath - 2) splitPath ++ [name]) "/").

Definition getDASDType (d : block_disk) : Go drive_type :=
  r ← EvalSymlinks (path_join ["/sys"; "block"; b_Name d]);
  match r with
  | Bad _ => mret DTUnknown
  | Good sysDevicesPath =>
      let splitPath := Split sysDevicesPath "/" in
      disciplinePath ← or_panic (dasd_attribute splitPath "discipline");
      data ← ReadFile disciplinePath;
      match data with
      | Bad _ => mret DTUnknown
      | Good data =>
          let discipline := TrimSpace data in
          if String.eqb discipline "ECKD" then
            esePath ← or_panic (dasd_attribute splitPath "ese");
            data ← ReadFile esePath;
            match data with
            | Bad _ => mret DTUnknown
            | Good data => mret (if String.eqb (TrimSpace data) "1" then DTECKDESE else DTECKD)
            end
          else if String.eqb discipline "FBA" then mret DTFBA
          else mret DTUnknown
      end
  end.

Definition isHiddenDevice (d : block_disk) : Go bool :=
  b ← ReadFile (path_join ["/sys"; "block"; b_Name d; "hidden"]);
  match b with
  | Bad _ => mret false
  | Good b => mret (String.eqb (TrimSpace b) "1")
  end.

Definition getISCSIProperty (diskName : string) (propertyIndex : nat) : Go (result string) :=
  r ← EvalSymlinks (path_join ["/sys"; "block"; diskName]);
  match r with
  | Bad err => mret (Bad err)
  | Good sysDevicesPath =>
      match Split sysDevicesPath "/" !! propertyIndex with
      | None => mret (Bad (errorf ("Index " +:+ Itoa (Z.of_nat propertyIndex) +:+
                                   " is above the number of components in path " +:+ sysDevicesPath)))
      | Some c => mret (Good c)
      end
  end.

Definition getISCSIHost (diskName : string) : Go (result string) := getISCSIProperty diskName 4.
Definition getISCSISession (diskName : string) : Go (result string) := getISCSIProperty diskName 5.

Definition getISCSIHostIPAddress (diskName : string) : Go string :=
  h ← getISCSIHost diskName;
  match h with
  | Bad _ => mret ""
  | Good iSCSIHost =>
      data ← ReadFile (path_join ["/sys/class/iscsi_host"; iSCSIHost; "ipaddress"]);
      match data with Bad _ => mret "" | Good data => mret (TrimSpace data) end
  end.

Definition checkEligibilityISCSIState (d : block_disk) : Go (list string) :=
  state ← ReadFile (path_join ["/sys/block"; b_Name d; "device/state"]);
  match state with
  | Bad _ => mret ["Failed to read state of iSCSI disk"]
  | Good state =>
      if negb (String.eqb (TrimSpace state) "running")
      then mret ["iSCSI disk is not in running state"] else mret []
  end.

(** The loop over the target directories of the iBFT. *)
Fixpoint ibft_targets (iSCSITarget : string) (files : list (option file_info)) : Go (list string) :=
  match files with
  | [] => mret ["iSCSI disk is missing from iBFT"]
  | entry :: files' =>
      file ← or_panic entry;
      if negb (fi_is_dir file) || negb (Contains (fi_name file) "target")
      then ibft_targets iSCSITarget files'
      else
        data ← ReadFile (path_join [ibftBasePath; fi_name file; "target-name"]);
        match data with
        | Bad _ => ibft_targets iSCSITarget files'
        | Good data =>
            if String.eqb (TrimSpace data) iSCSITarget then mret []
            else ibft_targets iSCSITarget files'
        end
  end.

Definition checkEligibilityISCSIinIBFT (d : block_disk) : Go (list string) :=
  s ← getISCSISession (b_Name d);
  match s with
  | Bad _ => mret ["Cannot find iSCSI session"]
  | Good iSCSISession =>
      data ← ReadFile (path_join ["/sys/class/iscsi_session"; iSCSISession; "targetname"]);
      match data with
      | Bad _ => mret ["Cannot find iSCSI target name"]
      | Good data =>
          let iSCSITarget := TrimSpace data in
          files ← dep_ReadDir ibftBasePath;
          match files with
          | Bad _ => mret ["iBFT firmware is missing"]
          | Good files => ibft_targets iSCSITarget files
          end
      end
  end.

Definition iso_reason : string :=
  "Disk appears to be an ISO installation media (has partition with mountpoint suffix iso)".

(** The loop over the partitions. *)
Definition check_partition (s : list string * bool) (p : partition) : list string * bool :=
  let '(reasons, media) :=
    if HasSuffix (MountPoint p) "iso" then (s.1 ++ [iso_reason], true) else s in
  if media then (reasons, media)
  else if negb (String.eqb (MountPoint p) "")
  then (reasons ++ ["Disk has partition '" +:+ p_Name p +:+ "' mounted on '" +:+ MountPoint p +:+ "'"], media)
  else (reasons, media).

Definition is_agent_partition (p : partition) : bool := HasPrefix (p_Label p) applianceAgentPrefix.

Definition checkEligibility (d : block_disk) : Go (list string * bool) :=
  unknown ← (if bool_decide (StorageController d = SCUnknown) then
               mp ← isMultipath d; if mp : bool then mret false else
               lvm ← isLVM d;
               mret (negb lvm && negb (isDASD d) && negb (isMultipleDevices d))
             else mret false);
  let reasons := if unknown : bool then ["Disk has unknown storage controller"] else [] in
  lvm ← isLVM d;
  let reasons := reasons ++ (if lvm : bool then ["Disk is an LVM logical volume"] else []) in
  iscsi ← (if isISCSIDisk d then
             r1 ← checkEligibilityISCSIState d; r2 ← checkEligibilityISCSIinIBFT d; mret (r1 ++ r2)
           else mret []);
  let reasons := reasons ++ iscsi in
  if existsb is_agent_partition (Partitions d) then mret (reasons, false)
  else mret (fold_left check_partition (Partitions d) (reasons, false)).

Definition shouldReturnDisk (d : block_disk) : Go bool :=
  hidden ← isHiddenDevice d;
  if hidden : bool then mret false else
  dm ← (if HasPrefix (b_Name d) "dm-" then
          mp ← isMultipath d; if mp : bool then mret false else lvm ← isLVM d; mret (negb lvm)
        else mret false);
  if dm : bool then mret false
  else mret (negb (HasPrefix (b_Name d) "loop" || HasPrefix (b_Name d) "zram")).

Definition getDriveType (d : block_disk) : Go drive_type :=
  if isDASD d then getDASDType d else
  if isISCSIDisk d then mret DTISCSI else
  if isFCDisk d then mret DTFC else
  mp ← isMultipath d;
  if mp : bool then mret DTMultipath else
  lvm ← isLVM d;
  if lvm : bool then mret DTLVM else
  if isMultipleDevices d then mret DTRAID else
  mret (match b_DriveType d with
        | GFDD => DTFDD | GHDD => DTHDD | GODD => DTODD | GSSD => DTSSD
        | GUnknown | GVirtual => DTUnknown
        end).

(** Another disk of the list has this bus path. *)
Definition shares_bus_path (disks : list block_disk) (index : nat) (busPath : string) : bool :=
  existsb (λ '(i, d), negb (Nat.eqb i index) && String.eqb (BusPath d) busPath)
          (imap pair disks).

Definition getBusPath (disks : list block_disk) (index : nat) (busPath : string) : Go string :=
  if String.eqb busPath UNKNOWN then mret "" else
  if shares_bus_path disks index busPath then mret "" else getByPath busPath.

(** The body of the loop of getDisks, for a disk that is returned. *)
Definition disk_record (disks : list block_disk) (wwns : gmap string string)
    (diskIndex : nat) (d : block_disk) : Go disk :=
  '(reasons, media) ← checkEligibility d;
  let media := media || bool_decide (b_DriveType d = GODD) in
  path ← getPath (BusPath d) (b_Name d);
  let byId := default "" (wwns !! path) in
  byPath ← getBusPath disks diskIndex (BusPath d);
  hctl ← getHctl (b_Name d);
  driveType ← getDriveType d;
  bootable ← getBootable path;
  uuid ← hasUUID path;
  holders ← getHolders (b_Name d);
  iscsi ← (if bool_decide (driveType = DTISCSI)
           then ip ← getISCSIHostIPAddress (b_Name d); mret (Some ip) else mret None);
  mret {| d_ID := if negb (String.eqb byId "") then byId
                  else if negb (String.eqb byPath "") then byPath else path;
          ByID := byId; ByPath := byPath; Hctl := hctl; Model := unknownToEmpty (b_Model d);
          Name := b_Name d; Path := path; DriveType := driveType;
          Serial := unknownToEmpty (SerialNumber d); SizeBytes := int64 (b_SizeBytes d);
          Vendor := unknownToEmpty (b_Vendor d); Wwn := getPureWWN (WWN d) byId;
          Bootable := bootable; Removable := IsRemovable d; IsInstallationMedia := media;
          NotEligibleReasons := reasons; Eligible := Nat.eqb (length reasons) 0;
          HasUUID := uuid; Holders := holders; Iscsi := iscsi |}.

(** The loop of getDisks. *)
Definition collect_disks (disks : list block_disk) (wwns : gmap string string) : Go (list disk) :=
  foldP (λ ret '(diskIndex, d),
           keep ← shouldReturnDisk d;
           if negb keep then mret ret else
           rec ← disk_record disks wwns diskIndex d;
           mret (ret ++ [rec]))
        (imap pair disks) [].

Definition getDisks : Go (list disk) :=
  r ← ask (RFile "ghw.Block" "") ghw_block;
  match r with
  | Bad _ => mret []
  | Good [] => mret []
  | Good disks =>
      appliance ← getApplianceDisks disks;
      match appliance with
      | _ :: _ => mret appliance
      | [] => wwns ← getDisksWWNs; collect_disks disks wwns
      end
  end.

Definition GetDisks : Go (list disk) := getDisks.
End Disks.

(** ** Facts *)
(** Reads of files and the two read-only commands. *)
Definition reads_only (r : request) : bool :=
  match r with
  | RFile _ _ => true
  | RExec "file" ["-s"; _] => true
  | RExec "sg_inq" ["-p"; "0x83"; _] => true
  | _ => false
  end.

Section DisksFacts.
Context {env : Env}.
Variable ghw_block : log → result (list block_disk).
(** A resolved symbolic link has at least two components. *)
Definition absolute_links : Prop :=
  ∀ l p q, e_eval_symlinks l p = Good q → 2 ≤ length (Split q "/").
Hypothesis links : absolute_links.
(** No file vanishes while its directory is listed. *)
Definition steady_dirs : Prop := ∀ l p entries, e_read_dir l p = Good entries → Forall is_Some entries.
Hypothesis dirs : steady_dirs.
Notation RO := (λ r, reads_only r = true).

Lemma spec_findP {A} (f : A → Go bool) l :
  (∀ x, returns RO no_change (f x)) → returns RO no_change (findP f l).
Proof. intros Hf. induction l as [|x l IH]; simpl; prog_steps. Qed.

Lemma spec_dep_ReadDir p :
  spec RO no_change (λ r, match r with Good entries => Forall is_Some entries | Bad _ => True end) (dep_ReadDir p).
Proof. apply spec_ask; [done|]. intros l. destruct (e_read_dir l p) eqn:E; [by apply dirs in E|done]. Qed.
Lemma returns_entries (entries : list (option file_info)) : Forall is_Some entries → returns RO no_change (mapP or_panic entries).
Proof. induction 1 as [|x l [f ->] _ IH]; [done|]. cbn [mapP]. apply returns_bind; [done|]. intros y. by apply returns_bind. Qed.

Lemma returns_getDisksWWNs : returns RO no_change getDisksWWNs.
Proof.
  unfold getDisksWWNs. eapply spec_bind; [apply spec_dep_ReadDir|]. intros [entries|e] H; [|done].
  apply returns_bind; [by apply returns_entries|]. intros files. unfold wwn_entry. prog_steps.
Qed.

Lemma returns_getPath b n : returns RO no_change (getPath b n).
Proof. unfold getPath. prog_steps. Qed.
Lemma returns_getByPath b : returns RO no_change (getByPath b).
Proof. unfold getByPath. prog_steps. Qed.
Lemma returns_getHctl n : returns RO no_change (getHctl n).
Proof.
  unfold getHctl. eapply spec_bind; [apply spec_dep_ReadDir|]. intros [[|entry l]|e] H; [done| |done].
  apply Forall_cons_1 in H as [H _]. apply returns_bind; [by apply returns_or_panic|done].
Qed.
Lemma returns_getBootable p : returns RO no_change (getBootable p).
Proof. unfold getBootable. prog_steps. Qed.
Lemma returns_hasUUID p : returns RO no_change (hasUUID p).
Proof. unfold hasUUID. prog_steps. Qed.
Lemma returns_dmUUID d x : returns RO no_change (dmUUIDHasPrefix d x).
Proof. unfold dmUUIDHasPrefix. prog_steps. Qed.
Lemma returns_isAppliance d : returns RO no_change (isAppliance d).
Proof. unfold isAppliance. prog_steps. Qed.
Lemma returns_getHolders n : returns RO no_change (getHolders n).
Proof.
  unfold getHolders. eapply spec_bind; [apply spec_dep_ReadDir|]. intros [entries|e] H; [|done].
  apply returns_bind; [by apply returns_entries|done].
Qed.
Lemma returns_isHidden d : returns RO no_change (isHiddenDevice d).
Proof. unfold isHiddenDevice. prog_steps. Qed.
Lemma returns_property n i : returns RO no_change (getISCSIProperty n i).
Proof. unfold getISCSIProperty. prog_steps. Qed.
Lemma returns_ibft x l : Forall is_Some l → returns RO no_change (ibft_targets x l).
Proof.
  induction 1 as [|entry l Hf _ IH]; cbn [ibft_targets]; [done|].
  apply returns_bind; [by apply returns_or_panic|]. intros f. prog_steps.
Qed.
Hint Resolve returns_getDisksWWNs returns_getPath returns_getByPath returns_getHctl returns_getBootable
  returns_hasUUID returns_dmUUID returns_isAppliance returns_getHolders returns_isHidden
  returns_property returns_ibft : prog.

Lemma returns_state d : returns RO no_change (checkEligibilityISCSIState d).
Proof. unfold checkEligibilityISCSIState. prog_steps. Qed.
Lemma returns_inIBFT d : returns RO no_change (checkEligibilityISCSIinIBFT d).
Proof.
  unfold checkEligibilityISCSIinIBFT, getISCSISession. apply returns_bind; [auto with prog|]. intros [session|e]; [|done].
  apply returns_bind; [prog_steps|]. intros [data|e]; [|done].
  eapply spec_bind; [apply spec_dep_ReadDir|]. intros [entries|e] H; [by apply returns_ibft|done].
Qed.
Lemma returns_hostIP n : returns RO no_change (getISCSIHostIPAddress n).
Proof. unfold getISCSIHostIPAddress, getISCSIHost. prog_steps. Qed.
Lemma returns_getBusPath l i b : returns RO no_change (getBusPath l i b).
Proof. unfold getBusPath. prog_steps. Qed.

Lemma dasd_attribute_some q n : 2 ≤ length (Split q "/") → is_Some (dasd_attribute (Split q "/") n).
Proof.
  intros H. unfold dasd_attribute. destruct (Nat.ltb (length (Split q "/")) 2) eqn:E; [|eauto].
  apply Nat.ltb_lt in E. lia.
Qed.

Lemma returns_getDASDType d : returns RO no_change (getDASDType d).
Proof.
  unfold getDASDType. eapply (spec_bind _ _ (λ r, match r with Good q => 2 ≤ length (Split q "/") | _ => True end)).
  { unfold EvalSymlinks. apply spec_ask; [done|]. intros l.
    destruct (e_eval_symlinks l _) eqn:E; [by apply links in E|done]. }
  intros [q|e] Hq; [|by apply spec_ret].
  apply returns_bind; [by apply returns_or_panic, dasd_attribute_some|]. intros path.
  prog_steps. by apply returns_or_panic, dasd_attribute_some.
Qed.
Hint Resolve returns_state returns_inIBFT returns_hostIP returns_getBusPath returns_getDASDType : prog.

Lemma returns_getDriveType d : returns RO no_change (getDriveType d).
Proof. unfold getDriveType, isMultipath, isLVM. prog_steps. Qed.
Lemma returns_shouldReturnDisk d : returns RO no_change (shouldReturnDisk d).
Proof. unfold shouldReturnDisk, isMultipath, isLVM. prog_steps. Qed.
Lemma returns_appliance l : returns RO no_change (getApplianceDisks l).
Proof. unfold getApplianceDisks. prog_steps. by apply spec_findP; auto with prog. Qed.
Hint Resolve returns_getDriveType returns_shouldReturnDisk returns_appliance : prog.

(** *** The record of one disk *)
Definition mounted (d : block_disk) : Prop := ∃ p, p ∈ Partitions d ∧ MountPoint p ≠ "".
Definition has_iso (d : block_disk) : bool := existsb (λ p, HasSuffix (MountPoint p) "iso") (Partitions d).
Definition appliance_partition (d : block_disk) : bool := existsb is_agent_partition (Partitions d).

Lemma check_partitions_media l s :
  (fold_left check_partition l s).2 = s.2 || existsb (λ p, HasSuffix (MountPoint p) "iso") l.
Proof.
  revert s. induction l as [|p l IH]; intros s; simpl; [by rewrite orb_false_r|].
  rewrite IH, orb_assoc. f_equal. unfold check_partition.
  destruct (HasSuffix (MountPoint p) "iso"); simpl; [by rewrite orb_true_r|].
  destruct s as [r m]; simpl. rewrite orb_false_r. destruct m; [done|]. by destruct (negb _).
Qed.

Lemma check_partition_grows s p : ∃ t, (check_partition s p).1 = s.1 ++ t.
Proof.
  unfold check_partition. destruct (HasSuffix _ _); simpl; [by eexists|].
  destruct s as [r []]; simpl; [exists []; by rewrite app_nil_r|].
  destruct (negb _); simpl; [by eexists|exists []; by rewrite app_nil_r].
Qed.

Lemma check_partitions_grow l s : ∃ t, (fold_left check_partition l s).1 = s.1 ++ t.
Proof.
  revert s. induction l as [|p l IH]; intros s; simpl; [exists []; by rewrite app_nil_r|].
  destruct (IH (check_partition s p)) as [t ->]. destruct (check_partition_grows s p) as [t' ->].
  exists (t' ++ t). by rewrite (assoc_L (++)).
Qed.

(** A media flag comes with a reason. *)
Lemma check_partitions_mounted l s :
  (s.2 = true → s.1 ≠ []) → (∃ p, p ∈ l ∧ MountPoint p ≠ "") ∨ s.1 ≠ [] →
  (fold_left check_partition l s).1 ≠ [].
Proof.
  revert s. induction l as [|p l IH]; intros s Hs; simpl.
  { intros [(p & Hp & _)|H]; [by apply not_elem_of_nil in Hp|done]. }
  intros H. apply IH.
  - unfold check_partition. destruct (HasSuffix _ _); simpl; [by destruct s.1|].
    destruct s as [r []]; simpl in *; [auto|]. by destruct (negb _).
  - destruct H as [(q & Hq & Hm)|H].
    + apply elem_of_cons in Hq as [->|Hq]; [right|left; eauto].
      unfold check_partition. destruct (HasSuffix _ _); simpl; [by destruct s.1|].
      destruct s as [r []]; simpl in *; [by apply Hs|].
      apply String.eqb_neq in Hm. rewrite Hm. simpl. by destruct r.
    + right. destruct (check_partition_grows s p) as [t ->]. by destruct s.1.
Qed.

Lemma spec_checkEligibility d :
  spec RO no_change
    (λ '(reasons, media), media = negb (appliance_partition d) && has_iso d ∧
                          (mounted d → appliance_partition d = false → reasons ≠ []))
    (checkEligibility d).
Proof.
  unfold checkEligibility, isMultipath, isLVM.
  eapply (spec_bind _ _ (λ _, True)); [prog_steps|]. intros unknown _.
  eapply (spec_bind _ _ (λ _, True)); [prog_steps|]. intros lvm _.
  eapply (spec_bind _ _ (λ _, True)); [prog_steps|]. intros iscsi _.
  fold (appliance_partition d). destruct (appliance_partition d); [by apply spec_ret|].
  apply spec_ret. destruct (fold_left _ _ _) as [reasons media] eqn:E.
  split; [|intros Hm _].
  - change media with ((reasons, media).2). rewrite <-E. by rewrite check_partitions_media.
  - change reasons with ((reasons, media).1). rewrite <-E. apply check_partitions_mounted; [done|by left].
Qed.

(** What a returned record [rec] says of disk [d], number [i] of [disks]. *)
Definition record_ok (disks : list block_disk) (i : nat) (d : block_disk) (rec : disk) : Prop :=
  Name rec = b_Name d ∧
  HasPrefix (b_Name d) "loop" = false ∧ HasPrefix (b_Name d) "zram" = false ∧
  (Eligible rec = true ↔ NotEligibleReasons rec = []) ∧
  (mounted d → appliance_partition d = false → Eligible rec = false) ∧
  IsInstallationMedia rec = (negb (appliance_partition d) && has_iso d) || bool_decide (b_DriveType d = GODD) ∧
  (shares_bus_path disks i (BusPath d) = true → ByPath rec = "") ∧
  d_ID rec = (if String.eqb (ByID rec) "" then if String.eqb (ByPath rec) "" then Path rec else ByPath rec
              else ByID rec) ∧
  (is_Some (Iscsi rec) ↔ DriveType rec = DTISCSI).

Lemma spec_disk_record disks wwns i d :
  HasPrefix (b_Name d) "loop" = false → HasPrefix (b_Name d) "zram" = false →
  spec RO no_change (record_ok disks i d) (disk_record disks wwns i d).
Proof.
  intros Hl Hz. unfold disk_record. eapply spec_bind; [apply spec_checkEligibility|].
  intros [reasons media] [-> Hm].
  eapply (spec_bind _ _ (λ _, True)); [auto with prog|]. intros path _.
  eapply (spec_bind _ _ (λ p, shares_bus_path disks i (BusPath d) = true → p = "")).
  { unfold getBusPath. destruct (String.eqb _ _); [by apply spec_ret|].
    destruct (shares_bus_path disks i (BusPath d)); [by apply spec_ret|].
    eapply spec_conseq; [apply returns_getByPath|done]. }
  intros byPath Hby.
  eapply (spec_bind _ _ (λ _, True)); [auto with prog|]. intros hctl _.
  eapply (spec_bind _ _ (λ _, True)); [auto with prog|]. intros dt _.
  eapply (spec_bind _ _ (λ _, True)); [auto with prog|]. intros bootable _.
  eapply (spec_bind _ _ (λ _, True)); [auto with prog|]. intros uuid _.
  eapply (spec_bind _ _ (λ _, True)); [auto with prog|]. intros holders _.
  eapply (spec_bind _ _ (λ o, is_Some o ↔ dt = DTISCSI)).
  { destruct (bool_decide (dt = DTISCSI)) eqn:E; [apply bool_decide_eq_true in E|apply bool_decide_eq_false in E].
    - eapply spec_bind; [apply returns_hostIP|]. intros ip _. apply spec_ret. split; [done|eauto].
    - apply spec_ret. split; [by intros []|done]. }
  intros iscsi Hi. apply spec_ret. unfold record_ok. simpl. split_and!; try done.
  - rewrite Nat.eqb_eq. by destruct reasons.
  - intros H1 H2. specialize (Hm H1 H2). by destruct reasons.
  - by destruct (String.eqb (default "" (wwns !! path)) ""), (String.eqb byPath "").
Qed.

(** The disks without a record: those that the kernel hides, and devices of the
    device mapper, loop and zram devices. *)
Definition hidden_disk (d : block_disk) : Prop :=
  ∃ l b, e_read_file l (path_join ["/sys"; "block"; b_Name d; "hidden"]) = Good b ∧ TrimSpace b = "1".
Definition left_out (d : block_disk) : Prop :=
  hidden_disk d ∨ HasPrefix (b_Name d) "dm-" = true ∨ HasPrefix (b_Name d) "loop" = true ∨ HasPrefix (b_Name d) "zram" = true.

Lemma spec_shouldReturn d :
  spec RO no_change
    (λ keep : bool, if keep then HasPrefix (b_Name d) "loop" = false ∧ HasPrefix (b_Name d) "zram" = false else left_out d)
    (shouldReturnDisk d).
Proof.
  unfold shouldReturnDisk, isMultipath, isLVM.
  eapply (spec_bind _ _ (λ h : bool, h = true → hidden_disk d)).
  { unfold isHiddenDevice. eapply (spec_bind _ _ (λ r, ∃ l, e_read_file l (path_join ["/sys"; "block"; b_Name d; "hidden"]) = r));
      [apply spec_ask; by eauto|]. intros [b|e] [l Hl]; apply spec_ret; [|done]. intros H%String.eqb_eq. by exists l, b. }
  intros [] Hh; [apply spec_ret; left; by apply Hh|].
  eapply (spec_bind _ _ (λ b : bool, b = true → HasPrefix (b_Name d) "dm-" = true)).
  { destruct (HasPrefix (b_Name d) "dm-"); [|by apply spec_ret]. eapply spec_conseq; [|by intros a _].
    instantiate (1 := λ _, True). prog_steps. }
  intros [] Hd; [apply spec_ret; right; left; by apply Hd|]. apply spec_ret. unfold left_out.
  destruct (HasPrefix (b_Name d) "loop"), (HasPrefix (b_Name d) "zram"); cbn; auto.
Qed.

(** The records [recs] are those of the disks, in their order and one each; only
    the disks of [left_out] have none. *)
Definition records_of (disks : list block_disk) (recs : list disk) : Prop :=
  ∃ ds, ds `sublist_of` imap pair disks ∧ Forall (λ p, p ∈ ds ∨ left_out p.2) (imap pair disks) ∧
        Forall2 (λ p rec, record_ok disks p.1 p.2 rec) ds recs.

Lemma collect_disks_correct disks wwns :
  spec RO no_change (records_of disks) (collect_disks disks wwns).
Proof.
  unfold collect_disks, records_of. generalize (imap pair disks) as l. intros l.
  assert (H : ∀ acc, spec RO no_change (λ recs, ∃ ds new, recs = acc ++ new ∧ ds `sublist_of` l ∧
                       Forall (λ p, p ∈ ds ∨ left_out p.2) l ∧ Forall2 (λ p rec, record_ok disks p.1 p.2 rec) ds new)
    (foldP (λ ret '(diskIndex, d), keep ← shouldReturnDisk d;
            if negb keep then mret ret else rec ← disk_record disks wwns diskIndex d; mret (ret ++ [rec])) l acc)).
  { induction l as [|[i d] l IH]; intros acc; cbn [foldP].
    { apply spec_ret. exists [], []. rewrite app_nil_r. by split_and!. }
    eapply (spec_bind _ _ (λ acc', (acc' = acc ∧ left_out d) ∨ ∃ rec, acc' = acc ++ [rec] ∧ record_ok disks i d rec)).
    - eapply spec_bind; [apply spec_shouldReturn|]. intros [] Hk; cbn [negb]; [|by apply spec_ret; left].
      destruct Hk as [Hl Hz]. eapply spec_bind; [by apply spec_disk_record|].
      intros rec Hrec. apply spec_ret. right. eauto.
    - intros acc' [[-> Ho]|(rec & -> & Hrec)]; (eapply spec_conseq; [apply IH|]); intros recs (ds & new & -> & Hs & Ha & Hf).
      + exists ds, new. split_and!; [done|by apply sublist_cons|by constructor; [right|]|done].
      + exists ((i, d) :: ds), (rec :: new).
        split_and!; [by rewrite <-(assoc_L (++))|by apply sublist_skip| |by constructor].
        constructor; [left; left|]. eapply Forall_impl; [exact Ha|]. intros p [Hp|Hp]; [left; by right|by right]. }
  eapply spec_conseq; [apply (H [])|]. intros recs (ds & new & -> & Hs & Ha & Hf). by exists ds.
Qed.

(** *** The record of an appliance *)
(** The device mapper gives the disk a name that begins with "agent". *)
Definition is_appliance (d : block_disk) : Prop :=
  HasPrefix (b_Name d) "dm-" = true ∧
  ∃ l dmName, e_read_file l (path_join ["/sys"; "block"; b_Name d; "dm"; "name"]) = Good dmName ∧
              HasPrefix dmName "agent" = true.
(** The one record of an appliance passes every validation, whatever its disk. *)
Definition appliance_record (d : block_disk) (rec : disk) : Prop :=
  Name rec = b_Name d ∧ Eligible rec = true ∧ NotEligibleReasons rec = [] ∧ IsInstallationMedia rec = false ∧
  SizeBytes rec = (100 * 2 ^ 30)%Z ∧ DriveType rec = DTSSD ∧ d_ID rec = "" ∧ Iscsi rec = None.

Lemma spec_isAppliance d : spec RO no_change (λ b : bool, b = true → is_appliance d) (isAppliance d).
Proof.
  unfold isAppliance. destruct (HasPrefix (b_Name d) "dm-") eqn:E; [|by apply spec_ret].
  eapply (spec_bind _ _ (λ r, ∃ l, e_read_file l (path_join ["/sys"; "block"; b_Name d; "dm"; "name"]) = r));
    [apply spec_ask; by eauto|]. intros [dmName|e] [l Hl]; apply spec_ret; [|done]. intros H. split; [done|eauto].
Qed.
Lemma spec_find_appliance disks :
  spec RO no_change (λ r, ∀ d, r = Some d → d ∈ disks ∧ is_appliance d) (findP isAppliance disks).
Proof.
  induction disks as [|d disks IH]; cbn [findP]; [by apply spec_ret|].
  eapply spec_bind; [apply spec_isAppliance|]. intros [] Hd.
  - apply spec_ret. intros d' [= <-]. split; [left|by apply Hd].
  - eapply spec_conseq; [apply IH|]. intros r H d' Hr. destruct (H d' Hr). split; [by right|done].
Qed.
Lemma spec_getApplianceDisks disks :
  spec RO no_change (λ recs, recs = [] ∨ ∃ d rec, d ∈ disks ∧ is_appliance d ∧ recs = [rec] ∧ appliance_record d rec)
    (getApplianceDisks disks).
Proof.
  unfold getApplianceDisks. eapply spec_bind; [apply spec_find_appliance|]. intros [d|] H; [|by apply spec_ret; left].
  destruct (H d eq_refl) as [Hin Ha]. eapply (spec_bind _ _ (λ _, True)); [auto with prog|]. intros path _.
  eapply (spec_bind _ _ (λ _, True)); [prog_steps|]. intros uuids _.
  eapply (spec_bind _ _ (λ _, True)); [auto with prog|]. intros wwns _.
  eapply (spec_bind _ _ (λ _, True)); [auto with prog|]. intros byPath _.
  apply spec_ret. right. eexists d, _. split_and!; [done..|reflexivity|by split_and!].
Qed.


(** C10. When no file vanishes while its directory is listed, listing the disks
    never fails; it only reads: files, [file -s] and [sg_inq -p 0x83], and nothing
    is written to a device of the host. *)
Theorem getDisks_reads_only : returns RO no_change (getDisks ghw_block).
Proof.
  unfold getDisks. apply returns_bind; [by apply spec_ask|]. intros [[|d l]|e]; [by apply spec_ret| |by apply spec_ret].
  apply returns_bind; [apply returns_appliance|]. intros [|x xs]; [|by apply spec_ret].
  apply returns_bind; [apply returns_getDisksWWNs|]. intros wwns.
  eapply spec_returns, collect_disks_correct.
Qed.
End DisksFacts.

(** ** A file that vanishes
    A directory entry whose information cannot be read any more, because the file
    went away after the directory was listed, is a nil FileInfo for the inventory,
    which panics when it asks for its name: *)
Section Vanished.
Context {env : Env}.

Theorem vanished_file_panics l s before after :
  e_read_dir l byIdLocation = Good (before ++ None :: after) →
  run getDisksWWNs l s = (Panicked, l ++ [RFile "ReadDir" byIdLocation], s).
Proof.
  intros H. unfold getDisksWWNs, dep_ReadDir. rewrite run_bind. cbn [run ask]. rewrite H, run_bind. cbn [run mret proc_ret].
  assert (E : ∀ l', run (mapP or_panic (before ++ None :: after) : Go (list file_info)) l' s = (Panicked, l', s)).
  { clear H. induction before as [|[f|] before IH]; intros l'; cbn [app mapP]; rewrite run_bind; cbn [run or_panic]; [done| |done].
    rewrite run_bind. by rewrite IH. }
  by rewrite E.
Qed.
End Vanished.

(** ** Which bus paths are reported *)
Section BusPath.
Context {env : Env}.

(** Two disks with the same bus path both have none in the inventory, and
    no file is looked up for them. *)
Theorem getBusPath_shared (disks : list block_disk) (i j : nat) (d e : block_disk) :
  disks !! i = Some d → disks !! j = Some e → i ≠ j → BusPath d = BusPath e →
  getBusPath disks i (BusPath d) = mret "".
Proof.
  intros Hi Hj Hne Hb. unfold getBusPath. destruct (String.eqb _ _); [done|].
  replace (shares_bus_path disks i (BusPath d)) with true; [done|]. symmetry.
  apply existsb_exists. exists (j, e). split.
  - apply list_elem_of_In, list_elem_of_lookup. exists j. by rewrite list_lookup_imap, Hj.
  - apply andb_true_iff. rewrite negb_true_iff, Nat.eqb_neq, String.eqb_eq. done.
Qed.
End BusPath.

(** ** Witnesses *)
Section DisksWitness.
Definition demo_host : Env :=
  host_with (λ _ _ _, ("DOS/MBR boot sector", "", None)) (λ _ _, Good "running") (λ _ _, Bad enoent)
            (λ _ _, Good "/sys/devices/pci0/host2/session1/block/sda").
Definition demo_disk (name bus : string) : block_disk :=
  mkBlockDisk name (2 ^ 40) GSSD false SCSCSI bus "v" "m" "s" "w" [mkPartition "p1" "" "/mnt"].

Lemma demo_links : @absolute_links demo_host.
Proof. intros l p q [= <-]. simpl. lia. Qed.
Lemma demo_dirs : @steady_dirs demo_host.
Proof. intros l p entries [=]. Qed.


Lemma getDisks_reads_only_witness :
  returns (λ r, reads_only r = true) no_change (@getDisks demo_host (λ _, Good [demo_disk "sda" "b"])).
Proof. apply (@getDisks_reads_only demo_host (λ _, Good [demo_disk "sda" "b"]) demo_links demo_dirs). Defined.

Lemma vanished_file_panics_witness :
  let h := with_entries (λ _ _, Good [None]) null_env in
  run (@getDisksWWNs h) [] shared_init = (Panicked, [RFile "ReadDir" byIdLocation], shared_init).
Proof. intros h. apply (@vanished_file_panics h [] shared_init [] []). reflexivity. Defined.

Lemma getBusPath_shared_witness :
  @getBusPath demo_host [demo_disk "sda" "b"; demo_disk "sdb" "b"] 0 "b" = mret "".
Proof. apply (@getBusPath_shared demo_host _ 0 1 (demo_disk "sda" "b") (demo_disk "sdb" "b")); [done..|lia|done]. Defined.
End DisksWitness.
