(* ===== verification/Regex.v ===== *)
(** * Regular expressions (the parts of Go's [regexp] the agent uses)

    Matching is leftmost-first: the alternatives and the numbers of repetitions
    are tried in priority order, so a regular expression denotes the ordered
    list of the states it can stop in. A character is a byte, which for ASCII text
    is what Go's expressions see; a rune of several bytes is several characters
    here. *)
From S2P Require Import Prelude GoStrings.

Inductive re : Type :=
  | Eps
  | Chr (p : ascii → bool)
  | Seq (r1 r2 : re)
  | Alt (r1 r2 : re)
  | Star (r : re)
  | Cap (n : nat) (r : re)
  | Begin
  | End
  | WordB.

(** The character before the position, the rest of the input, the groups. *)
Record mstate : Type := MState {
  m_prev : option ascii; m_rest : string; m_caps : list (nat * string)
}.

Definition is_word (c : ascii) : bool :=
  let n := Ascii.nat_of_ascii c in
  is_digit c || (Nat.leb 65 n && Nat.leb n 90) || (Nat.leb 97 n && Nat.leb n 122) || Nat.eqb n 95.

Definition word_after (s : string) : bool := match s with String c _ => is_word c | "" => false end.
Definition word_before (p : option ascii) : bool := match p with Some c => is_word c | None => false end.

(** The first [n] characters. *)
Fixpoint take_chars (n : nat) (s : string) : string :=
  match n, s with
  | S n', String c s' => String c (take_chars n' s')
  | _, _ => ""
  end.

(** What was consumed between two rests of the same input. *)
Definition consumed (before after : string) : string :=
  take_chars (String.length before - String.length after) before.

Fixpoint star_go (step : mstate → list mstate) (fuel : nat) (st : mstate) : list mstate :=
  match fuel with
  | O => [st]
  | S fuel' =>
      flat_map (λ st', if Nat.ltb (String.length (m_rest st')) (String.length (m_rest st))
                       then star_go step fuel' st' else []) (step st) ++ [st]
  end.

Fixpoint matches (r : re) (st : mstate) : list mstate :=
  match r with
  | Eps => [st]
  | Chr p =>
      match m_rest st with
      | String c s' => if p c then [MState (Some c) s' (m_caps st)] else []
      | "" => []
      end
  | Seq r1 r2 => flat_map (matches r2) (matches r1 st)
  | Alt r1 r2 => matches r1 st ++ matches r2 st
  | Star r => star_go (matches r) (String.length (m_rest st)) st
  | Cap n r =>
      map (λ st', MState (m_prev st') (m_rest st') (m_caps st' ++ [(n, consumed (m_rest st) (m_rest st'))]))
          (matches r st)
  | Begin => match m_prev st with None => [st] | Some _ => [] end
  | End => match m_rest st with "" => [st] | _ => [] end
  | WordB => if Bool.eqb (word_before (m_prev st)) (word_after (m_rest st)) then [] else [st]
  end.

(** The leftmost match: what precedes it, its text, its end state. *)
Fixpoint find_from (r : re) (prev : option ascii) (s : string) : option (string * string * mstate) :=
  match matches r (MState prev s []) with
  | st :: _ => Some ("", consumed s (m_rest st), st)
  | [] =>
      match s with
      | "" => None
      | String c s' =>
          match find_from r (Some c) s' with
          | Some (pre, m, st) => Some (String c pre, m, st)
          | None => None
          end
      end
  end.

Definition group (n : nat) (st : mstate) : string :=
  match List.find (λ p, Nat.eqb (fst p) n) (m_caps st) with Some (_, t) => t | None => "" end.

(** FindStringSubmatch of an expression with [n] groups: the whole match, then
    the groups ("" for a group that took no part). *)
Definition FindStringSubmatch (n : nat) (r : re) (s : string) : option (list string) :=
  match find_from r None s with
  | Some (_, m, st) => Some (m :: map (λ i, group (S i) st) (seq 0 n))
  | None => None
  end.

Definition MatchString (r : re) (s : string) : bool :=
  match find_from r None s with Some _ => true | None => false end.

(** ReplaceAllString with a replacement that holds no dollar sign, for an
    expression that does not match the empty string. *)
Fixpoint replace_all_go (fuel : nat) (r : re) (prev : option ascii) (s new : string) : string :=
  match fuel with
  | O => s
  | S fuel' =>
      match find_from r prev s with
      | Some (pre, _, st) => pre +:+ new +:+ replace_all_go fuel' r (m_prev st) (m_rest st) new
      | None => s
      end
  end.
Definition ReplaceAllString (r : re) (s new : string) : string :=
  replace_all_go (S (String.length s)) r None s new.

(** ** Shorthands *)
Definition chr (c : ascii) : re := Chr (Ascii.eqb c).
Definition one_of (s : string) : ascii → bool :=
  λ c, negb (all_chars (λ d, negb (Ascii.eqb d c)) s).
Definition none_of (s : string) : ascii → bool := λ c, negb (one_of s c).
Definition in_range (lo hi c : ascii) : bool :=
  Nat.leb (Ascii.nat_of_ascii lo) (Ascii.nat_of_ascii c) &&
  Nat.leb (Ascii.nat_of_ascii c) (Ascii.nat_of_ascii hi).
Fixpoint lit (s : string) : re :=
  match s with "" => Eps | String c s' => Seq (chr c) (lit s') end.
Definition plus (r : re) : re := Seq r (Star r).
Definition opt (r : re) : re := Alt r Eps.
(** \d, \s and \S; Go's \s has no vertical tab. *)
Definition digit : re := Chr is_digit.
Definition is_re_space (c : ascii) : bool :=
  let n := Ascii.nat_of_ascii c in
  Nat.eqb n 32 || Nat.eqb n 9 || Nat.eqb n 10 || Nat.eqb n 12 || Nat.eqb n 13.
Definition space : re := Chr is_re_space.
Definition nonspace : re := Chr (λ c, negb (is_re_space c)).
(** A dot does not match the new line. *)
Definition dot : re := Chr (λ c, negb (Ascii.eqb c nl)).
Fixpoint seqs (l : list re) : re :=
  match l with [] => Eps | [r] => r | r :: l' => Seq r (seqs l') end.

(** ** Facts: a match consumes a prefix of the input *)
Definition suffix_of (s t : string) : Prop := ∃ p, t = p +:+ s.

Lemma suffix_of_trans s t u : suffix_of s t → suffix_of t u → suffix_of s u.
Proof. intros [p ->] [q ->]. exists (q +:+ p). by rewrite append_assoc. Qed.

Lemma star_go_suffix step fuel st st' :
  (∀ a b, b ∈ step a → suffix_of (m_rest b) (m_rest a)) →
  st' ∈ star_go step fuel st → suffix_of (m_rest st') (m_rest st).
Proof.
  intros Hstep. revert st. induction fuel as [|fuel IH]; intros st; cbn [star_go].
  - intros ->%list_elem_of_singleton. by exists "".
  - rewrite elem_of_app. intros [H| ->%list_elem_of_singleton]; [|by exists ""].
    apply list_elem_of_In, in_flat_map in H as (x & Hx & H). apply list_elem_of_In in Hx.
    destruct (Nat.ltb _ _); [|by apply in_nil in H]. apply list_elem_of_In in H.
    eapply suffix_of_trans; [by apply IH|auto].
Qed.

Lemma matches_suffix r st st' : st' ∈ matches r st → suffix_of (m_rest st') (m_rest st).
Proof.
  revert st st'. induction r; intros st st'; cbn [matches].
  - intros ->%list_elem_of_singleton. by exists "".
  - destruct (m_rest st) as [|c s] eqn:E; [by intros ?%not_elem_of_nil|].
    destruct (p c); [|by intros ?%not_elem_of_nil]. intros ->%list_elem_of_singleton. by exists (String c "").
  - intros H. apply list_elem_of_In, in_flat_map in H as (x & Hx & H).
    apply list_elem_of_In in Hx, H. eapply suffix_of_trans; eauto.
  - rewrite elem_of_app. naive_solver.
  - intros H. eapply star_go_suffix; eauto.
  - intros (x & -> & Hx)%list_elem_of_fmap. simpl. auto.
  - destruct (m_prev st); [by intros ?%not_elem_of_nil|]. intros ->%list_elem_of_singleton. by exists "".
  - destruct (m_rest st) eqn:E; [|by intros ?%not_elem_of_nil]. intros ->%list_elem_of_singleton. by exists "".
  - destruct (Bool.eqb _ _); [by intros ?%not_elem_of_nil|]. intros ->%list_elem_of_singleton. by exists "".
Qed.

(** *** The characters a match consists of *)
Fixpoint only_chars (q : ascii → bool) (r : re) : Prop :=
  match r with
  | Chr p => ∀ c, p c = true → q c = true
  | Seq r1 r2 => only_chars q r1 ∧ only_chars q r2
  | Alt r1 r2 => only_chars q r1 ∧ only_chars q r2
  | Star r => only_chars q r
  | Cap _ r => only_chars q r
  | _ => True
  end.

(** [st'] is [st] after characters that all satisfy [q]. *)
Definition consumes (q : ascii → bool) (st st' : mstate) : Prop :=
  ∃ w, m_rest st = w +:+ m_rest st' ∧ all_chars q w = true.

Lemma consumes_refl q st : consumes q st st.
Proof. by exists "". Qed.
Lemma consumes_trans q a b c : consumes q a b → consumes q b c → consumes q a c.
Proof.
  intros (w & E & Hw) (w' & E' & Hw'). exists (w +:+ w'). rewrite E, E', append_assoc. split; [done|].
  by rewrite all_chars_app, Hw.
Qed.

Lemma star_go_consumes q step fuel st st' :
  (∀ a b, b ∈ step a → consumes q a b) → st' ∈ star_go step fuel st → consumes q st st'.
Proof.
  intros Hstep. revert st. induction fuel as [|fuel IH]; intros st; cbn [star_go].
  - intros ->%list_elem_of_singleton. apply consumes_refl.
  - rewrite elem_of_app. intros [H| ->%list_elem_of_singleton]; [|apply consumes_refl].
    apply list_elem_of_In, in_flat_map in H as (x & Hx & H). apply list_elem_of_In in Hx.
    destruct (Nat.ltb _ _); [|by apply in_nil in H]. apply list_elem_of_In in H.
    eapply consumes_trans; [by apply Hstep|auto].
Qed.

Lemma matches_consumes q r st st' : only_chars q r → st' ∈ matches r st → consumes q st st'.
Proof.
  revert st st'. induction r; intros st st' Hr; cbn [matches only_chars] in *.
  - intros ->%list_elem_of_singleton. apply consumes_refl.
  - destruct (m_rest st) as [|c s] eqn:E; [by intros ?%not_elem_of_nil|].
    destruct (p c) eqn:Ec; [|by intros ?%not_elem_of_nil]. intros ->%list_elem_of_singleton.
    exists (String c ""). split; [done|]. simpl. by rewrite Hr.
  - destruct Hr as [H1 H2]. intros H. apply list_elem_of_In, in_flat_map in H as (x & Hx & H).
    apply list_elem_of_In in Hx, H. eapply consumes_trans; eauto.
  - rewrite elem_of_app. naive_solver.
  - intros H. eapply star_go_consumes; eauto.
  - intros (x & -> & Hx)%list_elem_of_fmap. specialize (IHr _ _ Hr Hx). by destruct IHr as (w & ? & ?); exists w.
  - destruct (m_prev st); [by intros ?%not_elem_of_nil|]. intros ->%list_elem_of_singleton. apply consumes_refl.
  - destruct (m_rest st) eqn:E; [|by intros ?%not_elem_of_nil]. intros ->%list_elem_of_singleton. apply consumes_refl.
  - destruct (Bool.eqb _ _); [by intros ?%not_elem_of_nil|]. intros ->%list_elem_of_singleton. apply consumes_refl.
Qed.

Lemma anchored_no_match r c s : find_from (Seq Begin r) (Some c) s = None.
Proof. revert c. induction s as [|d s IH]; intros c; simpl; [done|]. by rewrite IH. Qed.

(** An expression anchored at both ends matches only inputs of its characters. *)
Lemma MatchString_chars q r s :
  only_chars q r → MatchString (Seq Begin (Seq r End)) s = true → all_chars q s = true.
Proof.
  intros Hr. unfold MatchString.
  destruct (matches (Seq Begin (Seq r End)) (MState None s [])) as [|st' sts] eqn:E.
  - destruct s as [|c s]; cbn [find_from]; rewrite E; [done|]. by rewrite anchored_no_match.
  - intros _. assert (H : In st' (matches (Seq Begin (Seq r End)) (MState None s []))) by (rewrite E; by left).
    cbn [matches m_prev flat_map] in H. rewrite app_nil_r in H.
    apply in_flat_map in H as (st & Hst & Hend). apply list_elem_of_In in Hst.
    destruct (matches_consumes q r _ _ Hr Hst) as (w & Hw & Hq). cbn [matches m_rest] in *.
    destruct (m_rest st); [|by apply in_nil in Hend]. rewrite append_nil_r in Hw. by subst.
Qed.

Example find_1 : FindStringSubmatch 1 (Seq (lit "a=") (Cap 1 (plus nonspace))) "x a=bc d" = Some ["a=bc"; "bc"].
Proof. vm_compute. reflexivity. Qed.
Example find_2 : FindStringSubmatch 1 (seqs [lit "rtt "; Star dot; chr "/"; Cap 1 (plus (Chr (none_of "/"))); lit "/"]) "rtt 1/2/3/4" = Some ["rtt 1/2/3/"; "3"].
Proof. vm_compute. reflexivity. Qed.
