(* ===== verification/Uuid.v ===== *)
(** * UUIDs (github.com/google/uuid and strfmt.IsUUID, in the vendor folder)

    What counts as a UUID for the validations of the agent. *)
From S2P Require Import Prelude GoStrings Regex.

(** ** uuid.Parse of github.com/google/uuid: does it return no error? *)
(** xtob: both characters are hexadecimal digits, of either case. *)
Definition xvalue_ok (c : option ascii) : bool :=
  match c with
  | Some c => let n := Ascii.nat_of_ascii c in
      (Nat.leb 48 n && Nat.leb n 57) || (Nat.leb 65 n && Nat.leb n 70) || (Nat.leb 97 n && Nat.leb n 102)
  | None => false
  end.
Definition xtob (s : string) (x : nat) : bool := xvalue_ok (String.get x s) && xvalue_ok (String.get (S x) s).
Definition is_char (s : string) (i : nat) (c : ascii) : bool :=
  match String.get i s with Some d => Ascii.eqb d c | None => false end.

(** The form xxxxxxxx-xxxx-xxxx-xxxx-xxxxxxxxxxxx at the start of [s]. *)
Definition uuid_dashed (s : string) : bool :=
  is_char s 8 "-" && is_char s 13 "-" && is_char s 18 "-" && is_char s 23 "-" &&
  forallb (xtob s) [0; 2; 4; 6; 9; 11; 14; 16; 19; 21; 24; 26; 28; 30; 32; 34].
Definition uuid_Parse (s : string) : bool :=
  match String.length s with
  | 36 => uuid_dashed s
  | 45 => EqualFold (take_chars 9 s) "urn:uuid:" && uuid_dashed (drop_chars 9 s)
  | 38 => uuid_dashed (drop_chars 1 s)
  | 32 => forallb (λ i, xtob s (2 * i)) (seq 0 16)
  | _ => false
  end.
(** strfmt.IsUUID *)
Definition IsUUID (s : string) : bool := uuid_Parse s.

(** ** Facts *)
(** *** uuid.Parse does not look at the case of letters *)
Lemma ToLower_length s : String.length (ToLower s) = String.length s.
Proof. induction s as [|c s IH]; cbn [ToLower String.length]; [done|by rewrite IH]. Qed.
Lemma to_lower_char_idem c : to_lower_char (to_lower_char c) = to_lower_char c.
Proof. destruct c as [[] [] [] [] [] [] [] []]; reflexivity. Qed.
Lemma ToLower_idem s : ToLower (ToLower s) = ToLower s.
Proof. induction s as [|c s IH]; cbn [ToLower]; [done|]. by rewrite IH, to_lower_char_idem. Qed.
Lemma ToLower_get s i : String.get i (ToLower s) = to_lower_char <$> String.get i s.
Proof. revert i. induction s as [|c s IH]; intros [|i]; cbn [ToLower String.get]; done. Qed.
Lemma ToLower_drop n s : drop_chars n (ToLower s) = ToLower (drop_chars n s).
Proof. revert s. induction n as [|n IH]; intros [|c s]; cbn [ToLower drop_chars]; done. Qed.
Lemma ToLower_take n s : take_chars n (ToLower s) = ToLower (take_chars n s).
Proof. revert s. induction n as [|n IH]; intros [|c s]; cbn [ToLower take_chars]; [done..|by rewrite IH]. Qed.

Lemma xtob_lower s x : xtob (ToLower s) x = xtob s x.
Proof.
  unfold xtob. rewrite !ToLower_get.
  assert (H : ∀ o, xvalue_ok (to_lower_char <$> o) = xvalue_ok o).
  { intros [[[] [] [] [] [] [] [] []]|]; reflexivity. }
  by rewrite !H.
Qed.
Lemma is_hyphen_lower s i : is_char (ToLower s) i "-" = is_char s i "-".
Proof.
  unfold is_char. rewrite ToLower_get.
  destruct (String.get i s) as [[[] [] [] [] [] [] [] []]|]; reflexivity.
Qed.
Lemma uuid_dashed_lower s : uuid_dashed (ToLower s) = uuid_dashed s.
Proof. unfold uuid_dashed. rewrite !is_hyphen_lower. cbn [forallb]. by rewrite !xtob_lower. Qed.
Lemma EqualFold_lower s t : EqualFold (ToLower s) t = EqualFold s t.
Proof. unfold EqualFold. by rewrite ToLower_idem. Qed.

Lemma IsUUID_lower s : IsUUID (ToLower s) = IsUUID s.
Proof.
  unfold IsUUID, uuid_Parse. rewrite ToLower_length, ToLower_take, !ToLower_drop, !uuid_dashed_lower, EqualFold_lower.
  cbn [forallb seq]. by rewrite !xtob_lower.
Qed.

