(* ===== verification/Shell.v ===== *)
(** * Shell command lines (the shellescape library) and what a POSIX shell reads

    Several actions hand a command line to [sh -c].  [Quote] and [QuoteCommand]
    are the vendored library the code quotes with; [sh_words] is the reference:
    the words a POSIX shell splits a line into by its quoting rules. *)
From S2P Require Import Prelude GoStrings Regex.

(** The characters that need no quotes: letters, digits, _ @ % + = : , . / - *)
Definition unquoted_char (c : ascii) : bool := is_word c || one_of "@%+=:,./-" c.

(** A single quote within single quotes: close them, put it in double quotes,
    open them again. *)
Definition squote : string := "'".
Definition quoted_squote : string := squote +:+ dqs +:+ squote +:+ dqs +:+ squote.

(** shellescape.Quote *)
Definition Quote (s : string) : string :=
  match s with
  | "" => squote +:+ squote
  | _ => if all_chars unquoted_char s then s
         else squote +:+ ReplaceAll s "'" quoted_squote +:+ squote
  end.

(** shellescape.QuoteCommand *)
Definition QuoteCommand (args : list string) : string := Join (map Quote args) " ".

(** ** The words of a command line (POSIX, 2.2 Quoting and 2.3 Token
    Recognition)

    [None] when the line is anything else than a simple command of literal
    words: an unquoted character that is not literal for sure, an expansion in
    double quotes, an unterminated quotation. *)
Inductive sh_mode : Type := Plain | Single | Double.

Definition add_char (w : option string) (c : ascii) : option string := Some (default "" w +:+ String c "").

Definition end_word (w : option string) (ws : list string) : list string :=
  match w with Some w => w :: ws | None => ws end.

Fixpoint read_words (mode : sh_mode) (w : option string) (s : string) : option (list string) :=
  match s with
  | "" => match mode with Plain => Some (end_word w []) | _ => None end
  | String c s' =>
      match mode with
      | Plain =>
          if Ascii.eqb c " " then end_word w <$> read_words Plain None s'
          else if Ascii.eqb c "'" then read_words Single (Some (default "" w)) s'
          else if Ascii.eqb c dq then read_words Double (Some (default "" w)) s'
          else if unquoted_char c then read_words Plain (add_char w c) s' else None
      | Single => if Ascii.eqb c "'" then read_words Plain w s' else read_words Single (add_char w c) s'
      | Double =>
          if Ascii.eqb c dq then read_words Plain w s'
          else if one_of "$`\" c then None else read_words Double (add_char w c) s'
      end
  end.

Definition sh_words (s : string) : option (list string) := read_words Plain None s.

(** ** Quoting is read back *)
Lemma append_char (a : string) c (t : string) : (a +:+ String c "") +:+ t = a +:+ String c t.
Proof. by rewrite <-append_assoc. Qed.

Lemma read_words_single (w : string) a rest :
  read_words Single (Some a) (ReplaceAll w "'" quoted_squote +:+ squote +:+ rest) = read_words Plain (Some (a +:+ w)) rest.
Proof.
  revert a. induction w as [|c w IH]; intros a; [by rewrite append_nil_r|].
  cbn [ReplaceAll]. rewrite <-append_assoc. destruct (Ascii.eqb_spec c "'") as [->|Hc].
  - change (read_words Single (Some (a +:+ "'")) (ReplaceAll w "'" quoted_squote +:+ squote +:+ rest) =
            read_words Plain (Some (a +:+ String "'" w)) rest).
    by rewrite IH; cbn [from_option id]; rewrite append_char.
  - change (String c "" +:+ ReplaceAll w "'" quoted_squote +:+ squote +:+ rest) with
      (String c (ReplaceAll w "'" quoted_squote +:+ squote +:+ rest)).
    cbn [read_words]. apply Ascii.eqb_neq in Hc. rewrite Hc. unfold add_char.
    cbn [from_option id]. by rewrite IH; cbn [from_option id]; rewrite append_char.
Qed.

Lemma read_words_plain (w : string) a rest :
  all_chars unquoted_char w = true → a ≠ None ∨ w ≠ "" →
  read_words Plain a (w +:+ rest) = read_words Plain (Some (default "" a +:+ w)) rest.
Proof.
  revert a. induction w as [|c w IH]; intros a Hw Ha.
  { destruct a as [a|]; [|by destruct Ha]. cbn [from_option id]. by rewrite append_nil_r. }
  cbn [all_chars] in Hw. apply andb_true_iff in Hw as [Hc Hw].
  change (String c w +:+ rest) with (String c (w +:+ rest)). cbn [read_words].
  replace (Ascii.eqb c " ") with false by (symmetry; apply Ascii.eqb_neq; by intros ->).
  replace (Ascii.eqb c "'") with false by (symmetry; apply Ascii.eqb_neq; by intros ->).
  replace (Ascii.eqb c dq) with false by (symmetry; apply Ascii.eqb_neq; by intros ->).
  rewrite Hc, IH; [|done|by left]. unfold add_char. cbn [from_option id]. by rewrite append_char.
Qed.

Lemma read_words_Quote w rest : read_words Plain None (Quote w +:+ rest) = read_words Plain (Some w) rest.
Proof.
  destruct w as [|c w]; [done|]. unfold Quote.
  destruct (all_chars unquoted_char (String c w)) eqn:E; [by apply read_words_plain; [|right]|].
  rewrite <-!append_assoc. apply (read_words_single (String c w) "").
Qed.

(** A command line: each word quoted, or safe without quotes. *)
Lemma sh_words_cons w ws rest :
  read_words Plain None rest = Some ws → read_words Plain None (Quote w +:+ " " +:+ rest) = Some (w :: ws).
Proof.
  intros E. rewrite read_words_Quote. change (" " +:+ rest) with (String " " rest). cbn [read_words]. by rewrite E.
Qed.

Lemma sh_words_QuoteCommand l rest ws :
  l ≠ [] → read_words Plain None rest = Some ws →
  read_words Plain None (QuoteCommand l +:+ " " +:+ rest) = Some (l ++ ws).
Proof.
  intros Hl E. unfold QuoteCommand. induction l as [|w l IH]; [done|]. destruct l as [|w' l].
  - cbn [map Join]. by apply sh_words_cons.
  - change (Join (map Quote (w :: w' :: l)) " ") with (Quote w +:+ " " +:+ Join (map Quote (w' :: l)) " ").
    rewrite <-!append_assoc. apply sh_words_cons. by apply IH.
Qed.

Lemma QuoteCommand_reads l : l ≠ [] → read_words Plain None (QuoteCommand l) = Some l.
Proof.
  unfold QuoteCommand. induction l as [|w l IH]; [done|]. intros _. destruct l as [|w' l].
  - cbn [map Join]. rewrite <-(append_nil_r (Quote w)). by rewrite read_words_Quote.
  - change (Join (map Quote (w :: w' :: l)) " ") with (Quote w +:+ " " +:+ Join (map Quote (w' :: l)) " ").
    apply sh_words_cons. by apply IH.
Qed.

(** A quoted command line is read back by the shell as exactly the list of
    arguments it was made of. *)
Theorem QuoteCommand_words l : l ≠ [] → sh_words (QuoteCommand l) = Some l.
Proof. apply QuoteCommand_reads. Qed.

Lemma QuoteCommand_words_witness :
  sh_words (QuoteCommand ["--x"; "it's"; ""; "a b; rm"]) = Some ["--x"; "it's"; ""; "a b; rm"].
Proof. apply (QuoteCommand_words ["--x"; "it's"; ""; "a b; rm"]). discriminate. Defined.
