(* ===== verification/GoFloat.v ===== *)
(** * float64 and time (Go's floating-point arithmetic, [time.Duration])

    float64 is IEEE 754 binary64, rounding to nearest even: the functions of
    [SpecFloat] at precision 53 and maximal exponent 1024. *)
From S2P Require Import Prelude GoStrings.
From Stdlib Require Import SpecFloat.

Definition float64 : Type := spec_float.
Definition f_of_Z (z : Z) : float64 := binary_normalize 53 1024 z 0 false.
Definition f_add : float64 → float64 → float64 := SFadd 53 1024.
Definition f_mul : float64 → float64 → float64 := SFmul 53 1024.
Definition f_div : float64 → float64 → float64 := SFdiv 53 1024.
Definition f_eqb : float64 → float64 → bool := SFeqb.
Definition f_ltb : float64 → float64 → bool := SFltb.
Definition f_zero : float64 := S754_zero false.

(** Conversion to an integer drops the fraction. *)
Definition f_trunc (f : float64) : Z :=
  match f with
  | S754_finite s m e =>
      let a := if (0 <=? e)%Z then (Z.pos m * 2 ^ e)%Z else (Z.pos m / 2 ^ (- e))%Z in
      if s then (- a)%Z else a
  | _ => 0
  end.

(** ** Durations, in nanoseconds *)
Definition Second : Z := 1000000000.
Definition Minute : Z := (60 * Second)%Z.
Definition Hour : Z := (60 * Minute)%Z.

(** Duration.Seconds *)
Definition Seconds (d : Z) : float64 :=
  f_add (f_of_Z (Z.quot d Second)) (f_div (f_of_Z (Z.rem d Second)) (f_of_Z Second)).

(** int64(d.Seconds()) *)
Definition whole_seconds (d : Z) : Z := int64 (f_trunc (Seconds d)).

(** Time.Sub: the difference of two times, saturated. *)
Definition time_sub (a b : Z) : Z := Z.max int64_min (Z.min int64_max (a - b)).

Example seconds_1 : whole_seconds 2999999999 = 2%Z.
Proof. vm_compute. reflexivity. Qed.
Example seconds_2 : whole_seconds (-1500000000) = (-1)%Z.
Proof. vm_compute. reflexivity. Qed.
Example div_1 : f_trunc (f_div (f_of_Z 7000000) (f_of_Z 1000000)) = 7%Z.
Proof. vm_compute. reflexivity. Qed.
