(* ===== verification/ImageAvailability.v ===== *)
(** * Container image availability (src/container_image_availability)

    Each image of the request is pulled with podman, within what is left of the
    timeout of the request. *)
From S2P Require Import Prelude GoStrings GoFloat Host Config.

(** models.ContainerImageAvailabilityRequest, models.ContainerImageAvailability *)
Record image_request : Type := mkImageRequest { ir_Images : list string; ir_Timeout : Z }.
Inductive image_result : Type := ImageSuccess | ImageFailure.
#[export] Instance image_result_eq_dec : EqDecision image_result.
Proof. solve_decision. Defined.
Record image_availability : Type := mkImage {
  ia_Name : string; ia_Result : image_result; ia_SizeBytes : float64;
  ia_Time : float64; ia_DownloadRate : float64
}.

Definition Megabyte : float64 := f_of_Z 1000000.
Definition failedToPullImageExitCode : Z := 2.

Definition getDryModeContainerImageAvailability (name : string) : image_availability :=
  mkImage name ImageSuccess (f_of_Z 400000000) (f_of_Z 10) (f_of_Z 100).

Definition calcMBps (bytes seconds : float64) : float64 :=
  if f_eqb seconds f_zero then f_zero else f_div (f_div bytes Megabyte) seconds.

Section Images.
Context {env : Env}.
(** strconv.ParseFloat and encoding/json *)
Variable ParseFloat : string → result float64.
Variable unmarshal_request : string → result image_request.
Variable marshal_response : list image_availability → result string.

Definition executeString (cmd : string) : Go (string * string * Z) :=
  match Split cmd " " with
  | [] => panic
  | command :: args => ExecutePrivileged command args
  end.

Definition getImageSizeInBytes (image : string) : Go (result float64) :=
  '(stdout, stderr, exitCode) ← executeString ("podman image inspect --format={{.Size}} " +:+ image);
  if negb (exitCode =? 0)%Z
  then mret (Bad (errorf ("podman inspect exited with non-zero exit code " +:+ Itoa exitCode +:+ ": " +:+
                          stdout +:+ nls +:+ " " +:+ stderr)))
  else
    let val := TrimSpace stdout in
    match ParseFloat val with
    | Bad err => mret (Bad (wrap err ("Failed to convert " +:+ val +:+ " to float")))
    | Good size => mret (Good size)
    end.

Definition isImageAvailable (image : string) : Go bool :=
  '(stdout, _, exitCode) ← executeString ("podman images --quiet " +:+ image);
  mret ((exitCode =? 0)%Z && negb (String.eqb stdout "")).

Definition pullImage (pullTimeoutSeconds : Z) (image : string) : Go (option error) :=
  '(stdout, stderr, exitCode) ←
    executeString ("timeout " +:+ Itoa pullTimeoutSeconds +:+ " " +:+ "podman pull " +:+ image);
  mret (if (exitCode =? 0)%Z then None else
        if (exitCode =? TimeoutExitCode)%Z
        then Some (errorf ("podman pull was timed out after " +:+ Itoa pullTimeoutSeconds +:+ " seconds"))
        else Some (errorf ("podman pull exited with non-zero exit code " +:+ Itoa exitCode +:+ ": " +:+
                           stdout +:+ nls +:+ " " +:+ stderr))).

Definition handleImageAvailability (cfg : SubprocessConfig) (pullTimeoutSeconds : Z) (image : string)
    : Go image_availability :=
  if DryRunEnabled (sc_dry cfg) then mret (getDryModeContainerImageAvailability image) else
  imageExistLocallyBeforePull ← isImageAvailable image;
  let response := mkImage image ImageFailure f_zero f_zero f_zero in
  if (pullTimeoutSeconds <=? 0)%Z then mret response else
  start ← Now;
  err ← pullImage pullTimeoutSeconds image;
  now ← Now;
  let pullTimeInSeconds := f_div (f_of_Z (time_sub now start)) (f_of_Z Second) in
  match err with
  | Some _ => mret response
  | None =>
      if negb imageExistLocallyBeforePull then
        size ← getImageSizeInBytes image;
        match size with
        | Bad _ => mret response
        | Good sizeInBytes =>
            mret (mkImage image ImageSuccess sizeInBytes pullTimeInSeconds
                          (calcMBps sizeInBytes pullTimeInSeconds))
        end
      else mret (mkImage image ImageSuccess f_zero f_zero f_zero)
  end.

(** The loop over the images: the responses so far and the exit code. *)
Definition handle_images (cfg : SubprocessConfig) (finishOnTimeout : Z)
    : list string → list image_availability * Z → Go (list image_availability * Z) :=
  foldP (λ '(images, exitCode) image,
           now ← Now;
           r ← handleImageAvailability cfg (whole_seconds (time_sub finishOnTimeout now)) image;
           mret (images ++ [r],
                 if bool_decide (ia_Result r = ImageSuccess) then exitCode else failedToPullImageExitCode)).

Definition Run (cfg : SubprocessConfig) (requestStr : string) : Go (string * string * Z) :=
  match unmarshal_request requestStr with
  | Bad err => mret ("", err_msg err, (-1)%Z)
  | Good request =>
      now ← Now;
      let finishOnTimeout := (now + int64 (ir_Timeout request * Second))%Z in
      '(images, exitCode) ← handle_images cfg finishOnTimeout (ir_Images request) ([], 0%Z);
      match marshal_response images with
      | Bad err => mret ("", err_msg err, (-1)%Z)
      | Good b => mret (b, "", exitCode)
      end
  end.

(** ** Facts *)
(** The three commands about an image, run as the host: is it there, pull it
    within some seconds, how large is it. An image is the words between its
    spaces. In a dry run there is none. *)
Definition podman_command (cfg : SubprocessConfig) (image : string) (r : request) : Prop :=
  DryRunEnabled (sc_dry cfg) = false ∧
  (r = privileged "podman" (["images"; "--quiet"] ++ Split image " ") ∨
   (∃ seconds, (0 < seconds)%Z ∧
      r = privileged "timeout" ([Itoa seconds; "podman"; "pull"] ++ Split image " ")) ∨
   r = privileged "podman" (["image"; "inspect"; "--format={{.Size}}"] ++ Split image " ")).
(** Nothing but the clock, and these commands for the given images. *)
Definition podman_request (cfg : SubprocessConfig) (images : list string) (r : request) : Prop :=
  r = RNow ∨ ∃ image, image ∈ images ∧ podman_command cfg image r.

Lemma Split_word w s : all_chars (λ c, negb (Ascii.eqb c " ")) w = true →
  Split (w +:+ " " +:+ s) " " = w :: Split s " ".
Proof. apply Split_cons. Qed.

(** A command of words and an image *)
Lemma Split_words ws s : Forall (λ w, all_chars (λ c, negb (Ascii.eqb c " ")) w = true) ws →
  Split (fold_right (λ w t, w +:+ " " +:+ t) s ws) " " = ws ++ Split s " ".
Proof. induction 1 as [|w ws Hw _ IH]; [done|]. cbn [fold_right app]. by rewrite Split_word, IH. Qed.
Lemma returns_executeString (P : request → Prop) w ws s :
  Forall (λ w, all_chars (λ c, negb (Ascii.eqb c " ")) w = true) (w :: ws) →
  P (privileged w (ws ++ Split s " ")) →
  returns P no_change (executeString (fold_right (λ w t, w +:+ " " +:+ t) s (w :: ws))).
Proof. intros Hw HP. unfold executeString. rewrite Split_words by done. by apply spec_ExecutePrivileged. Qed.

Lemma Itoa_nospace z : all_chars (λ c, negb (Ascii.eqb c " ")) (Itoa z) = true.
Proof.
  assert (H : ∀ u, all_chars (λ c, negb (Ascii.eqb c " ")) (DecimalString.NilEmpty.string_of_uint u) = true) by (induction u; done).
  assert (H0 : ∀ u, all_chars (λ c, negb (Ascii.eqb c " ")) (DecimalString.NilZero.string_of_uint u) = true)
    by (intros u; destruct u; [done|apply H..]).
  unfold Itoa, DecimalString.NilZero.string_of_int. destruct (Z.to_int z) as [u|u]; apply H0.
Qed.

Section Commands.
Variable cfg : SubprocessConfig.
Hypothesis not_dry : DryRunEnabled (sc_dry cfg) = false.

Lemma returns_size image : returns (podman_command cfg image) no_change (getImageSizeInBytes image).
Proof.
  unfold getImageSizeInBytes. apply returns_bind.
  - apply (returns_executeString _ "podman" ["image"; "inspect"; "--format={{.Size}}"]); [by repeat constructor|].
    split; [done|]. by right; right.
  - intros [[o e] c]. prog_steps.
Qed.
Lemma returns_available image : returns (podman_command cfg image) no_change (isImageAvailable image).
Proof.
  unfold isImageAvailable. apply returns_bind.
  - apply (returns_executeString _ "podman" ["images"; "--quiet"]); [by repeat constructor|]. split; [done|]. by left.
  - intros [[o e] c]. prog_steps.
Qed.
Lemma returns_pull t image : (0 < t)%Z → returns (podman_command cfg image) no_change (pullImage t image).
Proof.
  intros Ht. unfold pullImage. apply returns_bind.
  - apply (returns_executeString _ "timeout" [Itoa t; "podman"; "pull"]).
    + repeat constructor. apply Itoa_nospace.
    + split; [done|]. right; left. by exists t.
  - intros [[o e] c]. prog_steps.
Qed.
End Commands.

(** The response names the image; outside dry mode a success took a positive timeout. *)
Definition image_ok (cfg : SubprocessConfig) (t : Z) (image : string) (r : image_availability) : Prop :=
  ia_Name r = image ∧
  (ia_Result r = ImageSuccess → DryRunEnabled (sc_dry cfg) = true ∨ (0 < t)%Z).

Lemma spec_handleImage cfg images t image : image ∈ images →
  spec (podman_request cfg images) no_change (image_ok cfg t image) (handleImageAvailability cfg t image).
Proof.
  intros Hin. unfold handleImageAvailability, image_ok.
  destruct (DryRunEnabled (sc_dry cfg)) eqn:Hdry; [apply spec_ret; auto|].
  assert (Hmono : ∀ A (m : Go A), returns (podman_command cfg image) no_change m →
    returns (podman_request cfg images) no_change m).
  { intros A m Hm. eapply spec_mono; [exact Hm| |done|done]. intros r Hr. right. by exists image. }
  eapply spec_bind; [by apply Hmono, returns_available|]. intros existed _.
  destruct (t <=? 0)%Z eqn:Ht; [by apply spec_ret|]. apply Z.leb_gt in Ht.
  eapply (spec_bind _ _ (λ _, True)); [by apply spec_ask; [left|]|]. intros start _.
  eapply spec_bind; [by apply Hmono, returns_pull|]. intros err _.
  eapply (spec_bind _ _ (λ _, True)); [by apply spec_ask; [left|]|]. intros now _.
  destruct err; [by apply spec_ret|]. destruct (negb existed); [|apply spec_ret; auto].
  eapply spec_bind; [by apply Hmono, returns_size|]. intros [size|e] _; apply spec_ret; auto.
Qed.

(** The exit code tells whether every image is available. *)
Definition run_ok (images : list string) (res : list image_availability * Z) : Prop :=
  map ia_Name res.1 = images ∧
  res.2 = (if forallb (λ r, bool_decide (ia_Result r = ImageSuccess)) res.1 then 0 else 2)%Z.

Lemma spec_handle_images cfg finish all images done_images acc :
  images ⊆ all → run_ok done_images acc →
  spec (podman_request cfg all) no_change (run_ok (done_images ++ images)) (handle_images cfg finish images acc).
Proof.
  unfold handle_images. intros Hall. revert done_images acc.
  induction images as [|image images IH]; intros done_images [rs code] [Hn Hc]; cbn [foldP].
  { apply spec_ret. by rewrite app_nil_r. }
  eapply (spec_bind _ _ (run_ok (done_images ++ [image]))).
  - eapply (spec_bind _ _ (λ _, True)); [by apply spec_ask; [left|]|]. intros now _.
    eapply spec_bind; [apply spec_handleImage, Hall; left|]. intros r [Hr _]. apply spec_ret.
    cbn [fst snd] in *. split; simpl; [by rewrite map_app, Hn, <-Hr|].
    rewrite forallb_app. simpl. rewrite andb_true_r. unfold failedToPullImageExitCode.
    destruct (bool_decide (ia_Result r = ImageSuccess)); [by rewrite andb_true_r|by rewrite andb_false_r].
  - intros acc Hacc. replace (done_images ++ image :: images) with ((done_images ++ [image]) ++ images);
      [apply IH; [intros i Hi; apply Hall; by right|done]|]. by rewrite <-(assoc_L (++)).
Qed.

(** C26. A parsed request always gets an answer: all that is run is podman, as the
    host, to look for an image of the request, to pull it within a positive
    number of seconds and to read its size, and nothing in a dry run; the
    response lists the images of the request in order, and the exit code is 0
    when every image is available and 2 otherwise (-1 when the response cannot be
    encoded). *)
Theorem image_availability_answers cfg requestStr request :
  unmarshal_request requestStr = Good request →
  spec (podman_request cfg (ir_Images request)) no_change
    (λ '(stdout, stderr, exitCode), ∃ images, map ia_Name images = ir_Images request ∧
       match marshal_response images with
       | Bad err => exitCode = (-1)%Z ∧ stderr = err_msg err
       | Good b => stdout = b ∧ stderr = "" ∧
                   exitCode = (if forallb (λ r, bool_decide (ia_Result r = ImageSuccess)) images then 0 else 2)%Z
       end) (Run cfg requestStr).
Proof.
  intros Hreq. unfold Run. rewrite Hreq.
  eapply (spec_bind _ _ (λ _, True)); [by apply spec_ask; [left|]|]. intros now _.
  eapply spec_bind; [by apply (spec_handle_images _ _ _ _ [] ([], 0%Z))|].
  intros [images code] [Hn Hc]. simpl in Hn, Hc.
  destruct (marshal_response images) eqn:E; apply spec_ret; exists images; rewrite E; auto.
Qed.
End Images.

Lemma image_availability_answers_witness :
  let cfg := mkSubprocessConfig (mkLoggingConfig false false false) (mkDryRunConfig false "" "" "" "" "") in
  ∃ Q, spec (podman_request cfg ["quay.io/a"]) no_change Q
    (@Run null_env (λ _, Good f_zero) (λ _, Good (mkImageRequest ["quay.io/a"] 60)) (λ _, Good "{}") cfg "req").
Proof.
  intros cfg. eexists.
  apply (@image_availability_answers null_env (λ _, Good f_zero) (λ _, Good (mkImageRequest ["quay.io/a"] 60))
    (λ _, Good "{}") cfg "req" (mkImageRequest ["quay.io/a"] 60)). reflexivity.
Defined.
