(* ===== verification/UpgradeAgent.v ===== *)
(** * Upgrade of the agent image (src/upgrade_agent)

    At most one image pull is in flight in a process: the package-level
    semaphore [pullSem] is the field [sh_pull_sem] of the shared memory. *)
From S2P Require Import Prelude GoStrings Host.

(** models.UpgradeAgentResult; [NoResult] is the empty string. *)
Inductive upgrade_result : Type := NoResult | UpgradeSuccess | UpgradeFailure.
#[export] Instance upgrade_result_eq_dec : EqDecision upgrade_result.
Proof. solve_decision. Defined.

(** models.UpgradeAgentResponse *)
Record upgrade_response : Type := mkUpgradeResponse { ur_AgentImage : string; ur_Result : upgrade_result }.

Section UpgradeAgent.
Context {env : Env}.
(** encoding/json; the request is its agent image. *)
Variable unmarshal_request : string → result string.
Variable marshal_response : upgrade_response → result string.

(** pullSem.TryAcquire(1) and pullSem.Release(1) *)
Definition TryAcquire : Go bool :=
  shared_do (λ s, if sh_pull_sem s then (false, s)
                  else (true, Shared (sh_cache s) (sh_cancelled s) (sh_go s) (sh_image_sem s) true)).
Definition Release : Go () :=
  shared_do (λ s, ((), Shared (sh_cache s) (sh_cancelled s) (sh_go s) (sh_image_sem s) false)).

(** The deferred function of [Run]: whether or not the response can be encoded,
    the last assignment of the results is the one that stays. *)
Definition deferred_response (response : upgrade_response) : string * string * Z :=
  match marshal_response response with
  | Bad _ => ("", "", 0%Z)
  | Good b => (b, "", 0%Z)
  end.

Definition Run (requestStr : string) : Go (string * string * Z) :=
  match unmarshal_request requestStr with
  | Bad err => mret ("", err_msg err, (-1)%Z)
  | Good AgentImage =>
      pullAllowed ← TryAcquire;
      if negb pullAllowed then mret (deferred_response (mkUpgradeResponse AgentImage NoResult)) else
      '(_, _, pullExitCode) ← ExecutePrivileged "podman" ["pull"; AgentImage];
      let res := if (pullExitCode =? 0)%Z then UpgradeSuccess else UpgradeFailure in
      _ ← Release;
      mret (deferred_response (mkUpgradeResponse AgentImage res))
  end.

(** ** Facts *)
Definition pull_request (image : string) : request := privileged "podman" ["pull"; image].

(** What the environment answers to the pull of an image after [l]. *)
Definition pull_succeeds (l : log) (image : string) : bool :=
  let '(_, _, err) := e_run l "nsenter"
    (["--target"; "1"; "--cgroup"; "--mount"; "--ipc"; "--net"; "--"; "podman"] ++ ["pull"; image]) in
  (getExitCode err =? 0)%Z.

(** With no pull in progress, the image of the request is pulled exactly
    once, the semaphore is free again afterwards, and the response tells whether
    podman succeeded. *)
Theorem upgrade_pulls_once requestStr image l s :
  unmarshal_request requestStr = Good image → sh_pull_sem s = false →
  run (Run requestStr) l s =
    (Done (deferred_response (mkUpgradeResponse image
             (if pull_succeeds l image then UpgradeSuccess else UpgradeFailure))),
     l ++ [pull_request image], s).
Proof.
  intros Hreq Hs. unfold Run. rewrite Hreq. destruct s as [c x g i p]. simpl in Hs. subst p.
  unfold TryAcquire. rewrite run_bind. cbn [run shared_do fst snd sh_pull_sem negb].
  unfold pull_succeeds, ExecutePrivileged, Execute. cbn -[deferred_response getExitCode Z.eqb].
  destruct (e_run _ _ _) as [[o e] err]. cbn -[deferred_response getExitCode Z.eqb].
  done.
Qed.

(** While another pull is in progress nothing is run, the semaphore stays
    taken, and the response has no result and exit code 0. *)
Theorem upgrade_in_progress requestStr image l s :
  unmarshal_request requestStr = Good image → sh_pull_sem s = true →
  run (Run requestStr) l s = (Done (deferred_response (mkUpgradeResponse image NoResult)), l, s).
Proof.
  intros Hreq Hs. unfold Run. rewrite Hreq. unfold TryAcquire. rewrite run_bind.
  cbn [run shared_do]. rewrite Hs. done.
Qed.

(** A response that cannot be encoded is reported as a success with an empty
    output: the deferred function assigns -1 and then overwrites it. *)
Theorem marshal_error_is_lost response err :
  marshal_response response = Bad err → deferred_response response = ("", "", 0%Z).
Proof. intros E. unfold deferred_response. by rewrite E. Qed.
End UpgradeAgent.

(** ** At most one pull in flight *)
Section MutualExclusion.
Context {env : Env}.
Variable unmarshal_request : string → result string.
Variable marshal_response : upgrade_response → result string.

Definition is_pull (r : request) : bool :=
  match r with RExec "nsenter" args => bool_decide ("pull" ∈ args) | _ => false end.

Lemma Run_sem_ok requestStr :
  sem_ok sh_pull_sem is_pull false (Run unmarshal_request marshal_response requestStr).
Proof.
  unfold Run. destruct (unmarshal_request requestStr) as [image|err]; [|done].
  intros s _. destruct (sh_pull_sem s) eqn:E.
  - done.
  - cbn. split; [done|]. intros l. destruct (e_run _ _ _) as [[o e] err]. cbn. intros s' _. done.
Qed.

(** C27. In every interleaving of upgrade steps, at most one goroutine at a time is
    pulling an image. *)
Theorem one_pull_in_flight (requests : list string) l s p :
  sh_pull_sem s = false →
  rtc pstep (Pool l s (map (Run unmarshal_request marshal_response) requests)) p →
  length (List.filter (about_to is_pull) (p_procs p)) ≤ 1.
Proof.
  intros Hs Hrun. eapply exclusive_requests. eapply (exclusive_rtc sh_pull_sem is_pull); [exact Hrun|].
  apply exclusive_start; [done|]. apply Forall_map, Forall_forall. intros r _. apply Run_sem_ok.
Qed.
End MutualExclusion.

(** ** Witnesses *)
Section UpgradeWitness.
Definition demo_unmarshal (s : string) : result string := Good s.
Definition demo_marshal (r : upgrade_response) : result string := Bad (errorf "boom").
Definition demo_busy : shared := Shared ∅ false [] false true.

Lemma upgrade_pulls_once_witness :
  run (@Run (cmd_host (λ _ _ _, ("", "", None))) demo_unmarshal demo_marshal "img") [] shared_init =
    (Done ("", "", 0%Z), [pull_request "img"], shared_init).
Proof.
  rewrite (@upgrade_pulls_once (cmd_host (λ _ _ _, ("", "", None))) demo_unmarshal demo_marshal "img" "img");
    reflexivity.
Defined.

Lemma upgrade_in_progress_witness :
  run (@Run null_env demo_unmarshal demo_marshal "img") [] demo_busy = (Done ("", "", 0%Z), [], demo_busy).
Proof. rewrite (@upgrade_in_progress null_env demo_unmarshal demo_marshal "img" "img"); reflexivity. Defined.

Lemma marshal_error_is_lost_witness :
  deferred_response demo_marshal (mkUpgradeResponse "img" UpgradeSuccess) = ("", "", 0%Z).
Proof. apply (marshal_error_is_lost demo_marshal _ (errorf "boom")). reflexivity. Defined.

(** Two upgrades, the first of which has started to pull. *)
Lemma one_pull_in_flight_witness :
  ∃ p, rtc pstep (Pool [] shared_init (map (@Run null_env demo_unmarshal demo_marshal) ["a"; "b"])) p ∧
       length (List.filter (about_to is_pull) (p_procs p)) ≤ 1.
Proof.
  pose (start := Pool [] shared_init (map (@Run null_env demo_unmarshal demo_marshal) ["a"; "b"])).
  destruct (pool_act 0 start) as [p|] eqn:E; [|discriminate].
  exists p. assert (H : rtc pstep start p) by (eapply rtc_once, (pool_act_sound 0), E).
  split; [exact H|].
  apply (@one_pull_in_flight null_env demo_unmarshal demo_marshal ["a"; "b"] [] shared_init p); [reflexivity|exact H].
Defined.
End UpgradeWitness.
