(* ===== verification/Network.v ===== *)
(** * IPv6 prefixes from the routing table (src/util/network.go)

    An IPv6 address of an interface is given the prefix length of the network that
    a router has advertised for it. *)
From S2P Require Import Prelude GoStrings Host Net.

(** util.IsIPv4Addr *)
Definition IsIPv4Addr (ip : string) : bool := has_char ip "." && negb (is_nil (ParseIP ip)).

(** netlink.Route and netlink.NexthopInfo, the fields the code reads; RTPROT_RA
    of golang.org/x/sys/unix *)
Record route : Type := mkRoute {
  Dst : option IPNet; Protocol : Z; LinkIndex : Z; MultiPath : list (Z * option bytes);
  Gw : option bytes; Priority : Z
}.
Definition RTPROT_RA : Z := 9.

Definition isUsableIPv6Route (r : route) : bool :=
  match Dst r with
  | None => false
  | Some dst => Nat.eqb (length (net_ip dst)) 16 && (Protocol r =? RTPROT_RA)%Z
  end.

(** What the body of the loop makes of one address. *)
Definition set_v6_prefix (routes : list route) (addr : string) : string :=
  if String.eqb addr "" || negb (has_char addr ":") then addr else
  match ParseCIDR addr with
  | None => addr
  | Some (ip, _) =>
      match List.find (λ d, Contains_ip d ip) (omap Dst routes) with
      | Some d => IPNet_String (mkIPNet ip (net_ones d))
      | None => addr
      end
  end.

Section Routes.
Context {env : Env}.
(** netlink.LinkByName and netlink.RouteList for IPv6 *)
Variable link_by_name : log → string → option error.
Variable route_list_v6 : log → string → result (list route).

Definition getUsableIPv6Routes (link : string) : Go (result (list route)) :=
  r ← ask (RNet "RouteList" [link; "6"]) (λ l, route_list_v6 l link);
  match r with
  | Bad err => mret (Bad err)
  | Good routes => mret (Good (List.filter isUsableIPv6Route routes))
  end.

(** The addresses, updated in place, and the error. *)
Definition SetV6PrefixesForAddress (link : string) (addresses : list string)
    : Go (list string * option error) :=
  match addresses with
  | [] => mret (addresses, None)
  | _ =>
      err ← ask (RNet "LinkByName" [link]) (λ l, link_by_name l link);
      match err with
      | Some err => mret (addresses, Some err)
      | None =>
          routes ← getUsableIPv6Routes link;
          match routes with
          | Bad err => mret (addresses, Some err)
          | Good routes => mret (map (set_v6_prefix routes) addresses, None)
          end
      end
  end.

(** ** Facts *)
(** The kernel's reply to a router advertisement: an IPv6 route, not the default
    one, of protocol RTPROT_RA. It [covers] the address when that is an IPv6
    address of its network. *)
Definition covers (r : route) (addr : string) (d : IPNet) (ip : bytes) : Prop :=
  Dst r = Some d ∧ length (net_ip d) = 16 ∧ Protocol r = RTPROT_RA ∧
  has_char addr ":" = true ∧ (∃ cidr, ParseCIDR addr = Some (ip, cidr)) ∧ Contains_ip d ip = true.

(** [new] is the address with the prefix length of a route of the list that
    covers it, or [old] when there is none. *)
Definition same_address (routes : list route) (old new : string) : Prop :=
  (new = old ∧ ∀ r d ip, r ∈ routes → ¬ covers r old d ip) ∨
  (∃ r d ip, r ∈ routes ∧ covers r old d ip ∧ new = IPNet_String (mkIPNet ip (net_ones d))).

(** What the kernel may have answered about a link: the routes of the link, or
    that it or its routes cannot be read, which changes nothing. *)
Definition readdressed (link : string) (old new : list string) : Prop :=
  (new = old ∧ ((∃ l e, link_by_name l link = Some e) ∨ ∃ l e, route_list_v6 l link = Bad e)) ∨
  ∃ l routes, route_list_v6 l link = Good routes ∧ Forall2 (same_address routes) old new.

Lemma usable_spec r d : Dst r = Some d →
  isUsableIPv6Route r = true ↔ length (net_ip d) = 16 ∧ Protocol r = RTPROT_RA.
Proof.
  intros Hd. unfold isUsableIPv6Route. rewrite Hd, andb_true_iff, Nat.eqb_eq, Z.eqb_eq. done.
Qed.

Lemma set_v6_prefix_same routes addr :
  same_address routes addr (set_v6_prefix (List.filter isUsableIPv6Route routes) addr).
Proof.
  unfold set_v6_prefix, same_address.
  destruct (String.eqb addr "" || negb (has_char addr ":")) eqn:E.
  { left. split; [done|]. intros r d ip _ (_ & _ & _ & Hc & _). rewrite Hc, orb_false_r in E.
    apply String.eqb_eq in E. by subst. }
  apply orb_false_iff in E as [_ E]. apply negb_false_iff in E.
  destruct (ParseCIDR addr) as [[ip cidr]|] eqn:Ep.
  2: { left. split; [done|]. intros r d ip _ (_ & _ & _ & _ & [c Hc] & _). congruence. }
  destruct (List.find _ _) as [d|] eqn:Ef.
  - right. apply find_some in Ef as [Hd Hc]. apply list_elem_of_In, list_elem_of_omap in Hd as (r & Hin & Hdst).
    apply list_elem_of_In, filter_In in Hin as [Hin Hu]. apply list_elem_of_In in Hin.
    apply (usable_spec r d Hdst) in Hu as [Hl Hp]. exists r, d, ip. split; [done|]. split; [|done].
    split_and!; [done..|by exists cidr|done].
  - left. split; [done|]. intros r d ip' Hin (Hdst & Hl & Hp & _ & [c Hc] & Hcov). rewrite Ep in Hc. injection Hc as -> ->.
    assert (Hf : d ∈ omap Dst (List.filter isUsableIPv6Route routes)).
    { apply list_elem_of_omap. exists r. split; [|done]. apply list_elem_of_In, filter_In.
      split; [by apply list_elem_of_In|]. by apply (usable_spec r d Hdst). }
    apply list_elem_of_In in Hf. pose proof (find_none _ _ Ef d Hf). congruence.
Qed.

(** Requests for the kernel's tables *)
Definition kernel_queries : list string := ["Interfaces"; "LinkByName"; "RouteList"; "LinkByIndex"].
Definition queries_kernel (r : request) : bool :=
  match r with RNet op _ => existsb (String.eqb op) kernel_queries | _ => false end.

(** The prefix lookup always returns; it keeps the number and the order of
    the addresses, and changes an address only to itself with the prefix length
    of an advertised IPv6 route of the link that contains it; on an error nothing
    changes. *)
Lemma SetV6Prefixes_spec link addresses : addresses ≠ [] →
  spec (λ r, queries_kernel r = true) no_change
    (λ '(out, err), readdressed link addresses out ∧ (is_Some err → out = addresses))
    (SetV6PrefixesForAddress link addresses).
Proof.
  intros Hne. unfold SetV6PrefixesForAddress. destruct addresses as [|a l]; [done|].
  split; [done|]. intros l1. cbn [mret proc_ret spec proc_bind_go].
  destruct (link_by_name l1 link) as [e|] eqn:El; [split; [left; split; [done|]; left; by exists l1, e|done]|].
  split; [done|]. intros l2. cbn [mret proc_ret spec proc_bind_go].
  destruct (route_list_v6 l2 link) as [routes|e] eqn:Er; (split; [|by intros []]).
  - right. exists l2, routes. split; [done|]. generalize (a :: l). intros l'.
    induction l' as [|b l' IH]; constructor; [by apply set_v6_prefix_same|done].
  - left. split; [done|]. right. by exists l2, e.
Qed.
End Routes.
