(* ===== verification/VipsVerifier.v ===== *)
(** * Verification of virtual IPs (src/vips_verifier)

    A virtual IP is free when no live host answers at it. *)
From S2P Require Import Prelude GoStrings Host Config Net Network FreeAddresses.

(** models.VerifyVip, models.VerifiedVip; the verification is [true] on success. *)
Record verify_vip : Type := mkVerifyVip { vv_Vip : string; vv_VipType : string }.
Record verified_vip : Type := mkVerifiedVip { v_Vip : string; v_VipType : string; v_Succeeded : bool }.

Definition bailOut (errStr : string) : string * string * Z := ("", errStr, (-1)%Z).

(** Some host that is up has an IP address. *)
Definition someone_answers (r : Nmaprun) : bool :=
  existsb (λ h, String.eqb (State (h_Status h)) "up" &&
                existsb (λ a, String.eqb (AddrType a) "ipv4" || String.eqb (AddrType a) "ipv6")
                        (Addresses h)) (Hosts r).

Section Vips.
Context {env : Env}.
(** encoding/xml and encoding/json; the request is a list of pointers *)
Variable unmarshal_nmap : string → result Nmaprun.
Variable unmarshal_request : string → result (list (option verify_vip)).
Variable marshal_response : list verified_vip → result string.

(** dryVipVerifier.verifyVip and vipVerifier.verifyVip *)
Definition dry_verifyVip (vip : verify_vip) : Go (result verified_vip) :=
  mret (Good (mkVerifiedVip (vv_Vip vip) (vv_VipType vip) true)).

Definition vip_nmap_args (vip : string) : list string :=
  if IsIPv4Addr vip then ["-sn"; "-n"; "-oX"; "-"; vip] else ["-6"; "-sn"; "-n"; "-oX"; "-"; vip].

Definition verifyVip (vip : verify_vip) : Go (result verified_vip) :=
  '(o, e, exitCode) ← Execute "nmap" (vip_nmap_args (vv_Vip vip));
  if negb (exitCode =? 0)%Z
  then mret (Bad (errorf ("nmap exited with code " +:+ Itoa exitCode +:+ ": " +:+ e)))
  else match unmarshal_nmap o with
       | Bad err => mret (Bad (wrap err "XML Unmarshal"))
       | Good nmaprun =>
           mret (Good (mkVerifiedVip (vv_Vip vip) (vv_VipType vip) (negb (someone_answers nmaprun))))
       end.

(** The loop over the request: all verified, or the message of the first failure.
    A null element is a nil pointer, which every verifier reads. *)
Fixpoint verify_all (verifier : verify_vip → Go (result verified_vip)) (vips : list (option verify_vip))
    (acc : list verified_vip) : Go (list verified_vip + string) :=
  match vips with
  | [] => mret (inl acc)
  | vip :: vips' =>
      vip ← or_panic vip;
      r ← verifier vip;
      match r with
      | Bad err => mret (inr ("failed to verify vip " +:+ vv_Vip vip +:+ ": " +:+ err_msg err))
      | Good verified => verify_all verifier vips' (acc ++ [verified])
      end
  end.

Definition verifyVips (verifier : verify_vip → Go (result verified_vip)) (arg : string) : Go (string * string * Z) :=
  match unmarshal_request arg with
  | Bad err => mret (bailOut ("failed to unmarshal argument: " +:+ err_msg err))
  | Good request =>
      r ← verify_all verifier request [];
      match r with
      | inr msg => mret (bailOut msg)
      | inl response =>
          match marshal_response response with
          | Bad err => mret (bailOut ("Marshal response: " +:+ err_msg err))
          | Good b => mret (b, "", 0%Z)
          end
      end
  end.

Definition VerifyVips (dry : DryRunConfig) (args : list string) : Go (string * string * Z) :=
  match args with
  | [arg] => verifyVips (if DryRunEnabled dry then dry_verifyVip else verifyVip) arg
  | _ => mret (bailOut ("expected 1 argument.  Received " +:+ Itoa (Z.of_nat (length args))))
  end.

(** ** Facts *)
(** The verdicts, when every nmap run works: a function of the environment. *)
Definition nmap_verdict (l : log) (vip : verify_vip) : option bool :=
  match e_run l "nmap" (vip_nmap_args (vv_Vip vip)) with
  | (o, _, None) => match unmarshal_nmap o with Good r => Some (negb (someone_answers r)) | Bad _ => None end
  | _ => None
  end.

Fixpoint verdicts (l : log) (vips : list verify_vip) : option (list verified_vip) :=
  match vips with
  | [] => Some []
  | vip :: vips' =>
      b ← nmap_verdict l vip;
      vs ← verdicts (l ++ [RExec "nmap" (vip_nmap_args (vv_Vip vip))]) vips';
      Some (mkVerifiedVip (vv_Vip vip) (vv_VipType vip) b :: vs)
  end.

Definition nmap_request (vip : verify_vip) : request := RExec "nmap" (vip_nmap_args (vv_Vip vip)).

Lemma verify_all_exact vips rest acc l s vs : verdicts l vips = Some vs →
  run (verify_all verifyVip (map Some vips ++ rest) acc) l s =
    run (verify_all verifyVip rest (acc ++ vs)) (l ++ map nmap_request vips) s.
Proof.
  revert acc l vs. induction vips as [|v vips IH]; intros acc l vs H; cbn [verdicts map app] in *.
  { simplify_eq. by rewrite !app_nil_r. }
  destruct (nmap_verdict l v) as [b|] eqn:Eb; [|done].
  destruct (verdicts (l ++ _) vips) as [vs'|] eqn:Evs; [|done]. simplify_eq/=.
  unfold nmap_verdict in Eb. unfold verifyVip, Execute. rewrite !run_bind. cbn -[vip_nmap_args].
  destruct (e_run l "nmap" _) as [[o e] [err|]]; [done|]. cbn -[vip_nmap_args verify_all].
  destruct (unmarshal_nmap o) as [r|]; [|done]. simplify_eq/=.
  set (verdict := mkVerifiedVip (vv_Vip v) (vv_VipType v) (negb (someone_answers r))).
  change (run (verify_all verifyVip (map Some vips ++ rest) (acc ++ [verdict])) (l ++ [nmap_request v]) s =
          run (verify_all verifyVip rest (acc ++ verdict :: vs')) (l ++ nmap_request v :: map nmap_request vips) s).
  rewrite (IH _ _ vs') by done. by rewrite <-!(assoc_L (++)).
Qed.

(** When nmap works for every virtual IP, the response has one verdict per
    virtual IP, in order, and an IP is refused exactly when some live host has
    an IP address in the answer to its scan. *)
Theorem verifyVips_verdicts arg vips l s vs out :
  unmarshal_request arg = Good (map Some vips) → verdicts l vips = Some vs → marshal_response vs = Good out →
  run (VerifyVips (mkDryRunConfig false "" "" "" "" "") [arg]) l s =
    (Done (out, "", 0%Z), l ++ map nmap_request vips, s).
Proof.
  intros Hreq Hv Hm. pose proof (verify_all_exact vips [] [] l s vs Hv) as E. rewrite app_nil_r in E.
  unfold VerifyVips, verifyVips. cbn [DryRunEnabled]. rewrite Hreq, run_bind.
  rewrite E. cbn [app verify_all run mret proc_ret]. by rewrite Hm.
Qed.

(** A null in the list of virtual IPs passes the validation of the request, which
    skips it, and makes the agent panic when its turn comes. *)
Theorem null_vip_panics arg vips rest l s vs :
  unmarshal_request arg = Good (map Some vips ++ None :: rest) → verdicts l vips = Some vs →
  run (VerifyVips (mkDryRunConfig false "" "" "" "" "") [arg]) l s = (Panicked, l ++ map nmap_request vips, s).
Proof.
  intros Hreq Hv. unfold VerifyVips, verifyVips. cbn [DryRunEnabled]. rewrite Hreq, run_bind.
  by rewrite (verify_all_exact _ _ _ _ _ _ Hv).
Qed.
End Vips.

Section VipsWitness.
Definition demo_vips : list verify_vip := [mkVerifyVip "1.2.3.4" "api"; mkVerifyVip "fd00::1" "ingress"].
Definition demo_nmap (s : string) : result Nmaprun :=
  Good (mkNmaprun (if String.eqb s "up" then [mkNmapHost (mkStatus "up" "") [mkAddress "x" "ipv4"]] else [])).
Definition vips_env : Env :=
  cmd_host (λ _ _ args, (if bool_decide (length args = 5) then "up" else "down", "", None)).

Lemma verifyVips_verdicts_witness :
  ∃ l, run (@VerifyVips vips_env demo_nmap (λ _, Good (map Some demo_vips))
       (λ vs, Good (if bool_decide (map v_Succeeded vs = [false; true]) then "ok" else "bad"))
       (mkDryRunConfig false "" "" "" "" "") ["arg"]) [] shared_init = (Done ("ok", "", 0%Z), l, shared_init).
Proof.
  eexists.
  apply (@verifyVips_verdicts vips_env demo_nmap (λ _, Good (map Some demo_vips))
           (λ vs, Good (if bool_decide (map v_Succeeded vs = [false; true]) then "ok" else "bad")) "arg" demo_vips []
           shared_init [mkVerifiedVip "1.2.3.4" "api" false; mkVerifiedVip "fd00::1" "ingress" true] "ok").
  - reflexivity.
  - vm_compute. reflexivity.
  - vm_compute. reflexivity.
Defined.

Lemma null_vip_panics_witness :
  (run (@VerifyVips vips_env demo_nmap (λ _, Good [None]) (λ _, Good "ok")
          (mkDryRunConfig false "" "" "" "" "") ["arg"]) [] shared_init).1.1 = Panicked.
Proof.
  rewrite (@null_vip_panics vips_env demo_nmap (λ _, Good [None]) (λ _, Good "ok") "arg" [] [] [] shared_init []
             eq_refl eq_refl).
  reflexivity.
Defined.
End VipsWitness.
