(* ===== verification/Http.v ===== *)
(** * HTTP requests (Go's [net/http] client)

    A request is its method, URL and headers; an answer is an error, or a
    status, the announced length of the body (-1 when unknown) and the body:
    what was read of it, and the read error if there was one. *)
From S2P Require Import Prelude GoStrings Host.

Record http_response : Type := mkResponse {
  StatusCode : Z; ContentLength : Z; Body : string; BodyError : option error
}.

Definition status_2xx (code : Z) : Prop := (200 <= code < 300)%Z.

(** http.Header: canonical keys, one value each. *)
Definition to_upper_char (c : ascii) : ascii :=
  let n := Ascii.nat_of_ascii c in
  if Nat.leb 97 n && Nat.leb n 122 then Ascii.ascii_of_nat (n - 32) else c.

(** The characters a header name may have. *)
Definition is_token_char (c : ascii) : bool :=
  let n := Ascii.nat_of_ascii c in
  is_digit c || (Nat.leb 65 n && Nat.leb n 90) || (Nat.leb 97 n && Nat.leb n 122) ||
  existsb (Ascii.eqb c) ["!"; "#"; "$"; "%"; "&"; "'"; "*"; "+"; "-"; "."; "^"; "_"; "`"; "|"; "~"]%char.

Fixpoint canonical_go (upper : bool) (s : string) : string :=
  match s with
  | "" => ""
  | String c s' => String (if upper then to_upper_char c else to_lower_char c) (canonical_go (Ascii.eqb c "-") s')
  end.

(** CanonicalMIMEHeaderKey *)
Definition canonical_key (s : string) : string := if all_chars is_token_char s then canonical_go true s else s.

Definition header := gmap string string.
(** Header.Set *)
Definition header_set (h : header) (k v : string) : header := <[canonical_key k := v]> h.

Class Http : Type := {
  (** the CA certificates to trust ([None]: those of the system), the method,
      the URL and the headers *)
  e_http : log → option string → string → string → header → result http_response;
  (** the response that comes with an error: the client has one when it stops
      after ten redirections *)
  e_stopped : log → option string → string → option http_response;
  (** the error of http.NewRequest for a method and a URL *)
  e_new_request : string → string → option error
}.

Section Client.
Context {http : Http}.

(** Client.Do *)
Definition http_do (roots : option string) (method url : string) (h : header) : Go (result http_response) :=
  ask (RNet method [url]) (λ l, e_http l roots method url h).

(** Client.Get: the response and the error, as Go returns them. *)
Definition get_answer (l : log) (roots : option string) (url : string) : option http_response * option error :=
  match e_http l roots "GET" url ∅ with
  | Good res => (Some res, None)
  | Bad err => (e_stopped l roots url, Some err)
  end.
Definition http_get (roots : option string) (url : string) : Go (option http_response * option error) :=
  ask (RNet "GET" [url]) (λ l, get_answer l roots url).
End Client.

Example canonical_1 : map canonical_key ["accept"; "X-my-HDR"; "bad key"] = ["Accept"; "X-My-Hdr"; "bad key"].
Proof. vm_compute. reflexivity. Qed.
