(* ===== verification/ApiVip.v ===== *)
(** * API VIP connectivity (src/apivip_check)

    The ignition file of the machine config server is downloaded, parsed and
    reported without the sections the service does not need. *)
From S2P Require Import Prelude GoStrings Host Http.

(** ** The ignition config: what the code reads and replaces; [c_rest] is the
    rest of the config. *)
Record ign_file : Type := mkFile { f_Path : string; f_contents : string }.
#[export] Instance ign_file_eq_dec : EqDecision ign_file.
Proof. solve_decision. Defined.
Record ign_config : Type := mkConfig {
  Files : list ign_file; Luks : list string; Units : list string; c_rest : string
}.

Definition set_files (c : ign_config) (fs : list ign_file) : ign_config := mkConfig fs (Luks c) (Units c) (c_rest c).

Definition getIgnitionFile (c : ign_config) (path : string) : option ign_file :=
  List.find (λ f, String.eqb (f_Path f) path) (Files c).

Definition copyIgnitionFile (original filtered : ign_config) (path : string) : ign_config :=
  match getIgnitionFile original path with
  | Some file => set_files filtered (Files filtered ++ [file])
  | None => filtered
  end.

Definition copyIgnitionDiskEncryptionInformation (original filtered : ign_config) : ign_config :=
  mkConfig (Files filtered) (Luks original) (Units filtered) (c_rest filtered).

Definition coredns_path : string := "/etc/kubernetes/manifests/coredns.yaml".
Definition keepalived_path : string := "/etc/kubernetes/manifests/keepalived.yaml".
Definition kubeconfig_path : string := "/etc/kubernetes/kubeconfig".

Definition copyIgnitionManagedNetworkIndications (original filtered : ign_config) : ign_config :=
  let filtered := copyIgnitionFile original filtered coredns_path in
  let filtered := copyIgnitionFile original filtered keepalived_path in
  copyIgnitionFile original filtered kubeconfig_path.

(** models.APIVipConnectivityRequest, whose headers are pointers, and
    APIVipConnectivityResponse *)
Record apivip_request : Type := mkApiVipRequest {
  av_URL : option string; CaCertificate : option string;
  IgnitionEndpointToken : option string; RequestHeaders : list (option (string * string))
}.
Record apivip_response : Type := mkApiVipResponse {
  Ignition : string; IsSuccess : bool; av_ResponseURL : string; DownloadError : string
}.

Definition ignitionVersion : string := "3.2.0".
Definition responseErrorSizeLimit : nat := 512.
Definition ignitionDownloadErrorStderr : string := "ignition download error".

(** ** utils.go: a line of the template with [n] tabs, and a quoted word *)
Fixpoint tabs (n : nat) (s : string) : string := match n with O => s | S n' => String "009" (tabs n' s) end.
Definition quoted (s : string) : string := dqs +:+ s +:+ dqs.
Definition FormatNodeIgnitionFile (source : string) : result string :=
  Good ("{" +:+ nls +:+
        tabs 1 (quoted "ignition") +:+ ": {" +:+ nls +:+
        tabs 2 (quoted "version") +:+ ": " +:+ quoted "3.1.0" +:+ "," +:+ nls +:+
        tabs 2 (quoted "config") +:+ ": {" +:+ nls +:+
        tabs 3 (quoted "merge") +:+ ": [{" +:+ nls +:+
        tabs 4 (quoted "source") +:+ ": " +:+ quoted source +:+ nls +:+
        tabs 3 "}]" +:+ nls +:+ tabs 2 "}" +:+ nls +:+ tabs 1 "}" +:+ nls +:+ "}").

Section ApiVip.
Context {env : Env} {http : Http}.
(** encoding/json, encoding/base64, the PEM parser and the ignition library *)
Variable unmarshal_request : string → result apivip_request.
Variable marshal_response : apivip_response → result string.
Variable raw_json : string → result string.
Variable decode_base64 : string → result string.
Variable parse_pem : string → bool.
Variable parse_ignition : string → result ign_config.
Variable marshal_ignition : ign_config → result string.
(** Marshalling a config and parsing it again. *)
Variable clone : ign_config → ign_config.

Definition filterIgnition (original : ign_config) : ign_config :=
  let filtered := clone original in
  let filtered := mkConfig [] (Luks filtered) [] (c_rest filtered) in
  let filtered := copyIgnitionDiskEncryptionInformation original filtered in
  copyIgnitionManagedNetworkIndications original filtered.

Definition createResponse (url : string) (success : bool) (ignition downloadError : string) : string :=
  match marshal_response (mkApiVipResponse ignition success url downloadError) with
  | Bad _ => ""
  | Good b => b
  end.

Definition first_bytes (s : string) : string := substring 0 responseErrorSizeLimit s.

(** The CA pool of the request: [Some None] is the pool of the system. *)
Definition trusted_roots (r : apivip_request) : option string + error :=
  match CaCertificate r with
  | None => inl None
  | Some ca =>
      match decode_base64 ca with
      | Bad err => inr (wrap err "ignition endpoint CA certificate is not valid base64")
      | Good cert => if parse_pem cert then inl (Some cert) else inr (errorf "unable to parse cert")
      end
  end.

(** The headers of the request; [None] when one of them is a nil pointer. *)
Definition request_headers (r : apivip_request) : option header :=
  let h := {["Accept" := "application/vnd.coreos.ignition+json; version=" +:+ ignitionVersion]} in
  let h := match IgnitionEndpointToken r with
           | Some token => header_set h "Authorization" ("Bearer " +:+ token)
           | None => h
           end in
  fold_left (λ h hdr, h ← h; '(key, value) ← hdr; Some (header_set h key value)) (RequestHeaders r) (Some h).

(** What the answer of the server amounts to. *)
Definition check_answer (res : http_response) : result string :=
  let bytes := Body res in
  let len := Itoa (Z.of_nat (String.length bytes)) in
  match BodyError res with
  | Some err =>
      if negb (ContentLength res =? -1)%Z
      then Bad (wrap err ("error while reading response body, read " +:+ len +:+ " out of " +:+
                          Itoa (ContentLength res) +:+ " bytes"))
      else Bad (wrap err ("error while reading response body, read " +:+ len +:+ " bytes"))
  | None =>
      if (StatusCode res <? 200)%Z || (StatusCode res >=? 300)%Z
      then Bad (errorf ("bad status code: " +:+ Itoa (StatusCode res) +:+ ". server response: " +:+ bytes))
      else if Nat.eqb (String.length bytes) 0
      then Bad (errorf ("server responsed with status code " +:+ Itoa (StatusCode res) +:+
                        " but the response was empty"))
      else match raw_json bytes with
           | Good js => Good js
           | Bad err =>
               if Nat.ltb responseErrorSizeLimit (String.length bytes)
               then Bad (wrap err ("expected ignition but got non-valid json, first " +:+
                                   Itoa (Z.of_nat responseErrorSizeLimit) +:+ " bytes are:" +:+ nls +:+
                                   first_bytes bytes +:+ nls +:+ "parse error is"))
               else Bad (wrap err ("response is not valid json:" +:+ nls +:+ bytes +:+ nls +:+ "parse error is"))
           end
  end.

Definition downloadIgnition (url : string) (r : apivip_request) : Go (result string) :=
  match trusted_roots r with
  | inr err => mret (Bad err)
  | inl roots =>
      match e_new_request "GET" url with
      | Some err => mret (Bad (wrap err "failed to create request"))
      | None =>
          headers ← or_panic (request_headers r);
          res ← http_do roots "GET" url headers;
          match res with
          | Bad err => mret (Bad (wrap err "request failed"))
          | Good res => mret (check_answer res)
          end
      end
  end.

Definition unknown_url : string := "<unknown URL due to internal error>".

(** The message for a body that is not an ignition file. *)
Definition not_ignition (err : error) (ignition : string) : error :=
  if Nat.ltb responseErrorSizeLimit (String.length ignition)
  then wrap err ("response JSON is not a valid ignition file, first " +:+
                 Itoa (Z.of_nat responseErrorSizeLimit) +:+ " bytes are:" +:+ nls +:+
                 first_bytes ignition +:+ nls +:+ "parse error is")
  else wrap err ("response is not a valid ignition file:" +:+ nls +:+ ignition +:+ nls +:+ "parse error is").

Definition CheckAPIConnectivity (checkAPIRequestStr : string) : Go (string * string * Z) :=
  match unmarshal_request checkAPIRequestStr with
  | Bad err =>
      mret (createResponse unknown_url false ""
              ("internal error - failed to deserialize service request: " +:+ err_msg err),
            ignitionDownloadErrorStderr, (-1)%Z)
  | Good r =>
      match av_URL r with
      | None =>
          mret (createResponse unknown_url false "" "internal error - service request is missing URL",
                ignitionDownloadErrorStderr, (-1)%Z)
      | Some url =>
          ignition ← downloadIgnition url r;
          match ignition with
          | Bad err =>
              mret (createResponse url false "" (err_msg (wrap err "ignition file download failed")),
                    ignitionDownloadErrorStderr, 0%Z)
          | Good ignition =>
              match parse_ignition ignition with
              | Bad err =>
                  mret (createResponse url false "" (err_msg (not_ignition err ignition)),
                        ignitionDownloadErrorStderr, 0%Z)
              | Good config =>
                  match marshal_ignition (filterIgnition config) with
                  | Bad err =>
                      mret (createResponse url false ""
                              (err_msg (wrap err "internal error - failed to re-serialize filtered ignition config")),
                            ignitionDownloadErrorStderr, 0%Z)
                  | Good configBytes => mret (createResponse url true configBytes "", "", 0%Z)
                  end
              end
          end
      end
  end.

(** ** Facts *)
Definition kept_paths : list string := [coredns_path; keepalived_path; kubeconfig_path].

(** The filtered config has no units, the disk encryption of the original,
    and of its files exactly the first at each of the three paths the service
    looks at, in that order; everything else is that of the clone. *)
Theorem filterIgnition_keeps original :
  filterIgnition original =
    mkConfig (omap (getIgnitionFile original) kept_paths) (Luks original) [] (c_rest (clone original)).
Proof.
  unfold filterIgnition, copyIgnitionManagedNetworkIndications, copyIgnitionFile,
    copyIgnitionDiskEncryptionInformation, kept_paths. simpl.
  destruct (getIgnitionFile original coredns_path), (getIgnitionFile original keepalived_path),
    (getIgnitionFile original kubeconfig_path); done.
Qed.

(** *** The answer *)
(** The request and its URL, when the check can start. *)
Definition requested (req : string) : option (apivip_request * string) :=
  match unmarshal_request req with
  | Good r => url ← av_URL r; Some (r, url)
  | Bad _ => None
  end.

(** The URL of the request is fetched, and nothing else is done. *)
Definition gets_url (req : string) (rq : request) : Prop :=
  ∃ r url, requested req = Some (r, url) ∧ rq = RNet "GET" [url].

(** The server gave this body, trusted as the request says and asked with its headers. *)
Definition served (r : apivip_request) (url body : string) : Prop :=
  ∃ l roots headers res, trusted_roots r = inl roots ∧ request_headers r = Some headers ∧
    e_http l roots "GET" url headers = Good res ∧ BodyError res = None ∧ status_2xx (StatusCode res) ∧
    Body res = body ∧ body ≠ "".

Lemma request_headers_some r : Forall is_Some (RequestHeaders r) → is_Some (request_headers r).
Proof.
  intros H. unfold request_headers.
  set (h := match IgnitionEndpointToken r with Some token => _ | None => {[_ := _]} end).
  clearbody h. revert H h.
  induction (RequestHeaders r) as [|hdr hdrs IH]; intros H h; [eauto|].
  apply Forall_cons in H as [[[key value] ->] H']. apply (IH H').
Qed.

Lemma check_answer_good res js :
  check_answer res = Good js →
  BodyError res = None ∧ status_2xx (StatusCode res) ∧ Body res ≠ "" ∧ raw_json (Body res) = Good js.
Proof.
  unfold check_answer, status_2xx. destruct (BodyError res).
  { by destruct (negb _). }
  destruct (_ || _) eqn:Es; [done|]. apply orb_false_iff in Es as [H1 H2].
  destruct (Nat.eqb_spec (String.length (Body res)) 0) as [|Hl]; [done|].
  intros Hjs. split_and!; [done|lia|lia|by intros E; rewrite E in Hl|].
  destruct (raw_json (Body res)); [done|]. by destruct (Nat.ltb _ _).
Qed.

Lemma spec_downloadIgnition req r url :
  requested req = Some (r, url) → Forall is_Some (RequestHeaders r) →
  spec (gets_url req) no_change
    (λ ignition, ∀ js, ignition = Good js → ∃ body, served r url body ∧ raw_json body = Good js)
    (downloadIgnition url r).
Proof.
  intros Hreq Hh. unfold downloadIgnition. destruct (trusted_roots r) as [roots|err] eqn:Er; [|by apply spec_ret].
  destruct (e_new_request "GET" url); [by apply spec_ret|].
  destruct (request_headers_some r Hh) as [headers Eh]. rewrite Eh.
  eapply (spec_bind _ _ (λ h, h = headers)); [by apply spec_ret|]. intros ? ->.
  eapply (spec_bind _ _ (λ res, ∃ l, e_http l roots "GET" url headers = res)).
  { apply spec_ask; [by exists r, url|eauto]. }
  intros [res|err] [l Hl]; apply spec_ret; [|done].
  intros js (Hb & Hs & Hne & Hjs)%check_answer_good. exists (Body res). split; [|done].
  exists l, roots, headers, res. by split_and!.
Qed.

(** One request at most, on every path *)
Lemma one_fetch req : at_most 1 (λ _, true) (CheckAPIConnectivity req).
Proof.
  assert (H0 : ∀ A (a : A), at_most 0 (λ _ : request, true) (mret a : Go A)) by done.
  assert (Hd : ∀ url r, at_most 1 (λ _, true) (downloadIgnition url r)).
  { intros url r. unfold downloadIgnition. destruct (trusted_roots r); [|done].
    destruct (e_new_request _ _); [done|]. apply (at_most_bind 0 1); [by destruct (request_headers r)|].
    intros h. apply (at_most_bind 1 0); [unfold http_do; cbn; done|]. by intros []. }
  unfold CheckAPIConnectivity. destruct (unmarshal_request req) as [r|]; [|done]. destruct (av_URL r) as [url|]; [|done].
  apply (at_most_bind 1 0); [apply Hd|]. intros [js|]; [|done]. destruct (parse_ignition js); [|done].
  by destruct (marshal_ignition _).
Qed.

(** C38. The check always answers a request whose headers are no null pointers (a
    null header panics). A request that does not decode or has no URL is
    refused with exit code -1 and nothing is fetched. Otherwise the URL is
    fetched, and nothing else is done; on no path is more than one request made;
    the exit code is 0, and the error output is empty exactly in case of success.
    A success is reported only when the server, asked with the headers of the
    request, gave a non-empty 2xx answer that is an ignition file, and it carries
    this file filtered; a failure carries an explanation. *)
Theorem CheckAPIConnectivity_reports req :
  (∀ r, unmarshal_request req = Good r → Forall is_Some (RequestHeaders r)) →
  at_most 1 (λ _, true) (CheckAPIConnectivity req) ∧
  spec (gets_url req) no_change
    (λ '(stdout, stderr, exitCode),
       match requested req with
       | None => exitCode = (-1)%Z ∧ stderr = ignitionDownloadErrorStderr ∧
                 ∃ msg, stdout = createResponse unknown_url false "" msg
       | Some (r, url) =>
           exitCode = 0%Z ∧
           ((stderr = "" ∧ ∃ body js config b, served r url body ∧ raw_json body = Good js ∧
                           parse_ignition js = Good config ∧ marshal_ignition (filterIgnition config) = Good b ∧
                           stdout = createResponse url true b "") ∨
            (stderr = ignitionDownloadErrorStderr ∧ ∃ msg, msg ≠ "" ∧ stdout = createResponse url false "" msg))
       end)
    (CheckAPIConnectivity req).
Proof.
  intros Hh. split; [apply one_fetch|]. unfold CheckAPIConnectivity.
  pose proof (spec_downloadIgnition req) as Hd. unfold requested in *.
  destruct (unmarshal_request req) as [r|err]; [|apply spec_ret; eauto].
  destruct (av_URL r) as [url|]; [|apply spec_ret; cbn; eauto].
  cbn [mbind option_bind] in *.
  assert (Hne : ∀ e m, m ≠ "" → err_msg (wrap e m) ≠ "").
  { intros e m. unfold wrap; simpl. by destruct m. }
  eapply spec_bind; [apply (Hd r url); eauto|].
  intros [ignition|err] H.
  2: { apply spec_ret. split; [done|]. right. split; [done|]. eexists. split; [|reflexivity]. by apply Hne. }
  destruct (H _ eq_refl) as (body & Hs & Hjs). clear Hd H.
  destruct (parse_ignition ignition) as [config|err] eqn:Ep.
  2: { apply spec_ret. split; [done|]. right. split; [done|]. eexists. split; [|reflexivity].
       unfold not_ignition. destruct (Nat.ltb _ _); by apply Hne. }
  destruct (marshal_ignition _) as [b|err] eqn:E; apply spec_ret; (split; [done|]).
  - left. split; [done|]. by exists body, ignition, config, b.
  - right. split; [done|]. eexists. split; [|reflexivity]. by apply Hne.
Qed.
End ApiVip.

Section ApiVipWitness.
Definition demo_http : Http := {|
  e_http := λ _ _ _ _ _, Good (mkResponse 200 2 "{}" None); e_stopped := λ _ _ _, None; e_new_request := λ _ _, None |}.
Definition demo_req : apivip_request := mkApiVipRequest (Some "http://a") None (Some "tok") [Some ("key", "value")].

Lemma CheckAPIConnectivity_reports_witness :
  let check := @CheckAPIConnectivity demo_http (λ _, Good demo_req) (λ _, Good "r") (λ s, Good s) (λ s, Good s)
       (λ _, true) (λ _, Good (mkConfig [] [] [] "")) (λ _, Good "c") (λ c, c) "req" in
  at_most 1 (λ _, true) check ∧ ∃ P Q, spec P no_change Q check.
Proof.
  intros check. edestruct (@CheckAPIConnectivity_reports demo_http (λ _, Good demo_req) (λ _, Good "r") (λ s, Good s)
    (λ s, Good s) (λ _, true) (λ _, Good (mkConfig [] [] [] "")) (λ _, Good "c") (λ c, c) "req") as [H1 H2].
  - intros r [= <-]. repeat constructor. eauto.
  - split; [exact H1|]. do 2 eexists. exact H2.
Defined.
End ApiVipWitness.
