(* ===== verification/Ntp.v ===== *)
(** * NTP synchronization (src/ntp_synchronizer)

    The NTP sources of the request are added to chrony unless they are
    configured already, and the sources of chrony are reported by name. *)
From S2P Require Import Prelude GoStrings Host.

(** models.SourceState, models.NtpSource *)
Inductive source_state : Type :=
  | Synced | Combined | NotCombined | Unreachable | SourceError | Variable_.
#[export] Instance source_state_eq_dec : EqDecision source_state.
Proof. solve_decision. Defined.
Record ntp_source : Type := mkNtpSource { SourceName : string; SourceState : source_state }.

Definition ChronyTimeoutSeconds : Z := 30.

Definition convertSourceState (val : ascii) : source_state :=
  if Ascii.eqb val "*" then Synced else
  if Ascii.eqb val "+" then Combined else
  if Ascii.eqb val "-" then NotCombined else
  if Ascii.eqb val "?" then Unreachable else
  if Ascii.eqb val "x" then SourceError else
  if Ascii.eqb val "~" then Variable_ else SourceError.

(** One line of "chronyc sources": [None] is an index out of range (a server
    line with one field, or whose first field is one character long). *)
Definition format_line (line : string) : option (list ntp_source) :=
  match Fields line with
  | String "^" status :: fields =>
      match fields, status with
      | name :: _, String state _ => Some [mkNtpSource name (convertSourceState state)]
      | _, _ => None
      end
  | _ => Some []
  end.

Fixpoint format_lines (lines : list string) : option (list ntp_source) :=
  match lines with
  | [] => Some []
  | line :: lines' => s ← format_line line; rest ← format_lines lines'; Some (s ++ rest)
  end.

Definition formatChronySourcesOutput (output : string) : option (list ntp_source) :=
  format_lines (Split output nl).

Section Ntp.
Context {env : Env}.
(** net.LookupHost, net.LookupAddr, encoding/json (the request is its source) *)
Variable lookup_host : log → string → result (list string).
Variable lookup_addr : log → string → result (list string).
Variable unmarshal_request : string → result (option string).
Variable marshal_response : list ntp_source → result string.

Definition LookupHost (h : string) : Go (result (list string)) := ask (RNet "LookupHost" [h]) (λ l, lookup_host l h).
Definition LookupAddr (a : string) : Go (result (list string)) := ask (RNet "LookupAddr" [a]) (λ l, lookup_addr l a).

Definition chrony_error (exitCode : Z) (stdout stderr : string) : error :=
  errorf ("chronyc exited with non-zero exit code " +:+ Itoa exitCode +:+ ": " +:+ stdout +:+ nls +:+ stderr).

Definition addServer (ntpSource : string) : Go (option error) :=
  '(stdout, stderr, exitCode) ← ExecutePrivileged "chronyc" ["add"; "server"; ntpSource; "iburst"];
  mret (if (exitCode =? 0)%Z then None else Some (chrony_error exitCode stdout stderr)).

Definition getNTPSources : Go (result (list ntp_source)) :=
  '(stdout, stderr, exitCode) ←
    ExecutePrivileged "timeout" [Itoa ChronyTimeoutSeconds; "chronyc"; "-n"; "sources"];
  if (exitCode =? 0)%Z then
    sources ← or_panic (formatChronySourcesOutput stdout); mret (Good sources)
  else if (exitCode =? TimeoutExitCode)%Z
  then mret (Bad (errorf ("chronyc was timed out after " +:+ Itoa ChronyTimeoutSeconds +:+ " seconds")))
  else mret (Bad (chrony_error exitCode stdout stderr)).

Definition isServerConfigured (server : string) : Go (bool * option error) :=
  r ← getNTPSources;
  match r with
  | Bad err => mret (false, Some (wrap err "Failed to get NTP sources"))
  | Good sources =>
      if existsb (λ s, String.eqb server (SourceName s)) sources then mret (true, None) else
      names ← LookupHost server;
      match names with
      | Bad err => mret (false, Some (wrap err ("Failed to lookup server " +:+ server)))
      | Good names => mret (existsb (λ s, bool_decide (SourceName s ∈ names)) sources, None)
      end
  end.

Definition handleNewNtpSources (commaSeparatedNTPSources : string) : Go () :=
  foldP (λ _ ntpSource,
           '(configured, _) ← isServerConfigured ntpSource;
           if negb configured then _ ← addServer ntpSource; mret () else mret ())
        (Split commaSeparatedNTPSources ",") ().

(** The reverse lookup of one source. *)
Definition resolve_source (source : ntp_source) : Go ntp_source :=
  names ← LookupAddr (SourceName source);
  match names with
  | Bad _ => mret source
  | Good [] => mret source
  | Good (name :: _) => mret (mkNtpSource (TrimChar name ".") (SourceState source))
  end.

Definition Run (requestStr : string) : Go (string * string * Z) :=
  match unmarshal_request requestStr with
  | Bad err => mret ("", err_msg err, (-1)%Z)
  | Good NtpSource =>
      _ ← (match NtpSource with
           | Some src => if negb (String.eqb src "") then handleNewNtpSources src else mret ()
           | None => mret ()
           end);
      r ← getNTPSources;
      match r with
      | Bad err => mret ("", err_msg err, (-1)%Z)
      | Good sources =>
          sources ← mapP resolve_source sources;
          match marshal_response sources with
          | Bad err => mret ("", err_msg err, (-1)%Z)
          | Good b => mret (b, "", 0%Z)
          end
      end
  end.

(** ** Facts *)
(** A line of "chronyc -n sources" as chrony prints it: the mode and state
    characters together, then the address and more fields. *)
Definition well_formed (line : string) : Prop :=
  match Fields line with
  | String "^" status :: fields => status ≠ "" ∧ fields ≠ []
  | _ => True
  end.

Lemma format_line_ok line : well_formed line → is_Some (format_line line).
Proof.
  unfold well_formed, format_line. destruct (Fields line) as [|w ws]; [eauto|].
  destruct w as [|c status]; [eauto|].
  destruct (Ascii.eqb_spec c "^"); subst; [|by destruct c as [[] [] [] [] [] [] [] []]; eauto].
  intros [H1 H2]. destruct ws; [done|]. destruct status; [done|]. eauto.
Qed.

Lemma format_lines_ok lines : Forall well_formed lines → is_Some (format_lines lines).
Proof.
  induction 1 as [|line lines H _ [s IH]]; simpl; [eauto|].
  destruct (format_line_ok line H) as [s' ->]. rewrite IH. simpl. eauto.
Qed.

Definition chrony_request (r : request) : Prop :=
  (∃ s, r = privileged "chronyc" ["add"; "server"; s; "iburst"]) ∨
  r = privileged "timeout" [Itoa ChronyTimeoutSeconds; "chronyc"; "-n"; "sources"] ∨
  ∃ op a, r = RNet op [a].

(** chrony prints well-formed source tables. *)
Definition chrony_prints : Prop := ∀ l stdout stderr,
  e_run l "nsenter" ["--target"; "1"; "--cgroup"; "--mount"; "--ipc"; "--net"; "--"; "timeout";
                     Itoa ChronyTimeoutSeconds; "chronyc"; "-n"; "sources"] = (stdout, stderr, None) →
  Forall well_formed (Split stdout nl).
Definition exit_zero_only_nil : Prop := ∀ l c a, ∀ m, (e_run l c a).2 ≠ Some (Err (KExit 0) m).

Section Total.
Hypothesis prints : chrony_prints.
Hypothesis exits : exit_zero_only_nil.

Lemma returns_getNTPSources : returns chrony_request no_change getNTPSources.
Proof.
  unfold getNTPSources, ExecutePrivileged, buildPrivilegedCommand, Execute.
  eapply (spec_bind _ _ (λ '(o, _, c), c = 0%Z → Forall well_formed (Split o nl))).
  - eapply (spec_bind _ _ (λ '(o, _, err), getExitCode err = 0%Z → Forall well_formed (Split o nl))).
    + apply spec_ask; [right; by left|]. intros l.
      destruct (e_run l _ _) as [[o e] err] eqn:E. intros [->|[m ->]]%getExitCode_0.
      * by eapply prints.
      * exfalso. eapply (exits l). by rewrite E.
    + intros [[o e] err] H. by apply spec_ret.
  - intros [[o e] c] H. destruct (c =? 0)%Z eqn:Ec.
    + apply Z.eqb_eq in Ec. apply returns_bind; [|intros; by apply spec_ret].
      apply returns_or_panic, format_lines_ok. auto.
    + destruct (c =? TimeoutExitCode)%Z; by apply spec_ret.
Qed.

Lemma returns_isServerConfigured s : returns chrony_request no_change (isServerConfigured s).
Proof.
  unfold isServerConfigured. apply returns_bind; [apply returns_getNTPSources|]. intros [sources|e]; [|by apply spec_ret].
  destruct (existsb _ _); [by apply spec_ret|]. apply returns_bind; [|intros []; by apply spec_ret].
  apply spec_ask; [right; right; eauto|done].
Qed.

Lemma returns_addServer s : returns chrony_request no_change (addServer s).
Proof.
  unfold addServer. apply returns_bind; [apply spec_ExecutePrivileged; left; eauto|].
  intros [[o e] c]. by apply spec_ret.
Qed.

(** On a host whose chrony prints well-formed tables, the step always
    returns, whatever the request and the answers of DNS: it runs only
    "chronyc add server" and "chronyc -n sources" and looks names up. *)
Theorem ntp_returns requestStr : returns chrony_request no_change (Run requestStr).
Proof.
  unfold Run. destruct (unmarshal_request requestStr) as [src|err]; [|by apply spec_ret].
  apply returns_bind.
  { destruct src as [src|]; [|by apply spec_ret]. destruct (negb _); [|by apply spec_ret].
    unfold handleNewNtpSources. apply returns_foldP. intros _ s.
    apply returns_bind; [apply returns_isServerConfigured|]. intros [[] err]; cbn [negb]; [by apply spec_ret|].
    apply returns_bind; [apply returns_addServer|]. intros. by apply spec_ret. }
  intros _. apply returns_bind; [apply returns_getNTPSources|]. intros [sources|err]; [|by apply spec_ret].
  apply returns_bind.
  { apply returns_mapP. intros s. unfold resolve_source, LookupAddr. apply returns_bind.
    - apply spec_ask; [right; right; eauto|done].
    - intros [[|]|]; by apply spec_ret. }
  intros out. destruct (marshal_response out); by apply spec_ret.
Qed.

(** The report of a source table keeps its order and its states: only the
    names are replaced, by the name of a reverse lookup without outer dots. *)
Theorem ntp_report_keeps_sources sources :
  spec chrony_request no_change (Forall2 (λ s s', SourceState s' = SourceState s) sources)
    (mapP resolve_source sources).
Proof.
  apply spec_mapP. intros s _. unfold resolve_source, LookupAddr.
  eapply (spec_bind _ _ (λ _, True)); [apply spec_ask; [right; right; eauto|done]|].
  intros [[|]|] _; by apply spec_ret.
Qed.

(** *** Which sources are added *)
Definition table_request : request := privileged "timeout" [Itoa ChronyTimeoutSeconds; "chronyc"; "-n"; "sources"].
Definition add_request (src : string) : request := privileged "chronyc" ["add"; "server"; src; "iburst"].

(** The sources of chrony, if it prints them. *)
Definition chrony_table (l : log) : option (list ntp_source) :=
  let '(stdout, _, err) := e_run l "nsenter" ["--target"; "1"; "--cgroup"; "--mount"; "--ipc"; "--net"; "--"; "timeout";
                                              Itoa ChronyTimeoutSeconds; "chronyc"; "-n"; "sources"] in
  if (getExitCode err =? 0)%Z then formatChronySourcesOutput stdout else None.

(** A source of chrony has the name of the server, or an address of it. *)
Definition configured (l : log) (src : string) : Prop :=
  ∃ sources source, chrony_table l = Some sources ∧ source ∈ sources ∧
    (SourceName source = src ∨
     ∃ names, lookup_host (l ++ [table_request]) src = Good names ∧ SourceName source ∈ names).

(** The requests made for one source. *)
Definition handled (l : log) (src : string) (t : log) : Prop :=
  ∃ known lookup, t = table_request :: lookup ++ (if known : bool then [] else [add_request src]) ∧
    (lookup = [] ∨ lookup = [RNet "LookupHost" [src]]) ∧ (known = true ↔ configured l src).
Inductive handled_in_turn (l : log) : list string → list log → Prop :=
  | handled_nil : handled_in_turn l [] []
  | handled_cons src srcs t ts :
      handled l src t → handled_in_turn (l ++ t) srcs ts → handled_in_turn l (src :: srcs) (t :: ts).

Lemma run_getNTPSources l s :
  ∃ r, run getNTPSources l s = (Done r, l ++ [table_request], s) ∧
       chrony_table l = match r with Good sources => Some sources | Bad _ => None end.
Proof.
  unfold getNTPSources, chrony_table, ExecutePrivileged, buildPrivilegedCommand, Execute.
  rewrite !run_bind. cbn -[Itoa formatChronySourcesOutput Z.eqb getExitCode].
  destruct (e_run l _ _) as [[o e] err] eqn:E. cbn -[Itoa formatChronySourcesOutput Z.eqb getExitCode].
  destruct (Z.eqb_spec (getExitCode err) 0) as [H|H].
  - assert (is_Some (formatChronySourcesOutput o)) as [sources ->].
    { apply format_lines_ok. apply getExitCode_0 in H as [->|[m ->]]; [by eapply prints|].
      exfalso. eapply (exits l). by rewrite E. }
    by exists (Good sources).
  - destruct (Z.eqb _ _); by eexists (Bad _).
Qed.

Lemma run_isServerConfigured src l s :
  ∃ known err lookup, run (isServerConfigured src) l s = (Done (known, err), l ++ table_request :: lookup, s) ∧
    (lookup = [] ∨ lookup = [RNet "LookupHost" [src]]) ∧ (known = true ↔ configured l src).
Proof.
  unfold isServerConfigured, configured. rewrite run_bind.
  destruct (run_getNTPSources l s) as ([sources|e] & -> & ->).
  2: { eexists _, _, []. split_and!; [reflexivity|by left|]. split; [done|by intros (? & ? & ? & _)]. }
  destruct (existsb _ sources) eqn:Ex.
  { eexists _, _, []. split_and!; [reflexivity|by left|]. split; [intros _|done].
    apply existsb_exists in Ex as (source & Hin%list_elem_of_In & ->%String.eqb_eq). eauto 10. }
  assert (Hne : ∀ source, source ∈ sources → SourceName source ≠ src).
  { intros source Hin <-. apply not_true_iff_false in Ex. apply Ex, existsb_exists.
    exists source. split; [by apply list_elem_of_In|apply String.eqb_refl]. }
  rewrite run_bind. unfold LookupHost. cbn [run ask].
  destruct (lookup_host (l ++ [table_request]) src) as [names|e].
  - eexists _, _, [_]. rewrite <-(assoc_L (++)). split_and!; [reflexivity|by right|].
    rewrite existsb_exists. split.
    + intros (source & Hin%list_elem_of_In & Hn%bool_decide_eq_true). eauto 10.
    + intros (? & source & [= <-] & Hin & [H|(? & [= <-] & Hn)]); [by destruct (Hne _ Hin)|].
      exists source. split; [by apply list_elem_of_In|by apply bool_decide_eq_true].
  - eexists _, _, [_]. rewrite <-(assoc_L (++)). split_and!; [reflexivity|by right|].
    split; [done|]. intros (? & source & [= <-] & Hin & [H|(? & ? & _)]); [by destruct (Hne _ Hin)|done].
Qed.

(** C37. The sources of a request are handled in turn: for each one chrony's table
    is asked for, and the source is added, once, exactly when no source of chrony
    has its name or one of its addresses; a failure of one does not keep the
    others from being handled. *)
Theorem new_sources_are_added csv l s :
  ∃ ts, run (handleNewNtpSources csv) l s = (Done (), l ++ concat ts, s) ∧
        handled_in_turn l (Split csv ",") ts.
Proof.
  unfold handleNewNtpSources. revert l. induction (Split csv ",") as [|src srcs IH]; intros l.
  { exists []. rewrite app_nil_r. split; [done|constructor]. }
  cbn [foldP]. rewrite !run_bind.
  destruct (run_isServerConfigured src l s) as (known & err & lookup & -> & Hl & Hk).
  set (t := table_request :: lookup ++ (if known then [] else [add_request src])).
  destruct (IH (l ++ t)) as (ts & Hrun & Hts). exists (t :: ts). split.
  - change (concat (t :: ts)) with (t ++ concat ts). rewrite <-(assoc_L (++)) in Hrun. rewrite <-Hrun. unfold t. destruct known; cbn [negb].
    + by rewrite app_nil_r.
    + unfold addServer, ExecutePrivileged, buildPrivilegedCommand, Execute. rewrite !run_bind. cbn [run ask].
      destruct (e_run _ _ _) as [[? ?] ?]. cbn [run mret proc_ret]. by rewrite <-(assoc_L (++)).
  - constructor; [|done]. by exists known, lookup.
Qed.
End Total.

(** A server that chrony reports as a source is not added again. *)
Theorem configured_source_not_added src l s stdout stderr sources source :
  e_run l "nsenter" ["--target"; "1"; "--cgroup"; "--mount"; "--ipc"; "--net"; "--"; "timeout";
                     Itoa ChronyTimeoutSeconds; "chronyc"; "-n"; "sources"] = (stdout, stderr, None) →
  formatChronySourcesOutput stdout = Some sources → source ∈ sources → SourceName source = src →
  all_chars (λ c, negb (Ascii.eqb c ",")) src = true →
  run (handleNewNtpSources src) l s =
    (Done (), l ++ [privileged "timeout" [Itoa ChronyTimeoutSeconds; "chronyc"; "-n"; "sources"]], s).
Proof.
  intros E Hf Hin Hn Hc. unfold handleNewNtpSources. rewrite Split_nosep by done. cbn [foldP].
  rewrite run_bind. unfold isServerConfigured, getNTPSources, ExecutePrivileged, Execute.
  rewrite !run_bind. cbn -[Itoa formatChronySourcesOutput]. rewrite E. cbn -[Itoa formatChronySourcesOutput existsb].
  rewrite Hf. cbn -[Itoa existsb].
  replace (existsb _ sources) with true; [done|]. symmetry. apply existsb_exists.
  exists source. split; [by apply list_elem_of_In|]. rewrite Hn. apply String.eqb_refl.
Qed.
End Ntp.

(** ** Witnesses *)
Section NtpWitness.
Definition demo_table : string :=
  "MS Name/IP address" +:+ nls +:+ "===" +:+ nls +:+ "^* 10.0.0.1 2 6" +:+ nls +:+ "^? 10.0.0.2 2 6" +:+ nls.
Definition ntp_env : Env := cmd_host (λ _ _ _, (demo_table, "", None)).

Lemma demo_prints : @chrony_prints ntp_env.
Proof.
  intros l o e [= <- <-]. apply Forall_forall. intros line Hl.
  assert (H : forallb (λ line, match format_line line with Some _ => true | None => false end)
                (Split demo_table nl) = true) by reflexivity.
  rewrite forallb_forall in H. apply list_elem_of_In, H in Hl. unfold format_line in Hl. unfold well_formed.
  destruct (Fields line) as [|[|c w] ws]; [done..|].
  destruct c as [[] [] [] [] [] [] [] []]; try done. by destruct ws, w.
Qed.

Lemma demo_exits : @exit_zero_only_nil ntp_env.
Proof. done. Qed.

Lemma ntp_returns_witness :
  returns chrony_request no_change
    (@Run ntp_env (λ _ _, Bad enoent) (λ _ _, Good ["a."]) (λ _, Good (Some "10.0.0.9")) (λ _, Good "out") "req").
Proof. apply (@ntp_returns ntp_env _ _ _ _ demo_prints demo_exits). Defined.

Lemma new_sources_are_added_witness :
  ∃ ts, run (@handleNewNtpSources ntp_env (λ _ _, Bad enoent) "10.0.0.1,10.0.0.9") [] shared_init =
          (Done (), concat ts, shared_init) ∧
        @handled_in_turn ntp_env (λ _ _, Bad enoent) [] ["10.0.0.1"; "10.0.0.9"] ts.
Proof.
  exact (@new_sources_are_added ntp_env (λ _ _, Bad enoent) demo_prints demo_exits "10.0.0.1,10.0.0.9" [] shared_init).
Defined.

Lemma configured_source_not_added_witness :
  ∃ l, run (@handleNewNtpSources ntp_env (λ _ _, Bad enoent) "10.0.0.1") [] shared_init = (Done (), l, shared_init).
Proof.
  eexists. apply (@configured_source_not_added ntp_env (λ _ _, Bad enoent) "10.0.0.1" [] shared_init demo_table ""
    [mkNtpSource "10.0.0.1" Synced; mkNtpSource "10.0.0.2" Unreachable] (mkNtpSource "10.0.0.1" Synced));
    [reflexivity|reflexivity|left|reflexivity|reflexivity].
Defined.
End NtpWitness.
