(* ===== verification/Dhcp.v ===== *)
(** * DHCP leases for the virtual IPs (src/dhcp_lease_allocate)

    For each virtual IP a temporary interface with its MAC address is created,
    dhclient leases an address on it, and the interface is deleted. *)
From S2P Require Import Prelude GoStrings Host Paths Regex.

(** models.DhcpAllocationRequest, models.DhcpAllocationResponse *)
Record dhcp_request : Type := mkDhcpRequest {
  Interface : option string; APIVipMac : option string; IngressVipMac : option string;
  rq_APIVipLease : string; rq_IngressVipLease : string
}.
Record dhcp_response : Type := mkDhcpResponse {
  APIVipAddress : string; IngressVipAddress : string; APIVipLease : string; IngressVipLease : string
}.

Definition configPath : string := "/etc/keepalived".
Definition DhclientTimeoutSeconds : Z := 28.


(** The word interface, white space and a quoted name. *)
Definition interface_re : re :=
  seqs [lit "interface"; plus space; chr dq; plus (Chr (none_of dqs)); chr dq].

(** The interface name is "api" or "ingress": it has no dollar sign. *)
Definition formatLeaseFile (leaseFileContents interfaceName : string) : string :=
  ReplaceAllString interface_re leaseFileContents ("interface " +:+ dqs +:+ interfaceName +:+ dqs).

Definition formatHostname (mac suffix : string) : string := ReplaceAll mac ":" "-" +:+ "-" +:+ suffix.

(** The block of a lease at the end of the file, after white space or at the
    start: (?:\A|\s)(lease\s*[{][^}{]*[}])\s*\z *)
Definition last_lease_re : re :=
  seqs [Alt Begin space;
        Cap 1 (seqs [lit "lease"; Star space; chr "{"; Star (Chr (none_of "}{")); chr "}"]);
        Star space; End].

Section Dhcp.
Context {env : Env}.
(** net.ParseMAC: the canonical text of the address; the functions of
    baremetal-runtimecfg and netlink; encoding/json. *)
Variable ParseMAC : string → result string.
Variable GetLeaseFile : string → string → string.
Variable lease_interface : log → string → string → string → result string.
Variable get_last_lease : log → string → result (string * string).
Variable link_by_name : log → string → option error.
Variable link_del : log → string → option error.
Variable unmarshal_request : string → result dhcp_request.
Variable marshal_response : dhcp_response → result string.

Definition deleteInterface (name : string) : Go () :=
  err ← ask (RNet "LinkByName" [name]) (λ l, link_by_name l name);
  match err with
  | Some _ => mret ()
  | None => _ ← ask (RNet "LinkDel" [name]) (λ l, link_del l name); mret ()
  end.

(** The body of LeaseVIP, before its deferred call. *)
Definition lease_vip_body (leaseFile name mac leaseFileContents : string)
    (iface : result string) : Go (option error) :=
  match iface with
  | Bad err => mret (Some err)
  | Good iface =>
      err ← (if negb (String.eqb leaseFileContents "")
             then WriteFile leaseFile (formatLeaseFile leaseFileContents iface) else mret None);
      match err with
      | Some err => mret (Some (wrap err ("Failed to save lease file " +:+ leaseFile)))
      | None =>
          '(_, stderr, exitCode) ←
            Execute "timeout" [Itoa DhclientTimeoutSeconds; "dhclient"; "-v";
                               "-H"; formatHostname mac name; "-sf"; "/bin/true"; "-lf"; leaseFile;
                               "--no-pid"; "-1"; iface];
          mret (if (exitCode =? 0)%Z then None else
                if (exitCode =? TimeoutExitCode)%Z
                then Some (errorf ("dhclient was timed out after " +:+ Itoa DhclientTimeoutSeconds +:+ " seconds"))
                else Some (errorf ("dhclient exited with non-zero exit code " +:+ Itoa exitCode +:+ ": " +:+ stderr)))
      end
  end.

Definition LeaseVIP (leaseFile masterDevice name mac leaseFileContents : string) : Go (option error) :=
  iface ← ask (RNet "LeaseInterface" [masterDevice; name; mac]) (λ l, lease_interface l masterDevice name mac);
  err ← lease_vip_body leaseFile name mac leaseFileContents iface;
  _ ← deleteInterface name;
  mret err.

Definition extractLastLease (leaseFile : string) : Go (result string) :=
  b ← ReadFile leaseFile;
  match b with
  | Bad err => mret (Bad (wrap err "Could not read lease file"))
  | Good b =>
      match FindStringSubmatch 1 last_lease_re b with
      | Some [_; lease] => mret (Good lease)
      | _ => mret (Bad (errorf ("Failed to extract last lease from file " +:+ leaseFile)))
      end
  end.

(** The address and the lease; an interface name that differs from the expected
    one is reported with a nil error. *)
Definition leaseByMac (cfgPath masterDevice name macString leaseFileContents : string)
    : Go (string * string * option error) :=
  match ParseMAC macString with
  | Bad err => mret ("", "", Some err)
  | Good mac =>
      let leaseFile := GetLeaseFile (path_join [cfgPath; name]) name in
      err ← LeaseVIP leaseFile masterDevice name mac leaseFileContents;
      match err with
      | Some err => mret ("", "", Some err)
      | None =>
          last ← ask (RFile "GetLastLeaseFromFile" leaseFile) (λ l, get_last_lease l leaseFile);
          match last with
          | Bad err => mret ("", "", Some err)
          | Good (ifaceName, ip) =>
              if negb (String.eqb ifaceName name) then mret ("", "", None) else
              lastLease ← extractLastLease leaseFile;
              match lastLease with
              | Bad err => mret ("", "", Some err)
              | Good lastLease => mret (ip, lastLease, None)
              end
          end
      end
  end.

Definition LeaseAllocate (leaseAllocateRequestStr : string) : Go (string * string * Z) :=
  match unmarshal_request leaseAllocateRequestStr with
  | Bad err => mret ("", err_msg err, (-1)%Z)
  | Good request =>
      err ← FsOp "MkdirAll" [configPath];
      match err with
      | Some _ => mret ("", "", (-1)%Z)
      | None =>
          iface ← or_panic (Interface request);
          apiMac ← or_panic (APIVipMac request);
          '(apiVip, apiLease, err) ← leaseByMac configPath iface "api" apiMac (rq_APIVipLease request);
          match err with
          | Some err => mret ("", err_msg err, (-1)%Z)
          | None =>
              ingressMac ← or_panic (IngressVipMac request);
              '(ingressVip, ingressLease, err) ←
                leaseByMac configPath iface "ingress" ingressMac (rq_IngressVipLease request);
              match err with
              | Some err => mret ("", err_msg err, (-1)%Z)
              | None =>
                  match marshal_response (mkDhcpResponse apiVip ingressVip apiLease ingressLease) with
                  | Bad err => mret ("", err_msg err, (-1)%Z)
                  | Good b => mret (b, "", 0%Z)
                  end
              end
          end
      end
  end.

(** ** Facts *)
Lemma spec_lease_vip_body leaseFile name mac contents iface :
  returns (λ _, True) no_change (lease_vip_body leaseFile name mac contents iface).
Proof.
  unfold lease_vip_body. destruct iface as [iface|err]; [|by apply spec_ret].
  apply returns_bind; [destruct (negb _); [by apply spec_ask|by apply spec_ret]|].
  intros [err|]; [by apply spec_ret|]. apply returns_bind; [by apply spec_Execute|].
  intros [[o e] c]. by apply spec_ret.
Qed.

(** C30. However leasing a virtual IP goes, the function returns and the last
    thing it does is to look up the temporary interface and, when it exists, to
    delete it. *)
Theorem LeaseVIP_cleans_up leaseFile masterDevice name mac contents l s :
  ∃ err t, run (LeaseVIP leaseFile masterDevice name mac contents) l s = (Done err, l ++ t, s) ∧
    ∃ t', (link_by_name (l ++ t') name = None ∧ t = t' ++ [RNet "LinkByName" [name]; RNet "LinkDel" [name]]) ∨
          (link_by_name (l ++ t') name ≠ None ∧ t = t' ++ [RNet "LinkByName" [name]]).
Proof.
  unfold LeaseVIP. rewrite run_bind. cbn [run ask].
  set (req := RNet "LeaseInterface" [masterDevice; name; mac]).
  destruct (spec_run _ _ _ _ (l ++ [req]) s
              (spec_lease_vip_body leaseFile name mac contents (lease_interface l masterDevice name mac)))
    as (err & t & s' & E & _ & _ & Hs).
  assert (s' = s) as ->.
  { clear E. induction Hs as [|a b c Hab _ IH]; [done|]. unfold no_change in Hab. by subst. }
  rewrite run_bind, E. unfold deleteInterface. rewrite !run_bind. cbn [run ask].
  rewrite <-!(assoc_L (++)). destruct (link_by_name (l ++ [req] ++ t) name) as [e|] eqn:El; cbn [run ask fst snd].
  - exists err, ([req] ++ t ++ [RNet "LinkByName" [name]]). split; [done|].
    exists ([req] ++ t). right. split; [by rewrite El|by rewrite <-!(assoc_L (++))].
  - exists err, ([req] ++ t ++ [RNet "LinkByName" [name]; RNet "LinkDel" [name]]). split.
    { rewrite run_bind. cbn [run ask]. by rewrite <-!(assoc_L (++)). }
    exists ([req] ++ t). left. split; [done|by rewrite <-!(assoc_L (++))].
Qed.

(** A lease file whose last lease belongs to another interface is not an
    error: leaseByMac returns an empty address, an empty lease and no error. *)
Theorem other_interface_is_no_error cfgPath master name macString mac contents l s t iface ip :
  ParseMAC macString = Good mac →
  let leaseFile := GetLeaseFile (path_join [cfgPath; name]) name in
  run (LeaseVIP leaseFile master name mac contents) l s = (Done None, l ++ t, s) →
  get_last_lease (l ++ t) leaseFile = Good (iface, ip) → iface ≠ name →
  run (leaseByMac cfgPath master name macString contents) l s =
    (Done ("", "", None), l ++ t ++ [RFile "GetLastLeaseFromFile" leaseFile], s).
Proof.
  intros Hm leaseFile HL Hlast Hne. unfold leaseByMac. rewrite Hm. fold leaseFile.
  rewrite run_bind, HL. cbn [run]. rewrite run_bind. cbn [run ask]. rewrite Hlast.
  apply String.eqb_neq in Hne. rewrite Hne. cbn. by rewrite <-(assoc_L (++)).
Qed.
End Dhcp.

(** ** The lease file *)
Example formatLeaseFile_1 :
  formatLeaseFile ("lease {" +:+ nls +:+ "  interface  " +:+ dqs +:+ "old" +:+ dqs +:+ ";" +:+ nls +:+ "}") "api" =
  "lease {" +:+ nls +:+ "  interface " +:+ dqs +:+ "api" +:+ dqs +:+ ";" +:+ nls +:+ "}".
Proof. vm_compute. reflexivity. Qed.
Example last_lease_1 :
  FindStringSubmatch 1 last_lease_re ("lease { a; } lease { b; }" +:+ nls) =
  Some [" lease { b; }" +:+ nls; "lease { b; }"].
Proof. vm_compute. reflexivity. Qed.

Section DhcpWitness.
Definition dhcp_env : Env := cmd_host (λ _ _ _, ("", "", None)).

Lemma other_interface_is_no_error_witness :
  ∃ l, run (@leaseByMac dhcp_env (λ m, Good m) (λ d _, d) (λ _ _ n _, Good n) (λ _ _, Good ("ingress", "10.0.0.1"))
              (λ _ _, None) (λ _ _, None) "/c" "eth0" "api" "aa:bb" "") [] shared_init =
       (Done ("", "", None), l, shared_init).
Proof.
  eexists. eapply (@other_interface_is_no_error dhcp_env (λ m, Good m) (λ d _, d) (λ _ _ n _, Good n)
    (λ _ _, Good ("ingress", "10.0.0.1")) (λ _ _, None) (λ _ _, None)); reflexivity || discriminate.
Defined.
End DhcpWitness.
