(* ===== verification/DiskSpeed.v ===== *)
(** * Disk speed check (src/disk_speed_check)

    fio is run twice at the same time on the disk; the worst latency of the
    99th percentile of fdatasync is reported, in milliseconds. *)
From S2P Require Import Prelude GoStrings Host Config.

Definition dryModeSyncDurationInNS : Z := 1000000.
Definition numOfFioJobs : nat := 2.

Record fioCheckResponse : Type := mkFio { latency : Z; fio_err : option error }.

(** Duration.Milliseconds *)
Definition Milliseconds (ns : Z) : Z := Z.quot ns 1000000.

(** The loop over the channel: the worst latency and the last error. *)
Definition fio_step (acc : Z * string) (res : fioCheckResponse) : Z * string :=
  let '(maxLatency, errMsg) := acc in
  match fio_err res with
  | Some err => (maxLatency, err_msg err)
  | None => (if (latency res >? maxLatency)%Z then latency res else maxLatency, errMsg)
  end.
Definition worst_latency (rs : list fioCheckResponse) : Z * string := fold_left fio_step rs ((-1)%Z, "").

Section DiskSpeed.
Context {env : Env}.
(** encoding/json: the path of the request, the percentiles of fio's jobs *)
Variable unmarshal_request : string → result (option string).
Variable unmarshal_fio : string → result (list Z).
Variable marshal_response : Z → string → result string.

Definition createResponse (ioSyncDuration : Z) (path : string) : string :=
  match marshal_response ioSyncDuration path with Bad _ => "" | Good b => b end.

Definition fio_args (path : string) : list string :=
  ["--filename"; ReplaceAll path ":" "\:"; "--name=test"; "--rw=write"; "--ioengine=sync";
   "--size=22m"; "-bs=2300"; "--fdatasync=1"; "--output-format=json"].

Definition getDiskPerf (cfg : SubprocessConfig) (path : string) : Go fioCheckResponse :=
  if String.eqb path "" then mret (mkFio (-1) (Some (errorf "Missing disk path"))) else
  if DryRunEnabled (sc_dry cfg) then mret (mkFio (Milliseconds dryModeSyncDurationInNS) None) else
  '(stdout, stderr, exitCode) ← Execute "fio" (fio_args path);
  if negb (exitCode =? 0)%Z
  then mret (mkFio (-1) (Some (errorf ("Could not get I/O performance for path " +:+ path +:+ " (fio exit code: " +:+
                                       Itoa exitCode +:+ ", stderr: " +:+ stderr +:+ ")"))))
  else match unmarshal_fio stdout with
       | Bad err => mret (mkFio (-1) (Some (errorf ("Failed to get sync duration from I/O info for path " +:+
                                                    path +:+ ": " +:+ err_msg err))))
       | Good jobs =>
           syncDurationInNS ← or_panic (jobs !! 0%nat);
           mret (mkFio (Milliseconds syncDurationInNS) None)
       end.

(** After the loop over the channel. *)
Definition fio_answer (path : string) (worst : Z * string) : string * string * Z :=
  let '(maxLatency, errMsg) := worst in
  if (maxLatency =? -1)%Z then (createResponse 0 path, errMsg, (-1)%Z)
  else (createResponse maxLatency path, "", 0%Z).

(** The jobs run at the same time and send their answers to the channel; the
    order in which the answers arrive is that of the scheduler. DiskSpeedRunner.v
    has the goroutines, the wait group and the channel. *)
Definition executeMultipleDiskPerf (cfg : SubprocessConfig) (path : string) (numOfJobs : nat) : Go (list fioCheckResponse) :=
  gather (λ _, getDiskPerf cfg path) (seq 1 numOfJobs).

Definition FioPerfCheck (cfg : SubprocessConfig) (diskSpeedCheckRequestStr : string) : Go (string * string * Z) :=
  match unmarshal_request diskSpeedCheckRequestStr with
  | Bad err => mret ("", err_msg (wrap err "Failed to unmarshal DiskSpeedCheckRequest"), (-1)%Z)
  | Good None => mret ("", "Missing Filename in DiskSpeedCheckRequest", (-1)%Z)
  | Good (Some path) =>
      responses ← executeMultipleDiskPerf cfg path numOfFioJobs;
      mret (fio_answer path (worst_latency responses))
  end.

(** ** Facts *)
(** The latencies of the jobs that worked. *)
Definition good_latencies (rs : list fioCheckResponse) : list Z :=
  omap (λ r, match fio_err r with None => Some (latency r) | Some _ => None end) rs.

Lemma worst_latency_acc rs m e :
  (fold_left fio_step rs (m, e)).1 = fold_right Z.max m (good_latencies rs).
Proof.
  revert m e. induction rs as [|r rs IH]; intros m e; [done|].
  cbn [fold_left good_latencies omap list_omap]. unfold fio_step at 2.
  destruct (fio_err r) as [err|]; simpl.
  - apply IH.
  - rewrite IH. change (omap _ rs) with (good_latencies rs).
    replace (if (latency r >? m)%Z then latency r else m) with (Z.max (latency r) m).
    2: { rewrite Z.gtb_ltb. destruct (Z.ltb_spec m (latency r)); lia. }
    clear. induction (good_latencies rs) as [|x l IH]; simpl; [lia|]. rewrite IH. lia.
Qed.

(** The latency that is reported does not depend on the order in which the
    jobs finish: it is the greatest of the latencies of the jobs that worked,
    and the check fails exactly when there is none above -1. *)
Theorem worst_latency_order rs rs' :
  rs ≡ₚ rs' → (worst_latency rs).1 = (worst_latency rs').1 ∧
              (worst_latency rs).1 = fold_right Z.max (-1)%Z (good_latencies rs).
Proof.
  intros H. unfold worst_latency. rewrite !worst_latency_acc. split; [|done].
  assert (Hp : good_latencies rs ≡ₚ good_latencies rs').
  { unfold good_latencies. by rewrite H. }
  clear H. induction Hp as [|x l l' _ IH|x y l|]; simpl; [done|by rewrite IH|lia|congruence].
Qed.

(** fio only ever writes to the disk of the request, and in dry mode nothing
    is run at all. *)
Theorem fio_only_on_the_disk cfg req path :
  unmarshal_request req = Good (Some path) →
  emits (λ r, r = RSchedule ∨ (DryRunEnabled (sc_dry cfg) = false ∧ r = RExec "fio" (fio_args path))) no_change
    (FioPerfCheck cfg req).
Proof.
  intros Hr. unfold FioPerfCheck. rewrite Hr. apply emits_bind; [|intros; prog_steps].
  unfold executeMultipleDiskPerf. apply emits_gather; [|by left].
  intros _. unfold getDiskPerf.
  destruct (String.eqb path ""); [done|]. destruct (DryRunEnabled (sc_dry cfg)) eqn:E; [done|].
  apply emits_bind; [apply emits_Execute; auto|]. intros [[o e] c]. prog_steps.
Qed.
End DiskSpeed.

Lemma worst_latency_order_witness :
  (worst_latency [mkFio 5 None; mkFio (-1) (Some enoent)]).1 = 5%Z ∧
  (worst_latency [mkFio 5 None; mkFio (-1) (Some enoent)]).1 =
  (worst_latency [mkFio (-1) (Some enoent); mkFio 5 None]).1.
Proof.
  split; [reflexivity|].
  apply (worst_latency_order [mkFio 5 None; mkFio (-1) (Some enoent)]). apply Permutation_swap.
Defined.

Lemma fio_only_on_the_disk_witness :
  ∃ P, emits P no_change
    (@FioPerfCheck null_env (λ _, Good (Some "/dev/sda")) (λ _, Good [7%Z]) (λ _ _, Good "{}")
      (mkSubprocessConfig (mkLoggingConfig false false false) (mkDryRunConfig false "" "" "" "" "")) "req").
Proof. eexists. eapply (@fio_only_on_the_disk null_env). reflexivity. Defined.
