(* ===== verification/Tang.v ===== *)
(** * Tang servers (src/tang_connectivity_check)

    Every Tang server of the request must answer with its advertisement. *)
From S2P Require Import Prelude GoStrings Host Http.

(** tang.TangServer, models.TangServerResponse *)
Record TangServer : Type := mkTangServer { Url : string; Thumbprint : string }.
Record tang_response : Type := mkTangResponse { TangURL : string; Payload : string }.

Definition TangKeysPath : string := "/adv/".

Section Tang.
Context {env : Env} {http : Http}.
(** encoding/json (the request is its TangServers field), UnmarshalTangServers
    of assisted-service, url.ParseRequestURI *)
Variable unmarshal_request : string → result (option string).
Variable UnmarshalTangServers : string → result (list TangServer).
Variable unmarshal_advertisement : string → result string.
Variable parse_request_uri : string → option error.
Variable marshal_response : bool → list tang_response → result string.

Definition createResponse (success : bool) (rs : list tang_response) : string :=
  match marshal_response success rs with Bad _ => "" | Good b => b end.

Definition tang_url (ts : TangServer) : string := Url ts +:+ TangKeysPath +:+ Thumbprint ts.

(** What an answer amounts to. *)
Definition tang_answer (url : string) (res : http_response) : result tang_response :=
  if negb (StatusCode res =? 200)%Z
  then Bad (errorf ("HTTP GET failure. Status Code: " +:+ Itoa (StatusCode res))) else
  match BodyError res with
  | Some err => Bad (wrap err "response read failure")
  | None =>
      if Nat.eqb (String.length (Body res)) 0 then Bad (errorf "Empty tang response") else
      match unmarshal_advertisement (Body res) with
      | Bad err => Bad (wrap err "Error unmarshaling tang response")
      | Good payload => Good (mkTangResponse url payload)
      end
  end.

(** The URL was parsed before, so http.NewRequest gives a request. *)
Definition TangRequest (ts : TangServer) : Go (result tang_response) :=
  let tangURL := tang_url ts in
  match e_new_request "GET" tangURL with
  | Some _ => panic
  | None =>
      res ← http_do None "GET" tangURL ∅;
      match res with
      | Bad err => mret (Bad (wrap err "HTTP GET failure"))
      | Good res => mret (tang_answer tangURL res)
      end
  end.

(** One server: its response or its error. *)
Definition check_server (ts : TangServer) : Go (result tang_response) :=
  match parse_request_uri (Url ts) with
  | Some err => mret (Bad err)
  | None =>
      if String.eqb (Thumbprint ts) ""
      then mret (Bad (errorf ("Tang thumbprint isn't set for server: " +:+ Url ts)))
      else TangRequest ts
  end.

(** The loop: the responses and the accumulated errors. *)
Definition check_servers : list TangServer → list tang_response * list error → Go (list tang_response * list error) :=
  foldP (λ '(responses, errs) ts,
           r ← check_server ts;
           mret (match r with
                 | Bad err => (responses, errs ++ [err])
                 | Good res => (responses ++ [res], errs)
                 end)).

Definition CheckTangConnectivity (tangServersDetails : string) : Go (string * string * Z) :=
  match unmarshal_request tangServersDetails with
  | Bad err =>
      mret (createResponse false [], err_msg (wrap err "Error unmarshaling TangConnectivityRequest"), (-1)%Z)
  | Good None =>
      mret (createResponse false [], "Missing TangServers in checkTangConnectivityRequest", (-1)%Z)
  | Good (Some servers) =>
      match UnmarshalTangServers servers with
      | Bad err => mret (createResponse false [], err_msg err, (-1)%Z)
      | Good tangServers =>
          '(responses, errs) ← check_servers tangServers ([], []);
          match errs with
          | [] => mret (createResponse true responses, "", 0%Z)
          | _ => mret (createResponse false [], multierror_Error errs, (-1)%Z)
          end
      end
  end.

(** ** Facts *)
(** A server whose URL parses gives a request for its advertisement. *)
Definition uris_make_requests : Prop :=
  ∀ ts, parse_request_uri (Url ts) = None → Thumbprint ts ≠ "" → e_new_request "GET" (tang_url ts) = None.
Hypothesis requests : uris_make_requests.

Definition gets (servers : list TangServer) (r : request) : Prop :=
  ∃ ts, ts ∈ servers ∧ r = RNet "GET" [tang_url ts].

Definition good_for (ts : TangServer) (res : tang_response) : Prop := TangURL res = tang_url ts.

Lemma spec_check_server servers ts : ts ∈ servers →
  spec (gets servers) no_change (λ r, match r with Good res => good_for ts res | Bad _ => True end) (check_server ts).
Proof.
  intros Hin. unfold check_server. destruct (parse_request_uri (Url ts)) eqn:Eu; [by apply spec_ret|].
  destruct (String.eqb (Thumbprint ts) "") eqn:Et; [by apply spec_ret|]. apply String.eqb_neq in Et.
  unfold TangRequest. rewrite requests by done.
  eapply (spec_bind _ _ (λ _, True)); [apply spec_ask; [by exists ts|done]|].
  intros [res|err] _; apply spec_ret; [|done]. unfold tang_answer.
  destruct (negb _); [done|]. destruct (BodyError res); [done|]. destruct (Nat.eqb _ _); [done|].
  by destruct (unmarshal_advertisement (Body res)).
Qed.

(** One verdict per server: no error means that every server answered. *)
Definition all_answered (servers : list TangServer) (acc : list tang_response * list error) : Prop :=
  acc.2 = [] → Forall2 good_for servers acc.1.

Lemma spec_check_servers all servers seen acc :
  (∀ ts, ts ∈ servers → ts ∈ all) → all_answered seen acc →
  spec (gets all) no_change (all_answered (seen ++ servers)) (check_servers servers acc).
Proof.
  revert seen acc. induction servers as [|ts servers IH]; intros seen [rs errs] Hin Hacc; cbn.
  { rewrite app_nil_r. done. }
  eapply spec_bind.
  { eapply spec_bind; [apply spec_check_server, Hin; left|]. intros r Hr.
    apply (spec_ret _ _ (all_answered (seen ++ [ts]))). destruct r as [res|err]; intros He; cbn in *.
    - apply Forall2_app; [by apply Hacc|]. by constructor.
    - by apply app_nil in He as [_ He]. }
  intros acc Hacc'. replace (seen ++ ts :: servers) with ((seen ++ [ts]) ++ servers) by (by rewrite <-(assoc_L (++))).
  apply IH; [|done]. intros. apply Hin. by right.
Qed.

(** The check returns; it fetches only the advertisements of the servers of
    the request, and it succeeds (exit code 0) only with one advertisement per
    server, in order, each from the URL of its server. *)
Theorem CheckTangConnectivity_success req servers tangServers :
  unmarshal_request req = Good (Some servers) → UnmarshalTangServers servers = Good tangServers →
  spec (gets tangServers) no_change
    (λ '(stdout, stderr, exitCode),
       (exitCode = 0%Z ∧ stderr = "" ∧
        ∃ responses, Forall2 good_for tangServers responses ∧ stdout = createResponse true responses) ∨
       (exitCode = (-1)%Z ∧ stdout = createResponse false [])) (CheckTangConnectivity req).
Proof.
  intros H1 H2. unfold CheckTangConnectivity. rewrite H1, H2.
  eapply spec_bind; [apply (spec_check_servers tangServers tangServers [] ([], [])); [done|by intros _]|].
  intros [rs errs] Hacc. unfold all_answered in Hacc. simpl in Hacc.
  destruct errs as [|err errs]; apply spec_ret; [left|by right].
  split; [done|]. split; [done|]. exists rs. auto.
Qed.
End Tang.

Section TangWitness.
Definition tang_http : Http := {|
  e_http := λ _ _ _ _ _, Good (mkResponse 200 2 "adv" None); e_stopped := λ _ _ _, None; e_new_request := λ _ _, None |}.

Lemma CheckTangConnectivity_success_witness :
  ∃ Q, spec (gets [mkTangServer "http://t" "th"]) no_change Q
    (@CheckTangConnectivity tang_http (λ _, Good (Some "s")) (λ _, Good [mkTangServer "http://t" "th"])
       (λ b, Good b) (λ _, None) (λ _ _, Good "out") "req").
Proof.
  eexists. eapply (@CheckTangConnectivity_success tang_http); [by intros ts|reflexivity|reflexivity].
Defined.
End TangWitness.
