(* ===== verification/DomainResolution.v ===== *)
(** * Domain resolution (src/domain_resolution) *)
From S2P Require Import Prelude GoStrings Host Net.

(** models.DomainResolutionResponseDomain *)
Record resolution : Type := mkResolution {
  DomainName : string; IPV4Addresses : list string; IPV6Addresses : list string; Cnames : list string
}.

(** A DNS error: whether it says that the name does not exist. *)
Inductive dns_error : Type := NotFound (e : error) | DnsError (e : error).

Section Resolver.
Context {env : Env}.
(** net.LookupIP and net.LookupCNAME: both give a value and an error *)
Variable lookup_ip : log → string → list bytes * option dns_error.
Variable lookup_cname : log → string → string * option dns_error.
(** encoding/json: the domain names of the request, whose elements are pointers *)
Variable unmarshal_request : string → result (list (option (option string))).
Variable marshal_response : list resolution → result string.

Definition not_found_is_nil (err : option dns_error) : option error :=
  match err with None => None | Some (NotFound _) => None | Some (DnsError e) => Some e end.

Definition ResolveIPs (domain : string) : Go (list bytes * option error) :=
  '(ips, err) ← ask (RNet "LookupIP" [domain]) (λ l, lookup_ip l domain);
  mret (ips, not_found_is_nil err).

Definition ResolveCNAME (domain : string) : Go (string * option error) :=
  '(cname, err) ← ask (RNet "LookupCNAME" [domain]) (λ l, lookup_cname l domain);
  mret (match err with None => cname | Some _ => "" end, not_found_is_nil err).

(** The loop over the addresses; an address of another length is ignored. *)
Definition add_address (r : resolution) (ip : bytes) : resolution :=
  match To4 ip with
  | Some _ => mkResolution (DomainName r) (IPV4Addresses r ++ [IP_String ip]) (IPV6Addresses r) (Cnames r)
  | None =>
      if Nat.eqb (length ip) 16
      then mkResolution (DomainName r) (IPV4Addresses r) (IPV6Addresses r ++ [IP_String ip]) (Cnames r)
      else r
  end.

Definition handleDomainResolution (domain : string) : Go resolution :=
  let res := mkResolution domain [] [] [] in
  '(ips, err) ← ResolveIPs domain;
  match err with
  | Some _ => mret res
  | None =>
      let res := fold_left add_address ips res in
      '(cname, err) ← ResolveCNAME domain;
      match err with
      | Some _ => mret res
      | None =>
          mret (if negb (String.eqb cname "")
                then mkResolution (DomainName res) (IPV4Addresses res) (IPV6Addresses res) (Cnames res ++ [cname])
                else res)
      end
  end.

(** The loop over the domains; [None] when one has no name. A null element is a
    nil pointer, and reading its name panics. *)
Fixpoint resolve_all (domains : list (option (option string))) (acc : list resolution) : Go (option (list resolution)) :=
  match domains with
  | [] => mret (Some acc)
  | None :: _ => panic
  | Some None :: _ => mret None
  | Some (Some domain) :: domains' =>
      r ← handleDomainResolution domain;
      resolve_all domains' (acc ++ [r])
  end.

Definition Run (requestStr : string) : Go (string * string * Z) :=
  match unmarshal_request requestStr with
  | Bad err => mret ("", err_msg err, (-1)%Z)
  | Good domains =>
      r ← resolve_all domains [];
      match r with
      | None => mret ("", "Every domain in a domain request must have a domain name field", (-1)%Z)
      | Some resolutions =>
          match marshal_response resolutions with
          | Bad err => mret ("", err_msg err, (-1)%Z)
          | Good b => mret (b, "", 0%Z)
          end
      end
  end.

(** ** Facts *)
Definition is_v4 (ip : bytes) : bool := negb (is_nil (To4 ip)).
Definition is_v6 (ip : bytes) : bool := is_nil (To4 ip) && Nat.eqb (length ip) 16.

Lemma add_addresses ips r :
  fold_left add_address ips r =
    mkResolution (DomainName r) (IPV4Addresses r ++ map IP_String (List.filter is_v4 ips))
      (IPV6Addresses r ++ map IP_String (List.filter is_v6 ips)) (Cnames r).
Proof.
  revert r. induction ips as [|ip ips IH]; intros r; cbn [fold_left List.filter map].
  { destruct r. simpl. by rewrite !app_nil_r. }
  rewrite IH. unfold add_address, is_v4, is_v6. destruct (To4 ip); cbn [is_nil negb andb].
  - simpl. by rewrite <-(assoc_L (++)).
  - destruct (Nat.eqb (length ip) 16); simpl; [by rewrite <-(assoc_L (++))|done].
Qed.

Definition dns_request (r : request) : Prop := ∃ op d, r = RNet op [d].

Lemma spec_handle domain :
  spec dns_request no_change (λ r, DomainName r = domain) (handleDomainResolution domain).
Proof.
  unfold handleDomainResolution, ResolveIPs, ResolveCNAME.
  eapply (spec_bind _ _ (λ _, True)).
  { eapply (spec_bind _ _ (λ _, True)); [apply spec_ask; [by eexists _, _|done]|]. by intros [ips err] _. }
  intros [ips [err|]] _; [by apply spec_ret|]. rewrite add_addresses.
  eapply (spec_bind _ _ (λ _, True)).
  { eapply (spec_bind _ _ (λ _, True)); [apply spec_ask; [by eexists _, _|done]|]. by intros [c e] _. }
  intros [c [err|]] _; apply spec_ret; [done|]. by destruct (negb _).
Qed.

Lemma spec_resolve_all domains acc :
  spec dns_request no_change
    (λ r, match r with
          | Some rs => ∃ rs', rs = acc ++ rs' ∧ domains = map Some (map DomainName rs')
          | None => None ∈ domains
          end) (resolve_all (map Some domains) acc).
Proof.
  revert acc. induction domains as [|[d|] domains IH]; intros acc; cbn [resolve_all map].
  - apply spec_ret. exists []. by rewrite app_nil_r.
  - eapply spec_bind; [apply spec_handle|]. intros r Hr.
    eapply spec_conseq; [apply IH|]. intros [rs|].
    + intros (rs' & -> & ->). exists (r :: rs'). rewrite <-(assoc_L (++)). simpl. by rewrite Hr.
    + intros. by right.
  - apply spec_ret. left.
Qed.

(** A request without null elements always gets an answer: DNS is all that is asked; when every
    domain has a name there is one resolution per domain, in order, and
    otherwise the request is refused with exit code -1. *)
Theorem domain_resolution_answers req domains :
  unmarshal_request req = Good (map Some domains) →
  spec dns_request no_change
    (λ '(stdout, stderr, exitCode),
       (None ∈ domains ∧ exitCode = (-1)%Z) ∨
       ∃ rs, domains = map Some (map DomainName rs) ∧
             match marshal_response rs with
             | Good b => stdout = b ∧ exitCode = 0%Z
             | Bad err => stderr = err_msg err ∧ exitCode = (-1)%Z
             end) (Run req).
Proof.
  intros Hr. unfold Run. rewrite Hr. eapply spec_bind; [apply spec_resolve_all|].
  intros [rs|] H.
  - destruct H as (rs' & -> & H). simpl. destruct (marshal_response rs') eqn:E; apply spec_ret; right;
      exists rs'; by rewrite E.
  - apply spec_ret. by left.
Qed.

(** The addresses of a domain are sorted by family without loss: the IPv4
    addresses (also those mapped into IPv6) and the 16-byte others, each list in
    the order of the resolver, and the canonical name when there is one. *)
Theorem resolution_partitions domain l s ips cname :
  lookup_ip l domain = (ips, None) → lookup_cname (l ++ [RNet "LookupIP" [domain]]) domain = (cname, None) →
  run (handleDomainResolution domain) l s =
    (Done (mkResolution domain (map IP_String (List.filter is_v4 ips)) (map IP_String (List.filter is_v6 ips))
             (if String.eqb cname "" then [] else [cname])),
     l ++ [RNet "LookupIP" [domain]; RNet "LookupCNAME" [domain]], s).
Proof.
  intros H1 H2. unfold handleDomainResolution, ResolveIPs, ResolveCNAME.
  rewrite !run_bind. cbn [run ask]. rewrite H1. cbn [run mret proc_ret not_found_is_nil].
  rewrite add_addresses. rewrite !run_bind. cbn [run ask]. rewrite H2. cbn.
  rewrite <-(assoc_L (++)). destruct (String.eqb cname ""); done.
Qed.
End Resolver.

Section ResolverWitness.
Lemma domain_resolution_answers_witness :
  ∃ Q, spec dns_request no_change Q
    (@Run (λ _ _, ([[1;2;3;4]%Z], None)) (λ _ _, ("c", None)) (λ _, Good [Some (Some "a.b")]) (λ _, Good "out") "req").
Proof. eexists. apply (@domain_resolution_answers (λ _ _, ([[1;2;3;4]%Z], None)) (λ _ _, ("c", None)) (λ _, Good [Some (Some "a.b")])
    (λ _, Good "out") "req" [Some "a.b"]). reflexivity. Defined.

Lemma resolution_partitions_witness :
  ∃ l, run (handleDomainResolution (λ _ _, ([[1;2;3;4]; replicate 16 1]%Z, None)) (λ _ _, ("", None)) "a.b")
       [] shared_init = (Done (mkResolution "a.b" ["1.2.3.4"] ["101:101:101:101:101:101:101:101"] []), l, shared_init).
Proof.
  eexists. apply (resolution_partitions (λ _ _, ([[1;2;3;4]; replicate 16 1]%Z, None)) (λ _ _, ("", None))
    "a.b" [] shared_init [[1;2;3;4]; replicate 16 1]%Z ""); reflexivity.
Defined.
End ResolverWitness.
