(* ===== verification/System.v ===== *)
(** * System information of the inventory (src/inventory/memory.go, boot.go,
    bmc.go, cpu.go, gpu.go, hostname.go, system_vendor.go, tpm.go) *)
From S2P Require Import Prelude GoStrings GoFloat Host Config Net Regex.

Definition blank : re := Chr (one_of (String "009" " ")).
Definition letter : re := Chr (λ c, in_range "a" "z" c || in_range "A" "Z" c).

(** ** Memory *)
Definition multiplierMap : list (string * Z) :=
  [("bytes", 2 ^ 0); ("kb", 2 ^ 10); ("mb", 2 ^ 20); ("gb", 2 ^ 30); ("tb", 2 ^ 40);
   ("eb", 2 ^ 50); ("zb", 2 ^ 60)]%Z.
Definition multiplier (unit_ : string) : option Z :=
  match List.find (λ p, String.eqb p.1 (ToLower unit_)) multiplierMap with
  | Some (_, m) => Some m
  | None => None
  end.

(** ^[ \t]*Size:[ \t]+([0-9]+)[ \t]+([a-zA-Z]+)[ \t]*$ and
    ^[ \t]*MemTotal:[ \t]+([0-9]+)[ \t]+([a-zA-Z]+) *)
Definition dmidecode_re : re :=
  seqs [Begin; Star blank; lit "Size:"; plus blank; Cap 1 (plus digit); plus blank; Cap 2 (plus letter); Star blank; End].
Definition meminfo_re : re :=
  seqs [Begin; Star blank; lit "MemTotal:"; plus blank; Cap 1 (plus digit); plus blank; Cap 2 (plus letter)].

(** A size and its unit; [None] when the number or the unit is not understood. *)
Definition size_in_bytes (value unit_ : string) : option Z :=
  match ParseInt value 64 with
  | PIOk v => match multiplier unit_ with Some m => Some (int64 (v * m)) | None => None end
  | _ => None
  end.

(** The loop over the lines of dmidecode: one that is not understood makes the
    total 0. *)
Fixpoint dmidecode_total (lines : list string) (total : Z) : Z :=
  match lines with
  | [] => total
  | line :: lines' =>
      match FindStringSubmatch 2 dmidecode_re line with
      | Some [_; value; unit_] =>
          match size_in_bytes value unit_ with
          | Some n => dmidecode_total lines' (int64 (total + n))
          | None => 0%Z
          end
      | _ => dmidecode_total lines' total
      end
  end.

Fixpoint meminfo_total (lines : list string) : Z :=
  match lines with
  | [] => 0%Z
  | line :: lines' =>
      match FindStringSubmatch 2 meminfo_re line with
      | Some [_; value; unit_] => default 0%Z (size_in_bytes value unit_)
      | _ => meminfo_total lines'
      end
  end.

(** models.MemoryMethod *)
Inductive memory_method : Type := NoMethod | MethodDmidecode | MethodGhw | MethodMeminfo.
(** models.Memory *)
Record memory : Type := mkMemory { PhysicalBytes : Z; UsableBytes : Z; PhysicalBytesMethod : memory_method }.

(** ** Boot *)
Definition secureBootEfivarsPath : string :=
  "/host/sys/firmware/efi/efivars/SecureBoot-8be4df61-93ca-11d2-aa0d-00e098032b8c".
Inductive secure_boot : Type := SBNotSupported | SBUnknown | SBDisabled | SBEnabled.
#[export] Instance secure_boot_eq_dec : EqDecision secure_boot.
Proof. solve_decision. Defined.
(** models.Boot *)
Record boot : Type := mkBoot {
  CurrentBootMode : string; PxeInterface : string; CommandLine : string;
  SecureBootState : secure_boot; DeviceType : string
}.

Definition pxe_interface (cmdline : string) : string :=
  match List.find (λ part, HasPrefix part "BOOTIF=") (Split (TrimSpace cmdline) " ") with
  | Some part => drop_chars (String.length "BOOTIF=") part
  | None => ""
  end.

(** The content of the EFI variable: four bytes of attributes and the value. *)
Definition secure_boot_state (content : string) : secure_boot :=
  if negb (Nat.eqb (String.length content) 5) then SBUnknown else
  match drop_chars 4 content with
  | String c _ =>
      match Ascii.nat_of_ascii c with 0 => SBDisabled | 1 => SBEnabled | _ => SBUnknown end
  | "" => SBUnknown
  end.

(** ** BMC *)
(** A value of a YAML document, and the keys of a channel's address. *)
Inductive yaml : Type := YStr (s : string) | YBool (b : bool) | YOther.
Record yaml_address : Type := mkYamlAddress {
  y_Address : option yaml; y_SourceType : option yaml; y_Enabled : option yaml; y_Status : option yaml
}.

Definition MaxIpmiChannel : nat := 12.
Definition ip_address_re : re :=
  seqs [Begin; lit "IP Address"; Star blank; lit ":"; Star blank;
        Cap 1 (Star (Chr (none_of (String "009" " ")))); Star blank; End].
Definition addr_mode_re : re :=
  seqs [Begin; lit "IPv6/IPv4 Addressing Enables: "; Cap 1 (Alt (lit "both") (lit "ipv6")); Star blank; End].
(** ^::(/\d{1,3})*$ *)
Definition null_address_re : re :=
  seqs [Begin; lit "::"; Star (seqs [chr "/"; digit; opt (seqs [digit; opt digit])]); End].

(** The first group of the first line that matches. *)
Definition first_group (r : re) (output : string) : string :=
  match List.find (λ line, MatchString r line) (Split output nl) with
  | Some line => match FindStringSubmatch 1 r line with Some [_; g] => g | _ => "" end
  | None => ""
  end.

Definition getIsEnabled (value : yaml) : bool :=
  match value with YBool false => false | YStr "" => false | _ => true end.

Definition is_str (v : option yaml) (s : string) : bool :=
  match v with Some (YStr t) => String.eqb t s | _ => false end.

(** One entry of the channel's map: an entry that is not a map or lacks a key is
    skipped; an address that is not a string fails a type assertion. *)
Definition v6_entry (dynamic : bool) (entry : option yaml_address) : Go (option string) :=
  match entry with
  | None => mret None
  | Some a =>
      match y_Address a with
      | None => mret None
      | Some v =>
          address ← or_panic (match v with YStr s => Some s | _ => None end);
          let enabled :=
            if dynamic
            then option_map (λ st, is_str (Some st) "DHCPv6" || is_str (Some st) "SLAAC") (y_SourceType a)
            else Some (match y_Enabled a with Some v => getIsEnabled v | None => false end) in
          mret (match enabled with
                | Some true => if is_str (y_Status a) "active" && negb (MatchString null_address_re address)
                               then Some address else None
                | _ => None
                end)
      end
  end.

Fixpoint v6_entries (dynamic : bool) (entries : list (option yaml_address)) : Go string :=
  match entries with
  | [] => mret ""
  | e :: entries' =>
      r ← v6_entry dynamic e;
      match r with Some address => mret address | None => v6_entries dynamic entries' end
  end.

(** ** CPU, GPU, vendor *)
(** models.CPU; lscpu's fields are a name with a colon and a value. *)
Record cpu : Type := mkCpu {
  Architecture : string; cpu_Count : Z; cpu_Flags : list string; Frequency : float64; ModelName : string
}.
Definition no_cpu : cpu := mkCpu "" 0 [] f_zero "".
Definition fmax (f1 f2 : float64) : float64 := if f_ltb f2 f1 then f1 else f2.

(** The value of ParseInt when its error is dropped. *)
Definition ParseInt_value (s : string) : Z :=
  match ParseInt s 64 with PIOk v => v | PIRange v => v | PISyntax => 0 end.

Definition cpu_field (ParseFloat : string → float64) (name data : string) (ret : cpu) : cpu :=
  if String.eqb name "Architecture"
  then mkCpu data (cpu_Count ret) (cpu_Flags ret) (Frequency ret) (ModelName ret)
  else if String.eqb name "Model name" || String.eqb name "Machine type"
  then mkCpu (Architecture ret) (cpu_Count ret) (cpu_Flags ret) (Frequency ret) data
  else if String.eqb name "CPU(s)"
  then mkCpu (Architecture ret) (ParseInt_value data) (cpu_Flags ret) (Frequency ret) (ModelName ret)
  else if String.eqb name "CPU MHz" || String.eqb name "CPU max MHz" || String.eqb name "CPU static MHz"
  then mkCpu (Architecture ret) (cpu_Count ret) (cpu_Flags ret) (fmax (Frequency ret) (ParseFloat data)) (ModelName ret)
  else if String.eqb name "Flags"
  then mkCpu (Architecture ret) (cpu_Count ret) (Split data " ") (Frequency ret) (ModelName ret)
  else ret.

(** The name of a field without its last character: slicing the empty name
    panics. *)
Definition field_name (f : string) : option string :=
  match f with "" => None | _ => Some (take_chars (String.length f - 1) f) end.

(** GPUConfig; ghw's PCI devices; models.Gpu *)
Record GPUConfig : Type := mkGPUConfig { Classes : list string; Models : list string; Vendors : list string }.
Record pci_device : Type := mkPci {
  pci_Address : string; pci_Class : string; pci_Subclass : string; pci_Vendor : string; pci_VendorName : string;
  pci_Product : string; pci_ProductName : string; pci_ProductVendor : string
}.
Record gpu : Type := mkGpu {
  g_Address : string; g_Name : string; g_DeviceID : string; g_Vendor : string; g_VendorID : string
}.
Definition defaultGPUConfig : GPUConfig := mkGPUConfig ["0300"; "0302"; "0380"; "1200"] [] [].

Definition in_config (ids : list string) (id : string) : bool :=
  existsb (λ pciId, String.eqb id (ReplaceAll pciId " " "")) ids.
Definition isSupportedClass (c : GPUConfig) : string → bool := in_config (Classes c).
Definition isSupportedVendor (c : GPUConfig) : string → bool := in_config (Vendors c).
Definition isSupportedModel (c : GPUConfig) : string → bool := in_config (Models c).

Definition supported_gpu (c : GPUConfig) (d : pci_device) : bool :=
  let deviceClass := pci_Class d +:+ pci_Subclass d in
  let deviceVendor := deviceClass +:+ pci_Vendor d in
  let deviceModel := deviceVendor +:+ pci_Product d in
  isSupportedClass c deviceClass || isSupportedVendor c deviceVendor || isSupportedModel c deviceModel.

Definition gpu_record (d : pci_device) : gpu :=
  mkGpu (pci_Address d) (pci_ProductName d) (pci_Product d) (pci_VendorName d)
        (if negb (String.eqb (pci_ProductVendor d) "") then pci_ProductVendor d else pci_Vendor d).

(** ghw's product information; models.SystemVendor *)
Record product_info : Type := mkProduct {
  p_Family : string; pr_Name : string; pr_SerialNumber : string; p_UUID : string; pr_Vendor : string
}.
Record system_vendor : Type := mkVendor {
  sv_Manufacturer : string; sv_ProductName : string; sv_SerialNumber : string; Virtual : bool
}.
Definition isOVirtPlatform (family : string) : bool := String.eqb family "oVirt" || String.eqb family "RHV".
Definition isOciPlatform (chassisAssetTag : string) : bool := String.eqb chassisAssetTag "OracleCloud.com".
Definition VENDOR_IBM_ID : string := "IBM/S390".

(** The parts of the vendor line of /proc/cpuinfo: [None] when one is unknown,
    with the manufacturer found so far. *)
Fixpoint vendor_parts (parts : list string) (manufacturer : string) : string * bool :=
  match parts with
  | [] => (manufacturer, true)
  | part :: parts' =>
      if HasPrefix part "vendor_id" then vendor_parts parts' manufacturer
      else if String.eqb (TrimSpace part) VENDOR_IBM_ID then vendor_parts parts' VENDOR_IBM_ID
      else (manufacturer, false)
  end.

(** The parts of the control program line of /proc/sysinfo. *)
Definition control_program (v : system_vendor) (part : string) : system_vendor :=
  if HasPrefix part "Control Program" then v else
  let name := TrimSpace part in
  mkVendor (sv_Manufacturer v) name (sv_SerialNumber v) (Virtual v || String.eqb name "KVM/Linux").

Section System.
Context {env : Env}.
(** ghw, encoding/json, yaml and the parser of floats, all of them libraries. *)
Variable ghw_memory : log → result Z.
Variable ghw_pci : log → result (list pci_device).
Variable ghw_product : log → result product_info.
Variable ghw_chassis : log → result string.
Variable unmarshal_lscpu : string → result (list (string * string)).
Variable unmarshal_lan6 : string → result (list (option yaml_address)).
Variable unmarshal_gpus : string → result GPUConfig.
Variable ParseFloat : string → float64.
Variable os_hostname : log → result string.

(** *** memory.go *)
Definition getDmidecodeTotalPhysicalBytes : Go Z :=
  '(o, _, exitCode) ← Execute "dmidecode" ["-t"; "17"];
  mret (if negb (exitCode =? 0)%Z then 0%Z else dmidecode_total (Split o nl) 0).

Definition getGhwTotalPhysicalBytes : Go Z :=
  m ← ask (RFile "ghw.Memory" "") ghw_memory;
  mret (match m with Bad _ => 0%Z | Good b => b end).

Definition getTotalUsabeBytes : Go Z :=
  b ← ReadFile "/proc/meminfo";
  mret (match b with Bad _ => 0%Z | Good b => meminfo_total (Split b nl) end).

Definition getTotalPhysicalBytes : Go (Z * memory_method) :=
  physicalBytes ← getDmidecodeTotalPhysicalBytes;
  if negb (physicalBytes =? 0)%Z then mret (physicalBytes, MethodDmidecode) else
  physicalBytes ← getGhwTotalPhysicalBytes;
  if negb (physicalBytes =? 0)%Z then mret (physicalBytes, MethodGhw) else
  usableBytes ← getTotalUsabeBytes;
  mret (if negb (usableBytes =? 0)%Z then (usableBytes, MethodMeminfo) else (0%Z, NoMethod)).

Definition GetMemory : Go memory :=
  '(physicalBytes, method) ← getTotalPhysicalBytes;
  usable ← getTotalUsabeBytes;
  mret (mkMemory physicalBytes usable method).

(** *** boot.go *)
Definition getCurrentBootMode : Go string :=
  mode ← Stat "/sys/firmware/efi";
  mret (match mode with Good info => if fi_is_dir info then "uefi" else "bios" | Bad _ => "bios" end).
Definition getPxeInterface : Go string :=
  cmdline ← ReadFile "/proc/cmdline"; mret (match cmdline with Good c => pxe_interface c | Bad _ => "" end).
Definition getCommandLine : Go string :=
  cmdline ← ReadFile "/proc/cmdline"; mret (match cmdline with Good c => c | Bad _ => "" end).
Definition getSecureBootState : Go secure_boot :=
  content ← ReadFile secureBootEfivarsPath;
  mret (match content with
        | Bad err => if is_not_exist err then SBNotSupported else SBUnknown
        | Good content => secure_boot_state content
        end).
Definition getDeviceType : Go string :=
  '(stdOut, _, code) ← ExecutePrivileged "findmnt" ["--noheadings"; "--output"; "SOURCE"; "/sysroot"];
  mret (if negb (code =? 0)%Z then "" else if HasPrefix stdOut "/dev/loop" then "ephemeral" else "persistent").
Definition GetBoot : Go boot :=
  mode ← getCurrentBootMode; pxe ← getPxeInterface; cmdline ← getCommandLine;
  sb ← getSecureBootState; dev ← getDeviceType;
  mret (mkBoot mode pxe cmdline sb dev).

(** *** bmc.go *)
Definition getIpForChannnel (ch : nat) : Go string :=
  '(o, e, exitCode) ← Execute "ipmitool" ["lan"; "print"; Itoa (Z.of_nat ch)];
  mret (if negb (exitCode =? 0)%Z || HasPrefix e "Invalid channel" then "" else first_group ip_address_re o).

(** The loop over the channels from [ch] on, [n] of them. *)
Fixpoint bmc_address (n ch : nat) : Go string :=
  match n with
  | O => mret "0.0.0.0"
  | S n' =>
      ret ← getIpForChannnel ch;
      if String.eqb ret "" || is_nil (ParseIP ret) || String.eqb ret "0.0.0.0"
      then bmc_address n' (S ch) else mret ret
  end.
Definition GetBmcAddress (cfg : InventoryConfig) : Go string :=
  if DryRunEnabled (ic_dry cfg) then mret "0.0.0.0" else bmc_address MaxIpmiChannel 1.

Definition getAddrMode (ch : nat) : Go string :=
  '(o, _, exitCode) ← Execute "ipmitool" ["lan6"; "print"; Itoa (Z.of_nat ch); "enables"];
  mret (if negb (exitCode =? 0)%Z then "" else first_group addr_mode_re o).

(** Go visits the entries of the map in any order. *)
Definition getV6Address (ch : nat) (addressType : string) : Go string :=
  '(o, _, exitCode) ← Execute "ipmitool" ["lan6"; "print"; Itoa (Z.of_nat ch); addressType +:+ "_addr"];
  if negb (exitCode =? 0)%Z then mret "" else
  match unmarshal_lan6 o with
  | Bad _ => mret ""
  | Good m =>
      choices ← ask RSchedule e_schedule;
      v6_entries (String.eqb addressType "dynamic") (shuffle (length m) choices m)
  end.

Fixpoint bmc_v6_address (n ch : nat) : Go string :=
  match n with
  | O => mret "::/0"
  | S n' =>
      addrMode ← getAddrMode ch;
      if String.eqb addrMode "" then bmc_v6_address n' (S ch) else
      address ← getV6Address ch "dynamic";
      address ← (if String.eqb address "" then getV6Address ch "static" else mret address);
      if String.eqb address "" then bmc_v6_address n' (S ch) else
      match ParseCIDR address with
      | None => bmc_v6_address n' (S ch)
      | Some (ip, _) => mret (IP_String ip)
      end
  end.
Definition GetBmcV6Address (cfg : InventoryConfig) : Go string :=
  if DryRunEnabled (ic_dry cfg) then mret "::/0" else bmc_v6_address MaxIpmiChannel 1.

(** *** cpu.go *)
Definition GetCPU : Go cpu :=
  '(o, _, exitCode) ← Execute "lscpu" ["-J"];
  if negb (exitCode =? 0)%Z then mret no_cpu else
  match unmarshal_lscpu o with
  | Bad _ => mret no_cpu
  | Good l => foldP (λ ret f, name ← or_panic (field_name f.1); mret (cpu_field ParseFloat name f.2 ret)) l no_cpu
  end.

(** *** gpu.go: the default configuration when the file cannot be used *)
Definition readGpuConfiguration (path : string) : Go GPUConfig :=
  if String.eqb path "" then mret defaultGPUConfig else
  err ← Open path;
  match err with
  | Some _ => mret defaultGPUConfig
  | None =>
      info ← Stat path;
      match info with
      | Bad _ => mret defaultGPUConfig
      | Good _ =>
          data ← ReadFile path;
          mret (match data with
                | Bad _ => defaultGPUConfig
                | Good data => match unmarshal_gpus data with Good c => c | Bad _ => defaultGPUConfig end
                end)
      end
  end.
Definition GetGPUs (cfg : InventoryConfig) : Go (list gpu) :=
  pci ← ask (RFile "ghw.PCI" "") ghw_pci;
  match pci with
  | Bad _ => mret []
  | Good devices =>
      supportedConfig ← readGpuConfiguration (GPUConfigFile cfg);
      mret (map gpu_record (List.filter (supported_gpu supportedConfig) devices))
  end.

(** *** hostname.go, tpm.go *)
Definition dep_Hostname (dry : DryRunConfig) : Go (result string) :=
  if DryRunEnabled dry then mret (Good (ForcedHostname dry)) else ask (RFile "Hostname" "") os_hostname.
Definition GetHostname (dry : DryRunConfig) : Go string :=
  h ← dep_Hostname dry; mret (match h with Good h => TrimSpace h | Bad _ => "" end).

Definition GetTPM : Go string :=
  '(stdOut, stdErr, exitCode) ← Execute "cat" ["/sys/class/tpm/tpm0/tpm_version_major"];
  mret (if negb (exitCode =? 0)%Z
        then (if Contains stdErr "No such file or directory" then "none" else "")
        else let version := TrimSuffix stdOut nls in
             if String.eqb version "1" then "1.2" else if String.eqb version "2" then "2.0" else version).

(** *** system_vendor.go *)
Definition GetVendorFors390x (ret : system_vendor) : Go system_vendor :=
  '(stdout, _, exitCode) ← Execute "grep" ["-m1"; "vendor_id"; "/proc/cpuinfo"];
  if negb (exitCode =? 0)%Z then mret ret else
  let '(manufacturer, known) := vendor_parts (Split (TrimSpace stdout) ":") (sv_Manufacturer ret) in
  if negb known then mret (mkVendor manufacturer (sv_ProductName ret) (sv_SerialNumber ret) (Virtual ret)) else
  let ret := mkVendor manufacturer "LPAR" (sv_SerialNumber ret) false in
  '(stdout, _, exitCode) ← Execute "grep" ["VM.*Control Program"; "/proc/sysinfo"];
  mret (if negb (exitCode =? 0)%Z || String.eqb (TrimSpace stdout) "" then ret
        else fold_left control_program (Split (TrimSpace stdout) ":") ret).

Definition GetVendor : Go system_vendor :=
  let empty := mkVendor "" "" "" false in
  product ← ask (RFile "ghw.Product" "") ghw_product;
  match product with
  | Bad _ => mret empty
  | Good product =>
      chassis ← ask (RFile "ghw.Chassis" "") ghw_chassis;
      match chassis with
      | Bad _ => mret empty
      | Good assetTag =>
          let ret := mkVendor (if isOciPlatform assetTag then assetTag else pr_Vendor product)
                       (if isOVirtPlatform (p_Family product) then "oVirt" else pr_Name product)
                       (pr_SerialNumber product) false in
          ret ← (if String.eqb (pr_Vendor product) "unknown" then GetVendorFors390x ret else mret ret);
          '(stdout, _, exitCode) ← Execute "systemd-detect-virt" ["--vm"];
          mret (if (exitCode =? 0)%Z && negb (String.eqb stdout "none")
                then mkVendor (sv_Manufacturer ret) (sv_ProductName ret) (sv_SerialNumber ret) true else ret)
      end
  end.
End System.

(** ** Facts *)
(** *** Memory *)
(** The exact sizes of the modules in dmidecode's report; [None] when a size is
    not understood. *)
Fixpoint module_sizes (lines : list string) : option (list Z) :=
  match lines with
  | [] => Some []
  | line :: lines' =>
      match FindStringSubmatch 2 dmidecode_re line with
      | Some [_; value; unit_] =>
          match ParseInt value 64, multiplier unit_ with
          | PIOk v, Some m => cons (v * m)%Z <$> module_sizes lines'
          | _, _ => None
          end
      | _ => module_sizes lines'
      end
  end.

Lemma int64_add_l a b : int64 (int64 a + b) = int64 (a + b).
Proof.
  unfold int64, wrap_signed. f_equal.
  replace ((a + 2 ^ (64 - 1)) mod 2 ^ 64 - 2 ^ (64 - 1) + b + 2 ^ (64 - 1))%Z
    with ((a + 2 ^ (64 - 1)) mod 2 ^ 64 + b)%Z by lia.
  rewrite Zplus_mod_idemp_l. f_equal. lia.
Qed.
Lemma int64_add_r a b : int64 (a + int64 b) = int64 (a + b).
Proof. by rewrite Z.add_comm, int64_add_l, Z.add_comm. Qed.

Lemma dmidecode_total_exact lines total :
  dmidecode_total lines (int64 total) =
  match module_sizes lines with Some ns => int64 (total + foldr Z.add 0%Z ns) | None => 0%Z end.
Proof.
  revert total. induction lines as [|line lines IH]; intros total; cbn [dmidecode_total module_sizes].
  { cbn. by rewrite Z.add_0_r. }
  destruct (FindStringSubmatch 2 dmidecode_re line) as [[|m [|value [|unit_ [|? ?]]]]|]; try apply IH.
  unfold size_in_bytes. destruct (ParseInt value 64) as [| |v]; [done..|]. destruct (multiplier unit_) as [mul|]; [|done].
  rewrite int64_add_l, int64_add_r, IH. destruct (module_sizes lines) as [ns|]; [|done].
  cbn. f_equal. lia.
Qed.

Section SystemFacts.
Context {env : Env}.

(** The physical memory is the exact sum of the sizes of the modules that
    dmidecode lists, as long as all are understood and the sum fits in 64 bits;
    when one is not understood the other sources are asked, ghw and then
    /proc/meminfo, and the method tells which one answered. *)
Theorem physical_memory ghw_memory o l s :
  e_run l "dmidecode" ["-t"; "17"] = (o, "", None) →
  match module_sizes (Split o nl) with
  | Some ns =>
      (0 < foldr Z.add 0 ns <= int64_max)%Z →
      run (getTotalPhysicalBytes ghw_memory) l s =
        (Done (foldr Z.add 0%Z ns, MethodDmidecode), l ++ [RExec "dmidecode" ["-t"; "17"]], s)
  | None =>
      ∀ b, ghw_memory (l ++ [RExec "dmidecode" ["-t"; "17"]]) = Good b → b ≠ 0%Z →
      run (getTotalPhysicalBytes ghw_memory) l s =
        (Done (b, MethodGhw), l ++ [RExec "dmidecode" ["-t"; "17"]; RFile "ghw.Memory" ""], s)
  end.
Proof.
  intros E. pose proof (dmidecode_total_exact (Split o nl) 0) as Ht. change (int64 0) with 0%Z in Ht.
  unfold getTotalPhysicalBytes, getDmidecodeTotalPhysicalBytes, getGhwTotalPhysicalBytes, Execute.
  destruct (module_sizes (Split o nl)) as [ns|].
  - intros Hns. rewrite Z.add_0_l, int64_id in Ht by (unfold int64_min in *; lia).
    rewrite !run_bind. cbn [run ask]. rewrite E. cbn [run mret proc_ret getExitCode getErrorStr Z.eqb negb].
    rewrite Ht. destruct (Z.eqb_spec (foldr Z.add 0%Z ns) 0); [lia|done].
  - intros b Hb Hne. rewrite !run_bind. cbn [run ask]. rewrite E. cbn [run mret proc_ret getExitCode getErrorStr Z.eqb negb].
    rewrite Ht. cbn [Z.eqb negb]. rewrite !run_bind. cbn [run ask]. rewrite Hb. cbn [run mret proc_ret].
    apply Z.eqb_neq in Hne. rewrite Hne. cbn. by rewrite <-(assoc_L (++)).
Qed.

(** *** BMC *)
Lemma bmc_address_valid n ch :
  spec (λ r, ∃ args, r = RExec "ipmitool" args) no_change
    (λ a, a = "0.0.0.0" ∨ (is_Some (ParseIP a) ∧ a ≠ "")) (bmc_address n ch).
Proof.
  revert ch. induction n as [|n IH]; intros ch; cbn [bmc_address]; [by apply spec_ret; left|].
  eapply (spec_bind _ _ (λ _, True)).
  { unfold getIpForChannnel. eapply spec_bind; [apply spec_Execute; eauto|]. intros [[o e] c] _. by apply spec_ret. }
  intros ret _. destruct (String.eqb_spec ret ""); [apply IH|]. destruct (ParseIP ret) eqn:E; [|apply IH].
  cbn [is_nil orb]. destruct (String.eqb_spec ret "0.0.0.0"); [apply IH|]. apply spec_ret. right. by rewrite E.
Qed.

Lemma bmc_address_runs n ch : at_most n is_exec (bmc_address n ch).
Proof.
  revert ch. induction n as [|n IH]; intros ch; cbn [bmc_address]; [exact I|].
  change (S n) with (1 + n). apply at_most_bind.
  - unfold getIpForChannnel, Execute. cbn. intros l. by destruct (e_run l _ _) as [[o e] err].
  - intros ret. destruct (_ || _); [apply IH|by destruct n].
Qed.

(** The BMC address is 0.0.0.0 or an IP address that one of the at most
    twelve channels reported. *)
Theorem GetBmcAddress_valid cfg :
  spec (λ r, ∃ args, r = RExec "ipmitool" args) no_change
    (λ a, a = "0.0.0.0" ∨ (is_Some (ParseIP a) ∧ a ≠ "")) (GetBmcAddress cfg) ∧
  at_most 12 is_exec (GetBmcAddress cfg).
Proof.
  unfold GetBmcAddress. destruct (DryRunEnabled (ic_dry cfg)); [split; [by apply spec_ret; left|done]|].
  split; [apply bmc_address_valid|apply (bmc_address_runs 12)].
Qed.
End SystemFacts.

Definition demo_dmidecode : string :=
  "Memory Device" +:+ nls +:+ String "009" "Size: 16 GB" +:+ nls +:+ String "009" "Size: No Module Installed" +:+
  nls +:+ String "009" "Size: 512 MB" +:+ nls.
Lemma physical_memory_witness :
  (run (@getTotalPhysicalBytes (cmd_host (λ _ _ _, (demo_dmidecode, "", None))) (λ _, Bad enoent)) [] shared_init).1.1 =
  Done (17716740096%Z, MethodDmidecode).
Proof.
  pose proof (@physical_memory (cmd_host (λ _ _ _, (demo_dmidecode, "", None))) (λ _, Bad enoent) demo_dmidecode
    [] shared_init eq_refl) as H.
  assert (E : module_sizes (Split demo_dmidecode nl) = Some [17179869184%Z; 536870912%Z]) by (vm_compute; reflexivity).
  rewrite E in H. rewrite H; [reflexivity|]. vm_compute. split; congruence.
Defined.
