(* ===== verification/Interfaces.v ===== *)
(** * Network interfaces and routes (src/util/network_interface.go,
    src/inventory/interfaces.go, src/inventory/routes.go) *)
From S2P Require Import Prelude GoStrings Host Net Network.

(** ** Data *)
(** A net.Addr: an IP network, or another kind of address and its text. *)
Inductive net_addr : Type := AddrNet (n : IPNet) | AddrOther (s : string).
Definition addr_String (a : net_addr) : string :=
  match a with AddrNet n => IPNet_String n | AddrOther s => s end.

(** net.Interface and what its Addrs method answers *)
Record net_interface : Type := mkInterface {
  if_Name : string; MTU : Z; if_HardwareAddr : string; if_Flags : Z;
  if_Addrs : result (list net_addr)
}.

(** netlink.Link: its type and its attributes; of a bond slave, its permanent
    address. *)
Record link_attrs : Type := mkAttrs {
  la_Slave : option (option string); la_HardwareAddr : option string
}.
Record link : Type := mkLink { l_Type : string; l_Attrs : option link_attrs }.

(** models.Interface *)
Record interface_info : Type := mkInterfaceInfo {
  HasCarrier : bool; IPV4Addresses : list string; IPV6Addresses : list string; MacAddress : string;
  i_Name : string; Mtu : Z; Biosdevname : string; Product : string; i_Vendor : string;
  Flags : list string; i_SpeedMbps : Z; i_Type : string
}.

#[export] Instance interface_info_eq_dec : EqDecision interface_info.
Proof. solve_decision. Defined.

(** models.Route *)
Record route_info : Type := mkRouteInfo {
  r_Interface : string; Destination : string; Gateway : string; Family : Z; Metric : Z
}.

Definition ipv4LocalLinkCIDR : string := "169.254.0.0/16".
Definition ipv6LocalLinkCIDR : string := "fe80::/10".

(** net.Flags.String *)
Definition flag_names : list string := ["up"; "broadcast"; "loopback"; "pointtopoint"; "multicast"; "running"].
Definition set_flags (flags : Z) : list string :=
  map snd (List.filter (λ p, Z.testbit flags (Z.of_nat p.1)) (imap pair flag_names)).
Definition Flags_String (flags : Z) : string :=
  match set_flags flags with [] => "0" | l => Join l "|" end.

Definition getFlags (flags : Z) : list string :=
  let flagsStr := Flags_String flags in
  if String.eqb flagsStr "0" then [] else Split flagsStr "|".

Definition ipWithCidrInCidr (ipWithCidrStr cidrStr : string) : bool :=
  match ParseCIDR ipWithCidrStr with
  | None => false
  | Some (ip, _) =>
      match ParseCIDR cidrStr with
      | None => false
      | Some (_, ipnet) => Contains_ip ipnet ip
      end
  end.

(** inventory.analyzeAddress: the family and the text of the address. *)
Definition analyzeAddress (a : net_addr) : result (bool * string) :=
  match a with
  | AddrOther _ => Bad (errorf "could not cast to net.IPNet")
  | AddrNet n =>
      let addrStr := IP_String (net_ip n) +:+ "/" +:+ Itoa (net_ones n) in
      Good (has_char addrStr ".", addrStr)
  end.

(** The addresses of one interface, by family, without link-local ones. *)
Definition sort_address (acc : list string * list string) (a : net_addr) : list string * list string :=
  match analyzeAddress a with
  | Bad _ => acc
  | Good (isIPv4, addrStr) =>
      if isIPv4 : bool
      then if negb (ipWithCidrInCidr addrStr ipv4LocalLinkCIDR) then (acc.1 ++ [addrStr], acc.2) else acc
      else if negb (ipWithCidrInCidr addrStr ipv6LocalLinkCIDR) then (acc.1, acc.2 ++ [addrStr]) else acc
  end.

(** The flags of an interface survive their textual form. *)
Theorem getFlags_set flags : getFlags flags = set_flags flags.
Proof.
  unfold getFlags, Flags_String. destruct (set_flags flags) as [|f l] eqn:E; [done|].
  assert (H : Forall (λ s, all_chars (λ c, negb (Ascii.eqb c "|")) s = true ∧ s ≠ "0") (set_flags flags)).
  { unfold set_flags. apply Forall_map, Forall_forall. intros p Hp.
    apply list_elem_of_In, filter_In in Hp as [Hp _]. apply list_elem_of_In, list_elem_of_lookup in Hp as [j Hj].
    rewrite list_lookup_imap in Hj. destruct (flag_names !! j) as [n|] eqn:En; [|done]. injection Hj as <-.
    simpl. do 6 (destruct j as [|j]; [injection En as <-; done|]). done. }
  rewrite E in H. replace (String.eqb (Join (f :: l) "|") "0") with false.
  - apply Split_Join; [done|]. eapply Forall_impl; [exact H|]. by intros s [].
  - symmetry. apply String.eqb_neq. intros Hj. apply Forall_cons in H as [[H1 H2] _].
    destruct l as [|g l]; [done|]. change (f +:+ String "|" (Join (g :: l) "|") = "0") in Hj.
    destruct f as [|c [|c' f]]; [discriminate Hj..|]. discriminate Hj.
Qed.

Section Interfaces.
Context {env : Env}.
(** net.Interfaces, netlink.LinkByName, RouteList and LinkByIndex *)
Variable list_interfaces : log → result (list net_interface).
Variable link_by_name : log → string → result link.
Variable route_list_v6 : log → string → result (list route).
Variable route_list : log → Z → result (list route).
Variable link_by_index : log → Z → result string.

Definition Interfaces_ : Go (result (list net_interface)) := ask (RNet "Interfaces" []) list_interfaces.
Definition LinkByName (name : string) : Go (result link) :=
  ask (RNet "LinkByName" [name]) (λ l, link_by_name l name).

(** *** util.NetworkInterface *)
Definition IsPhysical (n : net_interface) : Go bool :=
  r ← EvalSymlinks ("/sys/class/net/" +:+ if_Name n);
  mret (match r with Bad _ => true | Good evaledPath => negb (Contains evaledPath "/virtual/") end).

Definition has_type (n : net_interface) (t : string) : Go bool :=
  r ← LinkByName (if_Name n);
  mret (match r with Bad _ => false | Good l => String.eqb (l_Type l) t end).
Definition IsBonding (n : net_interface) : Go bool := has_type n "bond".
Definition IsVlan (n : net_interface) : Go bool := has_type n "vlan".

Definition Type_ (n : net_interface) : Go (result string) :=
  physical ← IsPhysical n;
  if physical : bool then mret (Good "physical") else
  r ← LinkByName (if_Name n);
  mret (match r with Bad err => Bad err | Good l => Good (l_Type l) end).

(** A number out of the 32-bit range is clamped, as ParseInt returns it. *)
Definition SpeedMbps (n : net_interface) : Go Z :=
  b ← ReadFile ("/sys/class/net/" +:+ if_Name n +:+ "/speed");
  mret (match b with
        | Bad _ => 0
        | Good b => match ParseInt (TrimSpace b) 32 with PIOk v => v | PIRange v => v | PISyntax => 0 end
        end)%Z.

(** *** inventory.interfaces *)
Definition hasCarrier (name : string) : Go bool :=
  b ← ReadFile ("/sys/class/net/" +:+ name +:+ "/carrier");
  mret (match b with Bad _ => false | Good b => String.eqb (TrimSpace b) "1" end).

Definition getDeviceField (name field : string) : Go string :=
  b ← ReadFile ("/sys/class/net/" +:+ name +:+ "/device/" +:+ field);
  mret (match b with Bad _ => "" | Good b => TrimSpace b end).

Definition getBiosDevname (name : string) : Go string :=
  '(o, _, _) ← Execute "biosdevname" ["-i"; name]; mret (TrimSpace o).

Definition perm_mac (l : link) : string :=
  match l_Attrs l with
  | None => ""
  | Some a =>
      match la_Slave a with
      | Some (Some mac) => mac
      | _ => default "" (la_HardwareAddr a)
      end
  end.
Definition getPermMacAddress (name : string) : Go string :=
  r ← LinkByName name; mret (match r with Bad _ => "" | Good l => perm_mac l end).

(** The body of the loop of getInterfaces: no record when the addresses or the
    type cannot be read. *)
Definition interface_record (n : net_interface) : Go (option interface_info) :=
  carrier ← hasCarrier (if_Name n);
  mac ← getPermMacAddress (if_Name n);
  bios ← getBiosDevname (if_Name n);
  product ← getDeviceField (if_Name n) "device";
  vendor ← getDeviceField (if_Name n) "vendor";
  speed ← SpeedMbps n;
  match if_Addrs n with
  | Bad _ => mret None
  | Good addrs =>
      let '(v4, v6) := fold_left sort_address addrs ([], []) in
      t ← Type_ n;
      match t with
      | Bad _ => mret None
      | Good t =>
          mret (Some (mkInterfaceInfo carrier v4 v6 mac (if_Name n) (MTU n) bios product vendor
                        (getFlags (if_Flags n)) speed t))
      end
  end.

Definition set_v6 (i : interface_info) (v6 : list string) : interface_info :=
  mkInterfaceInfo (HasCarrier i) (IPV4Addresses i) v6 (MacAddress i) (i_Name i) (Mtu i) (Biosdevname i)
    (Product i) (i_Vendor i) (Flags i) (i_SpeedMbps i) (i_Type i).

Definition setV6PrefixesForAddresses (l : list interface_info) : Go (list interface_info) :=
  mapP (λ intf,
          if Nat.eqb (length (IPV6Addresses intf)) 0 then mret intf else
          '(v6, _) ← SetV6PrefixesForAddress
                       (λ l n, match link_by_name l n with Bad e => Some e | Good _ => None end)
                       route_list_v6 (i_Name intf) (IPV6Addresses intf);
          mret (set_v6 intf v6)) l.

Definition getInterfaces : Go (list interface_info) :=
  ins ← Interfaces_;
  match ins with
  | Bad _ => mret []
  | Good ins =>
      recs ← mapP interface_record ins;
      setV6PrefixesForAddresses (omap id recs)
  end.

Definition GetInterfaces : Go (list interface_info) := getInterfaces.

(** *** Routes *)
Definition AF_INET : Z := 2.
Definition AF_INET6 : Z := 10.

Definition getRouteList (family : Z) : Go (result (list route)) :=
  ask (RNet "RouteList" [Itoa family]) (λ l, route_list l family).

(** The name of the link of the first hop. *)
Definition getLinkName (r : route) : Go (result string) :=
  let linkIndex := match MultiPath r with (i, _) :: _ => i | [] => LinkIndex r end in
  ask (RNet "LinkByIndex" [Itoa linkIndex]) (λ l, link_by_index l linkIndex).

Definition getIPZero (family : Z) : string := if (family =? AF_INET)%Z then "0.0.0.0" else "::".

Definition gateway (r : route) : string :=
  match MultiPath r with
  | (_, Some gw) :: _ => IP_String gw
  | _ => match Gw r with Some gw => IP_String gw | None => "" end
  end.

Definition getIPRoutes (family : Z) : Go (list route_info * option error) :=
  rList ← getRouteList family;
  match rList with
  | Bad err => mret ([], Some err)
  | Good rList =>
      routes ← foldP (λ routes r,
                        name ← getLinkName r;
                        match name with
                        | Bad _ => mret routes
                        | Good linkName =>
                            mret (routes ++
                                  [mkRouteInfo linkName
                                     (match Dst r with None => getIPZero family | Some d => IP_String (net_ip d) end)
                                     (gateway r) (wrap_signed 32 family) (wrap_signed 32 (Priority r))])
                        end) rList [];
      mret (routes, None)
  end.

Definition GetRoutes : Go (list route_info) :=
  '(routes, _) ← getIPRoutes AF_INET;
  '(ipv6Routes, err) ← getIPRoutes AF_INET6;
  mret (match err with Some _ => routes | None => routes ++ ipv6Routes end).

(** ** Facts *)
(** Reads of files, queries for the kernel's tables, and biosdevname. *)
Definition net_reads (r : request) : Prop :=
  match r with
  | RFile _ _ => True
  | RNet _ _ => queries_kernel r = true
  | RExec "biosdevname" ["-i"; _] => True
  | _ => False
  end.

(** The addresses of one family that are not link-local, as text *)
Definition address_text (a : net_addr) : option string :=
  match a with AddrNet n => Some (IP_String (net_ip n) +:+ "/" +:+ Itoa (net_ones n)) | AddrOther _ => None end.
Definition addresses_v4 (addrs : list net_addr) : list string :=
  List.filter (λ s, has_char s "." && negb (ipWithCidrInCidr s ipv4LocalLinkCIDR)) (omap address_text addrs).
Definition addresses_v6 (addrs : list net_addr) : list string :=
  List.filter (λ s, negb (has_char s ".") && negb (ipWithCidrInCidr s ipv6LocalLinkCIDR)) (omap address_text addrs).

Lemma sort_addresses addrs acc :
  fold_left sort_address addrs acc = (acc.1 ++ addresses_v4 addrs, acc.2 ++ addresses_v6 addrs).
Proof.
  revert acc. induction addrs as [|a addrs IH]; intros [v4 v6]; [by rewrite !app_nil_r|].
  cbn [fold_left]. rewrite IH. unfold sort_address, addresses_v4, addresses_v6.
  destruct a as [n|t]; cbn [analyzeAddress omap list_omap address_text List.filter fst snd]; [|done].
  destruct (has_char _ "."); cbn [negb andb]; destruct (ipWithCidrInCidr _ _); cbn [negb fst snd];
    by rewrite <-?(assoc_L (++)).
Qed.

(** The record of an interface: before the prefixes of its IPv6 addresses are
    looked up, and after. *)
Definition link_type (n : net_interface) (t : string) : Prop :=
  t = "physical" ∨ ∃ l lk, link_by_name l (if_Name n) = Good lk ∧ t = l_Type lk.
Definition record_of (n : net_interface) (i : interface_info) (v6_of : list string → list string → Prop) : Prop :=
  i_Name i = if_Name n ∧ Mtu i = MTU n ∧ Flags i = set_flags (if_Flags n) ∧ link_type n (i_Type i) ∧
  ∃ addrs, if_Addrs n = Good addrs ∧ IPV4Addresses i = addresses_v4 addrs ∧ v6_of (addresses_v6 addrs) (IPV6Addresses i).

(** The addresses, each with the prefix length of an advertised route of the
    link that contains it, if there is one. *)
Notation link_error := (λ l n, match link_by_name l n with Bad e => Some e | Good _ => None end).
Definition prefixed (name : string) (old new : list string) : Prop :=
  match old with [] => new = [] | _ => readdressed link_error route_list_v6 name old new end.
Definition interface_ok (n : net_interface) (i : interface_info) : Prop := record_of n i (prefixed (if_Name n)).

(** No record: the addresses cannot be read, nor the type of the link. *)
Definition unreadable (n : net_interface) : Prop :=
  (∃ e, if_Addrs n = Bad e) ∨ ∃ l e, link_by_name l (if_Name n) = Bad e.
Definition reported (ok : net_interface → interface_info → Prop) (n : net_interface) (o : option interface_info) : Prop :=
  match o with Some i => ok n i | None => unreadable n end.

Lemma spec_interface_record n :
  spec net_reads no_change (reported (λ n i, record_of n i (λ old new, new = old)) n) (interface_record n).
Proof.
  unfold interface_record.
  eapply (spec_bind _ _ (λ _, True)); [unfold hasCarrier; prog_steps|]. intros carrier _.
  eapply (spec_bind _ _ (λ _, True)); [by unfold getPermMacAddress, LinkByName; prog_steps|]. intros mac _.
  eapply (spec_bind _ _ (λ _, True)); [unfold getBiosDevname|].
  { eapply (spec_bind _ _ (λ _, True)); [by apply spec_Execute|]. by intros [[o e] c] _. }
  intros bios _.
  eapply (spec_bind _ _ (λ _, True)); [unfold getDeviceField; prog_steps|]. intros product _.
  eapply (spec_bind _ _ (λ _, True)); [unfold getDeviceField; prog_steps|]. intros vendor _.
  eapply (spec_bind _ _ (λ _, True)); [unfold SpeedMbps; prog_steps|]. intros speed _.
  destruct (if_Addrs n) as [addrs|e] eqn:Ea; [|apply spec_ret; left; by exists e].
  rewrite sort_addresses. cbn [fst snd app].
  eapply (spec_bind _ _ (λ t, match t with Good t => link_type n t | Bad _ => unreadable n end)).
  - unfold Type_. eapply (spec_bind _ _ (λ _, True)); [unfold IsPhysical; prog_steps|].
    intros [] _; [apply spec_ret; by left|]. split; [done|]. intros l. cbn [mret proc_ret spec proc_bind_go].
    destruct (link_by_name l (if_Name n)) as [lk|e] eqn:El; [right; by exists l, lk|right; by exists l, e].
  - intros [t|e] Ht; apply spec_ret; [|done]. split_and!; [done..|by rewrite getFlags_set|done|by exists addrs].
Qed.

Lemma spec_setV6 ns l :
  Forall2 (λ n i, record_of n i (λ old new, new = old)) ns l →
  spec net_reads no_change (Forall2 interface_ok ns) (setV6PrefixesForAddresses l).
Proof.
  intros Hl. unfold setV6PrefixesForAddresses.
  eapply spec_conseq; [apply (spec_mapP _ _ (λ i i', ∀ n, record_of n i (λ old new, new = old) → interface_ok n i'))|].
  - intros i _. destruct (Nat.eqb _ 0) eqn:E.
    + apply spec_ret. intros n (Hn & Hm & Hf & Ht & addrs & Ha & H4 & H6). split_and!; [done..|].
      exists addrs. split_and!; [done..|]. rewrite <-H6. apply Nat.eqb_eq in E. by destruct (IPV6Addresses i).
    + assert (Hne : IPV6Addresses i ≠ []) by (intros H; by rewrite H in E).
      eapply spec_bind.
      { eapply spec_mono; [apply (SetV6Prefixes_spec link_error route_list_v6 (i_Name i) _ Hne)|..].
        - intros r Hr. destruct r; try discriminate Hr. exact Hr.
        - done.
        - intros a H. exact H. }
      intros [v6 err] [Hs _]. apply spec_ret. intros n (Hn & Hm & Hf & Ht & addrs & Ha & H4 & H6).
      split_and!; [done..|]. exists addrs. split_and!; [done..|]. rewrite <-H6, <-Hn. cbn [IPV6Addresses set_v6].
      unfold prefixed. by destruct (IPV6Addresses i).
  - intros l' H. clear -Hl H. revert l' H. induction Hl as [|n i ns l Hi _ IH]; intros l' H;
      inversion H; subst; constructor; auto.
Qed.

(** What the inventory makes of the interfaces that the kernel has listed: one
    record for each, in their order, unless it is unreadable. *)
Definition inventory_of (recs : list interface_info) : Prop :=
  (recs = [] ∧ ∃ l e, list_interfaces l = Bad e) ∨
  ∃ l ins os, list_interfaces l = Good ins ∧ Forall2 (reported interface_ok) ins os ∧ recs = omap id os.

Lemma reported_records ins os :
  Forall2 (reported (λ n i, record_of n i (λ old new, new = old))) ins os →
  ∃ ns, Forall2 (λ n i, record_of n i (λ old new, new = old)) ns (omap id os) ∧
    ∀ recs, Forall2 interface_ok ns recs → ∃ os', Forall2 (reported interface_ok) ins os' ∧ recs = omap id os'.
Proof.
  induction 1 as [|n o ins os Ho _ (ns & Hns & IH)].
  - exists []. split; [constructor|]. intros recs H. inversion H; subst. exists []. by split; [constructor|].
  - destruct o as [i|].
    + exists (n :: ns). split; [by constructor|]. intros recs H. inversion H as [|? r ? recs' Hr Hrecs]; subst.
      destruct (IH _ Hrecs) as (os' & Hos & ->). exists (Some r :: os'). split; [by constructor|done].
    + exists ns. split; [done|]. intros recs H. destruct (IH _ H) as (os' & Hos & ->).
      exists (None :: os'). split; [by constructor|done].
Qed.

Lemma spec_getInterfaces : spec net_reads no_change inventory_of getInterfaces.
Proof.
  unfold getInterfaces. split; [done|]. intros l. cbn [mret proc_ret spec proc_bind_go].
  destruct (list_interfaces l) as [ins|e] eqn:El; [|left; split; [done|by exists l, e]].
  eapply spec_bind; [apply (spec_mapP _ _ _ _ _ (λ n _, spec_interface_record n))|].
  intros os Hos. apply reported_records in Hos as (ns & Hns & H).
  eapply spec_conseq; [by apply spec_setV6|]. intros recs Hrecs. right.
  destruct (H _ Hrecs) as (os' & Hos' & ->). by exists l, ins, os'.
Qed.

(** C33. The interface inventory always returns and only reads: files, the
    kernel's links and routes, and biosdevname. It has one record for each
    interface of the host, in the kernel's order, and leaves one out only when
    its addresses or its type cannot be read. A record has the name, the MTU and
    the flags of the interface, exactly its IPv4 addresses that are not
    link-local, and exactly its IPv6 addresses that are not: each with the prefix
    length of a route to its network that the kernel has learnt for that link
    from a router advertisement, with its own when there is none or when link or
    routes cannot be read. *)
Theorem getInterfaces_reports : spec net_reads no_change inventory_of getInterfaces.
Proof. apply spec_getInterfaces. Qed.

End Interfaces.

(** ** A concrete host: an advertised route gives the prefix, a static one does
    not, and the link-local address is left out *)
Module InterfacesDemo.
Definition net (s : string) (ones : Z) : option IPNet :=
  match ParseIP s with Some ip => Some (mkIPNet ip ones) | None => None end.
Definition addr (s : string) (ones : Z) : net_addr :=
  match net s ones with Some n => AddrNet n | None => AddrOther s end.
Definition eth0 : net_interface :=
  mkInterface "eth0" 1500 "52:54:00:00:00:01" 19 (Good [addr "10.0.0.5" 24; addr "2001:db8::5" 128; addr "fe80::1" 64]).
Definition routes : list route :=
  [mkRoute None 9 1 [] None 0; mkRoute (net "2001:db8::" 32) 2 1 [] None 0; mkRoute (net "2001:db8::" 64) 9 1 [] None 0].
Example demo_record :
  let '(o, _, _) := run (@getInterfaces null_env (λ _, Good [eth0]) (λ _ _, Good (mkLink "device" None))
                           (λ _ _, Good routes)) [] shared_init in
  match o with
  | Done [i] => (i_Name i, IPV4Addresses i, IPV6Addresses i) = ("eth0", ["10.0.0.5/24"], ["2001:db8::5/64"])
  | _ => False
  end.
Proof. vm_compute. reflexivity. Qed.
End InterfacesDemo.
