(* ===== verification/Sort.v ===== *)
(** * sort.SliceStable by a string key (byte-wise order) *)
From stdpp Require Import sorting.
From S2P Require Import Prelude GoStrings.

Definition key_le (s t : string) : bool := String.leb s t.

Fixpoint insert_by {A} (key : A → string) (x : A) (l : list A) : list A :=
  match l with
  | [] => [x]
  | y :: l' => if key_le (key x) (key y) then x :: l else y :: insert_by key x l'
  end.
Fixpoint sort_by {A} (key : A → string) (l : list A) : list A :=
  match l with [] => [] | x :: l' => insert_by key x (sort_by key l') end.

(** ** Facts *)
Lemma key_le_trans s t u : key_le s t = true → key_le t u = true → key_le s u = true.
Proof.
  unfold key_le, String.leb. revert t u. induction s as [|a s IH]; intros t u; [by destruct u|].
  destruct t as [|b t]; [done|]. destruct u as [|c u]; [done|]. simpl. unfold Ascii.compare.
  destruct (N.compare_spec (N_of_ascii a) (N_of_ascii b)) as [E1|E1|E1]; [| |done];
  destruct (N.compare_spec (N_of_ascii b) (N_of_ascii c)) as [E2|E2|E2]; try done;
  destruct (N.compare_spec (N_of_ascii a) (N_of_ascii c)) as [E3|E3|E3]; try done; try lia.
  apply IH.
Qed.

Lemma key_le_total s t : key_le s t = true ∨ key_le t s = true.
Proof. apply String.leb_total. Qed.

Section Sort.
Context {A : Type} (key : A → string).
Definition by_key (x y : A) : Prop := key_le (key x) (key y) = true.

Lemma insert_by_Permutation x l : insert_by key x l ≡ₚ x :: l.
Proof.
  induction l as [|y l IH]; simpl; [done|]. destruct (key_le (key x) (key y)); [done|].
  rewrite IH. apply Permutation_swap.
Qed.

Lemma sort_by_Permutation l : sort_by key l ≡ₚ l.
Proof. induction l as [|x l IH]; simpl; [done|]. by rewrite insert_by_Permutation, IH. Qed.

Lemma insert_by_sorted x l : StronglySorted by_key l → StronglySorted by_key (insert_by key x l).
Proof.
  induction 1 as [|y l Hl IH Hy]; simpl; [repeat constructor|].
  destruct (key_le (key x) (key y)) eqn:E.
  - constructor; [by constructor|]. constructor; [done|].
    eapply Forall_impl; [exact Hy|]. intros z Hz. by eapply key_le_trans.
  - constructor; [done|]. rewrite insert_by_Permutation. constructor; [|done].
    unfold by_key. destruct (key_le_total (key x) (key y)); [congruence|done].
Qed.

Lemma sort_by_sorted l : StronglySorted by_key (sort_by key l).
Proof. induction l as [|x l IH]; simpl; [constructor|by apply insert_by_sorted]. Qed.

(** When the keys are distinct the result does not depend on the order. *)
Lemma sort_by_unique l l' : l ≡ₚ l' → NoDup (map key l) → sort_by key l = sort_by key l'.
Proof.
  intros Hp Hnd. eapply StronglySorted_unique_strong; [|apply sort_by_sorted..|].
  - intros x y Hx Hy H1 H2. rewrite sort_by_Permutation in Hx. rewrite sort_by_Permutation, <-Hp in Hy.
    assert (E : key x = key y) by (by apply String.leb_antisym).
    apply list_elem_of_lookup in Hx as [i Hi]. apply list_elem_of_lookup in Hy as [j Hj].
    assert (i = j) as ->; [|congruence]. eapply NoDup_lookup; [exact Hnd|..].
    + by rewrite list_lookup_fmap, Hi.
    + by rewrite list_lookup_fmap, Hj, E.
  - by rewrite !sort_by_Permutation.
Qed.
End Sort.
