(* ===== verification/Scanner.v ===== *)
(** * The identity of the host (src/scanners/machine_uuid_scanner.go)

    The id under which the host registers: derived from the serial number of
    its board, else its system UUID, else the least of its MAC addresses, else
    a fixed value. *)
From S2P Require Import Prelude GoStrings Host Md5 Regex Uuid System Net Network Interfaces Sort.

Definition SerialDefaultString : string := "default string".
Definition SerialUnspecifiedBaseBoardString : string := "unspecified base board serial number".
Definition SerialUnspecifiedSystemString : string := "unspecified system serial number".
Definition SerialNotSpecified : string := "not specified".
Definition SerialProliantGen11 : string := "PCA_number.ACC".
Definition ZeroesUUID : string := "00000000-0000-0000-0000-000000000000".
Definition KaloomUUID : string := "03000200-0400-0500-0006-000700080009".
Definition FailureUUID : string := "deaddead-dead-dead-dead-deaddeaddead".
(** util.UNKNOWN of ghw *)
Definition UNKNOWN : string := "unknown".

Definition unknownSerialCases : list string :=
  [""; UNKNOWN; "none"; "(none)"; "-"; SerialUnspecifiedBaseBoardString; SerialUnspecifiedSystemString;
   SerialDefaultString; SerialNotSpecified; ToLower SerialProliantGen11].
Definition unknownUuidCases : list string := [""; UNKNOWN; ZeroesUUID; KaloomUUID].

(** funk.Contains on a list of strings *)
Definition funk_Contains (l : list string) (s : string) : bool := existsb (String.eqb s) l.

(** ** The scanner *)
Definition md5GenerateUUID (str : string) : string :=
  let md5Str := md5_hex str in
  take_chars 8 md5Str +:+ "-" +:+ take_chars 4 (drop_chars 8 md5Str) +:+ "-" +:+
  take_chars 4 (drop_chars 12 md5Str) +:+ "-" +:+ take_chars 4 (drop_chars 16 md5Str) +:+ "-" +:+
  drop_chars 20 md5Str.

(** The first interface by MAC address among those that have one. *)
Definition uuidFromNetworkInterfaces (interfaces : list interface_info) : option string :=
  match sort_by MacAddress (List.filter (λ i, negb (String.eqb (MacAddress i) "")) interfaces) with
  | [] => None
  | iface :: _ => Some (md5GenerateUUID (MacAddress iface))
  end.

Section ReadId.
Context {env : Env}.
(** ghw's Product and Baseboard (the serial number), and the kernel's network. *)
Variable ghw_product : log → result product_info.
Variable ghw_baseboard : log → result string.
Variable list_interfaces : log → result (list net_interface).
Variable link_by_name : log → string → result link.
Variable route_list_v6 : log → string → result (list route).

Definition readSystemUUID : Go (option string) :=
  product ← ask (RFile "ghw.Product" "") ghw_product;
  let value := match product with Bad _ => "" | Good p => p_UUID p end in
  mret (if negb (IsUUID value) || funk_Contains unknownUuidCases (ToLower value)
        then None else Some (ToLower value)).

Definition readMotherboardSerial : Go (option string) :=
  baseboard ← ask (RFile "ghw.Baseboard" "") ghw_baseboard;
  mret (match baseboard with
        | Bad _ => None
        | Good serial => if funk_Contains unknownSerialCases (ToLower serial)
                         then None else Some (md5GenerateUUID serial)
        end).

Definition ReadId : Go string :=
  motherboardSerialUUID ← readMotherboardSerial;
  match motherboardSerialUUID with
  | Some id => mret id
  | None =>
      systemUUID ← readSystemUUID;
      match systemUUID with
      | Some id => mret id
      | None =>
          interfaces ← GetInterfaces list_interfaces link_by_name route_list_v6;
          mret (default FailureUUID (uuidFromNetworkInterfaces interfaces))
      end
  end.
End ReadId.

Example md5_uuid : md5GenerateUUID "abc" = "90015098-3cd2-4fb0-d696-3f7d28e17f72".
Proof. vm_compute. reflexivity. Qed.
Example uuid_forms :
  map IsUUID ["urn:UUID:03000200-0400-0500-0006-000700080009"; "{03000200-0400-0500-0006-000700080009}";
    "03000200040005000006000700080009"; "03000200-0400-0500-0006-00070008000g"; "none"] =
  [true; true; true; false; false].
Proof. vm_compute. reflexivity. Qed.

(** ** Facts *)
(** *** The generated ids *)
(** Lower-case hexadecimal digits with hyphens after the 8th, 12th, 16th and
    20th of 32. *)
Definition canonical_uuid (s : string) : Prop :=
  String.length s = 36 ∧ uuid_dashed s = true ∧ ToLower s = s.

Definition hex_ok (c : ascii) : bool := xvalue_ok (Some c) && Ascii.eqb (to_lower_char c) c.
Lemma is_hex_ok c : is_hex c = true → hex_ok c = true.
Proof. destruct c as [[] [] [] [] [] [] [] []]; vm_compute; congruence. Qed.

Lemma md5_hex_chars s : all_chars is_hex (md5_hex s) = true.
Proof. apply hex_bytes_hex, md5_Sum_range. Qed.
Lemma md5_hex_length s : String.length (md5_hex s) = 32.
Proof. unfold md5_hex. by rewrite hex_bytes_length, md5_Sum_length. Qed.

Lemma hyphenated h :
  String.length h = 32 → all_chars is_hex h = true →
  canonical_uuid (take_chars 8 h +:+ "-" +:+ take_chars 4 (drop_chars 8 h) +:+ "-" +:+
    take_chars 4 (drop_chars 12 h) +:+ "-" +:+ take_chars 4 (drop_chars 16 h) +:+ "-" +:+ drop_chars 20 h).
Proof.
  intros Hl Hc. do 32 (destruct h as [|? h]; [discriminate Hl|]). destruct h; [|discriminate Hl].
  cbn [all_chars] in Hc. rewrite !andb_true_iff in Hc. destruct_and! Hc.
  repeat match goal with H : is_hex _ = true |- _ => apply is_hex_ok in H; unfold hex_ok in H;
    apply andb_true_iff in H; destruct H as [? H]; apply Ascii.eqb_eq in H end.
  split_and!; [reflexivity| |].
  - cbv [uuid_dashed is_char forallb xtob take_chars drop_chars String.append String.get].
    repeat match goal with H : xvalue_ok _ = true |- _ => rewrite H; clear H end. reflexivity.
  - cbn [take_chars drop_chars]. cbv [String.append]. cbn [ToLower].
    repeat match goal with H : to_lower_char _ = _ |- _ => rewrite H; clear H end. reflexivity.
Qed.

Lemma md5GenerateUUID_canonical s : canonical_uuid (md5GenerateUUID s).
Proof. apply hyphenated; [apply md5_hex_length|apply md5_hex_chars]. Qed.

(** *** The interfaces *)
Lemma sort_by_head {A} (key : A → string) l x rest :
  sort_by key l = x :: rest → x ∈ l ∧ ∀ y, y ∈ l → key_le (key x) (key y) = true.
Proof.
  intros E. pose proof (sort_by_sorted key l) as Hs. pose proof (sort_by_Permutation key l) as Hp.
  rewrite E in Hs, Hp. split; [rewrite <-Hp; left|]. intros y Hy. rewrite <-Hp in Hy.
  inversion Hs as [|? ? _ Hx]; subst. apply elem_of_cons in Hy as [->|Hy].
  - by destruct (key_le_total (key x) (key x)).
  - rewrite Forall_forall in Hx. by apply Hx.
Qed.

(** Interfaces with a MAC address *)
Definition with_mac (l : list interface_info) : list interface_info :=
  List.filter (λ i, negb (String.eqb (MacAddress i) "")) l.
Lemma elem_of_with_mac i l : i ∈ with_mac l ↔ i ∈ l ∧ MacAddress i ≠ "".
Proof.
  unfold with_mac. rewrite list_elem_of_In, filter_In, <-list_elem_of_In, negb_true_iff, String.eqb_neq. done.
Qed.

Lemma network_id interfaces :
  match uuidFromNetworkInterfaces interfaces with
  | Some id => ∃ i, i ∈ interfaces ∧ MacAddress i ≠ "" ∧ id = md5GenerateUUID (MacAddress i) ∧
      (∀ j, j ∈ interfaces → MacAddress j ≠ "" → key_le (MacAddress i) (MacAddress j) = true) ∧
      (∀ others, others ≡ₚ interfaces → uuidFromNetworkInterfaces others = Some id)
  | None => ∀ i, i ∈ interfaces → MacAddress i = ""
  end.
Proof.
  unfold uuidFromNetworkInterfaces. fold (with_mac interfaces).
  destruct (sort_by MacAddress (with_mac interfaces)) as [|i rest] eqn:E.
  - intros i Hi. destruct (decide (MacAddress i = "")) as [|Hm]; [done|].
    assert (H : i ∈ with_mac interfaces) by (by apply elem_of_with_mac).
    rewrite <-(sort_by_Permutation MacAddress), E in H. by apply not_elem_of_nil in H.
  - apply sort_by_head in E as [Hi Hl]. apply elem_of_with_mac in Hi as Hi'. destruct Hi' as [Hin Hm].
    exists i. split_and!; [done|done|done| |].
    { intros j Hj Hmj. apply Hl. by apply elem_of_with_mac. }
    intros others Hp. fold (with_mac others).
    assert (Hpm : ∀ j, j ∈ with_mac others ↔ j ∈ with_mac interfaces)
      by (intros j; by rewrite !elem_of_with_mac, Hp).
    destruct (sort_by MacAddress (with_mac others)) as [|j rest'] eqn:E.
    + apply Hpm in Hi. rewrite <-(sort_by_Permutation MacAddress), E in Hi. by apply not_elem_of_nil in Hi.
    + apply sort_by_head in E as [Hj Hl']. do 2 f_equal.
      apply String.leb_antisym; [by apply Hl', Hpm|by apply Hl, Hpm].
Qed.

(** C32. Without a usable serial number or system UUID, the id of a host is made
    of the least of the MAC addresses of its interfaces: the order in which the
    kernel lists them plays no role, nor which interface carries the address;
    there is none only when no interface has a MAC address. *)
Theorem network_id_least_mac interfaces :
  match uuidFromNetworkInterfaces interfaces with
  | Some id => ∃ i, i ∈ interfaces ∧ MacAddress i ≠ "" ∧ id = md5GenerateUUID (MacAddress i) ∧
      (∀ j, j ∈ interfaces → MacAddress j ≠ "" → key_le (MacAddress i) (MacAddress j) = true) ∧
      (∀ others, others ≡ₚ interfaces → uuidFromNetworkInterfaces others = Some id)
  | None => ∀ i, i ∈ interfaces → MacAddress i = ""
  end.
Proof. apply network_id. Qed.

Section Facts.
Context {env : Env}.

(** Known to identify a host *)
Definition good_uuid (id : string) : Prop :=
  IsUUID id = true ∧ ToLower id = id ∧ id ∉ unknownUuidCases.

Lemma funk_Contains_false l s : funk_Contains l s = false → s ∉ l.
Proof.
  intros H Hin. enough (funk_Contains l s = true) by congruence.
  apply existsb_exists. exists s. split; [by apply list_elem_of_In|apply String.eqb_refl].
Qed.

Lemma spec_ReadId product baseboard interfaces link routes :
  spec net_reads no_change (λ id, canonical_uuid id ∨ good_uuid id)
    (ReadId product baseboard interfaces link routes).
Proof.
  unfold ReadId. eapply (spec_bind _ _ (λ o, match o with Some id => canonical_uuid id | None => True end)).
  { unfold readMotherboardSerial. eapply (spec_bind _ _ (λ _, True)); [by apply spec_ask|].
    intros [serial|e] _; apply spec_ret; [|done]. destruct (funk_Contains _ _); [done|].
    apply md5GenerateUUID_canonical. }
  intros [id|] Hid; [apply spec_ret; by left|].
  eapply (spec_bind _ _ (λ o, match o with Some id => good_uuid id | None => True end)).
  { unfold readSystemUUID. eapply (spec_bind _ _ (λ _, True)); [by apply spec_ask|].
    intros p _. apply spec_ret. destruct (_ || _) eqn:E; [done|]. apply orb_false_iff in E as [E1 E2].
    apply negb_false_iff in E1. split_and!; [by rewrite IsUUID_lower|apply ToLower_idem|].
    by apply funk_Contains_false. }
  intros [id|] Hid'; [apply spec_ret; by right|].
  eapply spec_bind; [apply spec_getInterfaces|]. intros l _. apply spec_ret. left.
  pose proof (network_id l) as H. destruct (uuidFromNetworkInterfaces l) as [id|]; simpl.
  - destruct H as (i & _ & _ & -> & _). apply md5GenerateUUID_canonical.
  - by split_and!; vm_compute.
Qed.

(** C31. Reading the identity of the host always gives an id and only reads: the
    id is in the canonical form of UUIDs, or it is the system UUID in lower
    case, one that parses and is not one of the values vendors share. *)
Theorem ReadId_identifies product baseboard interfaces link routes :
  spec net_reads no_change (λ id, canonical_uuid id ∨ good_uuid id)
    (ReadId product baseboard interfaces link routes).
Proof. apply spec_ReadId. Qed.

(** The serial number of the board comes first, then the system UUID. *)
Lemma ReadId_board product baseboard interfaces link routes l s serial :
  baseboard l = Good serial → funk_Contains unknownSerialCases (ToLower serial) = false →
  run (ReadId product baseboard interfaces link routes) l s =
    (Done (md5GenerateUUID serial), l ++ [RFile "ghw.Baseboard" ""], s).
Proof.
  intros Hb Hk. unfold ReadId, readMotherboardSerial. rewrite run_bind. cbn [run ask mret mbind proc_bind proc_bind_go proc_ret].
  by rewrite Hb, Hk.
Qed.
End Facts.
