(* ===== verification/Inventory.v ===== *)
(** * The inventory of a host (src/inventory/inventory.go, dry_inventory.go)

    Every part of the inventory is read in turn; a forbidden host name is
    replaced by one made of a MAC address, and a dry run keeps one interface with
    the forced addresses. *)
From stdpp Require Import sorting.
From S2P Require Import Prelude GoStrings GoFloat Host Config Net Network Sort Disks System Interfaces.

(** models.Inventory *)
Record inventory : Type := mkInventory {
  BmcAddress : string; BmcV6address : string; Boot : boot; CPU : cpu; inv_Disks : list disk; Gpus : list gpu;
  Hostname : string; inv_Interfaces : list interface_info; Memory : memory; SystemVendor : system_vendor;
  Routes : list route_info; TpmVersion : string
}.
Definition set_hostname (i : inventory) (h : string) : inventory :=
  mkInventory (BmcAddress i) (BmcV6address i) (Boot i) (CPU i) (inv_Disks i) (Gpus i) h (inv_Interfaces i)
    (Memory i) (SystemVendor i) (Routes i) (TpmVersion i).
Definition set_interfaces (i : inventory) (l : list interface_info) : inventory :=
  mkInventory (BmcAddress i) (BmcV6address i) (Boot i) (CPU i) (inv_Disks i) (Gpus i) (Hostname i) l
    (Memory i) (SystemVendor i) (Routes i) (TpmVersion i).

(** ** The host name *)
Definition forbiddenHostnames : list string :=
  ["localhost"; "localhost.localdomain"; "localhost4"; "localhost4.localdomain4"; "localhost6";
   "localhost6.localdomain6"].
Definition isForbiddenHostname (hostname : string) : bool := existsb (String.eqb hostname) forbiddenHostnames.

Definition isGlobalCIDR (cidr : string) : result bool :=
  match ParseCIDR cidr with
  | None => Bad (cidr_error cidr)
  | Some (ip, _) => Good (IsGlobalUnicast ip)
  end.

Fixpoint hasGlobalCIDR (ips : list string) : result bool :=
  match ips with
  | [] => Good false
  | ip :: ips' =>
      match isGlobalCIDR ip with
      | Bad err => Bad err
      | Good true => Good true
      | Good false => hasGlobalCIDR ips'
      end
  end.

(** One interface: [None] when it cannot be used, an error when one of its
    addresses cannot be parsed. *)
Definition usable_nic (nic : interface_info) : result bool :=
  if negb (existsb (String.eqb (i_Type nic)) ["physical"; "vlan"; "bond"]) then Good false else
  if String.eqb (MacAddress nic) "" then Good false else
  match hasGlobalCIDR (IPV4Addresses nic) with
  | Bad err => Bad err
  | Good hasV4 =>
      match hasGlobalCIDR (IPV6Addresses nic) with
      | Bad err => Bad err
      | Good hasV6 => Good (hasV4 || hasV6)
      end
  end.

Fixpoint first_usable (nics : list interface_info) : result (option interface_info) :=
  match nics with
  | [] => Good None
  | nic :: nics' =>
      match usable_nic nic with
      | Bad err => Bad err
      | Good true => Good (Some nic)
      | Good false => first_usable nics'
      end
  end.
Definition findUsableNIC (i : inventory) : result (option interface_info) :=
  first_usable (sort_by i_Name (inv_Interfaces i)).

(** A8:CD:16:AE:79:01 gives a8-cd-16-ae-79-01. *)
Definition mac_hostname (mac : string) : string := ToLower (ReplaceAll mac ":" "-").

Definition calculateHostname (i : inventory) : result string :=
  match findUsableNIC i with
  | Bad err => Bad err
  | Good None => Good (Hostname i)
  | Good (Some nic) => Good (mac_hostname (MacAddress nic))
  end.

Definition processInventory (i : inventory) : inventory :=
  if isForbiddenHostname (Hostname i)
  then match calculateHostname i with Bad _ => i | Good h => set_hostname i h end
  else i.

(** ** The dry run *)
Definition findRelevantInterface (i : inventory) : option nat :=
  match list_find (λ nic, IPV4Addresses nic ≠ []) (inv_Interfaces i) with
  | Some (n, _) => Some n
  | None => None
  end.

Definition force_addresses (cfg : DryRunConfig) (nic : interface_info) : interface_info :=
  mkInterfaceInfo (HasCarrier nic) (<[0%nat := ForcedHostIPv4 cfg]> (IPV4Addresses nic)) (IPV6Addresses nic)
    (ForcedMacAddress cfg) (i_Name nic) (Mtu nic) (Biosdevname nic) (Product nic) (i_Vendor nic) (Flags nic)
    (i_SpeedMbps nic) (i_Type nic).

Definition applyDryRunConfig (cfg : InventoryConfig) (i : inventory) : inventory :=
  match findRelevantInterface i with
  | None => i
  | Some n =>
      match inv_Interfaces i !! n with
      | Some nic => set_interfaces i [force_addresses (ic_dry cfg) nic]
      | None => i
      end
  end.

Section Inventory.
Context {env : Env}.
(** ghw, the codecs of the outputs of commands, and the kernel's network. *)
Variable ghw_block : log → result (list block_disk).
Variable ghw_memory : log → result Z.
Variable ghw_pci : log → result (list pci_device).
Variable ghw_product : log → result product_info.
Variable ghw_chassis : log → result string.
Variable unmarshal_lscpu : string → result (list (string * string)).
Variable unmarshal_lan6 : string → result (list (option yaml_address)).
Variable unmarshal_gpus : string → result GPUConfig.
Variable ParseFloat : string → float64.
Variable os_hostname : log → result string.
Variable list_interfaces : log → result (list net_interface).
Variable link_by_name : log → string → result link.
Variable route_list_v6 : log → string → result (list route).
Variable route_list : log → Z → result (list route).
Variable link_by_index : log → Z → result string.
(** encoding/json; what is printed when it fails *)
Variable marshal_inventory : inventory → string.

Definition ReadInventory (cfg : InventoryConfig) : Go inventory :=
  bmc ← GetBmcAddress cfg;
  bmc6 ← GetBmcV6Address unmarshal_lan6 cfg;
  boot ← GetBoot;
  cpu ← GetCPU unmarshal_lscpu ParseFloat;
  disks ← GetDisks ghw_block;
  gpus ← GetGPUs ghw_pci unmarshal_gpus cfg;
  hostname ← GetHostname os_hostname (ic_dry cfg);
  interfaces ← GetInterfaces list_interfaces link_by_name route_list_v6;
  memory ← GetMemory ghw_memory;
  vendor ← GetVendor ghw_product ghw_chassis;
  routes ← GetRoutes route_list link_by_index;
  tpm ← GetTPM;
  mret (processInventory (mkInventory bmc bmc6 boot cpu disks gpus hostname interfaces memory vendor routes tpm)).

Definition CreateInventoryInfo (cfg : InventoryConfig) : Go string :=
  i ← ReadInventory cfg;
  mret (marshal_inventory (if DryRunEnabled (ic_dry cfg) then applyDryRunConfig cfg i else i)).
End Inventory.
(** ** Facts *)
(** *** The inventory only reads *)
(** Programs that report: the inventory runs no other. *)
Definition reading_programs : list string :=
  ["ipmitool"; "findmnt"; "lscpu"; "dmidecode"; "cat"; "grep"; "systemd-detect-virt"; "biosdevname"; "file"; "sg_inq"].
(** ipmitool only with a lan or lan6 print command. *)
Definition reading_command (command : string) (args : list string) : bool :=
  existsb (String.eqb command) reading_programs &&
  (negb (String.eqb command "ipmitool") ||
   match args with lan :: print :: _ => existsb (String.eqb lan) ["lan"; "lan6"] && String.eqb print "print" | _ => false end).
(** What is asked of a file, of the file system or of the hardware *)
Definition file_queries : list string :=
  ["ReadFile"; "ReadDir"; "Stat"; "EvalSymlinks"; "Abs"; "Open"; "ReadFull"; "Hostname";
   "ghw.Block"; "ghw.Chassis"; "ghw.Memory"; "ghw.PCI"; "ghw.Product"].
(** A program that reports, here or in the host's namespaces, a query of files, or
    one of the kernel's links and routes ([kernel_queries]); no other network
    operation: no link is deleted, no lease taken, nothing fetched or uploaded.
    [RSchedule] is no request to the host, but the order in which goroutines end. *)
Definition reads (r : request) : bool :=
  match r with
  | RExec "nsenter" args =>
      bool_decide (take 7 args = ["--target"; "1"; "--cgroup"; "--mount"; "--ipc"; "--net"; "--"]) &&
      match drop 7 args with command :: args' => reading_command command args' | [] => false end
  | RExec command args => reading_command command args
  | RFile op _ => existsb (String.eqb op) file_queries
  | RNet _ _ => queries_kernel r
  | RSchedule => true
  | _ => false
  end.

Section ReadsOnly.
Context {env : Env}.
Notation reading m := (emits (λ r, reads r = true) no_change m).

Lemma reading_bmc_address n ch : reading (bmc_address n ch).
Proof. revert ch. induction n as [|n IH]; intros ch; cbn [bmc_address]; quiet. Qed.
Lemma reading_v6_entries dynamic entries : reading (v6_entries dynamic entries).
Proof. induction entries as [|x l IH]; cbn [v6_entries]; quiet. Qed.
#[local] Hint Resolve reading_v6_entries : quiet.
Lemma reading_bmc_v6 f n ch : reading (bmc_v6_address f n ch).
Proof. revert ch. induction n as [|n IH]; intros ch; cbn [bmc_v6_address]; quiet. Qed.
#[local] Hint Resolve reading_bmc_address reading_bmc_v6 : quiet.

Lemma reading_findP {A} (f : A → Go bool) l : (∀ x, reading (f x)) → reading (findP f l).
Proof. intros Hf. induction l as [|x l IH]; cbn [findP]; quiet. Qed.
Lemma reading_ibft target files : reading (ibft_targets target files).
Proof. induction files as [|x l IH]; cbn [ibft_targets]; quiet. Qed.
Lemma reading_isAppliance d : reading (isAppliance d).
Proof. pose proof (@reading_findP partition). quiet. Qed.
#[local] Hint Resolve reading_ibft reading_isAppliance reading_findP : quiet.

(** C15. Taking the inventory of a host changes nothing on it: every command that
    is run is one of a list of programs that only report (ipmitool only to print
    the LAN configuration), and everything else is a query of files, of the
    hardware (ghw), or of the kernel's links and routes. *)
Theorem inventory_reads_only a b c d e f g h i j k l m n o p cfg :
  reading (CreateInventoryInfo a b c d e f g h i j k l m n o p cfg).
Proof. quiet. Qed.
End ReadsOnly.

(** *** The host name *)
Lemma first_usable_least l nic :
  StronglySorted (by_key i_Name) l → nic ∈ l → usable_nic nic = Good true →
  (∀ other, other ∈ l → key_le (i_Name other) (i_Name nic) = true → other ≠ nic → usable_nic other = Good false) →
  first_usable l = Good (Some nic).
Proof.
  intros Hs. induction Hs as [|x l Hl IH Hx]; intros Hin Hu Ho; [by apply not_elem_of_nil in Hin|].
  cbn [first_usable]. apply elem_of_cons in Hin as [<-|Hin]; [by rewrite Hu|].
  destruct (decide (x = nic)) as [->|Hne]; [by rewrite Hu|].
  assert (E : usable_nic x = Good false) by (apply Ho; [left|by eapply Forall_forall in Hx|done]).
  rewrite E. apply IH; [done|done|]. intros other H. apply Ho. by right.
Qed.

(** C36. A forbidden host name is replaced by the MAC address, in lower case with
    hyphens, of the usable interface whose name comes first: physical, VLAN or
    bond, with a MAC address and a global IP address. The order in which the
    interfaces were found plays no role, and nothing else in the inventory
    changes. *)
Theorem processInventory_hostname i nic :
  isForbiddenHostname (Hostname i) = true →
  nic ∈ inv_Interfaces i → usable_nic nic = Good true →
  (∀ other, other ∈ inv_Interfaces i → key_le (i_Name other) (i_Name nic) = true → other ≠ nic →
            usable_nic other = Good false) →
  processInventory i = set_hostname i (mac_hostname (MacAddress nic)).
Proof.
  intros Hf Hin Hu Ho. unfold processInventory, calculateHostname, findUsableNIC. rewrite Hf.
  rewrite (first_usable_least _ nic); [done|apply sort_by_sorted| |done|].
  - by rewrite sort_by_Permutation.
  - intros other H. apply Ho. by rewrite sort_by_Permutation in H.
Qed.

(** An acceptable name, or one for which there is no usable interface, stays. *)
Lemma processInventory_same i :
  isForbiddenHostname (Hostname i) = false ∨ (∀ nic, nic ∈ inv_Interfaces i → usable_nic nic = Good false) →
  processInventory i = i.
Proof.
  intros [H|H]; unfold processInventory; [by rewrite H|]. destruct (isForbiddenHostname _); [|done].
  unfold calculateHostname, findUsableNIC.
  assert (E : first_usable (sort_by i_Name (inv_Interfaces i)) = Good None).
  { assert (Hn : ∀ nic, nic ∈ sort_by i_Name (inv_Interfaces i) → usable_nic nic = Good false).
    { intros nic Hin. apply H. by rewrite sort_by_Permutation in Hin. }
    induction (sort_by i_Name (inv_Interfaces i)) as [|x l IH]; [done|]. cbn [first_usable].
    rewrite (Hn x) by left. apply IH. intros. apply Hn. by right. }
  rewrite E. by destruct i.
Qed.

Definition demo_nic (name mac : string) (v4 : list string) : interface_info :=
  mkInterfaceInfo true v4 [] mac name 1500 "" "" "" [] 1000 "physical".
Definition demo_inventory : inventory :=
  mkInventory "" "" (mkBoot "" "" "" SBUnknown "") no_cpu [] [] "localhost"
    [demo_nic "eth1" "A8:CD:16:AE:79:01" ["192.168.1.2/24"]; demo_nic "eth0" "52:54:00:00:00:01" ["127.0.0.1/8"]]
    (mkMemory 0 0 NoMethod) (mkVendor "" "" "" false) [] "".

Lemma processInventory_hostname_witness :
  Hostname (processInventory demo_inventory) = "a8-cd-16-ae-79-01".
Proof.
  rewrite (processInventory_hostname demo_inventory (demo_nic "eth1" "A8:CD:16:AE:79:01" ["192.168.1.2/24"])).
  - reflexivity.
  - reflexivity.
  - left.
  - vm_compute. reflexivity.
  - intros other H. apply elem_of_cons in H as [->|H]; [by intros _ []|].
    apply list_elem_of_singleton in H as ->. intros _ _. vm_compute. reflexivity.
Defined.
