(* ===== verification/Connectivity.v ===== *)
(** * Connectivity checks (src/connectivity_check)

    Each remote host is checked by every checker at each of its addresses; the
    checks run at the same time and report to a channel, in any order. *)
From stdpp Require Import sorting.
From S2P Require Import Prelude GoStrings GoFloat Sort Host Config Net Network Interfaces Regex FreeAddresses.

(** ** Data *)
(** models.ConnectivityCheckNic, ConnectivityCheckHost *)
Record check_nic : Type := mkCheckNic { cn_Mac : string; IPAddresses : list string }.
Record check_host : Type := mkCheckHost { HostID : string; Nics : list check_nic }.
(** A decoded host: the lists of a request are lists of pointers. *)
Record host_param : Type := mkHostParam { hp_HostID : string; hp_Nics : list (option check_nic) }.
Definition host_of (h : option host_param) : option check_host :=
  h ← h; nics ← mapM id (hp_Nics h); Some (mkCheckHost (hp_HostID h) nics).

(** models.L2Connectivity, L3Connectivity, MtuReport, ConnectivityRemoteHost *)
Record l2 : Type := mkL2 {
  OutgoingIPAddress : string; l2_OutgoingNic : string; l2_RemoteIPAddress : string;
  RemoteMac : string; l2_Successful : bool
}.
Record l3 : Type := mkL3 {
  l3_RemoteIPAddress : string; l3_Successful : bool;
  PacketLossPercentage : float64; AverageRTTMs : float64
}.
Record mtu_report : Type := mkMtu { m_RemoteIPAddress : string; m_OutgoingNic : string; MtuSuccessful : bool }.
Record remote_host : Type := mkRemoteHost {
  rh_HostID : string; L2Connectivity : list l2; L3Connectivity : list l3; MtuReport : list mtu_report
}.

Record outgoing_nic : Type := mkNic {
  nic_MTU : Z; nic_Name : string; HasIpv4Addresses : bool; HasIpv6Addresses : bool; nic_Addresses : list net_addr
}.
Definition no_nic : outgoing_nic := mkNic 0 "" false false [].

Record attributes : Type := mkAttributes {
  RemoteIPAddress : string; RemoteMACAddress : string; OutgoingNIC : outgoing_nic;
  RemoteMACAddresses : list string
}.

(** The implementations of ResultReporter and their Report methods. *)
Inductive reporter : Type :=
  | ReportL3 (r : l3)
  | ReportL2s (rs : list l2)
  | ReportMtu (r : mtu_report).

Definition pingResult_Report (x : l3) (h : remote_host) : remote_host * option error :=
  (mkRemoteHost (rh_HostID h) (L2Connectivity h) (L3Connectivity h ++ [x]) (MtuReport h), None).
(** Of arpingResult; l2Result is the case of one record. *)
Definition arpingResult_Report (xs : list l2) (h : remote_host) : remote_host * option error :=
  (mkRemoteHost (rh_HostID h) (L2Connectivity h ++ xs) (L3Connectivity h) (MtuReport h), None).
Definition mtuResult_Report (x : mtu_report) (h : remote_host) : remote_host * option error :=
  (mkRemoteHost (rh_HostID h) (L2Connectivity h) (L3Connectivity h) (MtuReport h ++ [x]), None).
Arguments pingResult_Report _ _ /.
Arguments arpingResult_Report _ _ /.
Arguments mtuResult_Report _ _ /.
Definition Report (r : reporter) (h : remote_host) : remote_host * option error :=
  match r with
  | ReportL3 x => pingResult_Report x h
  | ReportL2s xs => arpingResult_Report xs h
  | ReportMtu x => mtuResult_Report x h
  end.

(** The features of a checker, a bit each. *)
Definition RemoteIPFeature : Z := Z.shiftl 1 0.
Definition OutgoingNicFeature : Z := Z.shiftl 1 1.
Definition RemoteMACFeature : Z := Z.shiftl 1 2.

(** The interface Checker *)
Record checker : Type := mkChecker {
  Features : Z;
  Check : attributes → Go (option reporter);
  Finalize : remote_host → remote_host
}.
(** The only feature the runner asks for. *)
Definition outgoing_feature (c : checker) : bool := negb (Z.land (Features c) OutgoingNicFeature =? 0)%Z.

(** ** The Finalize methods: stable sorts by key *)
Definition l2Key (c : l2) : string := l2_RemoteIPAddress c +:+ RemoteMac c.
Definition sort_l2 (h : remote_host) : remote_host :=
  mkRemoteHost (rh_HostID h) (sort_by l2Key (L2Connectivity h)) (L3Connectivity h) (MtuReport h).
Definition sort_l3 (h : remote_host) : remote_host :=
  mkRemoteHost (rh_HostID h) (L2Connectivity h) (sort_by l3_RemoteIPAddress (L3Connectivity h)) (MtuReport h).
Definition sort_mtu (h : remote_host) : remote_host :=
  mkRemoteHost (rh_HostID h) (L2Connectivity h) (L3Connectivity h) (sort_by m_RemoteIPAddress (MtuReport h)).

(** ** util.go *)
Definition getIPAddressFromCIDR (cidr : string) : string := hd "" (Split cidr "/").
Definition getAllMacAddresses (h : check_host) : list string := map cn_Mac (Nics h).
Definition macInDstMacs (mac : string) (allDstMACs : list string) : bool :=
  existsb (λ dstMAC, EqualFold mac dstMAC) allDstMACs.

(** connectivity_check.analyzeAddress: IPv4, link local. *)
Definition analyzeAddress (a : net_addr) : result (bool * bool) :=
  match a with
  | AddrOther _ => Bad (errorf "could not cast to net.IPNet")
  | AddrNet n =>
      let '(_, bits) := Mask_Size n in
      let isIpv4 := (bits =? 32)%Z in
      let linkLocal := if isIpv4 then ipv4LocalLinkCIDR else ipv6LocalLinkCIDR in
      Good (isIpv4, match ParseCIDR linkLocal with
                    | Some (_, linkLocalNet) => Contains_ip linkLocalNet (net_ip n)
                    | None => false
                    end)
  end.

(** Which families of usable addresses a NIC has. *)
Definition nic_families (addrs : list net_addr) : bool * bool :=
  fold_left (λ acc a, match analyzeAddress a with
                      | Bad _ => acc
                      | Good (isIpv4, isLinkLocal) =>
                          if isLinkLocal : bool then acc
                          else if isIpv4 : bool then (true, acc.2) else (acc.1, true)
                      end) addrs (false, false).

(** regexMatchFor: at least one group. *)
Definition regexMatchFor (n : nat) (r : re) (text line : string) : result (list string) :=
  match FindStringSubmatch n r line with
  | Some (x :: y :: rest) => Good (x :: y :: rest)
  | _ => Bad (errorf ("unable to parse " +:+ line +:+ " with regex " +:+ text))
  end.

(** [\d]+ packets transmitted, [\d]+ received, (([\d]*[.])?[\d]+)% packet loss, time [\d]+ms *)
Definition loss_re : re :=
  seqs [plus digit; lit " packets transmitted, "; plus digit; lit " received, ";
        Cap 1 (Seq (opt (Cap 2 (Seq (Star digit) (chr ".")))) (plus digit));
        lit "% packet loss, time "; plus digit; lit "ms"].
Definition loss_text : string := "[\d]+ packets transmitted, [\d]+ received, (([\d]*[.])?[\d]+)% packet loss, time [\d]+ms".
(** rtt min\/avg\/max\/mdev = .*\/([^\/]+)\/.*\/.* ms *)
Definition rtt_re : re :=
  seqs [lit "rtt min/avg/max/mdev = "; Star dot; chr "/"; Cap 1 (plus (Chr (none_of "/"))); chr "/";
        Star dot; chr "/"; Star dot; lit " ms"].
Definition rtt_text : string := "rtt min\/avg\/max\/mdev = .*\/([^\/]+)\/.*\/.* ms".

(** ^ARPING ([^ ]+) from ([^ ]+) ([^ ]+)$ *)
Definition word_re : re := plus (Chr (none_of " ")).
Definition arping_header_re : re :=
  seqs [Begin; lit "ARPING "; Cap 1 word_re; lit " from "; Cap 2 word_re; chr " "; Cap 3 word_re; End].
(** ^Unicast reply from ([^ ]+) \[([^]]+)\]  [^ ]+$ *)
Definition arping_reply_re : re :=
  seqs [Begin; lit "Unicast reply from "; Cap 1 word_re; lit " ["; Cap 2 (plus (Chr (none_of "]")));
        lit "]  "; word_re; End].

Definition defaultMTUThreshold : Z := 1500.
Definition ipv4Header : Z := 28.
Definition ipv6Header : Z := 48.
Definition pingCount : string := "10".

Section Connectivity.
Context {env : Env}.
(** exec.Cmd.CombinedOutput, strconv.ParseFloat (its value also on an error),
    encoding/xml and encoding/json *)
Variable combined_output : log → string → list string → string * option error.
Variable ParseFloat : string → float64 * option error.
Variable unmarshal_nmap : string → result Nmaprun.
Variable unmarshal_params : string → result (list (option host_param)).
Variable marshal_report : list remote_host → result string.
Variable list_interfaces : log → result (list net_interface).
Variable link_by_name : log → string → result link.

Definition Execute_ (command : string) (args : list string) : Go (string * option error) :=
  ask (RExec command args) (λ l, combined_output l command args).

(** *** ping *)
(** parsePingCmd: the record, updated as far as the parsing got. *)
Definition parsePingCmd (conn : l3) (cmdOutput : string) : l3 * option error :=
  if Nat.eqb (String.length cmdOutput) 0
  then (conn, Some (errorf ("Missing output for ping or invalid output:" +:+ nls +:+ cmdOutput))) else
  match regexMatchFor 2 loss_re loss_text cmdOutput with
  | Bad err => (conn, Some (errorf ("Unable to retrieve packet loss percentage: " +:+ err_msg err)))
  | Good parts =>
      let p1 := nth 1 parts "" in
      let '(loss, err) := ParseFloat p1 in
      let conn := mkL3 (l3_RemoteIPAddress conn) (l3_Successful conn) loss (AverageRTTMs conn) in
      match err with
      | Some err => (conn, Some (errorf ("Error while trying to convert value for packet loss '" +:+ p1 +:+ "': " +:+ err_msg err)))
      | None =>
          match regexMatchFor 1 rtt_re rtt_text cmdOutput with
          | Bad err => (conn, Some (errorf ("Unable to retrieve the average RTT for ping: " +:+ err_msg err)))
          | Good parts =>
              let p1 := nth 1 parts "" in
              let '(rtt, err) := ParseFloat p1 in
              let conn := mkL3 (l3_RemoteIPAddress conn) (l3_Successful conn) (PacketLossPercentage conn) rtt in
              (conn, match err with
                     | Some err => Some (errorf ("Error while trying to convert value for packet loss " +:+ p1 +:+ ": " +:+ err_msg err))
                     | None => None
                     end)
          end
      end
  end.

Definition ping_Check (a : attributes) : Go (option reporter) :=
  let ret := mkL3 (RemoteIPAddress a) false f_zero f_zero in
  '(b, err) ← Execute_ "ping" ["-c"; pingCount; "-W"; "3"; "-q"; RemoteIPAddress a];
  match err with
  | Some _ => mret (Some (ReportL3 ret))
  | None =>
      let '(ret, err) := parsePingCmd ret b in
      mret (Some (ReportL3 (match err with
                            | Some _ => ret
                            | None => mkL3 (l3_RemoteIPAddress ret) true (PacketLossPercentage ret) (AverageRTTMs ret)
                            end)))
  end.

(** *** arping *)
(** The loop over the reply lines: the last record of each MAC address. *)
Definition arping_reply (a : attributes) (outgoingIpAddress : string) (m : gmap string l2) (line : string) : gmap string l2 :=
  match FindStringSubmatch 2 arping_reply_re line with
  | Some [_; _; mac] =>
      let remoteMAC := ToLower mac in
      <[remoteMAC := mkL2 outgoingIpAddress (nic_Name (OutgoingNIC a)) (RemoteIPAddress a) remoteMAC
                          (macInDstMacs remoteMAC (RemoteMACAddresses a))]> m
  | _ => m
  end.

Definition arping_replies (a : attributes) (outgoingIpAddress : string) (lines : list string) : gmap string l2 :=
  fold_left (arping_reply a outgoingIpAddress) lines ∅.

(** A network the remote address is in: run arping and read its output.  The
    iteration over the map is in any order. *)
Definition arping_run (a : attributes) : Go (option reporter) :=
  '(result, err) ← Execute_ "arping" ["-c"; "10"; "-w"; "5"; "-I"; nic_Name (OutgoingNIC a); RemoteIPAddress a];
  go ← (match err with
        | None => mret true
        | Some e => match err_kind e with
                    | KExit code => mret (code =? 1)%Z
                    | _ => panic
                    end
        end);
  if negb go then mret None else
  match Split result nl with
  | [] => mret None
  | header :: lines =>
      match FindStringSubmatch 3 arping_header_re header with
      | Some [_; _; outgoingIpAddress; _] =>
          choices ← ask RSchedule e_schedule;
          let l2s := map snd (map_to_list (arping_replies a outgoingIpAddress lines)) in
          mret (Some (ReportL2s (shuffle (length l2s) choices l2s)))
      | _ => mret None
      end
  end.

(** The loop over the addresses of the NIC. *)
Fixpoint arping_networks (a : attributes) (addrs : list net_addr) : Go (option reporter) :=
  match addrs with
  | [] => mret None
  | addr :: addrs' =>
      match ParseCIDR (addr_String addr) with
      | None => mret None
      | Some (_, nicNetwork) =>
          if negb (match ParseIP (RemoteIPAddress a) with Some ip => Contains_ip nicNetwork ip | None => false end)
          then arping_networks a addrs'
          else arping_run a
      end
  end.

Definition arping_Check (a : attributes) : Go (option reporter) :=
  if negb (IsIPv4Addr (RemoteIPAddress a)) || negb (HasIpv4Addresses (OutgoingNIC a)) then mret None
  else arping_networks a (nic_Addresses (OutgoingNIC a)).

(** *** nmap *)
(** The first MAC address of the first live host that has one. *)
Fixpoint first_mac (hosts : list nmap_host) : option string :=
  match hosts with
  | [] => None
  | h :: hosts' =>
      if negb (String.eqb (State (h_Status h)) "up") then first_mac hosts' else
      match List.find (λ a, String.eqb (AddrType a) "mac") (Addresses h) with
      | Some a => Some (ToLower (Addr a))
      | None => first_mac hosts'
      end
  end.

Definition nmap_Check (a : attributes) : Go (option reporter) :=
  if IsIPv4Addr (RemoteIPAddress a) || negb (HasIpv6Addresses (OutgoingNIC a)) then mret None else
  '(result, err) ← Execute_ "nmap" ["-6"; "-sn"; "-n"; "-oX"; "-"; "-e"; nic_Name (OutgoingNIC a); RemoteIPAddress a];
  match err with
  | Some _ => mret None
  | None =>
      match unmarshal_nmap result with
      | Bad _ => mret None
      | Good nmaprun =>
          match first_mac (Hosts nmaprun) with
          | None => mret None
          | Some remoteMAC =>
              mret (Some (ReportL2s [mkL2 "" (nic_Name (OutgoingNIC a)) (RemoteIPAddress a) remoteMAC
                                          (macInDstMacs remoteMAC (RemoteMACAddresses a))]))
          end
      end
  end.

(** *** MTU *)
(** The loop over the addresses: the verdict, or nothing to report. *)
Fixpoint mtu_addresses (a : attributes) (isRemoteIPv6 : bool) (addrs : list net_addr) : Go (option bool) :=
  match addrs with
  | [] => mret (Some true)
  | AddrOther _ :: _ => mret (Some false)
  | AddrNet n :: addrs' =>
      let isLocalIPv6 := is_nil (To4 (net_ip n)) in
      if negb (Bool.eqb isLocalIPv6 isRemoteIPv6) then mtu_addresses a isRemoteIPv6 addrs' else
      '(_, err) ← Execute_ "ping" [RemoteIPAddress a; "-c"; "3"; "-I"; nic_Name (OutgoingNIC a)];
      match err with
      | Some _ => mret None
      | None =>
          let sizeWithoutIPHeader :=
            (nic_MTU (OutgoingNIC a) - (if isLocalIPv6 then ipv6Header else ipv4Header))%Z in
          '(_, err) ← Execute_ "ping" [RemoteIPAddress a; "-c"; "3"; "-M"; "do"; "-s"; Itoa sizeWithoutIPHeader;
                                       "-I"; nic_Name (OutgoingNIC a)];
          match err with
          | Some _ => mret (Some false)
          | None => mtu_addresses a isRemoteIPv6 addrs'
          end
      end
  end.

Definition mtu_Check (a : attributes) : Go (option reporter) :=
  let report b := Some (ReportMtu (mkMtu (RemoteIPAddress a) (nic_Name (OutgoingNIC a)) b)) in
  match ParseIP (RemoteIPAddress a) with
  | None => mret (report false)
  | Some remoteIP =>
      if (nic_MTU (OutgoingNIC a) =? defaultMTUThreshold)%Z then mret None else
      r ← mtu_addresses a (is_nil (To4 remoteIP)) (nic_Addresses (OutgoingNIC a));
      mret (match r with Some b => report b | None => None end)
  end.

(** *** The checkers *)
Definition l2_features : Z := Z.lor (Z.lor RemoteIPFeature RemoteMACFeature) OutgoingNicFeature.
Definition pingChecker : checker := mkChecker RemoteIPFeature ping_Check sort_l3.
Definition arpingChecker : checker := mkChecker l2_features arping_Check sort_l2.
Definition nmapChecker : checker := mkChecker l2_features nmap_Check (λ h, h).
Definition mtuChecker : checker := mkChecker OutgoingNicFeature mtu_Check sort_mtu.
Definition dryL2Checker : checker :=
  mkChecker l2_features
    (λ a, mret (Some (ReportL2s [mkL2 "" (nic_Name (OutgoingNIC a)) (RemoteIPAddress a) (RemoteMACAddress a) true])))
    sort_l2.
Definition dryL3Checker : checker :=
  mkChecker RemoteIPFeature (λ a, mret (Some (ReportL3 (mkL3 (RemoteIPAddress a) true f_zero f_zero)))) (λ h, h).

Definition checkers (dry : DryRunConfig) : list checker :=
  if DryRunEnabled dry then [dryL2Checker; dryL3Checker]
  else [pingChecker; arpingChecker; nmapChecker; mtuChecker].

(** *** The runner *)
(** The checks of a host, in the order their goroutines are started. *)
Definition host_tasks (cs : list checker) (h : check_host) (outgoingNics : list outgoing_nic)
    : list (checker * attributes) :=
  let macs := getAllMacAddresses h in
  flat_map (λ remoteNic,
    flat_map (λ cidr,
      let ipAddress := getIPAddressFromCIDR cidr in
      if String.eqb ipAddress "" then [] else
      flat_map (λ nic, map (λ c, (c, mkAttributes ipAddress (cn_Mac remoteNic) nic macs))
                           (List.filter outgoing_feature cs)) outgoingNics ++
      map (λ c, (c, mkAttributes ipAddress (cn_Mac remoteNic) no_nic macs))
          (List.filter (λ c, negb (outgoing_feature c)) cs))
      (IPAddresses remoteNic)) (Nics h).

(** The loop over the channel: the host and the errors. *)
Definition apply_reports (rs : list reporter) (h : remote_host) : remote_host * list error :=
  fold_left (λ acc r, let '(h, e) := Report r acc.1 in (h, acc.2 ++ option_list e)) rs (h, []).

Definition ProcessHost (cs : list checker) (h : check_host) (outgoingNics : list outgoing_nic)
    : Go (remote_host * list error) :=
  results ← gather (λ t, Check t.1 t.2) (host_tasks cs h outgoingNics);
  let '(host, errs) := apply_reports (omap id results) (mkRemoteHost (HostID h) [] [] []) in
  mret (fold_left (λ h c, Finalize c h) cs host, errs).

Definition Run (cs : list checker) (params : list check_host) (outgoingNics : list outgoing_nic)
    : Go (list remote_host * list error) :=
  results ← gather (λ h, ProcessHost cs h outgoingNics) params;
  mret (sort_by rh_HostID (map fst results), concat (map snd results)).

(** *** getOutgoingNics *)
Definition outgoing_nic_of (intf : net_interface) : Go (option outgoing_nic) :=
  physical ← IsPhysical intf;
  usable ← (if physical : bool then mret true else
            bond ← IsBonding link_by_name intf;
            if bond : bool then mret true else IsVlan link_by_name intf);
  if negb usable then mret None else
  let addrs := match if_Addrs intf with Good l => l | Bad _ => [] end in
  let '(has4, has6) := nic_families addrs in
  mret (if negb has4 && negb has6 then None
        else Some (mkNic (MTU intf) (if_Name intf) has4 has6 addrs)).

Definition getOutgoingNics : Go (list outgoing_nic) :=
  ins ← Interfaces_ list_interfaces;
  match ins with
  | Bad _ => mret []
  | Good ins => nics ← mapP outgoing_nic_of ins; mret (omap id nics)
  end.

(** A nil pointer makes the goroutine of its host panic before it checks anything,
    and with it the process, however far the others have come. *)
Definition connectivityCheck (dry : DryRunConfig) (args : list string) : Go (string * string * Z) :=
  match args with
  | [arg] =>
      match unmarshal_params arg with
      | Bad err => mret ("", err_msg err, (-1)%Z)
      | Good params =>
          nics ← getOutgoingNics;
          params ← or_panic (mapM host_of params);
          '(ret, errs) ← Run (checkers dry) params nics;
          match errs with
          | _ :: _ => mret ("", multierror_Error errs, (-1)%Z)
          | [] =>
              match marshal_report ret with
              | Bad err => mret ("", err_msg err, (-1)%Z)
              | Good b => mret (b, "", 0%Z)
              end
          end
      end
  | _ => mret ("", "Expecting exactly 1 argument for connectivity command", (-1)%Z)
  end.

Definition ConnectivityCheck (dry : DryRunConfig) (args : list string) : Go (string * string * Z) :=
  connectivityCheck dry args.
End Connectivity.

(** ** Facts: the order of arrival *)
Definition report_l2s (r : reporter) : list l2 := match r with ReportL2s xs => xs | _ => [] end.
Definition report_l3s (r : reporter) : list l3 := match r with ReportL3 x => [x] | _ => [] end.
Definition report_mtus (r : reporter) : list mtu_report := match r with ReportMtu x => [x] | _ => [] end.

Lemma apply_reports_acc rs h errs :
  fold_left (λ acc r, let '(h, e) := Report r acc.1 in (h, acc.2 ++ option_list e)) rs (h, errs) =
    (mkRemoteHost (rh_HostID h) (L2Connectivity h ++ flat_map report_l2s rs)
       (L3Connectivity h ++ flat_map report_l3s rs) (MtuReport h ++ flat_map report_mtus rs), errs).
Proof.
  revert h errs. induction rs as [|r rs IH]; intros h errs; simpl.
  { destruct h. simpl. by rewrite !app_nil_r. }
  destruct r; simpl; rewrite IH; simpl; by rewrite <-?(assoc_L (++)), ?app_nil_r.
Qed.

Lemma apply_reports_eq rs h :
  apply_reports rs h =
    (mkRemoteHost (rh_HostID h) (L2Connectivity h ++ flat_map report_l2s rs)
       (L3Connectivity h ++ flat_map report_l3s rs) (MtuReport h ++ flat_map report_mtus rs), []).
Proof. apply apply_reports_acc. Qed.

Lemma flat_map_Permutation {A B} (f : A → list B) l l' : l ≡ₚ l' → flat_map f l ≡ₚ flat_map f l'.
Proof.
  induction 1 as [|x l l' _ IH|x y l|]; simpl; [done|by rewrite IH| |by etrans].
  rewrite !(assoc_L (++)). by rewrite (comm (++) (f y)).
Qed.

Section Order.
Context {env : Env}.
Variable combined_output : log → string → list string → string * option error.
Variable ParseFloat : string → float64 * option error.
Variable unmarshal_nmap : string → result Nmaprun.

Definition finalized (rs : list reporter) (id : string) : remote_host :=
  fold_left (λ h c, Finalize c h) (checkers combined_output ParseFloat unmarshal_nmap
    (mkDryRunConfig false "" "" "" "" "")) (apply_reports rs (mkRemoteHost id [] [] [])).1.

(** The report of a host does not depend on the order in which its checks
    finish, when no two results of a kind have the same sort key. *)
Theorem report_order_irrelevant rs rs' id :
  rs ≡ₚ rs' → NoDup (map l2Key (flat_map report_l2s rs)) →
  NoDup (map l3_RemoteIPAddress (flat_map report_l3s rs)) →
  NoDup (map m_RemoteIPAddress (flat_map report_mtus rs)) →
  finalized rs id = finalized rs' id.
Proof.
  intros Hp H2 H3 Hm. unfold finalized. rewrite !apply_reports_eq. simpl.
  unfold sort_l2, sort_l3, sort_mtu. simpl.
  rewrite (sort_by_unique l2Key _ (flat_map report_l2s rs')) by (by try apply flat_map_Permutation).
  rewrite (sort_by_unique l3_RemoteIPAddress _ (flat_map report_l3s rs')) by (by try apply flat_map_Permutation).
  by rewrite (sort_by_unique m_RemoteIPAddress _ (flat_map report_mtus rs')) by (by try apply flat_map_Permutation).
Qed.

(** The sort keys leave the outgoing NIC out: with two NICs the report does
    depend on the order in which the MTU checks of an address finish. *)
Theorem report_order_two_nics :
  let r nic := ReportMtu (mkMtu "10.0.0.1" nic true) in
  finalized [r "eth0"; r "eth1"] "h" ≠ finalized [r "eth1"; r "eth0"] "h".
Proof. vm_compute. discriminate. Qed.
End Order.

(** ** Facts: what the checks of a host report *)
Section Reports.
Context {env : Env}.
Variable combined_output : log → string → list string → string * option error.
Variable ParseFloat : string → float64 * option error.
Variable unmarshal_nmap : string → result Nmaprun.

(** arping is installed: it fails only with an exit code. *)
Definition arping_runs : Prop := ∀ l args, match (combined_output l "arping" args).2 with
  | Some e => match err_kind e with KExit _ => True | _ => False end
  | None => True
  end.
Hypothesis arping : arping_runs.

Definition probe (r : request) : Prop :=
  match r with
  | RExec "ping" _ => True
  | RExec "arping" _ => True
  | RExec "nmap" _ => True
  | RSchedule => True
  | _ => False
  end.

Definition l2_ok (a : attributes) (x : l2) : Prop :=
  l2_RemoteIPAddress x = RemoteIPAddress a ∧ l2_OutgoingNic x = nic_Name (OutgoingNIC a) ∧
  l2_Successful x = macInDstMacs (RemoteMac x) (RemoteMACAddresses a).

(** The report of a check, when there is one, is about the address checked. *)
Definition about (a : attributes) (r : reporter) : Prop :=
  match r with
  | ReportL3 x => l3_RemoteIPAddress x = RemoteIPAddress a
  | ReportL2s xs => Forall (l2_ok a) xs
  | ReportMtu x => m_RemoteIPAddress x = RemoteIPAddress a ∧ m_OutgoingNic x = nic_Name (OutgoingNIC a)
  end.
Definition about_o (a : attributes) (o : option reporter) : Prop :=
  match o with Some r => about a r ∧ report_l3s r = [] | None => True end.

Lemma parsePingCmd_ip c s : l3_RemoteIPAddress (parsePingCmd ParseFloat c s).1 = l3_RemoteIPAddress c.
Proof.
  unfold parsePingCmd. destruct (Nat.eqb _ 0); [done|].
  destruct (regexMatchFor 2 _ _ _) as [parts|]; [|done].
  destruct (ParseFloat (nth 1 parts "")) as [loss [e|]]; [done|].
  destruct (regexMatchFor 1 _ _ _) as [parts'|]; [|done].
  by destruct (ParseFloat (nth 1 parts' "")) as [rtt [e|]].
Qed.

Lemma spec_ping a :
  spec probe no_change (λ o, ∃ x, o = Some (ReportL3 x) ∧ l3_RemoteIPAddress x = RemoteIPAddress a)
    (ping_Check combined_output ParseFloat a).
Proof.
  unfold ping_Check, Execute_. eapply (spec_bind _ _ (λ _, True)); [by apply spec_ask|].
  intros [b [e|]] _; [apply spec_ret; eauto|].
  pose proof (parsePingCmd_ip (mkL3 (RemoteIPAddress a) false f_zero f_zero) b) as H.
  destruct (parsePingCmd ParseFloat _ b) as [ret err]. simpl in H.
  apply spec_ret. eexists. split; [done|]. by destruct err.
Qed.

Lemma arping_replies_ok a ip lines :
  ∀ k x, arping_replies a ip lines !! k = Some x → l2_ok a x.
Proof.
  unfold arping_replies.
  assert (H : ∀ m, (∀ k x, m !! k = Some x → l2_ok a x) →
              ∀ k x, fold_left (arping_reply a ip) lines m !! k = Some x → l2_ok a x).
  { induction lines as [|line lines IH]; intros m Hm; [done|]. apply IH.
    unfold arping_reply. destruct (FindStringSubmatch 2 arping_reply_re line) as [[|? [|? [|mac []]]]|]; try done.
    intros k x. rewrite lookup_insert_Some. intros [[_ <-]|[_ H]]; [done|by eapply Hm]. }
  apply H. intros k x. by rewrite lookup_empty.
Qed.

Lemma spec_arping a : spec probe no_change (about_o a) (arping_Check combined_output a).
Proof.
  unfold arping_Check. destruct (_ || _); [by apply spec_ret|].
  induction (nic_Addresses (OutgoingNIC a)) as [|addr addrs IH]; cbn [arping_networks]; [by apply spec_ret|].
  destruct (ParseCIDR (addr_String addr)) as [[ip net]|]; [|by apply spec_ret].
  destruct (negb _); [exact IH|]. clear IH. unfold arping_run, Execute_.
  eapply (spec_bind _ _ (λ p, match p.2 with
    | Some e => match err_kind e with KExit _ => True | _ => False end | None => True end)).
  { apply spec_ask; [done|]. intros l. apply arping. }
  intros [result err] He. simpl in He.
  eapply (spec_bind _ _ (λ _, True)).
  { destruct err as [[[| |code] m]|]; simpl in He; by try apply spec_ret. }
  intros [] _; cbn [negb]; [|by apply spec_ret].
  destruct (Split result nl) as [|header lines]; [by apply spec_ret|].
  destruct (FindStringSubmatch 3 arping_header_re header) as [[|? [|? [|out [|? []]]]]|]; try by apply spec_ret.
  eapply (spec_bind _ _ (λ _, True)); [by apply spec_ask|]. intros choices _. apply spec_ret.
  split; [|done]. simpl. rewrite shuffle_Permutation. apply Forall_map, Forall_forall.
  intros [k x] Hx. apply elem_of_map_to_list in Hx. by eapply arping_replies_ok.
Qed.

Lemma spec_nmap a : spec probe no_change (about_o a) (nmap_Check combined_output unmarshal_nmap a).
Proof.
  unfold nmap_Check, Execute_. destruct (_ || _); [by apply spec_ret|].
  eapply (spec_bind _ _ (λ _, True)); [by apply spec_ask|]. intros [res [e|]] _; [by apply spec_ret|].
  destruct (unmarshal_nmap res) as [run|]; [|by apply spec_ret].
  destruct (first_mac (Hosts run)); apply spec_ret; [|done]. split; [|done]. by repeat constructor.
Qed.

Lemma spec_mtu_addresses a v6 addrs : returns probe no_change (mtu_addresses combined_output a v6 addrs).
Proof.
  induction addrs as [|[n|s] addrs IH]; cbn [mtu_addresses]; [by apply spec_ret| |by apply spec_ret].
  destruct (negb _); [exact IH|]. unfold Execute_.
  apply returns_bind; [by apply spec_ask|]. intros [o [e|]]; [by apply spec_ret|].
  apply returns_bind; [by apply spec_ask|]. intros [o' [e|]]; [by apply spec_ret|exact IH].
Qed.

Lemma spec_mtu a : spec probe no_change (about_o a) (mtu_Check combined_output a).
Proof.
  unfold mtu_Check. destruct (ParseIP (RemoteIPAddress a)); [|by apply spec_ret].
  destruct (_ =? _)%Z; [by apply spec_ret|]. eapply spec_bind; [apply spec_mtu_addresses|].
  intros [v|] _; by apply spec_ret.
Qed.

Notation live := (checkers combined_output ParseFloat unmarshal_nmap (mkDryRunConfig false "" "" "" "" "")).

(** The addresses of a remote host that are checked. *)
Definition host_addresses (h : check_host) : list string :=
  flat_map (λ nic, List.filter (λ ip, negb (String.eqb ip "")) (map getIPAddressFromCIDR (IPAddresses nic))) (Nics h).

(** The checks that ping, by the address. *)
Definition pings (ts : list (checker * attributes)) : list string :=
  omap (λ t, if outgoing_feature t.1 then None else Some (RemoteIPAddress t.2)) ts.

Lemma pings_app t1 t2 : pings (t1 ++ t2) = pings t1 ++ pings t2.
Proof. apply omap_app. Qed.

Lemma pings_tasks h nics : pings (host_tasks live h nics) = host_addresses h.
Proof.
  unfold host_tasks, host_addresses. generalize (getAllMacAddresses h) as macs. intros macs.
  induction (Nics h) as [|nic l IH]; cbn [flat_map]; [done|]. rewrite pings_app, IH. f_equal. clear IH l.
  induction (IPAddresses nic) as [|cidr l IH]; cbn [flat_map map List.filter]; [done|].
  rewrite pings_app, IH. clear IH. destruct (String.eqb (getIPAddressFromCIDR cidr) "") eqn:E; cbn [negb]; [done|].
  rewrite pings_app. rewrite String.eqb_sym in E.
  replace (pings (flat_map _ nics)) with (@nil string); [done|].
  induction nics as [|n nics IH]; [done|]. cbn [flat_map]. rewrite pings_app, <-IH. done.
Qed.

(** Each check of the live runner, by its kind. *)
Definition task_ok (t : checker * attributes) (o : option reporter) : Prop :=
  (if outgoing_feature t.1 then about_o t.2 o
   else ∃ x, o = Some (ReportL3 x) ∧ l3_RemoteIPAddress x = RemoteIPAddress t.2).

Lemma task_checker h nics t : t ∈ host_tasks live h nics →
  t.1 ∈ live ∧ RemoteIPAddress t.2 ∈ host_addresses h ∧ RemoteMACAddresses t.2 = getAllMacAddresses h ∧
  (outgoing_feature t.1 = true → OutgoingNIC t.2 ∈ nics).
Proof.
  unfold host_tasks, host_addresses. intros H.
  apply list_elem_of_In, in_flat_map in H as (nic & Hnic & H). apply in_flat_map in H as (cidr & Hc & H).
  destruct (String.eqb (getIPAddressFromCIDR cidr) "") eqn:E; [done|].
  assert (Haddr : In (getIPAddressFromCIDR cidr) (flat_map (λ nic, List.filter (λ ip, negb (String.eqb ip ""))
                    (map getIPAddressFromCIDR (IPAddresses nic))) (Nics h))).
  { apply in_flat_map. exists nic. split; [done|]. apply filter_In. split; [by apply in_map|]. by rewrite E. }
  apply in_app_or in H as [H|H].
  - apply in_flat_map in H as (n & Hn & H). apply in_map_iff in H as (c & <- & H).
    apply filter_In in H as [Hl _]. split; [by apply list_elem_of_In|]. split; [by apply list_elem_of_In|].
    split; [done|]. intros _. by apply list_elem_of_In.
  - apply in_map_iff in H as (c & <- & H). apply filter_In in H as [Hl Hf].
    split; [by apply list_elem_of_In|]. split; [by apply list_elem_of_In|].
    split; [done|]. cbn [fst]. intros Ho. by rewrite Ho in Hf.
Qed.

Lemma spec_task h nics t : t ∈ host_tasks live h nics → spec probe no_change (task_ok t) (Check t.1 t.2).
Proof.
  intros Ht. apply task_checker in Ht as (Hc & _). destruct t as [c a]. unfold task_ok. cbn [fst snd] in *.
  cbn in Hc. repeat (apply elem_of_cons in Hc as [->|Hc]); [apply spec_ping|apply spec_arping|apply spec_nmap|apply spec_mtu|].
  by apply not_elem_of_nil in Hc.
Qed.

(** An L2 record of the report of [h]. *)
Definition l2_about (h : check_host) (nics : list outgoing_nic) (x : l2) : Prop :=
  l2_RemoteIPAddress x ∈ host_addresses h ∧ l2_OutgoingNic x ∈ map nic_Name nics ∧
  l2_Successful x = macInDstMacs (RemoteMac x) (getAllMacAddresses h).

Definition host_report (h : check_host) (nics : list outgoing_nic) (res : remote_host * list error) : Prop :=
  res.2 = [] ∧ rh_HostID res.1 = HostID h ∧
  map l3_RemoteIPAddress (L3Connectivity res.1) ≡ₚ host_addresses h ∧
  Forall (l2_about h nics) (L2Connectivity res.1).

Lemma results_l3 ts rs : Forall2 task_ok ts rs →
  map l3_RemoteIPAddress (flat_map report_l3s (omap id rs)) = pings ts.
Proof.
  induction 1 as [|t o ts rs Ht _ IH]; [done|]. unfold task_ok in Ht. cbn.
  destruct (outgoing_feature t.1).
  - destruct o as [r|]; [|exact IH]. destruct Ht as [_ Hr]. cbn. rewrite Hr. exact IH.
  - destruct Ht as (x & -> & Hx). cbn. by rewrite Hx, IH.
Qed.

Lemma results_l2 h nics ts rs : (∀ t, t ∈ ts → t ∈ host_tasks live h nics) → Forall2 task_ok ts rs →
  Forall (l2_about h nics) (flat_map report_l2s (omap id rs)).
Proof.
  intros Hin. induction 1 as [|t o ts rs Ht _ IH]; [constructor|].
  assert (IH' : Forall (l2_about h nics) (flat_map report_l2s (omap id rs))).
  { apply IH. intros. apply Hin. by right. }
  destruct (task_checker h nics t (Hin t ltac:(left))) as (_ & Haddr & Hmacs & Hnic).
  unfold task_ok in Ht. cbn. destruct (outgoing_feature t.1) eqn:Ef.
  - destruct o as [r|]; [|exact IH']. destruct Ht as [Hr _]. cbn. apply Forall_app. split; [|exact IH'].
    destruct r as [x|xs|x]; cbn; [constructor| |constructor]. simpl in Hr.
    eapply Forall_impl; [exact Hr|]. intros x (H1 & H2 & H3). unfold l2_about.
    rewrite H1, H2, H3, Hmacs. repeat split; [done|]. apply list_elem_of_fmap. eauto.
  - destruct Ht as (x & -> & _). exact IH'.
Qed.

Lemma finalize_live h cs : cs = live → fold_left (λ h c, Finalize c h) cs h = sort_mtu (sort_l2 (sort_l3 h)).
Proof. by intros ->. Qed.

(** What the loop over the channel and the Finalize methods make of the results,
    received in any order. *)
Lemma report_of_results h nics rs vs :
  Forall2 task_ok (host_tasks live h nics) vs → rs ≡ₚ omap id vs →
  let '(host, errs) := apply_reports rs (mkRemoteHost (HostID h) [] [] []) in
  host_report h nics (fold_left (λ h c, Finalize c h) live host, errs).
Proof.
  intros Hvs Hp. rewrite apply_reports_eq. rewrite (finalize_live _ _ eq_refl). unfold host_report. simpl.
  split_and!; [done|done| |].
  - rewrite (sort_by_Permutation l3_RemoteIPAddress).
    rewrite (flat_map_Permutation report_l3s _ _ Hp). rewrite (results_l3 _ vs Hvs). by rewrite pings_tasks.
  - rewrite (sort_by_Permutation l2Key). rewrite (flat_map_Permutation report_l2s _ _ Hp).
    by apply (results_l2 h nics (host_tasks live h nics)).
Qed.

Lemma ProcessHost_spec h nics :
  spec probe no_change (host_report h nics) (ProcessHost live h nics).
Proof.
  unfold ProcessHost.
  eapply spec_bind.
  { apply (spec_gather _ _ task_ok); [|done]. intros t Ht. by apply (spec_task h nics). }
  intros rs (vs & Hp & Hvs). cbv beta.
  assert (Hp' : omap id rs ≡ₚ omap id vs) by (by rewrite Hp).
  pose proof (report_of_results h nics _ _ Hvs Hp') as H. destruct (apply_reports _ _) as [host errs]. by apply spec_ret.
Qed.

(** The reports of a whole run, one per remote host. *)
Definition run_report (params : list check_host) (nics : list outgoing_nic) (res : list remote_host * list error) : Prop :=
  res.2 = [] ∧ ∃ rs, res.1 ≡ₚ rs ∧ StronglySorted (by_key rh_HostID) res.1 ∧
                     Forall2 (λ h r, host_report h nics (r, [])) params rs.

(** The results of the hosts, collected in any order and sorted. *)
Lemma run_of_results params nics rs vs :
  rs ≡ₚ vs → Forall2 (λ h res, host_report h nics res) params vs →
  run_report params nics (sort_by rh_HostID (map fst rs), concat (map snd rs)).
Proof.
  intros Hp Hvs. split; cbn [fst snd].
  - assert (H : concat (map snd vs) = []).
    { clear Hp. induction Hvs as [|h v hs vs Hv _ IH]; [done|]. simpl. rewrite IH. destruct Hv as [-> _]. done. }
    assert (Hp' : concat (map snd rs) ≡ₚ concat (map snd vs)).
    { rewrite <-!flat_map_concat_map. by apply flat_map_Permutation. }
    rewrite H in Hp'. by apply Permutation_nil_r in Hp'.
  - exists (map fst vs). split; [by rewrite sort_by_Permutation, Hp|]. split; [apply sort_by_sorted|].
    clear Hp. induction Hvs as [|h v hs vs Hv _ IH]; [constructor|]. constructor; [|exact IH].
    destruct v as [r e]. destruct Hv as [He Hv]. simpl in *. by subst.
Qed.

(** With arping installed the connectivity run always returns, without an
    error, one report per remote host, in the order of the host ids; in each
    report every address of the host is pinged and reported exactly once, and
    every L2 record is about an address of the host and one of the outgoing
    NICs, and counts as successful exactly when the MAC that answered is one of
    the host's. *)
Theorem connectivity_run_reports params nics :
  spec probe no_change (run_report params nics) (Run live params nics).
Proof.
  unfold Run. eapply spec_bind.
  { apply (spec_gather _ _ (λ h res, host_report h nics res)); [|done]. intros h _. apply ProcessHost_spec. }
  intros rs (vs & Hp & Hvs). apply spec_ret. by apply (run_of_results params nics rs vs).
Qed.
End Reports.

Section ConnectivityWitness.
Definition demo_output (l : log) (c : string) (args : list string) : string * option error :=
  ("", Some (Err (KExit 1) "exit status 1")).

Lemma demo_arping : arping_runs demo_output.
Proof. intros l args. exact I. Qed.

Definition demo_host_params : check_host :=
  mkCheckHost "h1" [mkCheckNic "aa:bb" ["10.0.0.1/24"; "10.0.0.2/24"]].

Lemma connectivity_run_reports_witness :
  ∃ Q, spec probe no_change Q
    (@Run null_env (checkers (env := null_env) demo_output (λ _, (f_zero, None)) (λ _, Bad enoent) (mkDryRunConfig false "" "" "" "" ""))
      [demo_host_params] [mkNic 1500 "eth0" true false []]).
Proof. eexists. apply (@connectivity_run_reports null_env demo_output _ _ demo_arping). Defined.

Lemma report_order_irrelevant_witness :
  @finalized null_env demo_output (λ _, (f_zero, None)) (λ _, Bad enoent)
    [ReportMtu (mkMtu "b" "e" true); ReportMtu (mkMtu "a" "e" true)] "h" =
  @finalized null_env demo_output (λ _, (f_zero, None)) (λ _, Bad enoent)
    [ReportMtu (mkMtu "a" "e" true); ReportMtu (mkMtu "b" "e" true)] "h".
Proof.
  apply (@report_order_irrelevant null_env); [apply Permutation_swap|constructor|constructor|].
  simpl. apply NoDup_cons. split; [|apply NoDup_singleton]. by intros ?%list_elem_of_singleton.
Defined.
End ConnectivityWitness.
