(* ===== verification/Workers.v ===== *)
(** * Goroutines that share a wait group and a channel

    The pattern of src/connectivity_check/connectivity_runner.go and of
    src/disk_speed_check: a function starts one goroutine per task, each counted by
    a sync.WaitGroup; a goroutine does its task, sends what came of it to a channel,
    if anything, and tells the group that it is done. *)
From S2P Require Import Prelude GoStrings Host.

(** A goroutine: not counted yet, counted by wg.Add and not started, at its task,
    sending, before its deferred wg.Done, and gone; the last two remember what was
    sent. A task ends with a [B], what is sent is an [A]. *)
Inductive goroutine (B A : Type) : Type :=
  | Idle
  | Counted
  | Checking (m : Go B)
  | Sending (r : A)
  | Leaving (sent : option A)
  | Gone (sent : option A).
Arguments Idle {_ _}.
Arguments Counted {_ _}.
Arguments Checking {_ _} _.
Arguments Sending {_ _} _.
Arguments Leaving {_ _} _.
Arguments Gone {_ _} _.

Section Workers.
Context {B A : Type}.
Implicit Types (g : goroutine B A) (gs : list (goroutine B A)).

(** ** What is left of a goroutine gets less with every action *)
Definition goroutine_lt (g' g : goroutine B A) : Prop :=
  match g', g with
  | Counted, Idle => True
  | Checking _, Counted => True
  | Checking m', Checking m => sub m' m
  | Sending _, Checking _ => True
  | Leaving _, Checking _ => True
  | Leaving _, Sending _ => True
  | Gone _, Leaving _ => True
  | _, _ => False
  end.

Lemma goroutine_lt_wf : well_founded goroutine_lt.
Proof.
  assert (HG : ∀ o, Acc goroutine_lt (Gone o)) by (intros o; constructor; by intros []).
  assert (HL : ∀ o, Acc goroutine_lt (Leaving o)) by (intros o; constructor; intros [] H; naive_solver).
  assert (HS : ∀ r, Acc goroutine_lt (Sending r)) by (intros r; constructor; intros [] H; naive_solver).
  assert (HC : ∀ m, Acc goroutine_lt (Checking m)).
  { intros m. induction (sub_wf m) as [m _ IH]. constructor. intros [] H; simpl in H; auto; done. }
  assert (HN : Acc goroutine_lt Counted) by (constructor; intros [] H; simpl in H; auto; done).
  assert (HI : Acc goroutine_lt Idle) by (constructor; intros [] H; simpl in H; auto; done).
  by intros [].
Qed.

(** ** Counting *)
Definition active (g : goroutine B A) : bool := match g with Idle | Gone _ => false | _ => true end.
Definition begun (g : goroutine B A) : bool := match g with Idle | Counted => false | _ => true end.
Definition sent (g : goroutine B A) : option A := match g with Leaving o | Gone o => o | _ => None end.
Definition one_if (b : bool) : Z := if b then 1 else 0.
Definition active_count (gs : list (goroutine B A)) : Z := foldr (λ g n, one_if (active g) + n)%Z 0%Z gs.

Lemma active_count_insert gs i g g' :
  gs !! i = Some g → active_count (<[i := g']> gs) = (active_count gs + one_if (active g') - one_if (active g))%Z.
Proof.
  revert i. induction gs as [|x gs IH]; intros [|i]; simpl; [done..| |].
  - intros [= ->]. lia.
  - intros H. rewrite (IH i) by done. lia.
Qed.
Lemma active_count_nonneg gs : (0 <= active_count gs)%Z.
Proof. induction gs as [|g gs IH]; simpl; [lia|]. unfold one_if. destruct (active g); lia. Qed.
Lemma active_count_pos gs i g : gs !! i = Some g → active g = true → (0 < active_count gs)%Z.
Proof.
  intros H Hg. pose proof (active_count_insert gs i g Idle H) as E. pose proof (active_count_nonneg (<[i := Idle]> gs)).
  rewrite Hg in E. simpl in E. lia.
Qed.
Lemma active_count_idle {T} (l : list T) : active_count (map (λ _, Idle) l) = 0%Z.
Proof. induction l as [|x l IH]; simpl; [done|]. by rewrite IH. Qed.

Lemma active_exists gs : active_count gs ≠ 0%Z → ∃ i g, gs !! i = Some g ∧ active g = true.
Proof.
  induction gs as [|g gs IH]; simpl; [done|]. destruct (active g) eqn:E; simpl; intros H; [by exists 0, g|].
  destruct IH as (i & x & Hi & Hx); [done|]. by exists (S i), x.
Qed.

(** The goroutines below [n] have begun, those above are idle. *)
Definition spawned (n : nat) (gs : list (goroutine B A)) : Prop :=
  ∀ j g, gs !! j = Some g →
    (j < n → begun g = true) ∧ (j = n → g = Idle ∨ g = Counted) ∧ (n < j → g = Idle).
Definition all_gone (gs : list (goroutine B A)) : Prop := ∀ j g, gs !! j = Some g → ∃ o, g = Gone o.

Lemma spawned_insert n gs i g g' :
  gs !! i = Some g → begun g = true → begun g' = true → spawned n gs → spawned n (<[i := g']> gs).
Proof.
  intros Hi Hg Hg' H j x Hj. apply list_lookup_insert_Some in Hj as [(-> & -> & _)|[_ Hj]]; [|by apply H].
  destruct (H j g Hi) as (H1 & H2 & H3). split; [done|]. split; [intros E; destruct (H2 E); by subst|].
  intros E. by rewrite (H3 E) in Hg.
Qed.

(** ** The invariant of the goroutines
    [ok t o]: the task [t] may end with the message [o]; [out] tells what of the
    result of a task is sent. *)
Section Crew.
Context {T : Type}.
Variable P : request → Prop.
Variable out : B → option A.
Variable ok : T → option A → Prop.

Definition goroutine_ok (t : T) (g : goroutine B A) : Prop :=
  match g with
  | Idle | Counted => True
  | Checking m => spec P no_change (λ b, ok t (out b)) m
  | Sending r => ok t (Some r)
  | Leaving o | Gone o => ok t o
  end.

(** [n] of the goroutines for the tasks [ts] have been started; the counter of the
    group is [wg]. *)
Definition crew (ts : list T) (n : nat) (gs : list (goroutine B A)) (wg : Z) : Prop :=
  Forall2 goroutine_ok ts gs ∧ wg = active_count gs ∧ spawned n gs.

Lemma crew_idle ts : crew ts 0 (map (λ _, Idle) ts) 0.
Proof.
  split_and!; [by induction ts; constructor|by rewrite active_count_idle|].
  intros j g Hj. apply list_lookup_fmap_Some in Hj as (x & -> & _). split_and!; [lia|by left|done].
Qed.

Lemma crew_task ts n gs wg i g : crew ts n gs wg → gs !! i = Some g → ∃ t, ts !! i = Some t ∧ goroutine_ok t g.
Proof. intros (H & _) Hi. by apply (Forall2_lookup_r _ _ _ _ _ H Hi). Qed.

Lemma crew_counts ts n gs wg : gs !! n = Some Idle → crew ts n gs wg → crew ts n (<[n := Counted]> gs) (wg + 1).
Proof.
  intros Hi H. destruct (crew_task _ _ _ _ _ _ H Hi) as (t & Ht & _). destruct H as (Hgs & -> & Hsp). split_and!.
  - rewrite <-(list_insert_id ts n t Ht). by apply Forall2_insert.
  - rewrite (active_count_insert gs n Idle) by done. simpl. lia.
  - intros j g Hj. apply list_lookup_insert_Some in Hj as [(<- & <- & _)|[_ Hj]]; [|by apply Hsp].
    split_and!; [lia|by right|lia].
Qed.

Lemma crew_starts ts n gs wg t (m : Go B) :
  gs !! n = Some Counted → ts !! n = Some t → spec P no_change (λ b, ok t (out b)) m → crew ts n gs wg →
  crew ts (S n) (<[n := Checking m]> gs) wg.
Proof.
  intros Hi Ht Hm (Hgs & -> & Hsp). split_and!.
  - rewrite <-(list_insert_id ts n t Ht). by apply Forall2_insert.
  - rewrite (active_count_insert gs n Counted) by done. simpl. lia.
  - intros j g Hj. apply list_lookup_insert_Some in Hj as [(<- & <- & _)|[Hne Hj]]; [split_and!; [done|lia|lia]|].
    destruct (Hsp j g Hj) as (H1 & H2 & H3). split_and!; intros; [apply H1; lia|left; apply H3; lia|apply H3; lia].
Qed.

(** An action of a goroutine that is running *)
Lemma crew_moves ts n gs wg wg' i g g' t :
  crew ts n gs wg → gs !! i = Some g → ts !! i = Some t → begun g = true → begun g' = true → goroutine_ok t g' →
  wg' = (wg + one_if (active g') - one_if (active g))%Z → crew ts n (<[i := g']> gs) wg'.
Proof.
  intros (Hgs & -> & Hsp) Hi Ht Hb Hb' Hok ->. split_and!.
  - rewrite <-(list_insert_id ts i t Ht). by apply Forall2_insert.
  - by rewrite (active_count_insert gs i g).
  - by apply (spawned_insert _ _ _ g).
Qed.

(** wg.Wait() returns when all are gone. *)
Lemma crew_gone ts gs : crew ts (length gs) gs 0 → all_gone gs.
Proof.
  intros (_ & Hwg & Hsp) j g Hj. destruct (Hsp j g Hj) as (Hb & _). specialize (Hb (lookup_lt_Some _ _ _ Hj)).
  destruct (active g) eqn:E; [|destruct g; try done; by eexists].
  pose proof (active_count_pos gs j g Hj E). lia.
Qed.

(** No task panics and the counter does not go below zero. *)
Lemma crew_no_panic ts n gs wg i g :
  crew ts n gs wg → gs !! i = Some g →
  match g with Checking m => m ≠ PPanic ∧ m ≠ PBlock | Leaving _ => (0 < wg)%Z | _ => True end.
Proof.
  intros H Hi. destruct (crew_task _ _ _ _ _ _ H Hi) as (t & _ & Hok). destruct g as [| |m|r|o|o]; try done.
  - split; by intros ->.
  - destruct H as (_ & -> & _). by eapply active_count_pos.
Qed.

(** What was sent, and what the tasks ended with *)
Lemma crew_results ts n gs wg : crew ts n gs wg → all_gone gs → Forall2 ok ts (map sent gs).
Proof.
  intros (H & _) Hgone. clear -H Hgone. induction H as [|t g ts gs Hg _ IH]; [constructor|]. simpl.
  constructor; [destruct (Hgone 0 g eq_refl) as [o ->]; exact Hg|]. apply IH. intros j x Hj. by apply (Hgone (S j)).
Qed.
End Crew.

Lemma sent_results gs : omap id (map sent gs) = omap sent gs.
Proof. induction gs as [|g gs IH]; csimpl; [done|]. destruct (sent g); csimpl; by rewrite IH. Qed.

(** The channel and what was received of it hold what was sent. *)
Lemma sent_insert gs i g g' (rcv ch added : list A) :
  gs !! i = Some g → option_list (sent g) ++ added = option_list (sent g') →
  rcv ++ ch ≡ₚ omap sent gs → rcv ++ ch ++ added ≡ₚ omap sent (<[i := g']> gs).
Proof.
  intros Hi Hs Hrcv. pose proof (omap_insert sent gs i g g' Hi) as E. rewrite <-Hs, <-(assoc_L (++)) in E.
  apply Permutation_app_inv_l in E. rewrite E, <-Hrcv. rewrite (assoc_L (++)). apply Permutation_app_comm.
Qed.
End Workers.
