(* ===== verification/ConnectivityRunner.v ===== *)
(** * The goroutines of the connectivity check (src/connectivity_check/connectivity_runner.go)

    Connectivity.v runs the checks one after another and lets the scheduler choose
    the order in which their results arrive. Here the goroutines are explicit: one
    per remote host, one per check, one that waits for the checks of a host and
    closes its channel, and the one that collects the reports of the hosts. They
    share a wait group and a channel of ten places per host, and a channel with a
    place for every host. A transition runs one of them up to its next action. *)
From S2P Require Import Prelude GoStrings Sort Host Config GoFloat Net Interfaces FreeAddresses Connectivity Workers.

(** ** States *)
(** The goroutine of a check ends with a reporter, if anything, and sends it. *)
Abbreviation check_goroutine := (goroutine (option reporter) reporter).

(** The goroutine of a host, in ProcessHost: not started, at the [i]-th call of
    spawnChecker, in the loop over the channel with the host and the errors so
    far, in its deferred send, and gone. *)
Inductive host_main : Type :=
  | Unstarted
  | Spawning (i : nat)
  | Receiving (h : remote_host) (errs : list error)
  | Delivering (res : remote_host * list error)
  | Delivered (res : remote_host * list error).

(** The goroutine that waits for the checks and closes the channel. *)
Inductive closer : Type := NoCloser | Waiting | Closing | Closed.

(** sync.WaitGroup by its counter; the channel of reporters by what it holds. *)
Record host_state : Type := HostState {
  hs_main : host_main; hs_checks : list check_goroutine; hs_wg : Z; hs_chan : list reporter; hs_closer : closer
}.
Definition reporter_capacity : nat := 10.
Definition closed (c : closer) : bool := match c with Closed => true | _ => false end.

(** The goroutine of Run: starting the hosts, receiving, and its result. *)
Inductive run_main : Type :=
  | Starting (i : nat)
  | Collecting (hosts : list remote_host) (errs : list error)
  | Returned (report : list remote_host * list error).
Record run_state : Type := RunState {
  rs_log : log; rs_shared : shared;
  rs_main : run_main; rs_hosts : list host_state; rs_chan : list (remote_host * list error)
}.

(** ** Steps *)
Section Steps.
Variable cs : list checker.
Variable nics : list outgoing_nic.

Definition new_host (h : check_host) : host_state :=
  HostState Unstarted (map (λ _, Idle) (host_tasks cs h nics)) 0 [] NoCloser.

(** One action of a goroutine that works for the host [h]. *)
Inductive host_step (h : check_host) : world request shared → host_state → world request shared → host_state → Prop :=
  (** wg.Add(1) *)
  | host_add w i gs wg ch cl :
      gs !! i = Some Idle →
      host_step h w (HostState (Spawning i) gs wg ch cl) w (HostState (Spawning i) (<[i := Counted]> gs) (wg + 1) ch cl)
  (** go func() { ... c.Check(attributes) ... } *)
  | host_go w i t gs wg ch cl :
      gs !! i = Some Counted → host_tasks cs h nics !! i = Some t →
      host_step h w (HostState (Spawning i) gs wg ch cl)
                  w (HostState (Spawning (S i)) (<[i := Checking (Check t.1 t.2)]> gs) wg ch cl)
  (** go func() { wg.Wait(); close(reporterChan) }(), then the loop over the channel *)
  | host_spawned w gs wg ch :
      host_step h w (HostState (Spawning (length gs)) gs wg ch NoCloser)
                  w (HostState (Receiving (mkRemoteHost (HostID h) [] [] []) []) gs wg ch Waiting)
  (** a check, at its actions *)
  | check_ask l s i X r (f : log → X) k main gs wg ch cl :
      gs !! i = Some (Checking (PAsk r f k)) →
      host_step h (l, s) (HostState main gs wg ch cl)
                  (l ++ [r], s) (HostState main (<[i := Checking (k (f l))]> gs) wg ch cl)
  | check_state l s i X (f : shared → X * shared) k main gs wg ch cl :
      gs !! i = Some (Checking (PState f k)) →
      host_step h (l, s) (HostState main gs wg ch cl)
                  (l, (f s).2) (HostState main (<[i := Checking (k (f s).1)]> gs) wg ch cl)
  (** if reporter != nil *)
  | check_returns w i o main gs wg ch cl :
      gs !! i = Some (Checking (PRet o)) →
      host_step h w (HostState main gs wg ch cl)
                  w (HostState main (<[i := match o with Some r => Sending r | None => Leaving None end]> gs) wg ch cl)
  (** reporterChan <- reporter *)
  | check_sends w i r main gs wg ch cl :
      gs !! i = Some (Sending r) → length ch < reporter_capacity → closed cl = false →
      host_step h w (HostState main gs wg ch cl) w (HostState main (<[i := Leaving (Some r)]> gs) wg (ch ++ [r]) cl)
  (** defer wg.Done() *)
  | check_done w i o main gs wg ch cl :
      gs !! i = Some (Leaving o) → (0 < wg)%Z →
      host_step h w (HostState main gs wg ch cl) w (HostState main (<[i := Gone o]> gs) (wg - 1) ch cl)
  (** wg.Wait() *)
  | closer_waits w main gs ch :
      host_step h w (HostState main gs 0 ch Waiting) w (HostState main gs 0 ch Closing)
  (** close(reporterChan) *)
  | closer_closes w main gs wg ch :
      host_step h w (HostState main gs wg ch Closing) w (HostState main gs wg ch Closed)
  (** for r := range reporterChan { r.Report(&resultingHost) } *)
  | host_receives w r host errs gs wg ch cl :
      host_step h w (HostState (Receiving host errs) gs wg (r :: ch) cl)
                  w (HostState (Receiving (Report r host).1 (errs ++ option_list (Report r host).2)) gs wg ch cl)
  (** the channel is closed and empty: Finalize *)
  | host_finishes w host errs gs wg :
      host_step h w (HostState (Receiving host errs) gs wg [] Closed)
                  w (HostState (Delivering (fold_left (λ h c, Finalize c h) cs host, errs)) gs wg [] Closed).

(** A goroutine of the host is about to panic: in its check, by a send on the
    closed channel, or by a negative counter. *)
Definition host_panics (s : host_state) : Prop :=
  Exists (λ g, match g with
               | Checking m => m = PPanic
               | Sending _ => closed (hs_closer s) = true
               | Leaving _ => (hs_wg s <= 0)%Z
               | _ => False
               end) (hs_checks s).

Variable params : list check_host.

Inductive run_step : run_state → run_state → Prop :=
  (** go d.ProcessHost(checkHost, outgoingNics, resultChan) *)
  | run_go l s i hs gs wg ch cl rc :
      hs !! i = Some (HostState Unstarted gs wg ch cl) →
      run_step (RunState l s (Starting i) hs rc)
               (RunState l s (Starting (S i)) (<[i := HostState (Spawning 0) gs wg ch cl]> hs) rc)
  | run_started l s hs rc :
      run_step (RunState l s (Starting (length params)) hs rc) (RunState l s (Collecting [] []) hs rc)
  (** an action of a goroutine of a host *)
  | run_host l s l' s' i h x x' main hs rc :
      params !! i = Some h → hs !! i = Some x → host_step h (l, s) x (l', s') x' →
      run_step (RunState l s main hs rc) (RunState l' s' main (<[i := x']> hs) rc)
  (** resultChan <- checkedHostResult{...} *)
  | run_deliver l s i res gs wg ch cl main hs rc :
      hs !! i = Some (HostState (Delivering res) gs wg ch cl) → length rc < length params →
      run_step (RunState l s main hs rc) (RunState l s main (<[i := HostState (Delivered res) gs wg ch cl]> hs) (rc ++ [res]))
  (** result := <-resultChan *)
  | run_receive l s res hosts errs hs rc :
      length hosts < length params →
      run_step (RunState l s (Collecting hosts errs) hs (res :: rc))
               (RunState l s (Collecting (hosts ++ [res.1]) (errs ++ res.2)) hs rc)
  (** the stable sort by the id of the host *)
  | run_returns l s hosts errs hs rc :
      length hosts = length params →
      run_step (RunState l s (Collecting hosts errs) hs rc)
               (RunState l s (Returned (sort_by rh_HostID hosts, errs)) hs rc).

Definition run_start (l : log) (s : shared) : run_state := RunState l s (Starting 0) (map new_host params) [].
Definition run_panics (st : run_state) : Prop := Exists host_panics (rs_hosts st).
End Steps.

(** * Facts *)
(** ** Every schedule is finite *)
Definition main_rank (m : host_main) : nat :=
  match m with Unstarted => 4 | Spawning _ => 3 | Receiving _ _ => 2 | Delivering _ => 1 | Delivered _ => 0 end.
Definition closer_rank (c : closer) : nat :=
  match c with NoCloser => 3 | Waiting => 2 | Closing => 1 | Closed => 0 end.
Definition host_key (s : host_state) : list check_goroutine * nat :=
  (hs_checks s, main_rank (hs_main s) + closer_rank (hs_closer s) + length (hs_chan s)).
Definition host_lt (s' s : host_state) : Prop := lex (one_less goroutine_lt) lt (host_key s') (host_key s).
Lemma host_lt_wf : well_founded host_lt.
Proof. apply (wf_projected (lex (one_less goroutine_lt) lt) host_key); [done|]. apply lex_wf; [apply one_less_wf, goroutine_lt_wf|apply lt_wf]. Qed.

Definition run_rank (m : run_main) : nat := match m with Starting _ => 2 | Collecting _ _ => 1 | Returned _ => 0 end.
Definition run_key (st : run_state) : list host_state * nat := (rs_hosts st, run_rank (rs_main st) + length (rs_chan st)).
Definition run_lt (st' st : run_state) : Prop := lex (one_less host_lt) lt (run_key st') (run_key st).
Lemma run_lt_wf : well_founded run_lt.
Proof. apply (wf_projected (lex (one_less host_lt) lt) run_key); [done|]. apply lex_wf; [apply one_less_wf, host_lt_wf|apply lt_wf]. Qed.

Section Termination.
Variable cs : list checker.
Variable nics : list outgoing_nic.
Variable params : list check_host.

Lemma host_step_lt h w s w' s' : host_step cs nics h w s w' s' → host_lt s' s.
Proof.
  unfold host_lt, lex, host_key.
  destruct 1 as [w i gs wg ch cl H|w i t gs wg ch cl H _|w gs wg ch|l s i X r f k main gs wg ch cl H|
    l s i X f k main gs wg ch cl H|w i o main gs wg ch cl H|w i r main gs wg ch cl H _ _|w i o main gs wg ch cl H _| | | |];
    cbn [hs_main hs_checks hs_wg hs_chan hs_closer fst snd main_rank closer_rank length]; try (right; split; [done|lia]).
  all: left; eexists i, _, _; split; [exact H|split; [|reflexivity]]; cbn [goroutine_lt sub]; eauto.
  by destruct o.
Qed.

Lemma run_step_lt st st' : run_step cs nics params st st' → run_lt st' st.
Proof.
  unfold run_lt, lex, run_key.
  destruct 1 as [l s i hs gs wg ch cl rc H|l s hs rc|l s l' s' i h x x' main hs rc _ Hx H|
    l s i res gs wg ch cl main hs rc H _|l s res hosts errs hs rc _|l s hosts errs hs rc _];
    cbn [rs_hosts rs_main rs_chan fst snd run_rank length].
  2, 5, 6: right; split; [done|lia].
  - left. eexists i, _, _. split; [exact H|split; [|reflexivity]]. right. split; [done|simpl; lia].
  - left. eexists i, _, _. split; [exact Hx|split; [|reflexivity]]. by eapply host_step_lt.
  - left. eexists i, _, _. split; [exact H|split; [|reflexivity]]. right. split; [done|simpl; lia].
Qed.

Lemma run_step_sn st : sn (run_step cs nics params) st.
Proof. induction (run_lt_wf st) as [st _ IH]. constructor. intros st' H. apply IH. by apply run_step_lt. Qed.
End Termination.

(** ** The invariant of a host *)
Definition ends (c : closer) : bool := match c with Closing | Closed => true | _ => false end.

Section Schedules.
Variable cs : list checker.
Variable nics : list outgoing_nic.
Variable params : list check_host.
Variable P : request → Prop.
Variable ok : checker * attributes → option reporter → Prop.
Hypothesis checks_return : ∀ h t, h ∈ params → t ∈ host_tasks cs h nics → spec P no_change (ok t) (Check t.1 t.2).

Definition no_report (h : check_host) : remote_host := mkRemoteHost (HostID h) [] [] [].
(** The result of a host is made of the results of all its checks. *)
Definition host_result (h : check_host) (res : remote_host * list error) : Prop :=
  ∃ rs vs, Forall2 ok (host_tasks cs h nics) vs ∧ rs ≡ₚ omap id vs ∧
    let '(host, errs) := apply_reports rs (no_report h) in
    res = (fold_left (λ h c, Finalize c h) cs host, errs).

Definition main_ok (h : check_host) (s : host_state) (received : list reporter) : Prop :=
  match hs_main s with
  | Unstarted => received = [] ∧ hs_closer s = NoCloser
  | Spawning i => received = [] ∧ hs_closer s = NoCloser ∧ i ≤ length (hs_checks s)
  | Receiving host errs => apply_reports received (no_report h) = (host, errs) ∧ hs_closer s ≠ NoCloser
  | Delivering res | Delivered res => hs_closer s = Closed ∧ host_result h res
  end.
Definition spawn_index (s : host_state) : nat :=
  match hs_main s with Unstarted => 0 | Spawning i => i | _ => length (hs_checks s) end.

Definition host_inv (h : check_host) (s : host_state) : Prop :=
  crew P id ok (host_tasks cs h nics) (spawn_index s) (hs_checks s) (hs_wg s) ∧
  (ends (hs_closer s) = true → all_gone (hs_checks s)) ∧
  ∃ received, received ++ hs_chan s ≡ₚ omap sent (hs_checks s) ∧ main_ok h s received.

Lemma new_host_inv h : host_inv h (new_host cs nics h).
Proof.
  split; [apply crew_idle|]. split; [done|]. exists []. split; [|done].
  simpl. generalize (host_tasks cs h nics) as ts. intros ts. by induction ts.
Qed.

Lemma no_host_panic h s : host_inv h s → ¬ host_panics s.
Proof.
  intros (Hc & Hends & _) Hp. apply Exists_exists in Hp as (g & Hin & Hg).
  apply list_elem_of_lookup in Hin as [i Hi]. pose proof (crew_no_panic _ _ _ _ _ _ _ _ _ Hc Hi) as H.
  destruct g as [| |m|r|o|o]; try done; [by destruct H| |lia].
  destruct (hs_closer s) eqn:E; try done. destruct (Hends eq_refl i _ Hi) as [o Ho]. done.
Qed.

(** A goroutine that has begun and is not gone acts. *)
Lemma check_moves h main gs wg ch cl i g g' t wg' added :
  host_inv h (HostState main gs wg ch cl) → gs !! i = Some g → host_tasks cs h nics !! i = Some t →
  begun g = true → active g = true → begun g' = true → goroutine_ok P id ok t g' →
  wg' = (wg + one_if (active g') - one_if (active g))%Z →
  option_list (sent g) ++ added = option_list (sent g') →
  host_inv h (HostState main (<[i := g']> gs) wg' (ch ++ added) cl).
Proof.
  intros (Hc & Hends & rcv & Hrcv & Hmain) Hi Ht Hb Ha Hb' Hok Hwg Hsent.
  assert (Hne : ends cl = true → False).
  { intros E. destruct (Hends E i g Hi) as [o ->]. done. }
  unfold host_inv, spawn_index, main_ok in *. cbn [hs_main hs_checks hs_wg hs_chan hs_closer] in *.
  rewrite length_insert. split_and!; [by eapply crew_moves|done|].
  exists rcv. split; [by apply (sent_insert gs i g)|done].
Qed.

(** *** The goroutine of the host itself, and the one that closes the channel *)
Ltac open_inv H :=
  destruct H as (Hc & Hends & rcv & Hrcv & Hmain);
  unfold host_inv, spawn_index, main_ok in *; cbn [hs_main hs_checks hs_wg hs_chan hs_closer] in *.

Lemma host_counts h i gs wg ch cl :
  gs !! i = Some Idle → host_inv h (HostState (Spawning i) gs wg ch cl) →
  host_inv h (HostState (Spawning i) (<[i := Counted]> gs) (wg + 1) ch cl).
Proof.
  intros Hi H. open_inv H. destruct Hmain as (-> & -> & Hle). rewrite length_insert.
  split_and!; [by apply crew_counts|done|]. exists []. split; [|done].
  rewrite Hrcv. symmetry. apply (omap_insert sent gs i Idle Counted Hi).
Qed.

Lemma host_starts h i t gs wg ch cl :
  gs !! i = Some Counted → host_tasks cs h nics !! i = Some t → h ∈ params →
  host_inv h (HostState (Spawning i) gs wg ch cl) →
  host_inv h (HostState (Spawning (S i)) (<[i := Checking (Check t.1 t.2)]> gs) wg ch cl).
Proof.
  intros Hi Ht Hh H. open_inv H. destruct Hmain as (-> & -> & Hle). rewrite length_insert. split_and!; [|done|].
  - eapply crew_starts; [done|exact Ht| |done]. apply checks_return with h; [done|]. by apply list_elem_of_lookup_2 with i.
  - exists []. split; [|split_and!; [done|done|apply lookup_lt_Some in Hi; lia]].
    rewrite Hrcv. symmetry. apply (omap_insert sent gs i Counted (Checking _) Hi).
Qed.

Lemma host_all_started h gs wg ch :
  host_inv h (HostState (Spawning (length gs)) gs wg ch NoCloser) →
  host_inv h (HostState (Receiving (no_report h) []) gs wg ch Waiting).
Proof.
  intros H. open_inv H. destruct Hmain as (-> & _ & _). split_and!; [done..|]. exists []. split; [done|]. by split.
Qed.

Lemma group_is_zero h main gs ch :
  host_inv h (HostState main gs 0 ch Waiting) → host_inv h (HostState main gs 0 ch Closing).
Proof.
  intros H. open_inv H. destruct main as [|i|host errs|res|res]; try (by destruct Hmain as (? & ? & ?)); try (by destruct Hmain).
  split_and!; [done|intros _; by eapply crew_gone|]. exists rcv. split; [done|]. split; [apply Hmain|done].
Qed.

Lemma channel_closes h main gs wg ch :
  host_inv h (HostState main gs wg ch Closing) → host_inv h (HostState main gs wg ch Closed).
Proof.
  intros H. open_inv H. split_and!; [done..| |].
  - intros _. by apply Hends.
  - exists rcv. split; [done|]. by destruct main as [|i|host errs|res|res]; naive_solver.
Qed.

Lemma apply_reports_snoc rs r h :
  apply_reports (rs ++ [r]) h =
  let '(host, errs) := apply_reports rs h in ((Report r host).1, errs ++ option_list (Report r host).2).
Proof.
  unfold apply_reports. rewrite fold_left_app. cbn [fold_left].
  destruct (fold_left _ rs (h, [])) as [host errs]. cbn [fst snd]. by destruct (Report r host).
Qed.

Lemma host_gets h r host errs gs wg ch cl :
  host_inv h (HostState (Receiving host errs) gs wg (r :: ch) cl) →
  host_inv h (HostState (Receiving (Report r host).1 (errs ++ option_list (Report r host).2)) gs wg ch cl).
Proof.
  intros H. open_inv H. destruct Hmain as [E Hcl]. split_and!; [done..|]. exists (rcv ++ [r]).
  split; [by rewrite <-(assoc_L (++))|]. split; [|done]. by rewrite apply_reports_snoc, E.
Qed.

Lemma host_ends h host errs gs wg :
  host_inv h (HostState (Receiving host errs) gs wg [] Closed) →
  host_inv h (HostState (Delivering (fold_left (λ h c, Finalize c h) cs host, errs)) gs wg [] Closed).
Proof.
  intros H. open_inv H. destruct Hmain as [E Hcl]. split_and!; [done..|]. exists rcv. split; [done|]. split; [done|].
  rewrite app_nil_r in Hrcv. exists rcv, (map sent gs). split; [eapply crew_results; [done|by apply Hends]|].
  split; [by rewrite Hrcv, sent_results|by rewrite E].
Qed.

(** A check that sends nothing *)
Ltac moves Hinv H Ht :=
  match goal with |- host_inv _ (HostState _ _ _ ?ch _) => rewrite <-(app_nil_r ch) end;
  eapply check_moves; [exact Hinv|exact H|exact Ht|done|done|done|..].

(** Every action of a goroutine of a host keeps the invariant. *)
Lemma host_step_inv h l s x l' s' x' :
  h ∈ params → host_step cs nics h (l, s) x (l', s') x' → host_inv h x →
  host_inv h x' ∧ s' = s ∧ (l' = l ∨ ∃ r, l' = l ++ [r] ∧ P r).
Proof.
  intros Hh Hstep Hinv.
  remember (l, s) as w eqn:Ew. remember (l', s') as w' eqn:Ew'.
  assert (Hlook : ∀ i g, hs_checks x !! i = Some g → ∃ t, host_tasks cs h nics !! i = Some t ∧ goroutine_ok P id ok t g).
  { intros i g Hi. destruct Hinv as (Hc & _). by eapply crew_task. }
  destruct Hstep as [w0 i gs wg ch cl H|w0 i t gs wg ch cl H Ht|w0 gs wg ch|l0 s0 i X r f k main gs wg ch cl H|
    l0 s0 i X f k main gs wg ch cl H|w0 i o main gs wg ch cl H|w0 i r main gs wg ch cl H Hcap Hcl|
    w0 i o main gs wg ch cl H Hwg0| | | |]; cbn [hs_checks] in Hlook;
    try (subst w0; injection Ew' as <- <-); try (subst w; injection Ew' as <- <-).
  - split; [by apply host_counts|auto].
  - split; [by apply host_starts|auto].
  - split; [by apply host_all_started|auto].
  - injection Ew as -> ->; injection Ew' as <- <-. destruct (Hlook i _ H) as (t & Ht & Hok). destruct Hok as [HP Hk].
    split; [|split; [done|right; by exists r]]. moves Hinv H Ht; [apply Hk|simpl; lia|done].
  - injection Ew as -> ->; injection Ew' as <- <-. destruct (Hlook i _ H) as (t & Ht & Hok). destruct (Hok s) as [HG Hk].
    split; [|split; [done|by left]]. moves Hinv H Ht; [exact Hk|simpl; lia|done].
  - destruct (Hlook i _ H) as (t & Ht & Hok). split; [|auto].
    destruct o; (moves Hinv H Ht; [exact Hok|simpl; lia|done]).
  - destruct (Hlook i _ H) as (t & Ht & Hok). split; [|auto].
    eapply check_moves; [exact Hinv|exact H|exact Ht|done|done|done|exact Hok|simpl; lia|done].
  - destruct (Hlook i _ H) as (t & Ht & Hok). split; [|auto]. moves Hinv H Ht; [exact Hok|simpl; lia|apply app_nil_r].
  - split; [by apply group_is_zero|auto].
  - split; [by apply channel_closes|auto].
  - split; [by apply host_gets|auto].
  - split; [by apply host_ends|auto].
Qed.

(** *** No host is stuck *)
Definition host_busy (x : host_state) : bool :=
  match hs_main x with Spawning _ | Receiving _ _ => true | _ => false end.

Lemma spawning_acts h w i gs wg ch cl :
  host_inv h (HostState (Spawning i) gs wg ch cl) →
  ∃ w' x', host_step cs nics h w (HostState (Spawning i) gs wg ch cl) w' x'.
Proof.
  intros H. open_inv H. destruct Hmain as (-> & -> & Hle).
  destruct (decide (i = length gs)) as [->|Hne]; [eexists _, _; apply host_spawned|].
  destruct (lookup_lt_is_Some_2 gs i) as [g Hg]; [lia|]. destruct Hc as (Hgs & _ & Hsp). destruct (Hsp i g Hg) as (_ & Hg' & _).
  destruct (Forall2_lookup_r _ _ _ _ _ Hgs Hg) as (t & Ht & _).
  destruct (Hg' eq_refl) as [->| ->]; eexists _, _; [by apply host_add|by apply host_go].
Qed.

Lemma check_acts h w host errs gs wg i g :
  host_inv h (HostState (Receiving host errs) gs wg [] Waiting) → gs !! i = Some g → active g = true →
  ∃ w' x', host_step cs nics h w (HostState (Receiving host errs) gs wg [] Waiting) w' x'.
Proof.
  intros H Hi Ha. open_inv H. destruct Hc as (Hgs & Hwg & Hsp). destruct (Forall2_lookup_r _ _ _ _ _ Hgs Hi) as (t & _ & Hok).
  destruct (Hsp i g Hi) as (Hb & _). specialize (Hb (lookup_lt_Some _ _ _ Hi)). destruct w as [l s].
  destruct g as [| |m|r|o|o]; try done.
  - destruct m as [o| | |X r f k|X f k]; try done; eexists _, _; [by apply check_returns|by apply check_ask|by apply check_state].
  - eexists _, _. apply check_sends; [done|unfold reporter_capacity; simpl; lia|done].
  - eexists _, _. apply check_done; [done|]. rewrite Hwg. by eapply active_count_pos.
Qed.

Lemma host_progress h w x : host_inv h x → host_busy x = true → ∃ w' x', host_step cs nics h w x w' x'.
Proof.
  intros H Hb. destruct x as [main gs wg ch cl]. destruct main as [|i|host errs|res|res]; try done.
  { by apply spawning_acts. }
  destruct ch as [|r ch]; [|eexists _, _; apply host_receives].
  pose proof H as H'. open_inv H'. destruct Hc as (_ & Hwg & _). destruct Hmain as [_ Hcl]. destruct cl; [done| |eexists _, _; apply closer_closes|eexists _, _; apply host_finishes].
  destruct (decide (active_count gs = 0%Z)) as [E|E].
  - rewrite E in Hwg. subst wg. eexists _, _. apply closer_waits.
  - destruct (active_exists gs E) as (i & g & Hi & Hg). by eapply check_acts.
Qed.

(** ** The invariant of a run *)
Definition delivered (x : host_state) : option (remote_host * list error) :=
  match hs_main x with Delivered res => Some res | _ => None end.
Definition unstarted_from (n : nat) (hs : list host_state) : Prop :=
  ∀ j x, hs !! j = Some x → (hs_main x = Unstarted ↔ n ≤ j).

Definition run_main_ok (m : run_main) (got : list (remote_host * list error)) : Prop :=
  match m with
  | Starting i => got = [] ∧ i ≤ length params
  | Collecting hosts errs => hosts = map fst got ∧ errs = concat (map snd got)
  | Returned report => report = (sort_by rh_HostID (map fst got), concat (map snd got)) ∧ length got = length params
  end.
Definition start_index (m : run_main) : nat := match m with Starting i => i | _ => length params end.

Definition run_inv (l0 : log) (s0 : shared) (st : run_state) : Prop :=
  (∃ t, rs_log st = l0 ++ t ∧ Forall P t) ∧ rs_shared st = s0 ∧
  Forall2 host_inv params (rs_hosts st) ∧ unstarted_from (start_index (rs_main st)) (rs_hosts st) ∧
  ∃ got, got ++ rs_chan st ≡ₚ omap delivered (rs_hosts st) ∧ run_main_ok (rs_main st) got.

Lemma host_step_main h w x w' x' :
  host_step cs nics h w x w' x' →
  (hs_main x = Unstarted ↔ hs_main x' = Unstarted) ∧ delivered x = delivered x'.
Proof. by destruct 1. Qed.

Lemma unstarted_insert n hs i x x' :
  hs !! i = Some x → (hs_main x = Unstarted ↔ hs_main x' = Unstarted) → unstarted_from n hs →
  unstarted_from n (<[i := x']> hs).
Proof.
  intros Hi Hx H j y Hj. apply list_lookup_insert_Some in Hj as [(-> & -> & _)|[_ Hj]]; [|by apply H].
  rewrite <-Hx. by apply H.
Qed.

(** Replacing the state of one host *)
Lemma run_inv_insert l0 s0 l s l' s' m hs rc i h x x' rc' :
  run_inv l0 s0 (RunState l s m hs rc) → params !! i = Some h → hs !! i = Some x → host_inv h x' →
  (hs_main x = Unstarted ↔ hs_main x' = Unstarted) → s' = s → (l' = l ∨ ∃ r, l' = l ++ [r] ∧ P r) →
  (∀ got, got ++ rc ≡ₚ omap delivered hs → got ++ rc' ≡ₚ omap delivered (<[i := x']> hs)) →
  run_inv l0 s0 (RunState l' s' m (<[i := x']> hs) rc').
Proof.
  intros ((t & Ht & HP) & Hs & Hhs & Hun & got & Hgot & Hm) Hh Hx Hinv Hmain -> Hl Hrc.
  unfold run_inv. cbn [rs_log rs_shared rs_main rs_hosts rs_chan] in *. split_and!; [|done| | |].
  - destruct Hl as [->|(r & -> & Hr)]; [by exists t|]. exists (t ++ [r]). rewrite Ht, <-(assoc_L (++)).
    split; [done|]. apply Forall_app. split; [done|]. by repeat constructor.
  - rewrite <-(list_insert_id params i h Hh). by apply Forall2_insert.
  - by apply (unstarted_insert _ _ _ x).
  - exists got. split; [by apply Hrc|done].
Qed.

Lemma run_start_inv l s : run_inv l s (run_start cs nics params l s).
Proof.
  unfold run_start, run_inv. cbn [rs_log rs_shared rs_main rs_hosts rs_chan]. split_and!; [by exists []; rewrite app_nil_r|done| | |].
  - assert (H : ∀ ps, Forall2 host_inv ps (map (new_host cs nics) ps)).
    { induction ps; simpl; constructor; [apply new_host_inv|done]. }
    apply H.
  - intros j x Hj. apply list_lookup_fmap_Some in Hj as (h & -> & _). simpl. split; [lia|done].
  - exists []. split; [|split; [done|simpl; lia]]. clear. generalize params as ps. intros ps. by induction ps.
Qed.

Lemma run_step_inv l0 s0 st st' : run_step cs nics params st st' → run_inv l0 s0 st → run_inv l0 s0 st'.
Proof.
  destruct 1 as [l s i hs gs wg ch cl rc H|l s hs rc|l s l' s' i h x x' main hs rc Hp Hx H|
    l s i res gs wg ch cl main hs rc H Hcap|l s res hosts errs hs rc Hlt|l s hosts errs hs rc Hlen]; intros Hinv.
  - (* a host is started *)
    pose proof Hinv as ((t & Ht & HP) & Hs & Hhs & Hun & got & Hgot & Hgm & Hi). cbn [rs_log rs_shared rs_main rs_hosts rs_chan] in *.
    destruct (Forall2_lookup_r _ _ _ _ _ Hhs H) as (h & Hh & Hx).
    split_and!; cbn [rs_log rs_shared rs_main rs_hosts rs_chan]; [by exists t|done| | |].
    + rewrite <-(list_insert_id params i h Hh). apply Forall2_insert; [done|].
      open_inv Hx. destruct Hmain as (-> & ->). split_and!; [done..|]. exists []. split; [done|]. split_and!; [done|done|lia].
    + intros j y Hj. simpl in *. apply list_lookup_insert_Some in Hj as [(<- & <- & _)|[Hne Hj]]; [simpl; split; [done|lia]|].
      rewrite (Hun j y Hj). simpl. lia.
    + exists got. split; [|split; [done|apply lookup_lt_Some in Hh; lia]].
      rewrite Hgot. symmetry. apply (omap_insert delivered hs i _ (HostState (Spawning 0) gs wg ch cl) H).
  - destruct Hinv as (Hl & Hs & Hhs & Hun & got & Hgot & -> & _). split_and!; [done..|]. by exists [].
  - assert (Hin : h ∈ params) by by apply list_elem_of_lookup_2 with i.
    pose proof Hinv as (_ & _ & Hhs & _). destruct (Forall2_lookup_l _ _ _ _ _ Hhs Hp) as (y & Hy & Hyinv).
    cbn [rs_hosts] in Hy. rewrite Hx in Hy. injection Hy as <-.
    destruct (host_step_main _ _ _ _ _ H) as [Hm Hd].
    destruct (host_step_inv _ _ _ _ _ _ _ Hin H Hyinv) as (Hx' & Hs' & Hl').
    eapply run_inv_insert; [exact Hinv|exact Hp|exact Hx|exact Hx'|exact Hm|exact Hs'|exact Hl'|].
    intros got ->. pose proof (omap_insert delivered hs i x x' Hx) as E. rewrite Hd in E.
    apply Permutation_app_inv_l in E. by symmetry.
  - pose proof Hinv as (_ & _ & Hhs & _). destruct (Forall2_lookup_r _ _ _ _ _ Hhs H) as (h & Hh & Hx).
    eapply run_inv_insert; [exact Hinv|exact Hh|exact H| |done|done|by left|].
    { open_inv Hx. destruct Hmain as (-> & Hres). split_and!; [done..|]. by exists rcv. }
    intros got Hgot. pose proof (omap_insert delivered hs i _ (HostState (Delivered res) gs wg ch cl) H) as E.
    cbn [delivered hs_main option_list app] in E. rewrite E, <-Hgot, (assoc_L (++)). apply Permutation_app_comm.
  - destruct Hinv as (Hl & Hs & Hhs & Hun & got & Hgot & -> & ->). split_and!; [done..|].
    exists (got ++ [res]). split; [by rewrite <-(assoc_L (++))|]. split; [by rewrite map_app|].
    rewrite map_app, concat_app. simpl. by rewrite app_nil_r.
  - destruct Hinv as (Hl & Hs & Hhs & Hun & got & Hgot & -> & ->). split_and!; [done..|].
    exists got. split; [done|]. split; [done|]. by rewrite length_map in Hlen.
Qed.

(** The results of hosts that have all been delivered *)
Lemma delivered_results ps xs :
  Forall2 host_inv ps xs → length (omap delivered xs) = length xs → Forall2 host_result ps (omap delivered xs).
Proof.
  induction 1 as [|h x ps xs Hx _ IH]; csimpl; intros E; [constructor|].
  pose proof (omap_length delivered xs). destruct (delivered x) as [res|] eqn:Ex; csimpl; [|csimpl in E; lia].
  constructor; [|apply IH; csimpl in E; lia]. open_inv Hx. unfold delivered in Ex.
  destruct (hs_main x); try done. injection Ex as <-. apply Hmain.
Qed.

(** What a run has come to when no goroutine can act *)
Definition run_done (st : run_state) : Prop :=
  ∃ got vs, rs_main st = Returned (sort_by rh_HostID (map fst got), concat (map snd got)) ∧
            got ≡ₚ vs ∧ Forall2 host_result params vs.

Lemma run_not_stuck l0 s0 st : run_inv l0 s0 st → (∃ st', run_step cs nics params st st') ∨ run_done st.
Proof.
  destruct st as [l s m hs rc]. intros (_ & _ & Hhs & Hun & got & Hgot & Hm).
  cbn [rs_log rs_shared rs_main rs_hosts rs_chan] in *. pose proof (Forall2_length _ _ _ Hhs) as Elen.
  destruct m as [i|hosts errs|report].
  - destruct Hm as [-> Hi]. left. destruct (decide (i = length params)) as [->|Hne]; [eexists; apply run_started|].
    destruct (lookup_lt_is_Some_2 hs i) as [x Hx]; [lia|]. destruct x as [xm gs wg ch cl].
    assert (xm = Unstarted) as -> by (by apply (Hun i _ Hx)). eexists. by apply run_go.
  - left. destruct Hm as [-> ->].
    destruct (decide (length got = length params)) as [E|Hne]; [eexists; apply run_returns; by rewrite length_map|].
    pose proof (omap_length delivered hs) as Hle.
    assert (Hl : length got + length rc = length (omap delivered hs)) by (by rewrite <-Hgot, length_app).
    destruct rc as [|res rc]; [|eexists; apply run_receive; rewrite length_map; simpl in Hl; lia]. simpl in Hl.
    destruct (proj1 (omap_length_lt delivered hs)) as (i & x & Hx & Hd); [lia|].
    destruct (Forall2_lookup_r _ _ _ _ _ Hhs Hx) as (h & Hh & Hinv).
    destruct (host_busy x) eqn:Hb.
    { destruct (host_progress h (l, s) x Hinv Hb) as ([l' s'] & x' & H). eexists. by eapply run_host. }
    destruct x as [xm gs wg ch cl]. destruct xm as [|i'|host errs|res|res]; try done.
    + assert (length params ≤ i) by (by apply (Hun i _ Hx)). apply lookup_lt_Some in Hh. lia.
    + eexists. apply (run_deliver cs nics params l s i res gs wg ch cl); [done|]. simpl. apply lookup_lt_Some in Hh. lia.
  - right. destruct Hm as [-> E]. exists got, (omap delivered hs). split; [done|].
    pose proof (omap_length delivered hs) as Hle.
    assert (Hl : length got + length rc = length (omap delivered hs)) by (by rewrite <-Hgot, length_app).
    destruct rc as [|res rc]; [|simpl in Hl; lia]. rewrite app_nil_r in Hgot. split; [done|].
    apply delivered_results; [done|]. simpl in Hl. lia.
Qed.

Lemma no_run_panic l0 s0 st : run_inv l0 s0 st → ¬ run_panics st.
Proof.
  intros (_ & _ & Hhs & _) Hp. apply Exists_exists in Hp as (x & Hin & Hx).
  apply list_elem_of_lookup in Hin as [i Hi]. destruct (Forall2_lookup_r _ _ _ _ _ Hhs Hi) as (h & _ & Hinv).
  by eapply no_host_panic.
Qed.

Lemma schedule_ends l s st :
  rtc (run_step cs nics params) (run_start cs nics params l s) st →
  ¬ run_panics st ∧ (∃ t, rs_log st = l ++ t ∧ Forall P t) ∧ rs_shared st = s ∧
  ((∃ st', run_step cs nics params st st') ∨ run_done st).
Proof.
  intros Hrun. assert (Hinv : run_inv l s st).
  { eapply (invariant_rtc _ (run_inv l s)); [apply run_step_inv|exact Hrun|apply run_start_inv]. }
  split; [by eapply no_run_panic|]. split; [apply Hinv|]. split; [apply Hinv|]. by eapply run_not_stuck.
Qed.
End Schedules.

(** ** The connectivity check in every schedule *)
Section Live.
Context {env : Env}.
Variable combined_output : log → string → list string → string * option error.
Variable ParseFloat : string → float64 * option error.
Variable unmarshal_nmap : string → result Nmaprun.
Hypothesis arping : arping_runs combined_output.
Notation live := (checkers combined_output ParseFloat unmarshal_nmap (mkDryRunConfig false "" "" "" "" "")).

Lemma live_result h nics res :
  host_result live nics task_ok h res → host_report h nics res.
Proof.
  intros (rs & vs & Hvs & Hrs & Hres). pose proof (report_of_results combined_output ParseFloat unmarshal_nmap h nics rs vs Hvs Hrs) as H.
  unfold no_report in Hres. destruct (apply_reports rs _) as [host errs]. by rewrite Hres.
Qed.

(** C7. With the checkers of a real run, and arping installed (the check panics
    without it), whatever the order in which the goroutines of the connectivity
    check act, the check ends: no schedule goes on for ever, none sends on a closed
    channel, counts the wait group below zero or stops before the result is
    there; only the probing commands are run, and the result is the one of
    [run_report], one report per host with every address pinged once. *)
Theorem every_schedule_reports params nics l s :
  let start := run_start live nics params l s in
  sn (run_step live nics params) start ∧
  ∀ st, rtc (run_step live nics params) start st →
    ¬ run_panics st ∧ (∃ t, rs_log st = l ++ t ∧ Forall probe t) ∧ rs_shared st = s ∧
    ((∃ st', run_step live nics params st st') ∨
     ∃ report, rs_main st = Returned report ∧ run_report params nics report).
Proof.
  intros start. split; [apply run_step_sn|]. intros st Hrun.
  assert (Hspec : ∀ h t, h ∈ params → t ∈ host_tasks live h nics → spec probe no_change (task_ok t) (Check t.1 t.2)).
  { intros h t _ Ht. by apply (spec_task combined_output ParseFloat unmarshal_nmap arping h nics). }
  destruct (schedule_ends live nics params probe task_ok Hspec l s st Hrun) as (H1 & H2 & H3 & H4).
  split_and!; [done..|]. destruct H4 as [|(got & vs & Hm & Hp & Hvs)]; [by left|right].
  eexists. split; [exact Hm|]. apply (run_of_results params nics got vs Hp).
  eapply Forall2_impl; [exact Hvs|]. intros h res. apply live_result.
Qed.
End Live.

Lemma every_schedule_reports_witness :
  let live := @checkers null_env demo_output (λ _, (f_zero, None)) (λ _, Bad enoent) (mkDryRunConfig false "" "" "" "" "") in
  let nics := [mkNic 1500 "eth0" true false []] in
  let start := run_start live nics [demo_host_params] [] shared_init in
  sn (run_step live nics [demo_host_params]) start ∧
  ∀ st, rtc (run_step live nics [demo_host_params]) start st →
    ¬ run_panics st ∧ (∃ t, rs_log st = [] ++ t ∧ Forall probe t) ∧ rs_shared st = shared_init ∧
    ((∃ st', run_step live nics [demo_host_params] st st') ∨
     ∃ report, rs_main st = Returned report ∧ run_report [demo_host_params] nics report).
Proof. intros live nics start. apply (@every_schedule_reports null_env demo_output _ _ demo_arping). Defined.
