(* ===== verification/DiskSpeedRunner.v ===== *)
(** * The goroutines of the disk speed check (src/disk_speed_check/disk_speed_check.go)

    FioPerfCheck makes a channel with a place for every job, starts the jobs, waits
    for all of them, closes the channel and only then reads it. Here the jobs, the
    wait group and the channel are explicit; a transition runs one goroutine up to
    its next action. *)
From S2P Require Import Prelude GoStrings Host Config Workers DiskSpeed.

(** ** States *)
(** The goroutine of FioPerfCheck: at the [i]-th turn of the loop that starts the
    jobs, in wg.Wait(), in the deferred close, in the loop over the channel with
    the worst latency and the last error so far, and its answer. *)
Inductive check_main : Type :=
  | Spawning (i : nat)
  | Joining
  | Closing
  | Ranging (acc : Z * string)
  | Returned (answer : string * string * Z).
Abbreviation job := (goroutine fioCheckResponse fioCheckResponse).
Record check_state : Type := CheckState {
  ck_log : log; ck_shared : shared; ck_main : check_main;
  ck_jobs : list job; ck_wg : Z; ck_chan : list fioCheckResponse; ck_closed : bool
}.

(** ** Steps *)
Section Steps.
Context {env : Env}.
Variable unmarshal_fio : string → result (list Z).
Variable marshal_response : Z → string → result string.
Variable cfg : SubprocessConfig.
Variable path : string.
(** The capacity of the channel, in FioPerfCheck, and the number of jobs *)
Variables capacity numOfJobs : nat.

Notation getDiskPerf := (getDiskPerf unmarshal_fio cfg path).

Definition check_start (l : log) (s : shared) : check_state :=
  CheckState l s (Spawning 0) (map (λ _, Idle) (seq 1 numOfJobs)) 0 [] false.

Inductive check_step : check_state → check_state → Prop :=
  (** wg.Add(1) *)
  | job_counted l s i gs wg ch cl :
      gs !! i = Some Idle →
      check_step (CheckState l s (Spawning i) gs wg ch cl) (CheckState l s (Spawning i) (<[i := Counted]> gs) (wg + 1) ch cl)
  (** go func() { ... }() *)
  | job_go l s i gs wg ch cl :
      gs !! i = Some Counted →
      check_step (CheckState l s (Spawning i) gs wg ch cl)
                 (CheckState l s (Spawning (S i)) (<[i := Checking getDiskPerf]> gs) wg ch cl)
  | jobs_started l s gs wg ch cl :
      check_step (CheckState l s (Spawning (length gs)) gs wg ch cl) (CheckState l s Joining gs wg ch cl)
  (** a job, at its actions *)
  | job_ask l s i X r (f : log → X) k main gs wg ch cl :
      gs !! i = Some (Checking (PAsk r f k)) →
      check_step (CheckState l s main gs wg ch cl)
                 (CheckState (l ++ [r]) s main (<[i := Checking (k (f l))]> gs) wg ch cl)
  | job_state l s i X (f : shared → X * shared) k main gs wg ch cl :
      gs !! i = Some (Checking (PState f k)) →
      check_step (CheckState l s main gs wg ch cl)
                 (CheckState l (f s).2 main (<[i := Checking (k (f s).1)]> gs) wg ch cl)
  | job_returns l s i r main gs wg ch cl :
      gs !! i = Some (Checking (PRet r)) →
      check_step (CheckState l s main gs wg ch cl) (CheckState l s main (<[i := Sending r]> gs) wg ch cl)
  (** responseCh <- p.getDiskPerf(path) *)
  | job_sends l s i r main gs wg ch :
      gs !! i = Some (Sending r) → length ch < capacity →
      check_step (CheckState l s main gs wg ch false)
                 (CheckState l s main (<[i := Leaving (Some r)]> gs) wg (ch ++ [r]) false)
  (** defer wg.Done() *)
  | job_done l s i o main gs wg ch cl :
      gs !! i = Some (Leaving o) → (0 < wg)%Z →
      check_step (CheckState l s main gs wg ch cl) (CheckState l s main (<[i := Gone o]> gs) (wg - 1) ch cl)
  (** wg.Wait() *)
  | jobs_joined l s gs ch cl :
      check_step (CheckState l s Joining gs 0 ch cl) (CheckState l s Closing gs 0 ch cl)
  (** defer close(responseCh) *)
  | channel_closed l s gs wg ch :
      check_step (CheckState l s Closing gs wg ch false) (CheckState l s (Ranging ((-1)%Z, "")) gs wg ch true)
  (** for res := range responseCh *)
  | response_taken l s acc r gs wg ch cl :
      check_step (CheckState l s (Ranging acc) gs wg (r :: ch) cl) (CheckState l s (Ranging (fio_step acc r)) gs wg ch cl)
  | check_returns l s acc gs wg :
      check_step (CheckState l s (Ranging acc) gs wg [] true)
                 (CheckState l s (Returned (fio_answer marshal_response path acc)) gs wg [] true).

(** The process is about to die: a job panics, sends on the closed channel, or
    makes the counter negative. *)
Definition check_panics (st : check_state) : Prop :=
  Exists (λ g, match g with
               | Checking m => m = PPanic
               | Sending _ => ck_closed st = true
               | Leaving _ => (ck_wg st <= 0)%Z
               | _ => False
               end) (ck_jobs st).
End Steps.

(** ** Every schedule is finite *)
Definition main_rank (m : check_main) : nat :=
  match m with Spawning _ => 4 | Joining => 3 | Closing => 2 | Ranging _ => 1 | Returned _ => 0 end.
Definition check_key (st : check_state) : list job * nat := (ck_jobs st, main_rank (ck_main st) + length (ck_chan st)).
Definition check_lt (st' st : check_state) : Prop := lex (one_less goroutine_lt) lt (check_key st') (check_key st).
Lemma check_lt_wf : well_founded check_lt.
Proof. apply (wf_projected (lex (one_less goroutine_lt) lt) check_key); [done|]. apply lex_wf; [apply one_less_wf, goroutine_lt_wf|apply lt_wf]. Qed.

Lemma check_step_lt {env : Env} uf mr cfg path c st st' : check_step uf mr cfg path c st st' → check_lt st' st.
Proof.
  unfold check_lt, lex, check_key.
  destruct 1 as [l s i gs wg ch cl H|l s i gs wg ch cl H| |l s i X r f k main gs wg ch cl H|l s i X f k main gs wg ch cl H|
    l s i r main gs wg ch cl H|l s i r main gs wg ch H _|l s i o main gs wg ch cl H _| | | |];
    cbn [ck_main ck_jobs ck_chan fst snd main_rank length]; try (right; split; [done|lia]).
  all: left; eexists i, _, _; split; [exact H|split; [|reflexivity]]; cbn [goroutine_lt sub]; eauto.
Qed.

Lemma check_step_sn {env : Env} uf mr cfg path c st : sn (check_step uf mr cfg path c) st.
Proof. induction (check_lt_wf st) as [st _ IH]. constructor. intros st' H. apply IH. by eapply check_step_lt. Qed.

(** ** What every schedule comes to *)
Section Schedules.
Context {env : Env}.
Variable unmarshal_fio : string → result (list Z).
Variable marshal_response : Z → string → result string.
Variable cfg : SubprocessConfig.
Variable path : string.
(** fio, when it succeeds, reports on the job it was given. *)
Definition fio_reports : Prop := ∀ l stdout stderr err,
  e_run l "fio" (fio_args path) = (stdout, stderr, err) → getExitCode err = 0%Z → unmarshal_fio stdout ≠ Good [].
Hypothesis Hfio : fio_reports.

Notation getDiskPerf := (getDiskPerf unmarshal_fio cfg path).
Notation check_step := (check_step unmarshal_fio marshal_response cfg path).

(** The request of a job *)
Definition fio_request (r : request) : Prop := DryRunEnabled (sc_dry cfg) = false ∧ r = RExec "fio" (fio_args path).

(** What a job may answer: an error, or what fio has reported on the disk *)
Definition job_ok (r : fioCheckResponse) : Prop :=
  match fio_err r with
  | Some _ => latency r = (-1)%Z
  | None => if DryRunEnabled (sc_dry cfg) then latency r = 1%Z
            else ∃ l stdout stderr err ns rest, e_run l "fio" (fio_args path) = (stdout, stderr, err) ∧
                   getExitCode err = 0%Z ∧ unmarshal_fio stdout = Good (ns :: rest) ∧ latency r = Milliseconds ns
  end.

Lemma spec_getDiskPerf : spec fio_request no_change job_ok getDiskPerf.
Proof.
  unfold DiskSpeed.getDiskPerf. destruct (String.eqb path ""); [done|].
  destruct (DryRunEnabled (sc_dry cfg)) eqn:E; [by simpl; unfold job_ok; simpl; rewrite E|].
  split; [done|]. intros l. destruct (e_run l "fio" (fio_args path)) as [[stdout stderr] err] eqn:Er.
  cbn [proc_bind mbind proc_bind_go mret proc_ret spec].
  destruct (Z.eqb_spec (getExitCode err) 0) as [Hc|Hc]; cbn [negb]; [|done].
  destruct (unmarshal_fio stdout) as [jobs|e] eqn:Ef; [|done].
  destruct jobs as [|ns rest]; [by destruct (Hfio _ _ _ _ Er Hc)|].
  simpl. unfold job_ok. simpl. rewrite E. by eexists _, _, _, _, _, _.
Qed.

Variables capacity numOfJobs : nat.

Definition job_message (_ : nat) (o : option fioCheckResponse) : Prop := ∃ r, o = Some r ∧ job_ok r.
Notation jobs_ok := (crew fio_request Some job_message (seq 1 numOfJobs)).

Definition spawn_index (st : check_state) : nat :=
  match ck_main st with Spawning i => i | _ => length (ck_jobs st) end.
Definition main_ok (st : check_state) (rcv : list fioCheckResponse) : Prop :=
  match ck_main st with
  | Spawning i => rcv = [] ∧ ck_closed st = false ∧ i ≤ length (ck_jobs st)
  | Joining => rcv = [] ∧ ck_closed st = false
  | Closing => rcv = [] ∧ ck_closed st = false ∧ all_gone (ck_jobs st)
  | Ranging acc => acc = worst_latency rcv ∧ ck_closed st = true ∧ all_gone (ck_jobs st)
  | Returned answer => ck_chan st = [] ∧ ck_closed st = true ∧ all_gone (ck_jobs st) ∧
                       answer = fio_answer marshal_response path (worst_latency rcv)
  end.
Definition check_inv (l0 : log) (s0 : shared) (st : check_state) : Prop :=
  (∃ t, ck_log st = l0 ++ t ∧ Forall fio_request t) ∧ ck_shared st = s0 ∧
  jobs_ok (spawn_index st) (ck_jobs st) (ck_wg st) ∧
  ∃ rcv, rcv ++ ck_chan st ≡ₚ omap sent (ck_jobs st) ∧ main_ok st rcv.

Lemma check_start_inv l s : check_inv l s (check_start numOfJobs l s).
Proof.
  split_and!; [by exists []; rewrite app_nil_r|done|apply crew_idle|]. exists [].
  split; [|split_and!; [done|done|simpl; lia]]. simpl. generalize (seq 1 numOfJobs) as ts. intros ts. by induction ts.
Qed.

(** A goroutine that has begun and is not gone acts. *)
Lemma job_moves l0 s0 l s l' main gs wg wg' ch added cl i g g' :
  check_inv l0 s0 (CheckState l s main gs wg ch cl) → gs !! i = Some g →
  begun g = true → active g = true → begun g' = true → (∀ t, goroutine_ok fio_request Some job_message t g → goroutine_ok fio_request Some job_message t g') →
  wg' = (wg + one_if (active g') - one_if (active g))%Z → option_list (sent g) ++ added = option_list (sent g') →
  (l' = l ∨ ∃ r, l' = l ++ [r] ∧ fio_request r) →
  check_inv l0 s0 (CheckState l' s main (<[i := g']> gs) wg' (ch ++ added) cl).
Proof.
  intros ((t & Ht & HP) & Hs & Hc & rcv & Hrcv & Hmain) Hi Hb Ha Hb' Hok Hwg Hsent Hl.
  assert (Hno : all_gone gs → False) by (intros H; destruct (H i g Hi) as [o ->]; done).
  destruct (crew_task _ _ _ _ _ _ _ _ _ Hc Hi) as (j & Hj & Hg).
  unfold check_inv, spawn_index, main_ok in *. cbn [ck_log ck_shared ck_main ck_jobs ck_wg ck_chan ck_closed] in *.
  rewrite length_insert. split_and!; [|done|eapply (crew_moves _ _ _ _ _ _ _ _ _ g); [exact Hc|exact Hi|exact Hj|done|done|by apply Hok|done]|].
  - destruct Hl as [->|(r & -> & Hr)]; [by exists t|]. exists (t ++ [r]). rewrite Ht, <-(assoc_L (++)).
    split; [done|]. apply Forall_app. split; [done|]. by apply Forall_singleton.
  - exists rcv. split; [by apply (sent_insert gs i g)|]. destruct main; naive_solver.
Qed.

Ltac open_inv H :=
  destruct H as (Hlog & Hs & Hc & rcv & Hrcv & Hmain);
  unfold check_inv, spawn_index, main_ok in *; cbn [ck_log ck_shared ck_main ck_jobs ck_wg ck_chan ck_closed] in *.
(** An action that sends nothing *)
Ltac moves Hinv H :=
  match goal with |- check_inv _ _ (CheckState _ _ _ _ _ ?ch _) => rewrite <-(app_nil_r ch) end;
  eapply job_moves; [exact Hinv|exact H|done|done|done|..].

(** A request of a job *)
Lemma job_asks l0 s0 l s main gs wg ch cl i X r (f : log → X) k :
  check_inv l0 s0 (CheckState l s main gs wg ch cl) → gs !! i = Some (Checking (PAsk r f k)) →
  check_inv l0 s0 (CheckState (l ++ [r]) s main (<[i := Checking (k (f l))]> gs) wg ch cl).
Proof.
  intros Hinv H. pose proof Hinv as (_ & _ & Hc & _). destruct (crew_task _ _ _ _ _ _ _ _ _ Hc H) as (j & _ & [Hr Hk]).
  moves Hinv H; [intros t [_ Ht]; apply Ht|simpl; lia|done|right; by exists r].
Qed.

Lemma check_step_inv l0 s0 st st' : check_step capacity st st' → check_inv l0 s0 st → check_inv l0 s0 st'.
Proof.
  destruct 1 as [l s i gs wg ch cl H|l s i gs wg ch cl H| |l s i X r f k main gs wg ch cl H|l s i X f k main gs wg ch cl H|
    l s i r main gs wg ch cl H|l s i r main gs wg ch H Hcap|l s i o main gs wg ch cl H Hwg| | | |]; intros Hinv.
  - open_inv Hinv. rewrite length_insert. split_and!; [done|done|by apply crew_counts|]. exists rcv. split; [|done].
    rewrite Hrcv. symmetry. apply (omap_insert sent gs i Idle Counted H).
  - open_inv Hinv. rewrite length_insert. destruct Hmain as (-> & -> & Hle).
    destruct (crew_task _ _ _ _ _ _ _ _ _ Hc H) as (j & Hj & _). split_and!; [done|done| |].
    + eapply crew_starts; [done|exact Hj| |done]. eapply spec_conseq; [apply spec_getDiskPerf|]. intros r Hr. by exists r.
    + exists []. split; [|split_and!; [done|done|apply lookup_lt_Some in H; lia]].
      rewrite Hrcv. symmetry. apply (omap_insert sent gs i Counted (Checking _) H).
  - open_inv Hinv. split_and!; [done..|]. exists rcv. naive_solver.
  - by apply job_asks.
  - pose proof Hinv as (_ & _ & Hc & _). destruct (crew_task _ _ _ _ _ _ _ _ _ Hc H) as (j & _ & Hk). destruct (Hk s) as [Hs _].
    rewrite <-Hs. moves Hinv H; [intros t Ht; apply (Ht s)|simpl; lia|done|by left].
  - moves Hinv H; [intros t Ht; exact Ht|simpl; lia|done|by left].
  - eapply job_moves; [exact Hinv|exact H|done|done|done|by intros t Ht|simpl; lia|done|by left].
  - moves Hinv H; [intros t Ht; exact Ht|simpl; lia|apply app_nil_r|by left].
  - open_inv Hinv. split_and!; [done..|]. exists rcv. destruct Hmain as [-> ->]. split_and!; [done..|by eapply crew_gone].
  - open_inv Hinv. split_and!; [done..|]. exists rcv. destruct Hmain as (-> & _ & Hg). by split_and!.
  - open_inv Hinv. split_and!; [done..|]. exists (rcv ++ [r]). destruct Hmain as (-> & -> & Hg).
    rewrite <-(assoc_L (++)). split_and!; [done| |done..]. unfold worst_latency. by rewrite fold_left_app.
  - open_inv Hinv. split_and!; [done..|]. exists rcv. destruct Hmain as (-> & _ & Hg). by split_and!.
Qed.

(** *** No goroutine is stuck *)
(** Nothing is read before all jobs are done: the channel has a place for each. *)
Hypothesis room : numOfJobs ≤ capacity.

Lemma job_acts l0 s0 l s main gs wg ch i g :
  check_inv l0 s0 (CheckState l s main gs wg ch false) → length gs = numOfJobs → omap sent gs ≡ₚ ch →
  gs !! i = Some g → begun g = true → active g = true → ∃ st', check_step capacity (CheckState l s main gs wg ch false) st'.
Proof.
  intros (_ & _ & Hc & _) Hlen Hch Hi Hb Ha. cbn [ck_jobs ck_wg] in Hc. pose proof (crew_no_panic _ _ _ _ _ _ _ _ _ Hc Hi) as Hno.
  destruct g as [| |m|r|o|o]; try done.
  - destruct m as [r| | |X r f k|X f k]; try by destruct Hno.
    + eexists. by apply job_returns.
    + eexists. by apply job_ask.
    + eexists. by apply job_state.
  - eexists. apply job_sends; [done|]. rewrite <-Hch.
    assert (length (omap sent gs) < length gs) by (apply omap_length_lt; by exists i, (Sending r)). lia.
  - eexists. by apply job_done.
Qed.

Definition check_done (st : check_state) : Prop :=
  ∃ rs, length rs = numOfJobs ∧ Forall job_ok rs ∧
        ck_main st = Returned (fio_answer marshal_response path (worst_latency rs)).

Lemma all_sent (gs : list job) ts : Forall2 job_message ts (map sent gs) → length (omap sent gs) = length ts ∧ Forall job_ok (omap sent gs).
Proof.
  revert ts. induction gs as [|g gs IH]; intros ts H; [inversion H; by split|].
  apply Forall2_cons_inv_r in H as (t & ts' & (r & Er & Hr) & H & ->). csimpl. rewrite Er. csimpl.
  destruct (IH ts' H) as [-> Hall]. split; [done|by constructor].
Qed.

Lemma check_progress l0 s0 st :
  check_inv l0 s0 st → (∃ st', check_step capacity st st') ∨ check_done st.
Proof.
  destruct st as [l s main gs wg ch cl]. intros H. pose proof H as H0. open_inv H.
  pose proof Hc as (Hgs & Hwg & Hsp). pose proof (Forall2_length _ _ _ Hgs) as Hlen. rewrite length_seq in Hlen.
  destruct main as [i| | |acc|answer].
  - left. destruct Hmain as (-> & -> & Hle). destruct (decide (i = length gs)) as [->|]; [eexists; apply jobs_started|].
    destruct (lookup_lt_is_Some_2 gs i) as [g Hg]; [lia|]. destruct (Hsp i g Hg) as (_ & Hi & _).
    destruct (Hi eq_refl) as [->| ->]; eexists; [by apply job_counted|by apply job_go].
  - left. destruct Hmain as [-> ->]. destruct (decide (active_count gs = 0%Z)) as [E|E].
    + rewrite E in Hwg. subst wg. eexists. apply jobs_joined.
    + destruct (active_exists gs E) as (i & g & Hi & Hg). destruct (Hsp i g Hi) as (Hb & _).
      eapply job_acts; [exact H0|done|by symmetry|exact Hi|by apply Hb, (lookup_lt_Some _ _ _ Hi)|done].
  - left. destruct Hmain as (-> & -> & _). eexists. apply channel_closed.
  - left. destruct Hmain as (-> & -> & _). destruct ch as [|r ch]; eexists; [apply check_returns|apply response_taken].
  - right. destruct Hmain as (-> & -> & Hg & ->). exists rcv. rewrite app_nil_r in Hrcv.
    destruct (all_sent gs _ (crew_results _ _ _ _ _ _ _ Hc Hg)) as [El Hall]. split_and!; [|by rewrite Hrcv|done].
    by rewrite Hrcv, El, length_seq.
Qed.

Lemma check_no_panic l0 s0 st : check_inv l0 s0 st → ¬ check_panics st.
Proof.
  destruct st as [l s main gs wg ch cl]. intros H Hp. open_inv H. unfold check_panics in Hp. cbn [ck_jobs ck_closed ck_wg] in Hp.
  apply Exists_exists in Hp as (g & Hin & Hg). apply list_elem_of_lookup in Hin as [i Hi].
  pose proof (crew_no_panic _ _ _ _ _ _ _ _ _ Hc Hi) as Hno. destruct g as [| |m|r|o|o]; try done; [by destruct Hno| |lia].
  assert (Hgone : all_gone gs → False) by (intros Ha; destruct (Ha i _ Hi) as [o Ho]; done).
  destruct main; naive_solver.
Qed.
End Schedules.

Section Live.
Context {env : Env}.
Variable unmarshal_fio : string → result (list Z).
Variable marshal_response : Z → string → result string.

(** When fio succeeds without reporting a job, the first job is read all the
    same, and the program panics. *)
Theorem no_job_panics cfg path l s stdout stderr err :
  path ≠ "" → DryRunEnabled (sc_dry cfg) = false →
  e_run l "fio" (fio_args path) = (stdout, stderr, err) → getExitCode err = 0%Z → unmarshal_fio stdout = Good [] →
  (run (getDiskPerf unmarshal_fio cfg path) l s).1.1 = Panicked.
Proof.
  intros Hp Hdry Er Hc Hu. unfold getDiskPerf. apply String.eqb_neq in Hp. rewrite Hp, Hdry. unfold Execute.
  rewrite !run_bind. cbn [run ask]. rewrite Er. cbn [run mret proc_ret]. by rewrite Hc, Hu.
Qed.

(** C12. Whatever the order in which the goroutines of the disk speed check act,
    when fio, where it succeeds on the disk, reports on its job (one that reports
    none makes the job panic): no schedule goes on for ever, sends on the closed
    channel, counts the wait group below zero or stops before the answer is there,
    because the channel has a place for every job; nothing but fio on the disk of
    the request is run, and nothing in a dry run; the answer is made of one
    response per job, an error or what fio has reported. *)
Theorem every_schedule_answers cfg path l s :
  fio_reports unmarshal_fio path →
  let step := check_step unmarshal_fio marshal_response cfg path numOfFioJobs in
  let start := check_start numOfFioJobs l s in
  sn step start ∧
  ∀ st, rtc step start st →
    ¬ check_panics st ∧ (∃ t, ck_log st = l ++ t ∧ Forall (fio_request cfg path) t) ∧ ck_shared st = s ∧
    ((∃ st', step st st') ∨
     ∃ rs, length rs = numOfFioJobs ∧ Forall (job_ok unmarshal_fio cfg path) rs ∧
           ck_main st = Returned (fio_answer marshal_response path (worst_latency rs))).
Proof.
  intros Hfio step start. split; [apply check_step_sn|]. intros st Hrun.
  assert (Hinv : check_inv unmarshal_fio marshal_response cfg path numOfFioJobs l s st).
  { eapply (invariant_rtc _ _ _ _ (check_step_inv _ marshal_response cfg path Hfio numOfFioJobs numOfFioJobs l s) Hrun). apply check_start_inv. }
  split; [by eapply check_no_panic|]. split; [apply Hinv|]. split; [apply Hinv|].
  by apply (check_progress unmarshal_fio marshal_response cfg path numOfFioJobs numOfFioJobs (le_n _) l s).
Qed.
End Live.

(** A host where fio works, and writes its report *)
Module DiskSpeedDemo.
Definition demo_host : Env := cmd_host (λ _ c _, if String.eqb c "fio" then ("{jobs}", "", None) else ("", "", None)).
Definition demo_fio (out : string) : result (list Z) :=
  if String.eqb out "{jobs}" then Good [2000000%Z] else if String.eqb out "{}" then Good [] else Bad (errorf "EOF").
Definition demo_marshal (latency : Z) (path : string) : result string := Good (path +:+ " " +:+ Itoa latency).
Definition demo_cfg : SubprocessConfig :=
  mkSubprocessConfig (mkLoggingConfig false false false) (mkDryRunConfig false "" "" "" "" "").
(** Both jobs answer two milliseconds. *)
Example demo_answer :
  fio_answer demo_marshal "/dev/sda" (worst_latency [mkFio 2 None; mkFio 2 None]) = ("/dev/sda 2", "", 0%Z).
Proof. reflexivity. Qed.
End DiskSpeedDemo.

Section Witness.
Import DiskSpeedDemo.
Lemma every_schedule_answers_witness :
  let step := @check_step demo_host demo_fio demo_marshal demo_cfg "/dev/sda" numOfFioJobs in
  let start := check_start numOfFioJobs [] shared_init in
  sn step start ∧
  ∀ st, rtc step start st →
    ¬ check_panics st ∧ (∃ t, ck_log st = [] ++ t ∧ Forall (fio_request demo_cfg "/dev/sda") t) ∧ ck_shared st = shared_init ∧
    ((∃ st', step st st') ∨
     ∃ rs, length rs = numOfFioJobs ∧ Forall (@job_ok demo_host demo_fio demo_cfg "/dev/sda") rs ∧
           ck_main st = Returned (fio_answer demo_marshal "/dev/sda" (worst_latency rs))).
Proof. intros step start. 
  apply (@every_schedule_answers demo_host demo_fio demo_marshal demo_cfg "/dev/sda").
  intros l stdout stderr err E _. injection E as <- <- <-. discriminate.
Defined.
End Witness.
