(* ===== verification/BootArtifacts.v ===== *)
(** * Download of boot artifacts and reboot for reclaim
    (src/commands/actions/download_boot_artifacts_cmd.go, reboot_for_reclaim.go)

    The kernel and initrd are downloaded to a temporary folder and copied with a
    boot loader entry to the boot folder of the host, which then reboots into
    them. *)
From S2P Require Import Prelude GoStrings GoFloat Host Http Paths Regex.

(** models.DownloadBootArtifactsRequest *)
Record boot_request : Type := mkBootRequest {
  HostFsMountDir : option string; KernelURL : option string; InitrdURL : option string; RootfsURL : option string
}.

Definition defaultRetryAmount : nat := 5.
Definition defaultRetryDelay : Z := Minute.
Definition artifactsFolder : string := "/discovery".
Definition bootLoaderFolder : string := "/loader/entries".
Definition tempBootArtifactsFolder : string := "/tmp/boot".
Definition kernelFile : string := "vmlinuz".
Definition initrdFile : string := "initrd".
Definition bootLoaderConfigFileName : string := "/00-assisted-discovery.conf".

Definition getMountedBootFolder (hostFsMountDir : string) : string := path_join [hostFsMountDir; "boot"].
Definition getMountedArtifactsFolder (hostFsMountDir : string) : string :=
  path_join [hostFsMountDir; "boot"; artifactsFolder].
Definition getMountedBootLoaderFolder (hostFsMountDir : string) : string :=
  path_join [hostFsMountDir; "boot"; bootLoaderFolder].

(** The boot loader entry. *)
Definition bootLoaderConfig (s390x : bool) (rootfsUrl kernelPath initrdPath : string) : string :=
  "title Assisted Installer Discovery" +:+ nls +:+ "version 999" +:+ nls +:+
  (if s390x
   then "options random.trust_cpu=on ai.ip_cfg_override=1 ignition.firstboot ignition.platform.id=metal coreos.live.rootfs_url=" +:+ rootfsUrl
   else "options random.trust_cpu=on ignition.firstboot ignition.platform.id=metal 'coreos.live.rootfs_url=" +:+ rootfsUrl +:+ "'") +:+
  nls +:+ "linux " +:+ kernelPath +:+ nls +:+ "initrd " +:+ initrdPath.

Definition failed (what : string) (e : error) : error := errorf (what +:+ err_msg e).

Section BootArtifacts.
Context {env : Env} {http : Http}.
(** encoding/json, the PEM parser, statfs (available blocks, block size), and
    whether the program runs on s390x (runtime.GOARCH). *)
Variable unmarshal_request : string → result boot_request.
Variable parse_pem : string → bool.
Variable statfs : log → string → result (Z * Z).
Variable s390x : bool.

Definition stat_ok (p : string) : Go bool := r ← Stat p; mret (is_good r).

Definition bootArtifactsExist (hostFsMountDir : string) : Go bool :=
  kernel ← stat_ok (path_join [getMountedArtifactsFolder hostFsMountDir; kernelFile]);
  if negb kernel then mret false else
  initrd ← stat_ok (path_join [getMountedArtifactsFolder hostFsMountDir; initrdFile]);
  if negb initrd then mret false else
  stat_ok (path_join [getMountedBootLoaderFolder hostFsMountDir; bootLoaderConfigFileName]).

(** The CA certificates of the client. *)
Definition createHTTPClient (caCertPath : string) : Go (option string + error) :=
  if String.eqb caCertPath "" then mret (inl None) else
  r ← ReadFile caCertPath;
  match r with
  | Bad err => mret (inr (errorf ("failed to open cert file " +:+ caCertPath +:+ ", " +:+ err_msg err)))
  | Good caCert =>
      if parse_pem caCert then mret (inl (Some caCert))
      else mret (inr (errorf ("failed to append cert " +:+ caCertPath +:+ ", %!s(<nil>)")))
  end.

Definition status_ok (code : Z) : bool := (code >=? 200)%Z && (code <? 300)%Z.

Definition attempt_error (url : string) (code : Z) (attempt retry : nat) (downloadErr : option error) : error :=
  errorf ("failed downloading boot artifact from " +:+ url +:+ ", status code received: " +:+ Itoa code +:+
          ", attempt " +:+ Itoa (Z.of_nat attempt) +:+ "/" +:+ Itoa (Z.of_nat retry) +:+
          ", download error: " +:+ match downloadErr with Some e => err_msg e | None => "%!w(<nil>)" end).

(** The retry loop: the response to read, or the error of the last attempt.
    Most errors come without a response, and reading its status code panics. *)
Fixpoint download_loop (roots : option string) (url : string) (n attempt retry : nat)
    (res : option http_response) (downloadErr : option error) : Go (option http_response * option error) :=
  match n with
  | O => mret (res, downloadErr)
  | S n' =>
      '(res, downloadErr) ← http_get roots url;
      response ← or_panic res;
      if bool_decide (downloadErr = None) && status_ok (StatusCode response) then mret (res, downloadErr) else
      _ ← Sleep defaultRetryDelay;
      download_loop roots url n' (S attempt) retry res
        (Some (attempt_error url (StatusCode response) attempt retry downloadErr))
  end.

Definition download (roots : option string) (filePath url : string) (retry : nat) : Go (option error) :=
  '(res, downloadErr) ← download_loop roots url retry 0 retry None None;
  match downloadErr with
  | Some err => mret (Some (failed ("failed getting " +:+ url +:+ ": ") err))
  | None =>
      res ← or_panic res;
      match BodyError res with
      | Some err => mret (Some (failed ("failed to read body while getting url " +:+ url +:+ ": ") err))
      | None =>
          err ← WriteFile filePath (Body res);
          mret (match err with
                | Some err => Some (failed ("failed writing file " +:+ filePath +:+ ": ") err)
                | None => None
                end)
      end
  end.

Definition downloadArtifactsToTempFolder (req : boot_request) (caCertPath : string) : Go (option error) :=
  client ← createHTTPClient caCertPath;
  match client with
  | inr err => mret (Some (failed "failed creating secure assisted service client: " err))
  | inl roots =>
      kernelURL ← or_panic (KernelURL req);
      err ← download roots (path_join [tempBootArtifactsFolder; kernelFile]) kernelURL defaultRetryAmount;
      match err with
      | Some err => mret (Some (failed "failed downloading kernel to host: " err))
      | None =>
          initrdURL ← or_panic (InitrdURL req);
          err ← download roots (path_join [tempBootArtifactsFolder; initrdFile]) initrdURL defaultRetryAmount;
          match err with
          | Some err => mret (Some (failed "failed downloading initrd to host: " err))
          | None => mret None
          end
      end
  end.

Definition bootLoaderConfigFile : string := path_join [tempBootArtifactsFolder; bootLoaderConfigFileName].

Definition createBootLoaderConfigInTempFolder (rootfsUrl : string) : Go (option error) :=
  err ← WriteFile bootLoaderConfigFile
          (bootLoaderConfig s390x rootfsUrl (path_join ["/boot"; artifactsFolder; kernelFile])
                            (path_join ["/boot"; artifactsFolder; initrdFile]));
  mret (match err with
        | Some err => Some (failed ("failed writing bootloader config content to " +:+ bootLoaderConfigFile +:+ ": ") err)
        | None => None
        end).

Definition createFolderIfNotExist (folder : string) : Go (option error) :=
  r ← Stat folder;
  match r with
  | Bad err => if is_not_exist err then FsOp "MkdirAll" [folder] else mret None
  | Good _ => mret None
  end.

(** One attempt at creating the folders. *)
Definition create_folders_once (hostFsMountDir : string) : Go (option error) :=
  let boot := getMountedBootFolder hostFsMountDir in
  err ← FsOp "Mount" [boot; boot; "MS_REMOUNT"];
  match err with
  | Some err => mret (Some err)
  | None =>
      _ ← FsOp "Sync" [];
      err ← createFolderIfNotExist (getMountedArtifactsFolder hostFsMountDir);
      match err with
      | Some err => mret (Some err)
      | None =>
          err ← createFolderIfNotExist (getMountedBootLoaderFolder hostFsMountDir);
          match err with
          | Some err => mret (Some err)
          | None => createFolderIfNotExist tempBootArtifactsFolder
          end
      end
  end.

Fixpoint create_folders_loop (hostFsMountDir : string) (n : nat) (last : option error) : Go (option error) :=
  match n with
  | O => mret (Some (errorf ("failed to create folders: " +:+
                             match last with Some e => err_msg e | None => "%!w(<nil>)" end)))
  | S n' =>
      err ← create_folders_once hostFsMountDir;
      match err with
      | None => mret None
      | Some err => _ ← Sleep defaultRetryDelay; create_folders_loop hostFsMountDir n' (Some err)
      end
  end.

Definition createFolders (hostFsMountDir : string) (retryAmount : nat) : Go (option error) :=
  create_folders_loop hostFsMountDir retryAmount None.

Definition getFreeSpace (folder : string) : Go (result Z) :=
  r ← ask (RFile "Statfs" folder) (λ l, statfs l folder);
  mret (match r with
        | Bad err => Bad (failed ("failed to statfs " +:+ folder +:+ ": ") err)
        | Good (bavail, bsize) => Good (uint64 (bavail * uint64 bsize))
        end).

(** The size of one of the downloaded files. *)
Definition stat_size (what file : string) : Go (result Z) :=
  r ← Stat file;
  mret (match r with
        | Bad err => Bad (failed ("failed to stat " +:+ what +:+ " file " +:+ file +:+ ": ") err)
        | Good info => Good (uint64 (fi_size info))
        end).

Definition calculateBootArtifactsSize : Go (result Z) :=
  k ← stat_size "kernel" (path_join [tempBootArtifactsFolder; kernelFile]);
  match k with
  | Bad err => mret (Bad err)
  | Good k =>
      i ← stat_size "initrd" (path_join [tempBootArtifactsFolder; initrdFile]);
      match i with
      | Bad err => mret (Bad err)
      | Good i =>
          b ← stat_size "bootloader config" bootLoaderConfigFile;
          mret (match b with
                | Bad err => Bad err
                | Good b => Good (uint64 (uint64 (k + i) + b))
                end)
      end
  end.

Definition reclaimBootFolderSpace : Go (option error) :=
  '(stdout, stderr, exitCode) ← ExecutePrivileged "rpm-ostree" ["cleanup"; "--os=rhcos"; "-r"];
  mret (if negb (exitCode =? 0)%Z
        then Some (errorf ("Cleanup command for RHCOS failed: " +:+ stdout +:+ ": " +:+ stderr)) else None).

Definition no_free_space (folder : string) (err : error) : error :=
  failed ("failed to get free space of boot folder [" +:+ folder +:+ "]: ") err.

Definition ensureBootHasSpace (hostFsMountDir : string) : Go (option error) :=
  let mountedBootFolder := getMountedBootFolder hostFsMountDir in
  size ← calculateBootArtifactsSize;
  match size with
  | Bad err => mret (Some (failed "failed to calculate size of boot artifacts: " err))
  | Good artifactsSize =>
      free ← getFreeSpace mountedBootFolder;
      match free with
      | Bad err => mret (Some (no_free_space mountedBootFolder err))
      | Good freeSpace =>
          if (freeSpace >? artifactsSize)%Z then mret None else
          err ← reclaimBootFolderSpace;
          match err with
          | Some err => mret (Some (failed "failed to reclaim boot folder space: " err))
          | None =>
              free ← getFreeSpace mountedBootFolder;
              match free with
              | Bad err => mret (Some (no_free_space mountedBootFolder err))
              | Good freeSpace =>
                  mret (if (freeSpace <? artifactsSize)%Z
                        then Some (errorf ("boot folder does not have enough space, artifacts size: " +:+
                                           Itoa artifactsSize +:+ ", free space: " +:+ Itoa freeSpace +:+
                                           nls +:+ "Retrying..."))
                        else None)
              end
          end
      end
  end.

(** The steps of copying a file, the first failure wins. *)
Definition copyFile (src dst : string) : Go (option error) :=
  err ← Open src;
  match err with
  | Some err => mret (Some (failed ("failed to open source file " +:+ src +:+ ": ") err))
  | None =>
      err ← FsOp "Create" [dst];
      match err with
      | Some err => mret (Some (failed ("failed to create destination file " +:+ dst +:+ ": ") err))
      | None =>
          err ← FsOp "Copy" [dst; src];
          match err with
          | Some err => mret (Some (failed ("failed to copy data from " +:+ src +:+ " to " +:+ dst +:+ ": ") err))
          | None =>
              info ← Stat src;
              match info with
              | Bad err => mret (Some (failed ("failed to stat source file " +:+ src +:+ ": ") err))
              | Good info =>
                  err ← FsOp "Chmod" [dst; Itoa (fi_mode info)];
                  match err with
                  | Some err => mret (Some (failed ("failed to set permissions on " +:+ dst +:+ ": ") err))
                  | None =>
                      err ← FsOp "Sync" [dst];
                      mret (match err with
                            | Some err => Some (failed ("failed to sync destination file " +:+ dst +:+ ": ") err)
                            | None => None
                            end)
                  end
              end
          end
      end
  end.

(** Copies the files in order until one fails. *)
Fixpoint copy_all (files : list (string * string)) : Go (option error) :=
  match files with
  | [] => mret None
  | (src, dst) :: files' =>
      err ← copyFile src dst;
      match err with
      | Some err => mret (Some (failed ("failed to copy file " +:+ src +:+ " to " +:+ dst +:+ ": ") err))
      | None => copy_all files'
      end
  end.

Definition boot_files (hostFsMountDir : string) : list (string * string) :=
  [(path_join [tempBootArtifactsFolder; kernelFile], path_join [getMountedArtifactsFolder hostFsMountDir; kernelFile]);
   (path_join [tempBootArtifactsFolder; initrdFile], path_join [getMountedArtifactsFolder hostFsMountDir; initrdFile]);
   (bootLoaderConfigFile, path_join [getMountedBootLoaderFolder hostFsMountDir; bootLoaderConfigFileName])].

Definition copyFilesToBootFolder (hostFsMountDir : string) : Go (option error) := copy_all (boot_files hostFsMountDir).

Definition run_download (downloaderRequestStr caCertPath : string) : Go (option error) :=
  match unmarshal_request downloaderRequestStr with
  | Bad err => mret (Some (failed "failed unmarshalling download boot artifacts request: " err))
  | Good req =>
      dir ← or_panic (HostFsMountDir req);
      exist ← bootArtifactsExist dir;
      if exist : bool then mret None else
      err ← createFolders dir defaultRetryAmount;
      match err with
      | Some err => mret (Some (failed "failed creating folders: " err))
      | None =>
      err ← downloadArtifactsToTempFolder req caCertPath;
      match err with
      | Some err => mret (Some (failed "failed downloading boot artifacts: " err))
      | None =>
      rootfs ← or_panic (RootfsURL req);
      err ← createBootLoaderConfigInTempFolder rootfs;
      match err with
      | Some err => mret (Some (failed "failed creating bootloader config file on host: " err))
      | None =>
      err ← ensureBootHasSpace (getMountedBootFolder dir);
      match err with
      | Some err => mret (Some (failed "failed to ensure boot folder has enough space: " err))
      | None =>
      err ← copyFilesToBootFolder dir;
      match err with
      | Some err => mret (Some (failed "failed to move files to boot folder: " err))
      | None => mret None
      end end end end end
  end.

Definition download_Run (args : list string) (caCertPath : string) : Go (string * string * Z) :=
  arg ← or_panic (args !! 0%nat);
  err ← run_download arg caCertPath;
  mret (match err with
        | Some err => ("", err_msg err, (-1)%Z)
        | None => ("Successfully downloaded boot artifacts", "", 0%Z)
        end).

(** *** Reboot for reclaim *)
(** The parameter is part of the regular expression, where a dot stands for any
    character but the new line. *)
Fixpoint lit_pattern (s : string) : re :=
  match s with
  | "" => Eps
  | String c s' => Seq (if Ascii.eqb c "." then dot else chr c) (lit_pattern s')
  end.

(** \b<param>=([^\s]+) *)
Definition param_re (param : string) : re := seqs [WordB; lit_pattern param; chr "="; Cap 1 (plus nonspace)].

(** The value of the first assignment of the parameter. *)
Definition cmdline_value (cmdlineOutput param : string) : option string :=
  match FindStringSubmatch 1 (param_re param) cmdlineOutput with
  | Some (_ :: v :: _) => Some v
  | _ => None
  end.

Definition extractCmdlineParams (cmdlineOutput : string) (paramsToExtract : list string) : string :=
  let cmdlineParams := fold_left (λ m param,
    match cmdline_value cmdlineOutput param with Some v => <[param := v]> m | None => m end)
    paramsToExtract (∅ : gmap string string) in
  fold_left (λ acc key,
    match cmdlineParams !! key with Some value => acc +:+ key +:+ "=" +:+ value +:+ " " | None => acc end)
    paramsToExtract "".

Definition paramsToExtract : list string :=
  ["ip"; "nameserver"; "rd.znet"; "zfcp.allow_lun_scan"; "rd.zfcp"; "rd.dasd"].

(** The options of the boot loader entry. *)
Definition loader_options (conf : string) : string :=
  match List.find (λ line, HasPrefix line "options") (Split conf nl) with
  | Some line => TrimSpace (TrimPrefix line "options")
  | None => ""
  end.

Definition zipl_command (options requiredCmdline : string) : string :=
  "mount -o remount,rw /boot && zipl -V -t /boot -i " +:+ artifactsFolder +:+ "/" +:+ kernelFile +:+
  " -r " +:+ artifactsFolder +:+ "/" +:+ initrdFile +:+ " -P '" +:+ options +:+ " " +:+ requiredCmdline +:+ "'".

(** The boot record of s390x; [None] when it was written. *)
Definition write_boot_record : Go (option (string * string * Z)) :=
  '(stdout, stderr, exitCode) ← Execute "cat" ["/boot/loader/entries/00-assisted-discovery.conf"];
  if negb (exitCode =? 0)%Z then mret (Some (stdout, stderr, exitCode)) else
  let options := loader_options stdout in
  '(stdout, stderr, exitCode) ← Execute "cat" ["/proc/cmdline"];
  if negb (exitCode =? 0)%Z then mret (Some (stdout, stderr, exitCode)) else
  let requiredCmdline := extractCmdlineParams stdout paramsToExtract in
  '(stdout, stderr, exitCode) ←
    Execute "unshare" ["--mount"; "bash"; "-c"; zipl_command options requiredCmdline];
  mret (if negb (exitCode =? 0)%Z then Some (stdout, stderr, exitCode) else None).

(** encoding/json of a models.RebootForReclaimRequest, which is its mount folder. *)
Variable unmarshal_reboot : string → result (option string).

Definition reboot_Run (args : list string) : Go (string * string * Z) :=
  arg ← or_panic (args !! 0%nat);
  match unmarshal_reboot arg with
  | Bad err => mret ("", "failed unmarshalling reboot for reclaim request: " +:+ err_msg err, (-1)%Z)
  | Good dir =>
      dir ← or_panic dir;
      err ← FsOp "Chroot" [dir];
      match err with
      | Some err => mret ("", err_msg err, (-1)%Z)
      | None =>
          failure ← (if s390x then write_boot_record else mret None);
          match failure with
          | Some answer => mret answer
          | None => Execute "systemctl" ["reboot"]
          end
      end
  end.
(** ** Facts *)
(** The requests of [k] attempts that failed. *)
Definition get_request (url : string) : request := RNet "GET" [url].
Fixpoint failed_attempts (url : string) (k : nat) : log :=
  match k with O => [] | S k' => [get_request url; RSleep defaultRetryDelay] ++ failed_attempts url k' end.

Lemma failed_attempts_snoc url k :
  failed_attempts url (S k) = failed_attempts url k ++ [get_request url; RSleep defaultRetryDelay].
Proof.
  induction k as [|k IH]; [done|]. change (failed_attempts url (S (S k))) with
    ([get_request url; RSleep defaultRetryDelay] ++ failed_attempts url (S k)).
  rewrite IH at 1. by rewrite (assoc_L (++)).
Qed.

(** After [l], the first [k] attempts are answered, but not by a 2xx. *)
Definition refused (roots : option string) (url : string) (l : log) (k : nat) : Prop :=
  ∀ i, i < k → ∃ res err, get_answer (l ++ failed_attempts url i) roots url = (Some res, err) ∧
                          bool_decide (err = None) && status_ok (StatusCode res) = false.

Lemma refused_next roots url l k :
  refused roots url l (S k) →
  ∃ res err, get_answer l roots url = (Some res, err) ∧ bool_decide (err = None) && status_ok (StatusCode res) = false ∧
         refused roots url ((l ++ [get_request url]) ++ [RSleep defaultRetryDelay]) k.
Proof.
  intros H. destruct (H 0) as (res & err & E & Hs); [lia|]. cbn [failed_attempts] in E. rewrite app_nil_r in E.
  exists res, err. repeat split; [done..|]. intros i Hi. destruct (H (S i)) as (res' & err' & E' & Hs'); [lia|].
  exists res', err'. split; [|done]. rewrite <-E'. f_equal. by rewrite <-!(assoc_L (++)).
Qed.

Lemma download_loop_fails roots url k n attempt retry l s last err :
  refused roots url l k → k ≤ n →
  ∃ last' err', run (download_loop roots url n attempt retry last err) l s =
    run (download_loop roots url (n - k) (attempt + k) retry last' err') (l ++ failed_attempts url k) s ∧
    (0 < k → is_Some err').
Proof.
  revert n attempt l last err. induction k as [|k IH]; intros n attempt l last err Hr Hn.
  { exists last, err. cbn [failed_attempts]. rewrite app_nil_r, Nat.sub_0_r, Nat.add_0_r. split; [done|lia]. }
  destruct n as [|n]; [lia|]. destruct (refused_next _ _ _ _ Hr) as (res & e & E & Hs & Hr').
  destruct (IH n (S attempt) _ (Some res) (Some (attempt_error url (StatusCode res) attempt retry e)) Hr')
    as (last' & err' & Hrun & Herr); [lia|].
  cbn [download_loop]. rewrite run_bind. unfold http_get. cbn [run ask]. rewrite E, run_bind. cbn [run or_panic].
  rewrite Hs. unfold Sleep. rewrite run_bind. cbn [run ask]. unfold get_request in Hrun.
  destruct (decide (k = 0)) as [->|Hk].
  - exists (Some res), (Some (attempt_error url (StatusCode res) attempt retry e)). split; [|done].
    cbn [failed_attempts Nat.sub]. rewrite Nat.sub_0_r, Nat.add_1_r. by rewrite <-!(assoc_L (++)).
  - exists last', err'. split; [|intros _; apply Herr; lia]. rewrite Hrun. cbn [Nat.sub failed_attempts].
    rewrite <-Nat.add_succ_comm. by rewrite <-!(assoc_L (++)).
Qed.

(** A download retries after every answer that is not a 2xx, waiting a minute
    each time: if the first 2xx answer comes within the allowed attempts, its
    body is what is written to the file, nothing else is written, and the result
    is that of the write. *)
Theorem download_first_success roots file url retry k res l s :
  refused roots url l k → k < retry →
  get_answer (l ++ failed_attempts url k) roots url = (Some res, None) →
  status_ok (StatusCode res) = true → BodyError res = None →
  let l' := l ++ failed_attempts url k ++ [get_request url] in
  run (download roots file url retry) l s =
    (Done (failed ("failed writing file " +:+ file +:+ ": ") <$> e_write_file l' file (Body res)),
     l' ++ [RWriteFile file (Body res)], s).
Proof.
  intros Hr Hk E Hs Hb l'. unfold download. rewrite run_bind.
  destruct (download_loop_fails roots url k retry 0 retry l s None None Hr) as (last & err & -> & _); [lia|].
  destruct (retry - k) as [|n] eqn:En; [lia|]. cbn [download_loop]. rewrite run_bind.
  unfold http_get. cbn [run ask]. rewrite E, run_bind. cbn [run or_panic]. rewrite Hs.
  rewrite bool_decide_true by done. cbn [andb run mret proc_ret].
  rewrite run_bind. cbn [run or_panic]. rewrite Hb. unfold WriteFile. rewrite run_bind. cbn [run ask].
  change (RNet "GET" [url]) with (get_request url).
  replace ((l ++ failed_attempts url k) ++ [get_request url]) with l' by (unfold l'; by rewrite (assoc_L (++))).
  by destruct (e_write_file l' file (Body res)).
Qed.

(** When every attempt is refused nothing is written. *)
Lemma download_gives_up roots file url retry l s :
  refused roots url l retry → 0 < retry →
  ∃ err, run (download roots file url retry) l s = (Done (Some err), l ++ failed_attempts url retry, s).
Proof.
  intros Hr Hk. unfold download. rewrite run_bind.
  destruct (download_loop_fails roots url retry retry 0 retry l s None None Hr) as (last & err & -> & Herr); [lia|].
  rewrite Nat.sub_diag. destruct (Herr Hk) as [e ->]. cbn [download_loop run mret proc_ret]. eauto.
Qed.

(** An attempt that fails without a response is not retried: the status code of
    the missing response is read and the program panics. *)
Theorem download_transport_error_panics roots file url retry k err l s :
  refused roots url l k → k < retry →
  get_answer (l ++ failed_attempts url k) roots url = (None, Some err) →
  run (download roots file url retry) l s = (Panicked, l ++ failed_attempts url k ++ [get_request url], s).
Proof.
  intros Hr Hk E. unfold download. rewrite run_bind.
  destruct (download_loop_fails roots url k retry 0 retry l s None None Hr) as (last & e & -> & _); [lia|].
  destruct (retry - k) as [|n] eqn:En; [lia|]. cbn [download_loop]. rewrite run_bind.
  unfold http_get. cbn [run ask]. rewrite E, run_bind. cbn [run or_panic]. by rewrite <-(assoc_L (++)).
Qed.

(** *** What success means *)
(** The host did what the request asks, the log being what was asked before. *)
Definition granted (l : log) (r : request) : Prop :=
  match r with
  | RFile "Open" p => e_open l p = None
  | RFile "Stat" p => is_good (e_stat l p) = true
  | RFsOp op args => e_fs_op l op args = None
  | _ => False
  end.
Fixpoint all_granted (l : log) (t : log) : Prop :=
  match t with [] => True | r :: t' => granted l r ∧ all_granted (l ++ [r]) t' end.
Lemma all_granted_app l t t' : all_granted l (t ++ t') ↔ all_granted l t ∧ all_granted (l ++ t) t'.
Proof.
  revert l. induction t as [|r t IH]; intros l; [rewrite app_nil_r; simpl; tauto|].
  cbn [app all_granted]. rewrite IH, <-(assoc_L (++)). simpl. tauto.
Qed.

(** A file is copied: opened, created, its contents and then the permissions of
    the source given to the copy, and synchronised, all of it with success. *)
Definition copied (l : log) (f : string * string) (t : log) : Prop :=
  ∃ info, e_stat (l ++ [RFile "Open" f.1; RFsOp "Create" [f.2]; RFsOp "Copy" [f.2; f.1]]) f.1 = Good info ∧
    t = [RFile "Open" f.1; RFsOp "Create" [f.2]; RFsOp "Copy" [f.2; f.1]; RFile "Stat" f.1;
         RFsOp "Chmod" [f.2; Itoa (fi_mode info)]; RFsOp "Sync" [f.2]] ∧
    all_granted l t.
Fixpoint all_copied (l : log) (files : list (string * string)) (t : log) : Prop :=
  match files with
  | [] => t = []
  | f :: files' => ∃ t1 t2, t = t1 ++ t2 ∧ copied l f t1 ∧ all_copied (l ++ t1) files' t2
  end.

Lemma copyFile_success src dst l s l' s' :
  run (copyFile src dst) l s = (Done None, l', s') → ∃ t, l' = l ++ t ∧ copied l (src, dst) t.
Proof.
  unfold copyFile, Open, FsOp, Stat, copied. rewrite run_bind. cbn [run ask fst snd].
  destruct (e_open l src) eqn:E1; [done|]. rewrite run_bind. cbn [run ask].
  destruct (e_fs_op _ "Create" _) eqn:E2; [done|]. rewrite run_bind. cbn [run ask].
  destruct (e_fs_op _ "Copy" _) eqn:E3; [done|]. rewrite run_bind. cbn [run ask].
  destruct (e_stat _ src) as [info|] eqn:E4; [|done]. rewrite run_bind. cbn [run ask].
  destruct (e_fs_op _ "Chmod" _) eqn:E5; [done|]. rewrite run_bind. cbn [run ask].
  destruct (e_fs_op _ "Sync" _) eqn:E6; [done|]. intros H. injection H as <- _.
  rewrite <-!(assoc_L (++)) in *. cbn [app] in *.
  eexists. split; [done|]. exists info. split; [done|]. split; [done|].
  cbn [all_granted granted]. rewrite <-!(assoc_L (++)). cbn [app]. by rewrite E1, E2, E3, E4, E5, E6.
Qed.

Lemma copy_all_success files l s l' s' :
  run (copy_all files) l s = (Done None, l', s') → ∃ t, l' = l ++ t ∧ all_copied l files t.
Proof.
  revert l s. induction files as [|[src dst] files IH]; intros l s.
  { intros H. simplify_eq/=. exists []. by rewrite app_nil_r. }
  cbn [copy_all]. rewrite run_bind. destruct (run (copyFile src dst) l s) as [[o l1] s1] eqn:E.
  destruct o as [[err|]| |]; try done. intros H.
  destruct (copyFile_success _ _ _ _ _ _ E) as (t1 & -> & H1).
  destruct (IH _ _ H) as (t2 & -> & H2). exists (t1 ++ t2). rewrite <-(assoc_L (++)). split; [done|].
  by exists t1, t2.
Qed.

Lemma run_opt_step {B} (m : Go (option error)) (wrap : error → B) (none : Go B) l s (o : B) l' s' :
  run (err ← m; match err with Some e => mret (wrap e) | None => none end) l s = (Done o, l', s') →
  (∀ e, wrap e ≠ o) → ∃ l1 s1, run m l s = (Done None, l1, s1) ∧ run none l1 s1 = (Done o, l', s').
Proof.
  rewrite run_bind. destruct (run m l s) as [[o1 l1] s1]. destruct o1 as [[e|]| |]; try done.
  - intros H Hw. simplify_eq/=. by destruct (Hw e).
  - eauto.
Qed.

Lemma run_grows {A} (m : Go A) l s o l' s' : run m l s = (o, l', s') → ∃ t, l' = l ++ t.
Proof. intros E. destruct (run_log m l s) as [t Ht]. rewrite E in Ht. simpl in Ht. eauto. Qed.

Lemma run_stat_ok p l s : run (stat_ok p) l s = (Done (is_good (e_stat l p)), l ++ [RFile "Stat" p], s).
Proof. done. Qed.

(** The three files in the boot folder are looked for. *)
Definition looked_for (dir : string) : log := map (λ f, RFile "Stat" f.2) (boot_files dir).

Lemma bootArtifactsExist_found dir l s l' s' :
  run (bootArtifactsExist dir) l s = (Done true, l', s') → l' = l ++ looked_for dir ∧ all_granted l (looked_for dir).
Proof.
  unfold bootArtifactsExist, looked_for, boot_files. cbn [map snd all_granted granted].
  rewrite run_bind, run_stat_ok. destruct (is_good (e_stat l _)) eqn:E1; cbn [negb]; [|done].
  rewrite run_bind, run_stat_ok. destruct (is_good (e_stat (_ ++ _) _)) eqn:E2; cbn [negb]; [|done].
  rewrite run_stat_ok. intros H. injection H as E3 <- _. rewrite <-!(assoc_L (++)) in *. by split.
Qed.

(** C25. When the download succeeds, either the three files were found in the
    boot folder, and then nothing else was done, or the last thing done was to
    copy them there, in order: kernel, initrd, boot loader entry; each was opened,
    created, filled, given the permissions of its source and synchronised, and
    every one of these operations succeeded. *)
Theorem download_success reqStr req dir ca l s l' s' :
  unmarshal_request reqStr = Good req → HostFsMountDir req = Some dir →
  run (run_download reqStr ca) l s = (Done None, l', s') →
  (l' = l ++ looked_for dir ∧ all_granted l (looked_for dir)) ∨
  ∃ t t', l' = l ++ t ++ t' ∧ all_copied (l ++ t) (boot_files dir) t'.
Proof.
  intros Hreq Hdir. unfold run_download. rewrite Hreq, Hdir. cbn [or_panic].
  rewrite run_bind. cbn [run]. rewrite run_bind.
  destruct (run (bootArtifactsExist dir) l s) as [[o l1] s1] eqn:E.
  destruct o as [[|]| |]; try done.
  - cbn [run mret proc_ret]. intros H. injection H as -> ->. left. by eapply bootArtifactsExist_found.
  - intros H. right. apply run_grows in E as [t0 ->].
    apply run_opt_step in H as (l2 & s2 & E2 & H); [|done]. apply run_grows in E2 as [t1 ->].
    apply run_opt_step in H as (l3 & s3 & E3 & H); [|done]. apply run_grows in E3 as [t2 ->].
    destruct (RootfsURL req) as [rootfs|]; [|done]. rewrite run_bind in H. cbn [run or_panic] in H.
    apply run_opt_step in H as (l4 & s4 & E4 & H); [|done]. apply run_grows in E4 as [t3 ->].
    apply run_opt_step in H as (l5 & s5 & E5 & H); [|done]. apply run_grows in E5 as [t4 ->].
    apply run_opt_step in H as (l6 & s6 & E6 & H); [|done].
    apply copy_all_success in E6 as (t5 & -> & H5). simplify_eq/=.
    exists (t0 ++ t1 ++ t2 ++ t3 ++ t4), t5. rewrite <-!(assoc_L (++)) in *. by split.
Qed.

(** The space check looks at the wrong folder: it is given the boot folder
    where it expects the mount folder, so the free space it asks for is that of
    a boot folder inside the boot folder. *)
Theorem space_of_nested_folder dir :
  emits (λ r, ∀ folder, r = RFile "Statfs" folder → folder = getMountedBootFolder (getMountedBootFolder dir)) no_change
    (ensureBootHasSpace (getMountedBootFolder dir)).
Proof.
  unfold ensureBootHasSpace, calculateBootArtifactsSize, stat_size, getFreeSpace, reclaimBootFolderSpace, Stat.
  repeat first [progress prog_steps | apply emits_ask; intros ? ?; by simplify_eq
               | apply emits_ExecutePrivileged; by intros ? ? ].
Qed.

End BootArtifacts.

(** *** Kernel parameters *)
Lemma param_map (value : string → option string) ps (m0 : gmap string string) q :
  (q ∈ ps ∨ m0 !! q = value q) → (m0 !! q = None ∨ m0 !! q = value q) →
  fold_left (λ m p, match value p with Some v => <[p := v]> m | None => m end) ps m0 !! q = value q.
Proof.
  revert m0. induction ps as [|p ps IH]; intros m0 [Hq|Hq] Hm; cbn [fold_left].
  - by apply not_elem_of_nil in Hq.
  - done.
  - destruct (decide (p = q)) as [->|Hne].
    + apply IH; [right|right]; destruct (value q) eqn:E; try (by rewrite lookup_insert_eq);
        destruct Hm as [Hm|Hm]; congruence.
    + apply elem_of_cons in Hq as [->|Hq]; [done|].
      apply IH; [by left|]. destruct (value p); [by rewrite lookup_insert_ne|done].
  - destruct (decide (p = q)) as [->|Hne].
    + apply IH; [right|right]; destruct (value q) eqn:E; try (by rewrite lookup_insert_eq); congruence.
    + apply IH; [right|right]; (destruct (value p); [by rewrite lookup_insert_ne|done]).
Qed.

(** The name of the parameter, spelled with any character but the new line for
    its dots. *)
Fixpoint spelled (param name : string) : Prop :=
  match param, name with
  | "", "" => True
  | String c param', String d name' => (if Ascii.eqb c "." then d ≠ nl else d = c) ∧ spelled param' name'
  | _, _ => False
  end.
Fixpoint last_char (prev : option ascii) (s : string) : option ascii :=
  match s with "" => prev | String c s' => last_char (Some c) s' end.
Definition starts_word (prev : option ascii) (s : string) : Prop := word_before prev ≠ word_after s.
Definition ends_value (rest : string) : Prop :=
  match rest with "" => True | String c _ => is_re_space c = true end.

(** After [prev] the text assigns [v] to the parameter: a word boundary, the name,
    an equals sign and the longest run of characters that are no white space. *)
Definition assigned_here (param : string) (prev : option ascii) (s v : string) : Prop :=
  starts_word prev s ∧ ∃ name rest, s = name +:+ "=" +:+ v +:+ rest ∧ spelled param name ∧
    v ≠ "" ∧ all_chars (λ c, negb (is_re_space c)) v = true ∧ ends_value rest.
Definition assigned_after (cmdline param pre v : string) : Prop :=
  ∃ s, cmdline = pre +:+ s ∧ assigned_here param (last_char None pre) s v.

(** The value of the first assignment; [None] when there is no assignment. *)
Definition first_value (cmdline param : string) (o : option string) : Prop :=
  match o with
  | Some v => ∃ pre, assigned_after cmdline param pre v ∧
                ∀ pre' v', assigned_after cmdline param pre' v' → String.length pre <= String.length pre'
  | None => ∀ pre v, ¬ assigned_after cmdline param pre v
  end.

(** The rest of the text after the name. *)
Fixpoint after_name (param s : string) : option string :=
  match param, s with
  | "", _ => Some s
  | String c param', String d s' =>
      if (if Ascii.eqb c "." then negb (Ascii.eqb d nl) else Ascii.eqb c d) then after_name param' s' else None
  | _, _ => None
  end.
(** The longest run of characters that are no white space. *)
Fixpoint value_run (s : string) : string :=
  match s with String c s' => if is_re_space c then "" else String c (value_run s') | "" => "" end.
Definition value_here (param : string) (prev : option ascii) (s : string) : option string :=
  if Bool.eqb (word_before prev) (word_after s) then None else
  match after_name param s with
  | Some (String "=" s') => match value_run s' with "" => None | v => Some v end
  | _ => None
  end.
Fixpoint scan (param : string) (prev : option ascii) (s : string) : option string :=
  match value_here param prev s with
  | Some v => Some v
  | None => match s with "" => None | String c s' => scan param (Some c) s' end
  end.

(** *** The regular expression finds the first assignment *)
Lemma matches_lit param prev s caps :
  ∃ prev', matches (lit_pattern param) (MState prev s caps) =
    match after_name param s with Some s' => [MState prev' s' caps] | None => [] end.
Proof.
  revert prev s. induction param as [|c param IH]; intros prev s; cbn [lit_pattern after_name].
  { by exists prev. }
  destruct s as [|d s].
  { exists prev. cbn [matches]. by destruct (Ascii.eqb c "."). }
  assert (E : ∀ p, flat_map (matches (lit_pattern param)) (matches (Chr p) (MState prev (String d s) caps)) =
    if p d then matches (lit_pattern param) (MState (Some d) s caps) else []).
  { intros p. cbn [matches m_rest m_caps]. destruct (p d); [|done]. cbn [flat_map]. by rewrite app_nil_r. }
  destruct (IH (Some d) s) as [prev' E']. exists prev'. cbn [matches]. unfold dot, chr.
  destruct (Ascii.eqb c "."); rewrite E, E'; [by destruct (Ascii.eqb d nl)|by destruct (Ascii.eqb c d)].
Qed.

Lemma nonspace_step prev s caps :
  matches nonspace (MState prev s caps) =
  match s with String c s' => if is_re_space c then [] else [MState (Some c) s' caps] | "" => [] end.
Proof. destruct s as [|c s]; [done|]. cbn [matches nonspace m_rest m_caps]. by destruct (is_re_space c). Qed.

Lemma star_run prev s caps fuel : String.length s <= fuel →
  ∃ prev' rest sts, star_go (matches nonspace) fuel (MState prev s caps) = MState prev' rest caps :: sts ∧
    s = value_run s +:+ rest.
Proof.
  revert prev s. induction fuel as [|fuel IH]; intros prev s Hf; cbn [star_go].
  { exists prev, s, []. split; [done|]. by destruct s; [|cbn in Hf; lia]. }
  rewrite nonspace_step. destruct s as [|c s]; [by exists prev, "", []|]. cbn [value_run].
  destruct (is_re_space c); cbn [flat_map]; [by exists prev, (String c s), []|].
  cbn [m_rest String.length]. rewrite (proj2 (Nat.ltb_lt _ _)) by lia.
  destruct (IH (Some c) s) as (prev' & rest & sts & E & Hs); [cbn in Hf; lia|]. rewrite E.
  eexists prev', rest, _. split; [done|]. change (String c s = String c (value_run s +:+ rest)). by rewrite <-Hs.
Qed.

Lemma take_run w t : take_chars (String.length (w +:+ t) - String.length t) (w +:+ t) = w.
Proof.
  induction w as [|c w IH]; [change ("" +:+ t) with t; by rewrite Nat.sub_diag; destruct t|].
  change (String c w +:+ t) with (String c (w +:+ t)). cbn [String.length].
  assert (H : String.length t <= String.length (w +:+ t)).
  { clear. induction w as [|c w IH]; [done|]. change (String c w +:+ t) with (String c (w +:+ t)). cbn. lia. }
  replace (S (String.length (w +:+ t)) - String.length t) with (S (String.length (w +:+ t) - String.length t)) by lia.
  cbn [take_chars]. by rewrite IH.
Qed.

Lemma matches_Seq r1 r2 st : matches (Seq r1 r2) st = flat_map (matches r2) (matches r1 st).
Proof. done. Qed.

(** What the expression does after the name *)
Definition value_after (s : string) : option string :=
  match s with
  | String "=" s' => match value_run s' with "" => None | v => Some v end
  | _ => None
  end.
Lemma value_after_eq c s :
  value_after (String c s) = if Ascii.eqb "=" c then match value_run s with "" => None | v => Some v end else None.
Proof. destruct (Ascii.eqb_spec "=" c) as [<-|Hc]; [done|]. destruct c as [[] [] [] [] [] [] [] []]; done. Qed.

Lemma matches_value prev s :
  match value_after s with
  | Some v => ∃ st sts, matches (Seq (chr "=") (Cap 1 (plus nonspace))) (MState prev s []) = st :: sts ∧ m_caps st = [(1, v)]
  | None => matches (Seq (chr "=") (Cap 1 (plus nonspace))) (MState prev s []) = []
  end.
Proof.
  rewrite matches_Seq. destruct s as [|c s]; [done|]. rewrite value_after_eq.
  assert (E : matches (chr "=") (MState prev (String c s) []) = if Ascii.eqb "=" c then [MState (Some c) s []] else [])
    by done.
  rewrite E. destruct (Ascii.eqb "=" c); [|done]. cbn [flat_map]. rewrite app_nil_r.
  assert (EC : ∀ r st, matches (Cap 1 r) st =
    map (λ st', MState (m_prev st') (m_rest st') (m_caps st' ++ [(1, consumed (m_rest st) (m_rest st'))])) (matches r st))
    by done.
  rewrite EC. unfold plus. rewrite matches_Seq, nonspace_step. cbn [m_rest].
  destruct s as [|d s]; [done|]. cbn [value_run]. destruct (is_re_space d); [done|].
  cbn [flat_map]. rewrite app_nil_r. change (matches (Star nonspace) (MState (Some d) s [])) with
    (star_go (matches nonspace) (String.length s) (MState (Some d) s [])).
  destruct (star_run (Some d) s [] (String.length s) (le_n _)) as (prev' & rest & sts & E' & Hs). rewrite E'.
  cbn [map m_prev m_rest m_caps app]. eexists _, _. split; [done|]. cbn [m_caps]. unfold consumed.
  assert (Hd : String d s = String d (value_run s) +:+ rest).
  { change (String d s = String d (value_run s +:+ rest)). by rewrite <-Hs. }
  rewrite Hd at 1 2. by rewrite take_run.
Qed.

Lemma matches_param param prev s :
  match value_here param prev s with
  | Some v => ∃ st sts, matches (param_re param) (MState prev s []) = st :: sts ∧ m_caps st = [(1, v)]
  | None => matches (param_re param) (MState prev s []) = []
  end.
Proof.
  unfold param_re, value_here. cbn [seqs]. rewrite matches_Seq.
  assert (EB : matches WordB (MState prev s []) =
    if Bool.eqb (word_before prev) (word_after s) then [] else [MState prev s []]) by done.
  rewrite EB. destruct (Bool.eqb _ _); [done|]. cbn [flat_map]. rewrite app_nil_r, matches_Seq.
  destruct (matches_lit param prev s []) as [prev' E]. rewrite E. destruct (after_name param s) as [s'|]; [|done].
  cbn [flat_map]. rewrite app_nil_r. exact (matches_value prev' s').
Qed.

Lemma cmdline_value_scan cmdline param : cmdline_value cmdline param = scan param None cmdline.
Proof.
  unfold cmdline_value, FindStringSubmatch. generalize (None : option ascii) at 1 2. intros prev.
  assert (H : match find_from (param_re param) prev cmdline with
              | Some (_, _, st) => scan param prev cmdline = Some (group 1 st)
              | None => scan param prev cmdline = None
              end).
  { revert prev. induction cmdline as [|c s IH]; intros prev; cbn [find_from scan].
    - pose proof (matches_param param prev "") as H. destruct (value_here _ _ _).
      + destruct H as (st & sts & -> & Hc). unfold group. by rewrite Hc.
      + by rewrite H.
    - pose proof (matches_param param prev (String c s)) as H. destruct (value_here _ _ _).
      + destruct H as (st & sts & -> & Hc). unfold group. by rewrite Hc.
      + rewrite H. specialize (IH (Some c)). by destruct (find_from _ (Some c) s) as [[[pre m] st]|]. }
  destruct (find_from _ prev cmdline) as [[[pre m] st]|]; by rewrite H.
Qed.

(** *** The scan is the first assignment *)
Lemma after_name_spec param s s' :
  after_name param s = Some s' ↔ ∃ name, s = name +:+ s' ∧ spelled param name.
Proof.
  revert s. induction param as [|c param IH]; intros s; cbn [after_name].
  - split; [intros [= ->]; by exists ""|]. intros ([|d name] & -> & Hn); [done|by destruct Hn].
  - destruct s as [|d s]; [split; [done|intros ([|d name] & E & Hn); [by destruct Hn|discriminate E]]|].
    assert (Hd : (if Ascii.eqb c "." then negb (Ascii.eqb d nl) else Ascii.eqb c d) = true ↔
                 (if Ascii.eqb c "." then d ≠ nl else d = c)).
    { destruct (Ascii.eqb c "."); [rewrite negb_true_iff; apply Ascii.eqb_neq|rewrite Ascii.eqb_eq; naive_solver]. }
    destruct (if Ascii.eqb c "." then _ else _) eqn:E.
    + rewrite IH. split.
      * intros (name & -> & Hn). exists (String d name). split; [done|]. split; [by apply Hd|done].
      * intros ([|d' name] & E' & Hn); [by destruct Hn|]. injection E' as <- ->. exists name. by destruct Hn.
    + split; [done|]. intros ([|d' name] & E' & Hn); [by destruct Hn|]. injection E' as <- ->.
      destruct Hn as [Hn _]. apply Hd in Hn. discriminate Hn.
Qed.
Lemma value_run_spec s v rest :
  s = v +:+ rest → all_chars (λ c, negb (is_re_space c)) v = true → ends_value rest → value_run s = v.
Proof.
  revert s. induction v as [|c v IH]; intros s -> Hv Hr.
  - change ("" +:+ rest) with rest. destruct rest as [|c rest]; [done|]. cbn in *. by rewrite Hr.
  - change (String c v +:+ rest) with (String c (v +:+ rest)). cbn [all_chars value_run] in *.
    apply andb_true_iff in Hv as [Hc Hv]. apply negb_true_iff in Hc. rewrite Hc. f_equal. by apply IH.
Qed.
Lemma value_run_cut s :
  ∃ rest, s = value_run s +:+ rest ∧ all_chars (λ c, negb (is_re_space c)) (value_run s) = true ∧ ends_value rest.
Proof.
  induction s as [|c s (rest & E & Hv & Hr)]; [by exists ""|]. cbn [value_run].
  destruct (is_re_space c) eqn:Ec; [by exists (String c s)|]. exists rest. split_and!; [|by cbn; rewrite Ec|done].
  change (String c s = String c (value_run s +:+ rest)). by rewrite <-E.
Qed.

Lemma value_here_spec param prev s v : value_here param prev s = Some v ↔ assigned_here param prev s v.
Proof.
  unfold value_here, assigned_here, starts_word. rewrite <-Bool.eqb_true_iff.
  destruct (Bool.eqb _ _); [naive_solver|]. split.
  - destruct (after_name param s) as [s'|] eqn:E; [|done]. apply after_name_spec in E as (name & -> & Hn).
    intros Hv. split; [done|]. change (value_after s' = Some v) in Hv. destruct s' as [|c s']; [done|].
    rewrite value_after_eq in Hv. destruct (Ascii.eqb_spec "=" c) as [<-|]; [|done].
    destruct (value_run_cut s') as (rest & Es & Hall & Hr).
    exists name, rest. assert (Ev : value_run s' = v ∧ v ≠ "") by (destruct (value_run s'); [done|by injection Hv as <-]).
    destruct Ev as [<- Hne]. split_and!; [|done..]. by rewrite Es at 1.
  - intros [_ (name & rest & -> & Hn & Hne & Hv & Hr)].
    assert (E : after_name param (name +:+ "=" +:+ v +:+ rest) = Some ("=" +:+ v +:+ rest)).
    { apply after_name_spec. by exists name. }
    rewrite E. change (value_after (String "=" (v +:+ rest)) = Some v). rewrite value_after_eq. cbn [Ascii.eqb].
    change (Ascii.eqb "=" "=") with true. cbv iota. rewrite (value_run_spec _ v rest eq_refl Hv Hr). by destruct v.
Qed.

Lemma scan_spec param prev s :
  match scan param prev s with
  | Some v => ∃ pre s', s = pre +:+ s' ∧ assigned_here param (last_char prev pre) s' v ∧
      ∀ pre' s'' v', s = pre' +:+ s'' → assigned_here param (last_char prev pre') s'' v' →
                     String.length pre <= String.length pre'
  | None => ∀ pre s' v, s = pre +:+ s' → ¬ assigned_here param (last_char prev pre) s' v
  end.
Proof.
  assert (Hhere : ∀ prev s v, value_here param prev s = Some v → ∃ pre s', s = pre +:+ s' ∧
    assigned_here param (last_char prev pre) s' v ∧ ∀ pre' s'' v', s = pre' +:+ s'' →
      assigned_here param (last_char prev pre') s'' v' → String.length pre <= String.length pre').
  { intros prev0 s0 v E. apply value_here_spec in E. exists "", s0. split; [done|]. split; [done|]. intros. cbn. lia. }
  revert prev. induction s as [|c s IH]; intros prev; cbn [scan];
    destruct (value_here _ _ _) as [v0|] eqn:E; try (by apply Hhere in E).
  - intros pre s' v Es Ha. destruct pre; [|discriminate Es]. change ("" = s') in Es. subst s'.
    apply value_here_spec in Ha. cbn [last_char] in Ha. congruence.
  - assert (Hno : ∀ s' v, String c s = s' → ¬ assigned_here param prev s' v).
    { intros s' v <- Ha. apply value_here_spec in Ha. congruence. }
    specialize (IH (Some c)). destruct (scan param (Some c) s) as [v|].
    + destruct IH as (pre & s' & -> & Ha & Hmin). exists (String c pre), s'. split_and!; [done|done|].
      intros [|c' pre'] s'' v' Es Ha'; [by destruct (Hno _ _ Es Ha')|].
      injection Es as <- Es. cbn [String.length]. apply le_n_S. by eapply Hmin.
    + intros [|c' pre] s' v Es Ha; [by destruct (Hno _ _ Es Ha)|]. injection Es as <- Es. by eapply IH.
Qed.

Lemma cmdline_value_first cmdline param : first_value cmdline param (cmdline_value cmdline param).
Proof.
  rewrite cmdline_value_scan. pose proof (scan_spec param None cmdline) as H. unfold first_value, assigned_after.
  destruct (scan param None cmdline) as [v|].
  - destruct H as (pre & s' & E & Ha & Hmin). exists pre. split; [by exists s'|].
    intros pre' v' (s'' & E' & Ha'). by eapply Hmin.
  - intros pre v (s' & E & Ha). by eapply H.
Qed.

(** What is written for one parameter *)
Definition written (p : string) (o : option string) : string :=
  match o with Some v => p +:+ "=" +:+ v +:+ " " | None => "" end.

(** The names whose only operator, as expressions, is the dot; text of one byte to
    the character. *)
Definition param_name (p : string) : Prop :=
  all_chars (λ c, is_word c || Ascii.eqb c "." || Ascii.eqb c "-") p = true.
Definition ascii_text (s : string) : Prop := all_chars (λ c, Nat.ltb (Ascii.nat_of_ascii c) 128) s = true.

(** C40. What is extracted of the kernel's command line, which is ASCII, is, for
    each of the requested parameters and in the order requested, its name, an
    equals sign, the value of the first match, and a space; nothing for one that
    has no match. A match is the parameter after a word boundary, an equals sign
    and the longest run of characters that are no white space; a dot of the
    parameter stands for any character, and what precedes the boundary does not
    count, so that ai.ip=1 gives ip=1. The parameters are made of letters, digits,
    underscores, hyphens and dots, as all those the program asks for. *)
Theorem extractCmdlineParams_spec cmdline params :
  ascii_text cmdline → Forall param_name params →
  ∃ values, Forall2 (first_value cmdline) params values ∧
    extractCmdlineParams cmdline params = fold_right String.append "" (zip_with written params values).
Proof.
  intros _ _.
  exists (map (cmdline_value cmdline) params). split.
  { induction params as [|p ps IH]; constructor; [apply cmdline_value_first|exact IH]. }
  unfold extractCmdlineParams. set (m := fold_left _ params ∅).
  assert (Hm : ∀ p, p ∈ params → m !! p = cmdline_value cmdline p).
  { intros p Hp. apply (param_map (cmdline_value cmdline)); by left. }
  clearbody m.
  enough (∀ acc, fold_left (λ acc key, match m !! key with
      Some value => acc +:+ key +:+ "=" +:+ value +:+ " " | None => acc end) params acc =
    acc +:+ fold_right String.append "" (zip_with written params (map (cmdline_value cmdline) params))) as H by apply (H "").
  induction params as [|p ps IH]; intros acc; cbn [fold_left fold_right map zip_with].
  - by rewrite append_nil_r.
  - rewrite IH by (intros; apply Hm; by right). rewrite Hm by left.
    destruct (cmdline_value cmdline p); [|done]. unfold written at 2. by rewrite <-!append_assoc.
Qed.

Example extract_1 :
  extractCmdlineParams ("ro rd.znet=qeth,0.0.1 ip=10.1::a zfcp.allow_lun_scan=0 ip=second" +:+ nls) paramsToExtract =
  "ip=10.1::a rd.znet=qeth,0.0.1 zfcp.allow_lun_scan=0 ".
Proof. vm_compute. reflexivity. Qed.

(** The parameter is not matched exactly: its dots match any character, and the
    part of a longer name that follows a dot or a hyphen matches too. *)
Example param_not_exact :
  cmdline_value "rdXznet=1" "rd.znet" = Some "1" ∧ cmdline_value "ai.ip=1" "ip" = Some "1".
Proof. split; vm_compute; reflexivity. Qed.

Lemma extractCmdlineParams_spec_witness :
  let cmdline := "ro rd.znet=qeth,0.0.1 ip=10.1::a zfcp.allow_lun_scan=0 ip=second" in
  ∃ values, Forall2 (first_value cmdline) paramsToExtract values ∧
    extractCmdlineParams cmdline paramsToExtract = fold_right String.append "" (zip_with written paramsToExtract values).
Proof.
  intros cmdline. apply (extractCmdlineParams_spec cmdline paramsToExtract); [reflexivity|].
  repeat constructor.
Defined.

(** ** Witnesses: a host with room, where the second answer of the server is 200 *)
Section Witness.
Definition boot_env : Env :=
  host_files (λ _ p, if HasPrefix p "/tmp/boot" then Good (FileInfo p false false 10 420 0) else Bad enoent)
    (λ _ _, Bad enoent) (λ _ _, Bad enoent).

Definition boot_http : Http := {|
  e_http := λ l _ _ url _,
    if existsb (λ r, match r with RSleep _ => true | _ => false end) l
    then if String.eqb url "http://down" then Bad (errorf "connection refused")
         else Good (mkResponse 200 4 "boot" None)
    else Good (mkResponse 503 0 "" None);
  e_stopped := λ _ _ _, None;
  e_new_request := λ _ _, None
|}.

Definition boot_example : boot_request :=
  mkBootRequest (Some "/host") (Some "http://k") (Some "http://i") (Some "http://r").

Lemma refused_once url : @refused boot_http None url [] 1.
Proof. intros i Hi. assert (i = 0) as -> by lia. do 2 eexists. split; reflexivity. Qed.

Lemma download_first_success_witness :
  run (@download boot_env boot_http None "/tmp/boot/vmlinuz" "http://k" 5) [] shared_init =
  (Done None, [RNet "GET" ["http://k"]; RSleep Minute; RNet "GET" ["http://k"];
               RWriteFile "/tmp/boot/vmlinuz" "boot"], shared_init).
Proof.
  apply (@download_first_success boot_env boot_http None "/tmp/boot/vmlinuz" "http://k" 5 1
           (mkResponse 200 4 "boot" None) [] shared_init (refused_once _)); [lia|reflexivity..].
Defined.

Lemma download_transport_error_panics_witness :
  (run (@download boot_env boot_http None "/tmp/boot/vmlinuz" "http://down" 5) [] shared_init).1.1 = Panicked.
Proof.
  rewrite (@download_transport_error_panics boot_env boot_http None "/tmp/boot/vmlinuz" "http://down" 5 1
           (errorf "connection refused") [] shared_init (refused_once _)); [reflexivity|lia|reflexivity].
Defined.

Lemma download_success_witness :
  ∃ l' t t', l' = t ++ t' ∧ @all_copied boot_env t (boot_files "/host") t'.
Proof.
  assert (∃ l' s', run (@run_download boot_env boot_http (λ _, Good boot_example) (λ _, false)
                         (λ _ _, Good (1000, 1)%Z) false "req" "") [] shared_init = (Done None, l', s')) as (l' & s' & E).
  { do 2 eexists. vm_compute. reflexivity. }
  destruct (@download_success boot_env boot_http (λ _, Good boot_example) (λ _, false) (λ _ _, Good (1000, 1)%Z) false
              "req" boot_example "/host" "" [] shared_init l' s' eq_refl eq_refl E) as [[-> _]|(t & t' & -> & H)].
  - exfalso. vm_compute in E. discriminate.
  - exists (t ++ t'), t, t'. split; [reflexivity|exact H].
Defined.
End Witness.
