(* ===== verification/Install.v ===== *)
(** * The install action (src/commands/actions/install_cmd.go)

    The parameters of the installation are validated, the installer image is
    pulled if it is missing, and the installer container is started through a
    shell command line. *)
From S2P Require Import Prelude GoStrings Host Config Paths Regex Sort Shell.

Definition failedToPullImageExitCode : Z := 2.
Definition defaultImagePullRetries : nat := 3.
Definition defaultImagePullTimeout : Z := 600.
Definition nmConnectionsDir : string := "/proc/1/root/etc/NetworkManager/system-connections".
Definition agentTUILogFile : string := "/var/log/agent/agent-tui.log".
Definition agentTUILogDir : string := "/var/log/agent".

Definition podmanBaseCmd : list string :=
  ["podman"; "run"; "--privileged"; "--pid=host"; "--net=host"; "--name=assisted-installer";
   "-v"; "/dev:/dev:rw"; "-v"; "/opt:/opt:rw"; "-v"; "/var/log:/var/log:rw";
   "-v"; "/run/systemd/journal/socket:/run/systemd/journal/socket";
   "-v"; "/etc/pki:/etc/pki"; "-v"; "/tmp:/tmp"; "--env=PULL_SECRET_TOKEN"].

(** models.Proxy *)
Record proxy : Type := mkProxy { HTTPProxy : option string; HTTPSProxy : option string; NoProxy : option string }.

(** models.InstallCmdRequest; a [None] is a nil pointer. *)
Record install_params : Type := mkInstallParams {
  BootDevice : option string; CheckCvo : option bool; ip_ClusterID : option string;
  ControlPlaneCount : Z; ControllerImage : option string; CoreosImage : string;
  DisksToFormat : list string; EnableSkipMcoReboot : bool; ip_HostID : option string;
  ip_InfraEnvID : option string; InstallerArgs : string; InstallerImage : option string;
  McoImage : string; MustGatherImage : string; NotifyNumReboots : bool;
  OpenshiftVersion : string; ip_Proxy : option proxy; Role : option string;
  ServiceIps : list string; SkipInstallationDiskCleanup : bool
}.

(** ** Proxies *)
Definition nonempty (s : string) : bool := negb (String.eqb s "").
(** An option of the installer given only when its value is not empty. *)
Definition opt_arg (flag value : string) : list string := if nonempty value then [flag; value] else [].
Definition flag_if (b : bool) (flag : string) : list string := if b then [flag] else [].

Definition getProxyArguments (p : option proxy) : list string :=
  match p with
  | None => []
  | Some p =>
      let httpProxy := StringValue (HTTPProxy p) in
      let httpsProxy := StringValue (HTTPSProxy p) in
      let noProxy := StringValue (NoProxy p) in
      if String.eqb httpProxy "" && String.eqb httpsProxy "" then [] else
      opt_arg "--http-proxy" httpProxy ++ opt_arg "--https-proxy" httpsProxy ++
      (if nonempty noProxy then ["--no-proxy"; TrimSpace noProxy] else [])
  end.

(** ** Must-gather images *)
(** ^(([a-zA-Z0-9\-\.]+)(:[0-9]+)?\/)?[a-z0-9\._\-\/@]+[?::a-zA-Z0-9_\-.]+$ *)
Definition alnum (c : ascii) : bool := is_digit c || in_range "a" "z" c || in_range "A" "Z" c.
Definition host_char (c : ascii) : bool := alnum c || one_of "-." c.
Definition name_char (c : ascii) : bool := is_digit c || in_range "a" "z" c || one_of "._-/@" c.
Definition tag_char (c : ascii) : bool := alnum c || one_of "?:_-." c.
Definition image_body : re :=
  seqs [opt (seqs [plus (Chr host_char); opt (Seq (chr ":") (plus digit)); chr "/"]);
        plus (Chr name_char); plus (Chr tag_char)].
Definition image_re : re := Seq Begin (Seq image_body End).

Definition must_gather_operators : list string := ["cnv"; "lso"; "ocs"; "odf"; "ocp"].

(** A map printed with %v: the keys in order. *)
Definition fmt_map (m : gmap string string) : string :=
  "map[" +:+ Join (map (λ p, p.1 +:+ ":" +:+ p.2) (sort_by fst (map_to_list m))) " " +:+ "]".

(** The check of one entry. *)
Definition check_must_gather (imageMap : gmap string string) (op image : string) : option error :=
  if negb (MatchString image_re image)
  then Some (errorf ("must gather image " +:+ image +:+ " validation failed " +:+ fmt_map imageMap))
  else if negb (existsb (String.eqb op) must_gather_operators)
  then Some (errorf ("operator name " +:+ op +:+ " validation failed")) else None.

(** The first entry that fails, in the order of the list. *)
Fixpoint first_failure (imageMap : gmap string string) (entries : list (string * string)) : option error :=
  match entries with
  | [] => None
  | (op, image) :: entries' =>
      match check_must_gather imageMap op image with
      | Some err => Some err
      | None => first_failure imageMap entries'
      end
  end.

Section Install.
Context {env : Env}.
(** encoding/json into a map of strings and into a list of strings (with what
    was decoded before an error), and of a list of strings. *)
Variable unmarshal_image_map : string → result (gmap string string).
Variable unmarshal_args : string → list string * option error.
Variable marshal_args : list string → result string.
(** The validations of the assisted-service library and go-version. *)
Variable ValidateHTTPProxyFormat ValidateNoProxyFormat : string → option error.
Variable ValidateInstallerArgs : list string → option error.
Variable NewVersion : string → option error.
(** The birth time of a file in nanoseconds since the epoch. *)
Variable birth_time : log → string → option Z.

Variable cfg : AgentConfig.
Variable params : install_params.

(** *** Validation *)
Definition validateProxy (p : proxy) : option error :=
  let check (validate : string → option error) (v : string) (next : option error) :=
    if nonempty v then match validate v with Some err => Some err | None => next end else next in
  check ValidateHTTPProxyFormat (StringValue (HTTPProxy p))
    (check ValidateHTTPProxyFormat (StringValue (HTTPSProxy p))
      (check ValidateNoProxyFormat (StringValue (NoProxy p)) None)).

(** Go visits the entries of a map in any order. *)
Definition validateMustGatherImages (mustGatherImage : string) : Go (option error) :=
  let imageMap := match unmarshal_image_map mustGatherImage with
                  | Good m => m
                  | Bad _ => {["ocp" := mustGatherImage]}
                  end in
  choices ← ask RSchedule e_schedule;
  let entries := map_to_list imageMap in
  mret (first_failure imageMap (shuffle (length entries) choices entries)).

Definition pathExists (path : string) : Go bool := r ← Stat path; mret (is_good r).

Fixpoint validate_disk_list (disks : list string) : Go (option error) :=
  match disks with
  | [] => mret None
  | disk :: disks' =>
      if negb (HasPrefix disk "/dev/")
      then mret (Some (errorf ("disk " +:+ disk +:+ " should start of with /dev/"))) else
      found ← pathExists disk;
      if negb found then mret (Some (errorf ("disk " +:+ disk +:+ " was not found on the host")))
      else validate_disk_list disks'
  end.

Definition validateDisks : Go (option error) :=
  validate_disk_list (DisksToFormat params ++ [StringValue (BootDevice params)]).

(** What Validate checks after the request was decoded. *)
Definition validate_params : Go (option error) :=
  err ← (if nonempty (MustGatherImage params) then validateMustGatherImages (MustGatherImage params) else mret None);
  match err with
  | Some err => mret (Some err)
  | None =>
  match (match ip_Proxy params with Some p => validateProxy p | None => None end) with
  | Some err => mret (Some err)
  | None =>
  match (if nonempty (InstallerArgs params) then
           match unmarshal_args (InstallerArgs params) with
           | (_, Some err) => Some err
           | (installArgs, None) => ValidateInstallerArgs installArgs
           end else None) with
  | Some err => mret (Some err)
  | None =>
  match (if nonempty (OpenshiftVersion params) then NewVersion (OpenshiftVersion params) else None) with
  | Some err => mret (Some (wrap err ("Failed to parse OCP version " +:+ OpenshiftVersion params)))
  | None => validateDisks
  end end end end.

(** *** Network configuration made by hand *)
(** The zero time.Time, in nanoseconds since the epoch. *)
Definition zero_time : Z := (-62135596800 * 10 ^ 9)%Z.

Definition defaultBirthTimeFn (path : string) : Go (option Z) :=
  ask (RFile "BirthTime" path) (λ l, birth_time l path).

Definition agentTUIStartTime : Go Z :=
  r ← Stat agentTUILogFile;
  match r with
  | Bad _ => mret zero_time
  | Good _ =>
      btime ← defaultBirthTimeFn agentTUILogDir;
      mret (default zero_time btime)
  end.

(** Was a key file of these entries written since? *)
Fixpoint find_manual (tuiStart : Z) (entries : list file_info) : Go bool :=
  match entries with
  | [] => mret false
  | entry :: entries' =>
      if fi_is_dir entry then find_manual tuiStart entries' else
      let filePath := path_join [nmConnectionsDir; fi_name entry] in
      info ← Stat filePath;
      match info with
      | Bad _ => find_manual tuiStart entries'
      | Good info =>
          if (fi_mtime info <? tuiStart)%Z then find_manual tuiStart entries' else
          content ← ReadFile filePath;
          match content with
          | Bad _ => find_manual tuiStart entries'
          | Good content => if Contains content "[connection]" then mret true else find_manual tuiStart entries'
          end
      end
  end.

Definition hasManualNetworkConfig : Go bool :=
  tuiStart ← agentTUIStartTime;
  if (tuiStart =? zero_time)%Z then mret false else
  entries ← ReadDir nmConnectionsDir;
  match entries with
  | Bad _ => mret false
  | Good entries => find_manual tuiStart entries
  end.

Definition buildInstallerArgs : Go (list string) :=
  let args := if nonempty (InstallerArgs params) then fst (unmarshal_args (InstallerArgs params)) else [] in
  manual ← hasManualNetworkConfig;
  mret (if (manual : bool) && negb (existsb (String.eqb "--copy-network") args)
        then args ++ ["--copy-network"] else args).

(** *** The command line *)
Definition cacert : string := CACertificatePath (ac_conn cfg).

Definition podman_words : list string :=
  podmanBaseCmd ++ (if nonempty cacert then ["-v"; cacert +:+ ":" +:+ cacert +:+ ":rw"] else []).

(** The arguments up to the installer arguments, and after them. *)
Definition required_args (role infraEnv cluster host : string) : list string :=
  ["--role"; role; "--infra-env-id"; infraEnv; "--cluster-id"; cluster; "--host-id"; host;
   "--boot-device"; StringValue (BootDevice params); "--url"; TargetURL (ac_conn cfg);
   "--controller-image"; StringValue (ControllerImage params);
   "--agent-image"; AgentVersion (ac_conn cfg)].

Definition optional_args : list string :=
  (if (ControlPlaneCount params =? 0)%Z then [] else ["--control-plane-count"; Itoa (ControlPlaneCount params)]) ++
  opt_arg "--mco-image" (McoImage params) ++
  opt_arg "--must-gather-image" (MustGatherImage params) ++
  opt_arg "--openshift-version" (OpenshiftVersion params) ++
  concat (map (λ disk, ["--format-disk"; disk]) (DisksToFormat params)) ++
  flag_if (InsecureConnection (ac_conn cfg)) "--insecure" ++
  flag_if (default false (CheckCvo params)) "--check-cluster-version" ++
  flag_if (SkipInstallationDiskCleanup params) "--skip-installation-disk-cleanup" ++
  opt_arg "--cacert" cacert.

Definition installer_args_option (installerArgs : list string) : list string :=
  match installerArgs with
  | [] => []
  | _ => match marshal_args installerArgs with Good js => ["--installer-args"; js] | Bad _ => [] end
  end.

Definition last_args : list string :=
  flag_if (EnableSkipMcoReboot params) "--enable-skip-mco-reboot" ++
  flag_if (NotifyNumReboots params) "--notify-num-reboots" ++
  getProxyArguments (ip_Proxy params) ++
  match ServiceIps params with [] => [] | ips => ["--service-ips"; Join ips ","] end ++
  opt_arg "--coreos-image" (CoreosImage params).

(** The arguments of the installer, once its own arguments are known. *)
Definition installer_words (role infraEnv cluster host : string) (installerArgs : list string) : list string :=
  required_args role infraEnv cluster host ++ optional_args ++ installer_args_option installerArgs ++ last_args.

Definition command_line (words : list string) : string :=
  QuoteCommand podman_words +:+ " " +:+ StringValue (InstallerImage params) +:+ " " +:+ QuoteCommand words.

Definition getFullInstallerCommand : Go string :=
  role ← or_panic (Role params);
  infraEnv ← or_panic (ip_InfraEnvID params);
  cluster ← or_panic (ip_ClusterID params);
  host ← or_panic (ip_HostID params);
  installerArgs ← buildInstallerArgs;
  mret (command_line (installer_words role infraEnv cluster host installerArgs)).

(** *** The installer image *)
Definition template_words (l : list string) (image : string) : list string := l ++ Split image " ".

Definition isImageAvailable (image : string) : Go bool :=
  '(stdout, _, exitCode) ← ExecutePrivileged "podman" (template_words ["images"; "--quiet"] image);
  mret ((exitCode =? 0)%Z && nonempty stdout).

Definition pullImage (pullTimeoutSeconds : Z) (image : string) : Go (option error) :=
  '(stdout, stderr, exitCode) ←
    ExecutePrivileged "timeout" (template_words [Itoa pullTimeoutSeconds; "podman"; "pull"] image);
  mret (if (exitCode =? 0)%Z then None else
        if (exitCode =? TimeoutExitCode)%Z
        then Some (errorf ("pulling the installer image " +:+ image +:+ " timed out after " +:+
                           Itoa pullTimeoutSeconds +:+ " seconds"))
        else Some (errorf ("pulling the installer image " +:+ image +:+ " exited with non-zero exit code " +:+
                           Itoa exitCode +:+ ": " +:+ stdout +:+ nls +:+ " " +:+ stderr))).

Fixpoint pull_attempts (retry : nat) (pullTimeoutSeconds : Z) (image : string) (err : option error) : Go (option error) :=
  match retry with
  | O => mret err
  | S retry' =>
      err ← pullImage pullTimeoutSeconds image;
      match err with
      | None => mret None
      | Some err => pull_attempts retry' pullTimeoutSeconds image (Some err)
      end
  end.

Definition pullImageWithRetry (pullTimeoutSeconds : Z) (image : string) (retry : nat) : Go (option error) :=
  pull_attempts retry pullTimeoutSeconds image None.

Definition downloadInstallerImage (image : string) : Go (option error) :=
  available ← isImageAvailable image;
  if (available : bool) then mret None
  else pullImageWithRetry defaultImagePullTimeout image defaultImagePullRetries.

Definition install_Args : Go (list string) := cmd ← getFullInstallerCommand; mret ["-c"; cmd].

Definition install_Run : Go (string * string * Z) :=
  image ← or_panic (InstallerImage params);
  err ← downloadInstallerImage image;
  match err with
  | Some err => mret ("", err_msg err, failedToPullImageExitCode)
  | None => args ← install_Args; ExecutePrivileged "sh" args
  end.
(** ** Facts *)

(** *** The command line *)
(** What an image name of the pattern consists of. *)
Definition image_char (c : ascii) : bool := unquoted_char c || Ascii.eqb c "?".

Lemma image_chars image : MatchString image_re image = true → all_chars image_char image = true.
Proof.
  apply MatchString_chars. cbn. repeat split; intros [[] [] [] [] [] [] [] []]; vm_compute; congruence.
Qed.

Lemma image_nonempty image : MatchString image_re image = true → image ≠ "".
Proof. by intros H ->. Qed.

(** The shell reads an image name without a question mark as itself. *)
Lemma image_word image rest :
  MatchString image_re image = true → all_chars (λ c, negb (Ascii.eqb c "?")) image = true →
  read_words Plain None (image +:+ rest) = read_words Plain (Some image) rest.
Proof.
  intros Hi Hq. apply read_words_plain; [|right; by apply image_nonempty].
  apply image_chars in Hi. clear rest. induction image as [|c image IH]; [done|].
  cbn [all_chars] in *. apply andb_true_iff in Hi as [Hc Hi]. apply andb_true_iff in Hq as [Hn Hq].
  rewrite IH by done. rewrite andb_true_r. unfold image_char in Hc. apply orb_true_iff in Hc as [Hc|Hc]; [done|].
  by rewrite Hc in Hn.
Qed.

(** The arguments for the installer: those of the request, and --copy-network
    once when network configuration was made by hand. *)
Definition requested_args : list string :=
  if nonempty (InstallerArgs params) then fst (unmarshal_args (InstallerArgs params)) else [].
Definition possible_args (args : list string) : Prop :=
  args = requested_args ∨ (args = requested_args ++ ["--copy-network"] ∧ "--copy-network" ∉ requested_args).

Lemma spec_find_manual start entries : returns (λ r, is_exec r = false) no_change (find_manual start entries).
Proof.
  induction entries as [|e entries IH]; cbn [find_manual]; [by apply spec_ret|].
  destruct (fi_is_dir e); [done|]. apply returns_bind; [host_ask|]. intros [info|err]; [|done].
  lazymatch goal with |- spec _ _ _ (if ?b then _ else _) => destruct b end; [done|].
  apply returns_bind; [host_ask|]. intros [content|err]; [|done].
  destruct (Contains _ _); [by apply spec_ret|done].
Qed.

Lemma spec_hasManualNetworkConfig : returns (λ r, is_exec r = false) no_change hasManualNetworkConfig.
Proof.
  unfold hasManualNetworkConfig, agentTUIStartTime, defaultBirthTimeFn. repeat first
    [apply returns_bind; [|intros ?] | host_ask | apply spec_find_manual | apply spec_ret; exact I
    | lazymatch goal with |- spec _ _ _ (if ?b then _ else _) => destruct b
                        | |- spec _ _ _ (match ?x with _ => _ end) => destruct x end
    | by apply spec_ask].
Qed.

Lemma spec_buildInstallerArgs : spec (λ r, is_exec r = false) no_change possible_args buildInstallerArgs.
Proof.
  unfold buildInstallerArgs. fold requested_args. eapply spec_bind; [apply spec_hasManualNetworkConfig|].
  intros manual _. apply spec_ret. unfold possible_args.
  destruct manual, (existsb (String.eqb "--copy-network") requested_args) eqn:E; cbn; auto.
  right. split; [done|]. intros Hin%list_elem_of_In. apply eq_true_false_abs in E; [done|].
  apply existsb_exists. eexists. split; [done|]. apply String.eqb_refl.
Qed.

(** C18. No argument of the request can inject into the installer's command line:
    the shell reads it as the podman command, the image and one word per argument,
    whatever the arguments hold. This is for an image that matches the pattern of
    image names and has no question mark: the image is not quoted, and the pattern
    lets a question mark through, which is a wild card of the shell. *)
Theorem installer_command_words role infraEnv cluster host image :
  Role params = Some role → ip_InfraEnvID params = Some infraEnv → ip_ClusterID params = Some cluster →
  ip_HostID params = Some host → InstallerImage params = Some image →
  MatchString image_re image = true → all_chars (λ c, negb (Ascii.eqb c "?")) image = true →
  spec (λ r, is_exec r = false) no_change
    (λ cmd, ∃ args, possible_args args ∧
       sh_words cmd = Some (podman_words ++ image :: installer_words role infraEnv cluster host args))
    getFullInstallerCommand.
Proof.
  intros Hr Hie Hc Hh Him Hi Hq. unfold getFullInstallerCommand. rewrite Hr, Hie, Hc, Hh.
  do 4 (change (or_panic (Some ?x) ≫= ?f) with (f x)).
  eapply spec_bind; [apply spec_buildInstallerArgs|]. intros args Hargs. apply spec_ret.
  exists args. split; [done|]. unfold command_line, sh_words. rewrite Him. cbn [StringValue from_option id].
  apply sh_words_QuoteCommand; [done|]. rewrite image_word by done.
  set (words := installer_words role infraEnv cluster host args).
  change (" " +:+ QuoteCommand words) with (String " " (QuoteCommand words)). cbn [read_words Ascii.eqb Bool.eqb].
  assert (E : read_words Plain None (QuoteCommand words) = Some words) by by apply QuoteCommand_reads.
  by rewrite E.
Qed.
(** *** Pulling the image *)
Definition image_query (image : string) : request :=
  privileged "podman" (template_words ["images"; "--quiet"] image).
Definition image_pull (image : string) : request :=
  privileged "timeout" (template_words [Itoa defaultImagePullTimeout; "podman"; "pull"] image).

(** What a privileged command answers after [l]. *)
Definition answer (l : log) (command : string) (args : list string) : string * string * option error :=
  e_run l "nsenter" (["--target"; "1"; "--cgroup"; "--mount"; "--ipc"; "--net"; "--"; command] ++ args).
Definition exit_code (a : string * string * option error) : Z := getExitCode a.2.

Definition image_present (l : log) (image : string) : bool :=
  let a := answer l "podman" (template_words ["images"; "--quiet"] image) in
  (exit_code a =? 0)%Z && nonempty a.1.1.
Definition pull_works (l : log) (image : string) : bool :=
  (exit_code (answer l "timeout" (template_words [Itoa defaultImagePullTimeout; "podman"; "pull"] image)) =? 0)%Z.

(** After [l], [k] pulls in a row fail. *)
Definition pulls_fail (l : log) (image : string) (k : nat) : Prop :=
  ∀ i, i < k → pull_works (l ++ replicate i (image_pull image)) image = false.

Lemma run_isImageAvailable image l s :
  run (isImageAvailable image) l s = (Done (image_present l image), l ++ [image_query image], s).
Proof.
  unfold isImageAvailable, ExecutePrivileged, Execute, buildPrivilegedCommand, image_present, exit_code, answer.
  rewrite !run_bind. cbn [run ask]. by destruct (e_run l _ _) as [[o e] err].
Qed.

Lemma run_pullImage image l s :
  ∃ r, run (pullImage defaultImagePullTimeout image) l s = (Done r, l ++ [image_pull image], s) ∧
       is_nil r = pull_works l image.
Proof.
  unfold pullImage, ExecutePrivileged, Execute, buildPrivilegedCommand, pull_works, exit_code, answer.
  rewrite !run_bind. cbn [run ask]. destruct (e_run l _ _) as [[o e] err]. cbn.
  destruct (getExitCode err =? 0)%Z; [by exists None|]. by destruct (_ =? TimeoutExitCode)%Z; eexists.
Qed.

Lemma pulls_fail_next l image k :
  pulls_fail l image (S k) → pull_works l image = false ∧ pulls_fail (l ++ [image_pull image]) image k.
Proof.
  intros H. split; [specialize (H 0 ltac:(lia)); cbn in H; by rewrite app_nil_r in H|].
  intros i Hi. rewrite <-(assoc_L (++)). apply (H (S i)). lia.
Qed.

Lemma run_pull_attempts image k n err l s :
  pulls_fail l image k →
  ∃ err', run (pull_attempts (k + n) defaultImagePullTimeout image err) l s =
    run (pull_attempts n defaultImagePullTimeout image err') (l ++ replicate k (image_pull image)) s ∧
    (is_Some err ∨ 0 < k → is_Some err').
Proof.
  revert l err. induction k as [|k IH]; intros l err H.
  { exists err. cbn [replicate]. rewrite app_nil_r. split; [done|]. intros [?|?]; [done|lia]. }
  apply pulls_fail_next in H as [Hw H]. cbn [Nat.add pull_attempts]. rewrite run_bind.
  destruct (run_pullImage image l s) as (r & -> & Hr). rewrite Hw in Hr. destruct r as [e|]; [|done].
  destruct (IH _ (Some e) H) as (err' & -> & He). exists err'.
  rewrite <-(assoc_L (++)). split; [done|]. intros _. apply He. by left.
Qed.

(** The command that starts the installer. *)
Definition start_installer : Go (string * string * Z) := args ← install_Args; ExecutePrivileged "sh" args.

(** C21. The installer is started only once its image is on the host: an image
    that is missing is pulled at most three times, until a pull works; when all
    three fail the step ends with exit code 2 and the installer is not started. *)
Theorem install_Run_pulls image l s k :
  InstallerImage params = Some image → image_present l image = false →
  let l0 := l ++ [image_query image] in
  pulls_fail l0 image k → k ≤ 3 →
  (k < 3 → pull_works (l0 ++ replicate k (image_pull image)) image = true →
   run install_Run l s = run start_installer (l0 ++ replicate (S k) (image_pull image)) s) ∧
  (k = 3 → ∃ msg, run install_Run l s = (Done ("", msg, 2%Z), l0 ++ replicate 3 (image_pull image), s)).
Proof.
  intros Hi Hp l0 Hk Hle. unfold install_Run, downloadInstallerImage, pullImageWithRetry. rewrite Hi.
  rewrite run_bind. cbn [run or_panic]. rewrite run_bind.
  rewrite (run_bind (isImageAvailable image)), run_isImageAvailable, Hp. fold l0.
  split; [intros Hlt Hw|intros ->].
  - replace defaultImagePullRetries with (k + S (2 - k)) by (unfold defaultImagePullRetries; lia).
    destruct (run_pull_attempts image k (S (2 - k)) None l0 s Hk) as (err' & -> & _).
    cbn [pull_attempts]. rewrite run_bind.
    destruct (run_pullImage image (l0 ++ replicate k (image_pull image)) s) as (r & -> & Hr).
    rewrite Hw in Hr. destruct r; [done|]. cbn [run mret proc_ret].
    rewrite <-(assoc_L (++)). change [image_pull image] with (replicate 1 (image_pull image)).
    rewrite <-replicate_add, Nat.add_1_r. done.
  - replace defaultImagePullRetries with (3 + 0) by done.
    destruct (run_pull_attempts image 3 0 None l0 s Hk) as (err' & -> & He).
    cbn [pull_attempts run mret proc_ret]. destruct He as [e ->]; [lia|]. by exists (err_msg e).
Qed.

(** *** Validation *)
Lemma first_failure_None m entries :
  first_failure m entries = None ↔ Forall (λ p, check_must_gather m p.1 p.2 = None) entries.
Proof.
  induction entries as [|[op image] entries IH]; cbn [first_failure]; [by split; constructor|].
  rewrite Forall_cons. cbn [fst snd]. destruct (check_must_gather m op image); [naive_solver|naive_solver].
Qed.

Lemma check_must_gather_None m op image :
  check_must_gather m op image = None ↔ MatchString image_re image = true ∧ op ∈ must_gather_operators.
Proof.
  unfold check_must_gather. destruct (MatchString image_re image); cbn [negb]; [|naive_solver].
  destruct (existsb (String.eqb op) must_gather_operators) eqn:E; cbn [negb]; split; try naive_solver.
  - intros _. split; [done|]. apply existsb_exists in E as (x & Hx & ->%String.eqb_eq). by apply list_elem_of_In.
  - intros [_ H%list_elem_of_In]. exfalso. apply eq_true_false_abs in E; [done|]. apply existsb_exists.
    exists op. by rewrite String.eqb_refl.
Qed.

Lemma must_gather_correct mustGatherImage :
  let imageMap := match unmarshal_image_map mustGatherImage with
                  | Good m => m
                  | Bad _ => {["ocp" := mustGatherImage]}
                  end in
  spec (λ r, r = RSchedule) no_change
    (λ r, r = None ↔ ∀ op image, imageMap !! op = Some image →
                       MatchString image_re image = true ∧ op ∈ must_gather_operators)
    (validateMustGatherImages mustGatherImage).
Proof.
  intros m. unfold validateMustGatherImages. fold m.
  eapply spec_bind; [by apply (spec_ask _ _ (λ _, True))|]. intros choices _. apply spec_ret.
  rewrite first_failure_None, shuffle_Permutation, Forall_forall. split.
  - intros H op image Hm. apply (check_must_gather_None m). apply (H (op, image)).
    by apply elem_of_map_to_list.
  - intros H [op image] Hin. apply check_must_gather_None, H. by apply elem_of_map_to_list in Hin.
Qed.

(** The must-gather images are accepted exactly when every one of them is an
    image name and belongs to a known operator, in whatever order Go visits the
    map; a request that is not a JSON object is the image of ocp. *)
Theorem must_gather_accepts mustGatherImage :
  let imageMap := match unmarshal_image_map mustGatherImage with
                  | Good m => m
                  | Bad _ => {["ocp" := mustGatherImage]}
                  end in
  spec (λ r, r = RSchedule) no_change
    (λ r, r = None ↔ ∀ op image, imageMap !! op = Some image →
                       MatchString image_re image = true ∧ op ∈ must_gather_operators)
    (validateMustGatherImages mustGatherImage).
Proof. apply must_gather_correct. Qed.

Lemma spec_validate_disk_list disks :
  spec (λ r, is_exec r = false) no_change
    (λ r, r = None → Forall (λ d, HasPrefix d "/dev/" = true) disks) (validate_disk_list disks).
Proof.
  induction disks as [|d disks IH]; cbn [validate_disk_list]; [by apply spec_ret|].
  destruct (HasPrefix d "/dev/") eqn:E; cbn [negb]; [|by apply spec_ret].
  unfold pathExists. eapply spec_bind; [eapply returns_bind; [host_ask|intros ?; by apply spec_ret]|].
  intros [|] _; [|by apply spec_ret]. eapply spec_conseq; [exact IH|]. auto.
Qed.

(** A request that passes validation installs to and formats only
    devices below /dev/. *)
Theorem valid_disks :
  spec (λ r, is_exec r = false) no_change
    (λ r, r = None → Forall (λ d, HasPrefix d "/dev/" = true)
                       (DisksToFormat params ++ [StringValue (BootDevice params)])) validate_params.
Proof.
  unfold validate_params. eapply spec_bind.
  { destruct (nonempty (MustGatherImage params)); [|by apply (spec_ret _ _ (λ _, True))].
    eapply spec_mono; [apply must_gather_correct|by intros ? ->|done|done]. }
  intros [e|] _; [by apply spec_ret|]. repeat (lazymatch goal with |- spec _ _ _ (match ?x with _ => _ end) => destruct x; [by apply spec_ret|] end).
  apply spec_validate_disk_list.
Qed.

(** *** Network configuration made by hand *)
Section Keyfiles.
(** The files do not change while they are looked at. *)
Variable stat : string → result file_info.
Variable content : string → result string.
Hypothesis Hstat : ∀ l p, e_stat l p = stat p.
Hypothesis Hcontent : ∀ l p, e_read_file l p = content p.

(** The entry is a key file written at or after [start]. *)
Definition manual_keyfile (start : Z) (entry : file_info) : bool :=
  let path := path_join [nmConnectionsDir; fi_name entry] in
  negb (fi_is_dir entry) &&
  match stat path, content path with
  | Good info, Good c => (start <=? fi_mtime info)%Z && Contains c "[connection]"
  | _, _ => false
  end.

Lemma find_manual_correct start entries l s :
  ∃ t, run (find_manual start entries) l s = (Done (existsb (manual_keyfile start) entries), l ++ t, s).
Proof.
  revert l. induction entries as [|e entries IH]; intros l; cbn [find_manual existsb].
  { exists []. by rewrite app_nil_r. }
  unfold manual_keyfile at 1. destruct (fi_is_dir e); cbn [negb andb orb]; [apply IH|].
  set (path := path_join _). unfold Stat, ReadFile. rewrite run_bind. cbn [run ask]. rewrite Hstat.
  destruct (stat path) as [info|]; cbn [orb].
  2: { destruct (IH (l ++ [RFile "Stat" path])) as [t ->]. exists (RFile "Stat" path :: t). by rewrite <-(assoc_L (++)). }
  rewrite Z.ltb_antisym. destruct (start <=? fi_mtime info)%Z; cbn [negb andb orb].
  2: { destruct (IH (l ++ [RFile "Stat" path])) as [t ->]. exists (RFile "Stat" path :: t).
       destruct (content path); by rewrite <-(assoc_L (++)). }
  rewrite run_bind. cbn [run ask]. rewrite Hcontent, <-(assoc_L (++)).
  destruct (content path) as [c|]; cbn [orb]; [destruct (Contains c "[connection]"); cbn [orb]; [by eexists|]|];
    destruct (IH (l ++ [RFile "Stat" path; RFile "ReadFile" path])) as [t H]; cbn [app] in *; rewrite H;
    exists (RFile "Stat" path :: RFile "ReadFile" path :: t); by rewrite <-(assoc_L (++)).
Qed.

(** What decides: the text interface has left its log, the birth time of the
    log's folder is known, the folder of NetworkManager can be listed, and one of
    its files was written at or after that time and configures a connection. *)
Definition keyfile_since (start : Z) (entry : file_info) : Prop :=
  fi_is_dir entry = false ∧ ∃ info c, stat (path_join [nmConnectionsDir; fi_name entry]) = Good info ∧
    content (path_join [nmConnectionsDir; fi_name entry]) = Good c ∧
    (start <= fi_mtime info)%Z ∧ Contains c "[connection]" = true.
Definition configured_by_hand (l : log) : Prop :=
  ∃ info start entries entry, stat agentTUILogFile = Good info ∧
    birth_time (l ++ [RFile "Stat" agentTUILogFile]) agentTUILogDir = Some start ∧ start ≠ zero_time ∧
    e_read_dir (l ++ [RFile "Stat" agentTUILogFile; RFile "BirthTime" agentTUILogDir]) nmConnectionsDir = Good entries ∧
    Some entry ∈ entries ∧ keyfile_since start entry.

Lemma manual_keyfile_iff start entry : manual_keyfile start entry = true ↔ keyfile_since start entry.
Proof.
  clear unmarshal_image_map unmarshal_args ValidateHTTPProxyFormat ValidateNoProxyFormat NewVersion params.
  unfold manual_keyfile, keyfile_since. rewrite andb_true_iff, negb_true_iff.
  destruct (stat _) as [info|]; [|naive_solver]. destruct (content _) as [c|]; [|naive_solver].
  rewrite andb_true_iff, Z.leb_le. naive_solver.
Qed.
Lemma manual_keyfiles_iff start entries :
  existsb (manual_keyfile start) (omap id entries) = true ↔ ∃ entry, Some entry ∈ entries ∧ keyfile_since start entry.
Proof.
  rewrite existsb_exists. split.
  - intros (e & Hin & He). apply list_elem_of_In, list_elem_of_omap in Hin as (o & Ho & E). cbn in E. subst o.
    exists e. by rewrite <-manual_keyfile_iff.
  - intros (e & Hin & He). exists e. rewrite manual_keyfile_iff. split; [|done].
    apply list_elem_of_In, list_elem_of_omap. by exists (Some e).
Qed.

Lemma hasManualNetworkConfig_correct l s :
  ∃ b t, run hasManualNetworkConfig l s = (Done b, l ++ t, s) ∧ (b = true ↔ configured_by_hand l).
Proof using Hstat Hcontent.
  clear unmarshal_image_map unmarshal_args ValidateHTTPProxyFormat ValidateNoProxyFormat NewVersion params.
  unfold hasManualNetworkConfig, agentTUIStartTime, defaultBirthTimeFn, Stat, ReadDir, configured_by_hand.
  rewrite !run_bind. cbn [run ask]. rewrite Hstat. destruct (stat agentTUILogFile) as [info|e].
  2: { cbn [run mret proc_ret]. rewrite Z.eqb_refl. eexists _, _. split; [done|]. naive_solver. }
  rewrite run_bind. cbn [run ask]. destruct (birth_time _ agentTUILogDir) as [start|] eqn:Eb;
    cbn [run mret proc_ret from_option default id].
  2: { rewrite Z.eqb_refl, <-(assoc_L (++)). eexists _, _. split; [done|]. naive_solver. }
  destruct (Z.eqb_spec start zero_time) as [->|Hz].
  { rewrite <-(assoc_L (++)). eexists _, _. split; [done|]. naive_solver. }
  rewrite run_bind. cbn [run ask]. rewrite <-!(assoc_L (++)). cbn [app].
  destruct (e_read_dir _ nmConnectionsDir) as [entries|e] eqn:Ed; cbn [still_there].
  2: { eexists _, _. split; [done|]. naive_solver. }
  edestruct (find_manual_correct start (omap id entries)) as [t ->]. rewrite <-(assoc_L (++)). eexists _, _.
  split; [done|]. rewrite manual_keyfiles_iff. naive_solver.
Qed.

(** C23. The arguments of the installer are those of the request, with
    --copy-network at the end exactly when the text interface ran (its log is
    there, the birth time of the log's folder is known and not the zero time),
    the folder of NetworkManager can be listed, and one of the key files in it
    was written at or after that time, unless the request has it already. *)
Theorem copy_network_added l s :
  ∃ (added : bool) t, run buildInstallerArgs l s =
    (Done (requested_args ++ if added then ["--copy-network"] else []), l ++ t, s) ∧
    (added = true ↔ "--copy-network" ∉ requested_args ∧ configured_by_hand l).
Proof using Hstat Hcontent.
  unfold buildInstallerArgs. fold requested_args.
  destruct (hasManualNetworkConfig_correct l s) as (b & t & E & Hb). rewrite (run_bind_done _ _ _ _ _ _ _ E).
  exists (b && negb (existsb (String.eqb "--copy-network") requested_args)), t.
  split; [cbn [run mret proc_ret]; by destruct (b && _); rewrite ?app_nil_r|].
  rewrite andb_true_iff, negb_true_iff, Hb, <-not_true_iff_false, existsb_exists.
  assert (Hin : (∃ x, In x requested_args ∧ String.eqb "--copy-network" x = true) ↔ "--copy-network" ∈ requested_args).
  { split; [intros (x & Hx & Ex)|intros Hx; exists "--copy-network"].
    - apply String.eqb_eq in Ex as <-. by apply list_elem_of_In.
    - split; [by apply list_elem_of_In|apply String.eqb_refl]. }
  rewrite Hin. split; intros [H1 H2]; by split.
Qed.
End Keyfiles.
End Install.

(** ** Witnesses *)
Section Witness.
Definition install_example : install_params :=
  mkInstallParams (Some "/dev/sda") None (Some "c") 0 (Some "ctrl") "" ["/dev/sdb"] false (Some "h") (Some "i") ""
    (Some "quay.io/org/installer:v1") "" "" false "4.20" (Some (mkProxy (Some "http://p; reboot") None None))
    (Some "master") [] false.
Definition install_config : AgentConfig :=
  mkAgentConfig (mkDryRunConfig false "" "" "" "" "")
    (mkConnectivityConfig "https://url" "" "" "agent:v1" "" false "/etc/ca file.pem") 60 "" (mkLoggingConfig false false false).

(** Podman has no image and no pull works. *)
Definition no_registry : Env :=
  cmd_host (λ _ _ args, if existsb (String.eqb "images") args then ("", "", None)
                        else ("", "denied", Some (Err (KExit 125) "exit status 125"))).

Lemma installer_command_words_witness :
  ∃ P Q, spec P no_change Q
    (@getFullInstallerCommand null_env (λ _, ([], None)) (λ _, Good "[]") (λ _ _, None) install_config install_example).
Proof.
  do 2 eexists. eapply (@installer_command_words null_env (λ _, ([], None)) (λ _, Good "[]") (λ _ _, None)
    install_config install_example "master" "i" "c" "h" "quay.io/org/installer:v1"); reflexivity.
Defined.

Lemma install_Run_pulls_witness :
  ∃ msg, (run (@install_Run no_registry (λ _, ([], None)) (λ _, Good "[]") (λ _ _, None) install_config install_example)
            [] shared_init).1.1 = Done ("", msg, 2%Z).
Proof.
  destruct (@install_Run_pulls no_registry (λ _, ([], None)) (λ _, Good "[]") (λ _ _, None) install_config
    install_example "quay.io/org/installer:v1" [] shared_init 3) as [_ H]; [reflexivity|reflexivity| |lia|].
  - intros i Hi. destruct i as [|[|[|]]]; [reflexivity..|lia].
  - destruct (H eq_refl) as [msg E]. exists msg. rewrite E. reflexivity.
Defined.

(** A host where the key file was written after the text interface started. *)
Definition tui_env : Env :=
  host_files (λ _ p, Good (FileInfo p false false 1 0 10)) (λ _ _, Good "[connection]")
    (λ _ _, Good [FileInfo "eth0.nmconnection" false false 1 0 10]).

Lemma copy_network_added_witness :
  ∃ (added : bool) t, run (@buildInstallerArgs tui_env (λ _, ([], None)) (λ _ _, Some 10%Z) install_example) [] shared_init =
    (Done ([] ++ if added then ["--copy-network"] else []), t, shared_init) ∧
    (added = true ↔ "--copy-network" ∉ @nil string ∧
       @configured_by_hand tui_env (λ _ _, Some 10%Z) (λ p, Good (FileInfo p false false 1 0 10)) (λ _, Good "[connection]") []).
Proof.
  destruct (@copy_network_added tui_env (λ _, ([], None)) (λ _ _, Some 10%Z) install_example
    (λ p, Good (FileInfo p false false 1 0 10)) (λ _, Good "[connection]") ltac:(reflexivity) ltac:(reflexivity)
    [] shared_init) as (added & t & E & H).
  exists added, ([] ++ t). split; [exact E|exact H].
Defined.

(** The key file of that host was written after the text interface started; with
    no birth time nothing is added. *)
Example copy_network_example :
  (run (@buildInstallerArgs tui_env (λ _, ([], None)) (λ _ _, Some 10%Z) install_example) [] shared_init).1.1 =
    Done ["--copy-network"] ∧
  (run (@buildInstallerArgs tui_env (λ _, ([], None)) (λ _ _, None) install_example) [] shared_init).1.1 = Done [].
Proof. split; reflexivity. Qed.
End Witness.
