(* ===== verification/Actions.v ===== *)
(** * The actions (src/commands/actions)

    [New] finds the action of a step type, validates its arguments and hands
    back the runner that the next-step runner of StepProcessor runs.  An action
    runs a check in the process itself or starts a container. *)
From S2P Require Import Prelude Uuid GoStrings Host Config StepProcessor Net FreeAddresses Paths Regex Shell Http Interfaces.
From S2P Require Import Connectivity Ntp ApiVip Tang Dhcp DomainResolution ImageAvailability UpgradeAgent VipsVerifier BootArtifacts Install.

(** models.LogsGatherCmdRequest and models.NextStepCmdRequest *)
Record logs_params : Type := mkLogsParams {
  lp_Bootstrap : option bool; lp_ClusterID : option string; lp_HostID : option string;
  lp_InfraEnvID : option string; lp_InstallerGather : bool; lp_MasterIps : list string
}.
Record next_step_params : Type := mkNextStepParams {
  np_AgentVersion : option string; np_HostID : option string; np_InfraEnvID : option string
}.

(** encoding/json into an interface that holds a pointer to the model ([None]:
    the input is null, which leaves the interface nil) and the model's generated
    validation. *)
Record Decoder (M : Type) : Type := mkDecoder {
  json_decode : string → result (option M); swagger_validate : M → option error
}.
Arguments mkDecoder {_} _ _.
Arguments json_decode {_} _ _.
Arguments swagger_validate {_} _ _.

(** A list of strings printed with %v. *)
Definition fmt_slice (l : list string) : string := "[" +:+ Join l " " +:+ "]".

(** ValidateCommon: the number of arguments, and the model that the first one
    encodes. *)
Definition ValidateCommon {M} (name : string) (expectedArgsLength : nat) (args : list string)
    (modelToValidate : option (Decoder M)) : Go (result (option M)) :=
  if negb (Nat.eqb (length args) expectedArgsLength)
  then mret (Bad (errorf (name +:+ " cmd accepts " +:+ Itoa (Z.of_nat expectedArgsLength) +:+
                          " params in args, given args " +:+ fmt_slice args)))
  else match modelToValidate with
  | None => mret (Good None)
  | Some d =>
      arg ← or_panic (args !! 0%nat);
      match json_decode d arg with
      | Bad err => mret (Bad err)
      | Good None => panic
      | Good (Some m) =>
          mret (match swagger_validate d m with Some err => Bad err | None => Good (Some m) end)
      end
  end.

(** ** Logs gathering: html/template *)
(** The characters html/template replaces in text. *)
Definition html_char (c : ascii) : string :=
  match Ascii.nat_of_ascii c with
  | 0 => String "239" (String "191" (String "189" ""))
  | 34 => "&#34;"
  | 38 => "&amp;"
  | 39 => "&#39;"
  | 43 => "&#43;"
  | 60 => "&lt;"
  | 62 => "&gt;"
  | _ => String c ""
  end.
Fixpoint html_escape (s : string) : string :=
  match s with "" => "" | String c s' => html_char c +:+ html_escape s' end.

(** The template, given the values of its variables. *)
Definition logs_template (baseURL clusterID hostID infraEnvID image skipCert bootstrap gather masters cacert : string) : string :=
  let e := html_escape in
  "1h podman run --rm --privileged --net=host " +:+
  "-v /run/systemd/journal/socket:/run/systemd/journal/socket -v /var/log:/var/log -v /etc/pki:/etc/pki " +:+
  (if nonempty cacert then " -v " +:+ e cacert +:+ ":" +:+ e cacert +:+ " " else "") +:+
  (if String.eqb bootstrap "true" then " -v /root/.ssh:/root/.ssh -v /tmp:/tmp " else "") +:+
  "--env PULL_SECRET_TOKEN --name logs-sender --pid=host " +:+ e image +:+ " logs_sender " +:+
  "-url " +:+ e baseURL +:+ " -cluster-id " +:+ e clusterID +:+ " -host-id " +:+ e hostID +:+
  " -infra-env-id " +:+ e infraEnvID +:+ " " +:+
  "--insecure=" +:+ e skipCert +:+ " -bootstrap=" +:+ e bootstrap +:+ " -with-installer-gather-logging=" +:+ e gather +:+
  (if nonempty masters then " -masters-ips=" +:+ e masters +:+ " " else "") +:+
  (if nonempty cacert then " --cacert " +:+ e cacert +:+ " " else "").

Definition createUploadLogsCmd (cfg : AgentConfig) (p : logs_params) : Go string :=
  clusterID ← or_panic (lp_ClusterID p);
  hostID ← or_panic (lp_HostID p);
  infraEnvID ← or_panic (lp_InfraEnvID p);
  mret (logs_template (TargetURL (ac_conn cfg)) clusterID hostID infraEnvID (AgentVersion (ac_conn cfg))
          (FormatBool (InsecureConnection (ac_conn cfg))) (FormatBool (default false (lp_Bootstrap p)))
          (FormatBool (lp_InstallerGather p)) (Join (lp_MasterIps p) ",") (CACertificatePath (ac_conn cfg))).

(** ** Command lines of the actions that start a container *)
Definition disk_speed_tail (request : string) : string := "disk_speed_check '" +:+ request +:+ "'".
Definition disk_perf_command (agentVersion request timeout : string) : string :=
  ("id=`podman ps --quiet --filter " +:+ dqs +:+ "name=disk_performance" +:+ dqs +:+ "` ; " +:+
   "test ! -z " +:+ dqs +:+ "$id" +:+ dqs +:+ " || " +:+
   "timeout " +:+ timeout +:+ " " +:+
   "podman run --privileged --rm --quiet -v /dev:/dev:rw -v /var/log:/var/log -v /run/systemd/journal/socket:/run/systemd/journal/socket " +:+
   "--name disk_performance " +:+ agentVersion +:+ " ") +:+ disk_speed_tail request.

Definition free_addresses_words (agentVersion : string) (args : list string) : list string :=
  ["podman"; "run"; "--privileged"; "--net=host"; "--rm"; "--quiet"; "--name"; "free_addresses_scanner";
   "-v"; "/var/log:/var/log"; "-v"; "/run/systemd/journal/socket:/run/systemd/journal/socket";
   agentVersion; "free_addresses"] ++ args.
Definition free_addresses_command (agentVersion : string) (args : list string) : string :=
  "podman ps --format '{{.Names}}' | grep -q '^free_addresses_scanner$'" +:+ " || " +:+
  QuoteCommand (free_addresses_words agentVersion args).

Definition efivarsPath : string := "/sys/firmware/efi/efivars".
Definition inventory_words (mtabMount : string) (efivars : bool) (agentVersion : string) : list string :=
  ["podman"; "run"; "--privileged"; "--pid=host"; "--net=host"; "--rm"; "--quiet";
   "-v"; "/var/log:/var/log"; "-v"; "/run/udev:/run/udev"; "-v"; "/dev/disk:/dev/disk";
   "-v"; "/run/systemd/journal/socket:/run/systemd/journal/socket";
   "-v"; "/var/log:/host/var/log:ro"; "-v"; "/proc/meminfo:/host/proc/meminfo:ro";
   "-v"; "/sys/kernel/mm/hugepages:/host/sys/kernel/mm/hugepages:ro";
   "-v"; "/proc/cpuinfo:/host/proc/cpuinfo:ro"; "-v"; mtabMount;
   "-v"; "/sys/block:/host/sys/block:ro"; "-v"; "/sys/devices:/host/sys/devices:ro";
   "-v"; "/sys/bus:/host/sys/bus:ro"; "-v"; "/sys/class:/host/sys/class:ro";
   "-v"; "/run/udev:/host/run/udev:ro"; "-v"; "/dev/disk:/host/dev/disk:ro"] ++
  (if efivars then ["-v"; efivarsPath +:+ ":/host" +:+ efivarsPath] else []) ++
  [agentVersion; "inventory"].
Definition inventory_command (hostID : string) (efivars : bool) (agentVersion : string) : string :=
  let mtabPath := "/root/mtab-" +:+ hostID in
  "cp /etc/mtab " +:+ mtabPath +:+ " && " +:+
  Join (inventory_words (mtabPath +:+ ":/host/etc/mtab:ro") efivars agentVersion) " ".

(** ** Everything the actions reach outside this repository: the libraries, the
    kernel's network interfaces, DNS, and the JSON codecs of each component *)
Class External : Type := {
  (** the models whose fields the actions do not read, by their Go type name *)
  x_model : string → Type;
  x_decoder : ∀ t, Decoder (x_model t);
  x_install : Decoder install_params;
  x_logs : Decoder logs_params;
  x_next_step : Decoder next_step_params;
  x_ntp_source : Decoder (option string);
  float_error : string → option error;
  ValidateAdditionalNTPSource : string → bool;
  (** install *)
  x_image_map : string → result (gmap string string);
  x_unmarshal_args : string → list string * option error;
  x_marshal_args : list string → result string;
  x_http_proxy : string → option error;
  x_no_proxy : string → option error;
  x_installer_args : list string → option error;
  x_version : string → option error;
  x_birth_time : log → string → option Z;
  (** network checks *)
  x_combined_output : log → string → list string → string * option error;
  x_parse_float : string → GoFloat.float64 * option error;
  x_nmap : string → result Nmaprun;
  x_connectivity_params : string → result (list (option host_param));
  x_connectivity_report : list remote_host → result string;
  x_interfaces : log → result (list net_interface);
  x_link : log → string → result link;
  x_vips : string → result (list (option verify_vip));
  x_verified : list verified_vip → result string;
  x_lookup_host : log → string → result (list string);
  x_lookup_addr : log → string → result (list string);
  x_ntp_request : string → result (option string);
  x_ntp_response : list ntp_source → result string;
  x_lookup_ip : log → string → list bytes * option dns_error;
  x_lookup_cname : log → string → string * option dns_error;
  x_domains : string → result (list (option (option string)));
  x_resolutions : list resolution → result string;
  (** API virtual IP, Tang *)
  x_apivip_request : string → result apivip_request;
  x_apivip_response : apivip_response → result string;
  x_raw_json : string → result string;
  x_base64 : string → result string;
  x_pem : string → bool;
  x_ignition : string → result ign_config;
  x_marshal_ignition : ign_config → result string;
  x_clone : ign_config → ign_config;
  x_tang_request : string → result (option string);
  x_tang_servers : string → result (list TangServer);
  x_advertisement : string → result string;
  x_request_uri : string → option error;
  x_tang_response : bool → list tang_response → result string;
  (** DHCP *)
  x_mac : string → result string;
  x_lease_file : string → string → string;
  x_lease_interface : log → string → string → string → result string;
  x_last_lease : log → string → result (string * string);
  x_link_error : log → string → option error;
  x_link_del : log → string → option error;
  x_dhcp_request : string → result dhcp_request;
  x_dhcp_response : dhcp_response → result string;
  (** images *)
  x_image_float : string → result GoFloat.float64;
  x_image_request : string → result image_request;
  x_image_response : list image_availability → result string;
  x_upgrade_request : string → result string;
  x_upgrade_response : upgrade_response → result string;
  (** boot artifacts *)
  x_boot_request : string → result boot_request;
  x_statfs : log → string → result (Z * Z);
  x_s390x : bool;
  x_reboot_request : string → result (option string)
}.

Section Actions.
Context {env : Env} {http : Http} {ext : External}.
Variable cfg : AgentConfig.

Definition image : string := AgentVersion (ac_conn cfg).

(** An action whose model is only validated. *)
Definition validate_model (name type : string) (args : list string) : Go (result ()) :=
  r ← ValidateCommon name 1 args (Some (x_decoder type));
  mret (match r with Bad err => Bad err | Good _ => Good () end).

(** An action that runs in this process: its runner reports the name of the
    check and the arguments of the step. *)
Definition in_process (command : string) (args : list string) (run : Go (string * string * Z)) : Runner :=
  mkRunner run command (mret args).
(** An action that runs a command on the host. *)
Definition on_host (command : string) (Args : Go (list string)) : Runner :=
  mkRunner (args ← Args; ExecutePrivileged command args) command Args.

(** The first argument; validation has checked that it is there. *)
Definition with_arg (args : list string) (f : string → Go (string * string * Z)) : Go (string * string * Z) :=
  a ← or_panic (args !! 0%nat); f a.

(** *** inventory_cmd.go *)
Definition inventory_Validate (args : list string) : Go (result ()) :=
  r ← ValidateCommon (M := ()) "inventory" 1 args None;
  match r with
  | Bad err => mret (Bad err)
  | Good _ =>
      a ← or_panic (args !! 0%nat);
      mret (if IsUUID a then Good () else
            Bad (errorf ("inventory cmd accepts only 1 params in args and it should be UUID, given args " +:+ fmt_slice args)))
  end.
Definition inventory_Args (args : list string) : Go (list string) :=
  a ← or_panic (args !! 0%nat);
  st ← Stat efivarsPath;
  mret ["-c"; inventory_command a (is_good st) image].

(** *** ntp_sync_cmd.go *)
Definition ntp_Validate (args : list string) : Go (result ()) :=
  r ← ValidateCommon "ntp synchronizer" 1 args (Some x_ntp_source);
  match r with
  | Bad err => mret (Bad err)
  | Good m =>
      m ← or_panic m;
      let ntpSource := StringValue m in
      mret (if nonempty ntpSource && negb (ValidateAdditionalNTPSource ntpSource)
            then Bad (errorf ("Invalid NTP source: " +:+ ntpSource)) else Good ())
  end.

(** *** disk_perfomance_check_cmd.go *)
Definition disk_perf_Validate (args : list string) : Go (result ()) :=
  r ← ValidateCommon "disk performance" 2 args (Some (x_decoder "DiskSpeedCheckRequest"));
  match r with
  | Bad err => mret (Bad err)
  | Good _ =>
      timeout ← or_panic (args !! 1%nat);
      mret (match float_error timeout with Some err => Bad err | None => Good () end)
  end.
Definition disk_perf_Args (args : list string) : Go (list string) :=
  timeout ← or_panic (args !! 1%nat);
  request ← or_panic (args !! 0%nat);
  mret ["-c"; disk_perf_command image request timeout].

(** *** image_availability_cmd.go: one check at a time *)
Definition image_TryAcquire : Go bool :=
  shared_do (λ s, if sh_image_sem s then (false, s)
                  else (true, Shared (sh_cache s) (sh_cancelled s) (sh_go s) true (sh_pull_sem s))).
Definition image_Release : Go () :=
  shared_do (λ s, ((), Shared (sh_cache s) (sh_cancelled s) (sh_go s) false (sh_pull_sem s))).

Definition imageAvailability_Run (args : list string) : Go (string * string * Z) :=
  acquired ← image_TryAcquire;
  if negb acquired then mret ("", "", 0%Z) else
  answer ← with_arg args (ImageAvailability.Run x_image_float x_image_request x_image_response
                           (mkSubprocessConfig (ac_logging cfg) (ac_dry cfg)));
  _ ← image_Release;
  mret answer.

(** *** logs_gather.go *)
Definition logs_Validate (args : list string) : Go (result string) :=
  r ← ValidateCommon "logs gather" 1 args (Some x_logs);
  match r with
  | Bad err => mret (Bad err)
  | Good params => params ← or_panic params; Good <$> createUploadLogsCmd cfg params
  end.
Definition logs_runner (generatedCmd : string) : Runner := on_host "timeout" (mret (Fields generatedCmd)).

(** *** install_cmd.go *)
Definition install_Validate (args : list string) : Go (result install_params) :=
  r ← ValidateCommon "install" 1 args (Some x_install);
  match r with
  | Bad err => mret (Bad err)
  | Good params =>
      params ← or_panic params;
      err ← validate_params x_image_map x_unmarshal_args x_http_proxy x_no_proxy x_installer_args x_version params;
      mret (match err with Some err => Bad err | None => Good params end)
  end.
Definition install_runner (params : install_params) : Runner :=
  mkRunner (install_Run x_unmarshal_args x_marshal_args x_birth_time cfg params) "sh"
           (install_Args x_unmarshal_args x_marshal_args x_birth_time cfg params).

(** *** stop_installation.go *)
Definition stop_Validate (args : list string) : Go (result ()) :=
  r ← ValidateCommon (M := ()) "stop installation" 0 args None;
  mret (match r with Bad err => Bad err | Good _ => Good () end).
Definition stop_Args : list string := ["stop"; "-i"; "-t"; "5"; "assisted-installer"].

(** *** action.go: New *)
(** A runner for an action that passed validation. *)
Definition action {A} (validate : Go (result A)) (runner : A → Runner) : Go (result Runner) :=
  r ← validate;
  mret (match r with Bad err => Bad err | Good a => Good (runner a) end).

Definition simple_action (name type command : string) (args : list string)
    (run : Go (string * string * Z)) : Go (result Runner) :=
  action (validate_model name type args) (λ _, in_process command args run).

(** *** The actions, one per step type *)
Definition inventory (args : list string) : Go (result Runner) :=
  action (inventory_Validate args) (λ _, on_host "sh" (inventory_Args args)).
Definition connectivityCheck (args : list string) : Go (result Runner) :=
  simple_action "connectivity check" "ConnectivityCheckParams" "connectivity_check" args
    (ConnectivityCheck x_combined_output x_parse_float x_nmap x_connectivity_params x_connectivity_report
       x_interfaces x_link (ac_dry cfg) args).
Definition freeAddresses (args : list string) : Go (result Runner) :=
  action (validate_model "free addresses" "FreeAddressesRequest" args)
    (λ _, on_host "sh" (mret ["-c"; free_addresses_command image args])).
Definition ntpSynchronizer (args : list string) : Go (result Runner) :=
  action (ntp_Validate args) (λ _, in_process "ntp_synchronizer" args
    (with_arg args (Ntp.Run x_lookup_host x_lookup_addr x_ntp_request x_ntp_response))).
Definition diskPerfCheck (args : list string) : Go (result Runner) :=
  action (disk_perf_Validate args) (λ _, on_host "sh" (disk_perf_Args args)).
Definition apiVipConnectivityCheck (args : list string) : Go (result Runner) :=
  simple_action "api vip connectivity check" "APIVipConnectivityRequest" "api_vip_connectivity_check" args
    (with_arg args (CheckAPIConnectivity x_apivip_request x_apivip_response x_raw_json x_base64 x_pem
       x_ignition x_marshal_ignition x_clone)).
Definition tangConnectivityCheck (args : list string) : Go (result Runner) :=
  simple_action "tang connectivity check" "TangConnectivityRequest" "tang_connectivity_check" args
    (with_arg args (CheckTangConnectivity x_tang_request x_tang_servers x_advertisement x_request_uri x_tang_response)).
Definition dhcpLeases (args : list string) : Go (result Runner) :=
  simple_action "dhcp leases" "DhcpAllocationRequest" "dhcp_leases" args
    (with_arg args (LeaseAllocate x_mac x_lease_file x_lease_interface x_last_lease x_link_error x_link_del
       x_dhcp_request x_dhcp_response)).
Definition domainResolution (args : list string) : Go (result Runner) :=
  simple_action "domain resolution" "DomainResolutionRequest" "domain_resolution" args
    (with_arg args (DomainResolution.Run x_lookup_ip x_lookup_cname x_domains x_resolutions)).
Definition imageAvailability (args : list string) : Go (result Runner) :=
  simple_action "image availability" "ContainerImageAvailabilityRequest" "container_image_availability" args
    (imageAvailability_Run args).
Definition stopInstallation (args : list string) : Go (result Runner) :=
  action (stop_Validate args) (λ _, on_host "podman" (mret stop_Args)).
Definition logsGather (args : list string) : Go (result Runner) := action (logs_Validate args) logs_runner.
Definition install (args : list string) : Go (result Runner) := action (install_Validate args) install_runner.
Definition upgradeAgent (args : list string) : Go (result Runner) :=
  simple_action "upgrade agent" "UpgradeAgentRequest" "upgrade_agent" args
    (with_arg args (UpgradeAgent.Run x_upgrade_request x_upgrade_response)).
Definition downloadBootArtifacts (args : list string) : Go (result Runner) :=
  simple_action "download boot artifacts" "DownloadBootArtifactsRequest" "download_boot_artifacts" args
    (download_Run x_boot_request x_pem x_statfs x_s390x args (CACertificatePath (ac_conn cfg))).
Definition rebootForReclaim (args : list string) : Go (result Runner) :=
  action (validate_model "reboot for reclaim" "RebootForReclaimRequest" args)
    (λ _, mkRunner (reboot_Run x_s390x x_reboot_request args) "systemctl" (mret ["reboot"])).
Definition vipsVerifier (args : list string) : Go (result Runner) :=
  simple_action "vip verifier" "VerifyVipsRequest" "vips_verifier" args
    (VerifyVips x_nmap x_vips x_verified (ac_dry cfg) args).

(** The step types and their actions; making one has no effect, so building
    only the one that is looked up is the same. *)
Definition stepActionMap (args : list string) : list (string * Go (result Runner)) :=
  [("inventory", inventory args); ("connectivity-check", connectivityCheck args);
   ("free-network-addresses", freeAddresses args); ("ntp-synchronizer", ntpSynchronizer args);
   ("installation-disk-speed-check", diskPerfCheck args);
   ("api-vip-connectivity-check", apiVipConnectivityCheck args);
   ("tang-connectivity-check", tangConnectivityCheck args); ("dhcp-lease-allocate", dhcpLeases args);
   ("domain-resolution", domainResolution args); ("container-image-availability", imageAvailability args);
   ("stop-installation", stopInstallation args); ("logs-gather", logsGather args); ("install", install args);
   ("upgrade-agent", upgradeAgent args); ("download-boot-artifacts", downloadBootArtifacts args);
   ("reboot-for-reclaim", rebootForReclaim args); ("verify-vips", vipsVerifier args)].

Definition New (stepType : string) (args : list string) : Go (result Runner) :=
  match List.find (λ p, String.eqb p.1 stepType) (stepActionMap args) with
  | Some (_, act) => act
  | None => mret (Bad (errorf ("failed to find action for step type " +:+ stepType)))
  end.

(** *** next_step_runner.go: the action the agent runs *)
Definition containerName : string := "next-step-runner".
Definition nextStep_Validate (args : list string) : Go (result next_step_params) :=
  r ← ValidateCommon "next step runner" 1 args (Some x_next_step);
  match r with
  | Bad err => mret (Bad err)
  | Good params => Good <$> or_panic params
  end.
Definition cleanupPrevious : Go () :=
  _ ← ExecutePrivileged "podman" ["rm"; "-i"; containerName]; mret ().
Definition nextStep_words (agentVersion infraEnvID hostID : string) : list string :=
  let cacert := CACertificatePath (ac_conn cfg) in
  ["run"; "--rm"; "-ti"; "--privileged"; "--pid=host"; "--uts=host"; "--net=host"; "--pids-limit=0";
   "-v"; "/dev:/dev:rw"; "-v"; "/opt:/opt:rw";
   "-v"; "/run/systemd/journal/socket:/run/systemd/journal/socket";
   "-v"; "/var/log:/var/log:rw"; "-v"; "/run/media:/run/media:rw"; "-v"; "/etc/pki:/etc/pki"] ++
  (if nonempty cacert then ["-v"; cacert +:+ ":" +:+ cacert] else []) ++
  ["--env"; "PULL_SECRET_TOKEN"; "--env"; "CONTAINERS_CONF"; "--env"; "CONTAINERS_STORAGE_CONF";
   "--env"; "HTTP_PROXY"; "--env"; "HTTPS_PROXY"; "--env"; "NO_PROXY";
   "--env"; "http_proxy"; "--env"; "https_proxy"; "--env"; "no_proxy";
   "--name"; containerName; agentVersion; "next_step_runner";
   "--url"; TargetURL (ac_conn cfg); "--infra-env-id"; infraEnvID; "--host-id"; hostID;
   "--agent-version"; agentVersion; "--insecure=" +:+ FormatBool (InsecureConnection (ac_conn cfg))] ++
  (if nonempty cacert then ["--cacert"; cacert] else []).
Definition nextStep_Args (params : next_step_params) : Go (list string) :=
  _ ← cleanupPrevious;
  infraEnvID ← or_panic (np_InfraEnvID params);
  hostID ← or_panic (np_HostID params);
  mret (nextStep_words (StringValue (np_AgentVersion params)) infraEnvID hostID).
Definition NewNextStepRunner (args : list string) : Go (result Runner) :=
  action (nextStep_Validate args) (λ params, on_host "podman" (nextStep_Args params)).
End Actions.

(** toolRunnerFactory *)
Definition toolRunnerFactory {env : Env} {http : Http} {ext : External} : ToolRunnerFactory := {|
  Create := λ cfg stepType args, New cfg stepType args
|}.
