(* ===== verification/ActionFacts.v ===== *)
(** * Properties of the actions

    The factory of Actions keeps the promise the next-step runner relies on (the
    class FactoryLaws of StepProcessor); validation, the semaphore of the image
    checks, and what the command lines of the actions mean. *)
From S2P Require Import Prelude GoStrings Host Config StepProcessor Net FreeAddresses Paths Regex Shell Http Interfaces.
From S2P Require Import Connectivity Ntp ApiVip Tang Dhcp DomainResolution ImageAvailability UpgradeAgent VipsVerifier BootArtifacts Install Actions.

(** ** No action calls the service or touches the session's memory *)
Abbreviation quiet m := (emits (λ q, service_call q = false) runner_guar m).

Lemma runner_guar_refl s : runner_guar s s.
Proof. done. Qed.
#[export] Hint Resolve runner_guar_refl : quiet.

Section Laws.
Context {env : Env} {http : Http}.

(** *** What recurs *)
Lemma quiet_arping_networks c a addrs : quiet (arping_networks c a addrs).
Proof. induction addrs as [|x addrs IH]; cbn [arping_networks]; quiet. Qed.
Lemma quiet_mtu_addresses c a b addrs : quiet (mtu_addresses c a b addrs).
Proof. induction addrs as [|x addrs IH]; cbn [mtu_addresses]; quiet. Qed.
Lemma quiet_resolve_all a b domains acc : quiet (resolve_all a b domains acc).
Proof. revert acc. induction domains as [|x domains IH]; intros acc; cbn [resolve_all]; quiet. Qed.
Lemma quiet_verify_all verifier vips acc : (∀ v, quiet (verifier v)) → quiet (verify_all verifier vips acc).
Proof. intros H. revert acc. induction vips as [|x vips IH]; intros acc; cbn [verify_all]; quiet. Qed.
Lemma quiet_create_folders_loop dir n last : quiet (create_folders_loop dir n last).
Proof. revert last. induction n as [|n IH]; intros last; cbn [create_folders_loop]; quiet. Qed.
Lemma quiet_download_loop roots url n attempt retry last err :
  quiet (download_loop roots url n attempt retry last err).
Proof. revert attempt last err. induction n as [|n IH]; intros attempt last err; cbn [download_loop]; quiet. Qed.
Lemma quiet_copy_all files : quiet (copy_all files).
Proof. induction files as [|[x y] files IH]; cbn [copy_all]; quiet. Qed.
Lemma quiet_pull_attempts n t image err : quiet (pull_attempts n t image err).
Proof. revert err. induction n as [|n IH]; intros err; cbn [pull_attempts]; quiet. Qed.
Lemma quiet_find_manual start entries : quiet (find_manual start entries).
Proof. induction entries as [|x entries IH]; cbn [find_manual]; quiet. Qed.
Lemma quiet_validate_disk_list disks : quiet (validate_disk_list disks).
Proof. induction disks as [|x disks IH]; cbn [validate_disk_list]; quiet. Qed.
End Laws.
#[export] Hint Resolve quiet_arping_networks quiet_mtu_addresses quiet_resolve_all quiet_verify_all
  quiet_create_folders_loop quiet_download_loop quiet_copy_all quiet_pull_attempts quiet_find_manual
  quiet_validate_disk_list : quiet.

(** *** The components *)
Section Components.
Context {env : Env} {http : Http} {ext : External}.

Lemma host_tasks_checker cs h nics t : t ∈ host_tasks cs h nics → t.1 ∈ cs.
Proof.
  rewrite list_elem_of_In. unfold host_tasks. intros (nic & _ & H)%in_flat_map.
  apply in_flat_map in H as (cidr & _ & H). destruct (String.eqb _ ""); [done|].
  apply in_app_or in H as [H|H].
  - apply in_flat_map in H as (n & _ & H). apply in_map_iff in H as (c & <- & H).
    apply filter_In in H as [H _]. by apply list_elem_of_In.
  - apply in_map_iff in H as (c & <- & H). apply filter_In in H as [H _]. by apply list_elem_of_In.
Qed.

Lemma quiet_checkers a b c dry ck at_ : ck ∈ checkers a b c dry → quiet (Check ck at_).
Proof.
  unfold checkers. destruct (DryRunEnabled dry); intros H; repeat (apply elem_of_cons in H as [->|H]);
    try (by apply not_elem_of_nil in H); cbn [Check pingChecker arpingChecker nmapChecker mtuChecker dryL2Checker dryL3Checker]; quiet.
Qed.

Lemma quiet_ProcessHost a b c dry h nics : quiet (ProcessHost (checkers a b c dry) h nics).
Proof.
  unfold ProcessHost. apply emits_bind; [|intros; quiet]. apply emits_gather_in; [|done].
  intros t Ht. eapply quiet_checkers, host_tasks_checker, Ht.
Qed.

Lemma quiet_ConnectivityCheck a b c d e f g dry args : quiet (ConnectivityCheck a b c d e f g dry args).
Proof. pose proof quiet_ProcessHost. quiet. Qed.
Lemma quiet_Tang a b c d e args : quiet (CheckTangConnectivity a b c d e args).
Proof. quiet. Qed.
Lemma quiet_Domain a b c d args : quiet (DomainResolution.Run a b c d args).
Proof. quiet. Qed.
Lemma quiet_Image a b c d args : quiet (ImageAvailability.Run a b c d args).
Proof. quiet. Qed.
Lemma quiet_Vips a b c d args : quiet (VerifyVips a b c d args).
Proof.
  assert (∀ v, quiet (verifyVip a v)) by (intros; quiet). assert (∀ v, quiet (dry_verifyVip v)) by (intros; quiet).
  assert (∀ v, quiet ((if DryRunEnabled d then dry_verifyVip else verifyVip a) v)) by (intros v; by destruct (DryRunEnabled d)).
  quiet.
Qed.
Lemma quiet_Boot a b c d args ca : quiet (download_Run a b c d args ca).
Proof. quiet. Qed.
Lemma quiet_Install a b c d e : quiet (install_Run a b c d e).
Proof. quiet. Qed.
End Components.

(** *** The factory keeps its promise to the next-step runner *)
Section Factory.
Context {env : Env} {http : Http} {ext : External}.

Lemma quiet_runner_ok r : quiet (rn_Run r) → quiet (rn_Args r) → runner_ok r.
Proof. done. Qed.

Definition good_runner (r : result Runner) : Prop :=
  match r with Good runner => runner_ok runner | Bad _ => True end.

Lemma action_ok {A} (validate : Go (result A)) (runner : A → Runner) :
  quiet validate → (∀ a, runner_ok (runner a)) →
  pspec (λ q, service_call q = false) runner_guar good_runner (action validate runner).
Proof.
  intros Hv Hr. unfold action. eapply pspec_bind; [exact Hv|]. intros [a|err] _; apply pspec_ret; [apply Hr|done].
Qed.

Lemma in_process_ok command args run : quiet run → runner_ok (in_process command args run).
Proof. intros H. by split. Qed.
Lemma on_host_ok command Args : quiet Args → runner_ok (on_host command Args).
Proof. intros H. split; [|done]. cbn [on_host rn_Run]. quiet. Qed.
Lemma quiet_ValidateCommon {M} name n args (d : option (Decoder M)) : quiet (ValidateCommon name n args d).
Proof. quiet. Qed.
Lemma simple_action_ok name type command args run :
  quiet run → pspec (λ q, service_call q = false) runner_guar good_runner (simple_action name type command args run).
Proof. intros H. apply action_ok; [quiet|]. intros. by apply in_process_ok. Qed.

Lemma quiet_with_arg args f : (∀ a, quiet (f a)) → quiet (with_arg args f).
Proof. intros H. unfold with_arg. quiet. Qed.

Lemma quiet_Ntp a b c d arg : quiet (Ntp.Run a b c d arg).
Proof. quiet. Qed.
Lemma quiet_ApiVip a b c d e f g h arg : quiet (CheckAPIConnectivity a b c d e f g h arg).
Proof. quiet. Qed.
Lemma quiet_Dhcp a b c d e f g h arg : quiet (LeaseAllocate a b c d e f g h arg).
Proof. quiet. Qed.
Lemma quiet_Upgrade a b arg : quiet (UpgradeAgent.Run a b arg).
Proof. quiet. Qed.
Lemma quiet_Reboot a b args : quiet (reboot_Run a b args).
Proof. quiet. Qed.
Lemma quiet_install_Args a b c d e : quiet (install_Args a b c d e).
Proof. quiet. Qed.
#[local] Hint Resolve quiet_Ntp quiet_ApiVip quiet_Dhcp quiet_Upgrade quiet_Reboot quiet_install_Args
  quiet_ConnectivityCheck quiet_Tang quiet_Domain quiet_Image quiet_Vips quiet_Boot quiet_Install : quiet.

Lemma quiet_image_Run cfg args : quiet (imageAvailability_Run cfg args).
Proof.
  unfold imageAvailability_Run. pose proof quiet_Image as H.
  apply emits_bind; [quiet|]. intros [|]; [|quiet]. apply emits_bind; [apply quiet_with_arg; auto|intros; quiet].
Qed.

Lemma stepActionMap_ok cfg args :
  Forall (λ p, pspec (λ q, service_call q = false) runner_guar good_runner p.2) (stepActionMap cfg args).
Proof.
  unfold stepActionMap, inventory, connectivityCheck, freeAddresses, ntpSynchronizer, diskPerfCheck,
    apiVipConnectivityCheck, tangConnectivityCheck, dhcpLeases, domainResolution, imageAvailability, stopInstallation,
    logsGather, install, upgradeAgent, downloadBootArtifacts, rebootForReclaim, vipsVerifier.
  repeat apply Forall_cons_2; [cbn [snd].. |by apply Forall_nil];
  first [ apply simple_action_ok; solve [auto with quiet | apply quiet_with_arg; auto with quiet | apply quiet_image_Run]
        | apply action_ok; [quiet|]; intros;
          first [ solve [apply on_host_ok; quiet] | solve [apply in_process_ok, quiet_with_arg; auto with quiet]
                | split; cbn [rn_Run rn_Args install_runner logs_runner]; [auto with quiet; quiet|auto with quiet; quiet] ] ].
Qed.

Lemma New_ok cfg stepType args :
  pspec (λ q, service_call q = false) runner_guar good_runner (New cfg stepType args).
Proof.
  unfold New. destruct (List.find _ _) as [[ty act]|] eqn:E; [|done].
  apply find_some in E as [E _]. revert E. generalize (stepActionMap_ok cfg args).
  rewrite Forall_forall. intros H E%list_elem_of_In. apply (H _ E).
Qed.

(** C14. Building and running any step, of whatever type and with whatever
    arguments, never posts a reply or asks for the next steps, and leaves the reply cache, the cancel flag
    and the queue of the session alone; it only takes and frees the semaphores. *)
Theorem New_keeps_session cfg stepType args :
  pspec (λ q, service_call q = false) runner_guar good_runner (New cfg stepType args).
Proof. apply New_ok. Qed.

#[export] Instance toolRunnerFactory_laws : @FactoryLaws toolRunnerFactory.
Proof. split. intros cfg stepType args. apply New_ok. Qed.
End Factory.

(** ** Validation *)
Section Validation.
Context {env : Env} {http : Http} {ext : External}.

(** How many arguments a step takes; [None] for a type without an action. *)
Definition expected_args (stepType : string) : option nat :=
  if existsb (String.eqb stepType)
       ["inventory"; "connectivity-check"; "free-network-addresses"; "ntp-synchronizer"; "api-vip-connectivity-check";
        "tang-connectivity-check"; "dhcp-lease-allocate"; "domain-resolution"; "container-image-availability";
        "logs-gather"; "install"; "upgrade-agent"; "download-boot-artifacts"; "reboot-for-reclaim"; "verify-vips"]
  then Some 1
  else if String.eqb stepType "installation-disk-speed-check" then Some 2
  else if String.eqb stepType "stop-installation" then Some 0 else None.

(** A step whose type is unknown, or that does not have exactly the number of
    arguments its type takes, is refused with an error before anything is done. *)
Theorem New_rejects cfg stepType args l s :
  expected_args stepType ≠ Some (length args) →
  ∃ err, run (New cfg stepType args) l s = (Done (Bad err), l, s).
Proof.
  intros Hn. unfold New.
  destruct (List.find _ _) as [[ty act]|] eqn:E; [|by eexists].
  apply find_some in E as [Hin Heq]. cbn [fst] in Heq. apply String.eqb_eq in Heq as ->.
  assert (Hc : ∀ M name n (d : option (Decoder M)), n ≠ length args →
            ∃ err, ValidateCommon name n args d = mret (Bad err)).
  { intros M name n d Hne. unfold ValidateCommon. destruct (Nat.eqb_spec (length args) n); [congruence|]. eauto. }
  unfold stepActionMap, inventory, connectivityCheck, freeAddresses, ntpSynchronizer, diskPerfCheck,
    apiVipConnectivityCheck, tangConnectivityCheck, dhcpLeases, domainResolution, imageAvailability, stopInstallation,
    logsGather, install, upgradeAgent, downloadBootArtifacts, rebootForReclaim, vipsVerifier in Hin.
  cbn [In] in Hin.
  repeat (destruct Hin as [Hin|Hin];
    [injection Hin as <- <-;
     unfold simple_action, action, validate_model, inventory_Validate, ntp_Validate, disk_perf_Validate,
       logs_Validate, install_Validate, stop_Validate;
     match goal with |- context [@ValidateCommon ?M ?name ?n _ ?d] =>
       destruct (Hc M name n d ltac:(intros Hlen; apply Hn; rewrite <-Hlen; reflexivity)) as [err ->] end; by eexists|]).
  by destruct Hin.
Qed.

(** A first argument that is the JSON value null makes the validation panic
    instead of refusing it: decoding null sets the interface to nil. *)
Theorem null_argument_panics {M} name (d : Decoder M) arg l s :
  json_decode d arg = Good None →
  run (ValidateCommon name 1 [arg] (Some d)) l s = (Panicked, l, s).
Proof. intros E. unfold ValidateCommon. cbn. by rewrite E. Qed.
End Validation.

(** ** One image availability check at a time *)
Section ImageSemaphore.
Context {env : Env} {http : Http} {ext : External}.

Lemma image_check_keeps_memory cfg args :
  emits (λ _, True) (λ s s', sh_image_sem s' = sh_image_sem s)
    (with_arg args (ImageAvailability.Run x_image_float x_image_request x_image_response cfg)).
Proof. unfold with_arg. quiet. Qed.

Lemma imageAvailability_sem_ok cfg args : sem_ok sh_image_sem is_exec false (imageAvailability_Run cfg args).
Proof.
  unfold imageAvailability_Run, image_TryAcquire. intros s _.
  destruct (sh_image_sem s) eqn:E; cbn [fst snd negb].
  - by rewrite E.
  - apply sem_ok_held; [apply image_check_keeps_memory|]. intros answer s' Hs'. done.
Qed.

(** C28. In every interleaving of image availability steps, at most one goroutine
    at a time is running podman. *)
Theorem one_image_check_at_a_time cfg (steps : list (list string)) l s p :
  sh_image_sem s = false →
  rtc pstep (Pool l s (map (imageAvailability_Run cfg) steps)) p →
  length (List.filter (about_to is_exec) (p_procs p)) ≤ 1.
Proof.
  intros Hs Hrun. eapply exclusive_requests. eapply (exclusive_rtc sh_image_sem is_exec); [exact Hrun|].
  apply exclusive_start; [done|]. apply Forall_map, Forall_forall. intros args _. apply imageAvailability_sem_ok.
Qed.
End ImageSemaphore.

(** ** Command lines *)
(** The free addresses container gets the step's arguments as they are. *)
Theorem free_addresses_words_read agentVersion args :
  read_words Plain None (QuoteCommand (free_addresses_words agentVersion args)) =
  Some (free_addresses_words agentVersion args).
Proof. by apply QuoteCommand_reads. Qed.

Lemma length_append (s t : string) : String.length (s +:+ t) = String.length s + String.length t.
Proof. induction s as [|c s IH]; [done|]. change (S (String.length (s +:+ t)) = S (String.length s + String.length t)). by rewrite IH. Qed.

(** The characters of the words, the current one included, were all read; the
    last quote adds none. *)
Definition word_length (w : option string) : nat := String.length (default "" w).
Lemma read_words_length mode w s ws :
  read_words mode w (s +:+ "'") = Some ws → sum_list_with String.length ws ≤ word_length w + String.length s.
Proof.
  revert mode w ws. induction s as [|c s IH]; intros mode w ws.
  { destruct mode; cbn [read_words append]; try discriminate.
    intros E. injection E as <-. destruct w; cbn; lia. }
  change (String c s +:+ "'") with (String c (s +:+ "'")).
  assert (Hadd : word_length (add_char w c) = S (word_length w)).
  { unfold add_char, word_length. cbn [from_option id]. rewrite length_append. cbn. lia. }
  assert (Hend : ∀ ws', sum_list_with String.length (end_word w ws') = word_length w + sum_list_with String.length ws').
  { intros ws'. by destruct w. }
  cbn [read_words String.length]. destruct mode; repeat case_match; try discriminate;
    try (intros E%IH; unfold word_length in *; cbn [from_option id] in *; lia).
  destruct (read_words Plain None (s +:+ "'")) as [ws'|] eqn:E'; [|discriminate]. intros E. injection E as <-.
  apply IH in E'. rewrite Hend. change (word_length None) with 0 in *. lia.
Qed.

Lemma read_single_tail request a :
  all_chars (λ c, negb (Ascii.eqb c "'")) request = true →
  read_words Single (Some a) (request +:+ "'") = Some [a +:+ request].
Proof.
  revert a. induction request as [|c r IH]; intros a; cbn [all_chars]; [by rewrite append_nil_r|].
  intros [Hc Hr]%andb_true_iff. change (String c r +:+ "'") with (String c (r +:+ "'")). cbn [read_words].
  apply negb_true_iff in Hc. rewrite Hc. unfold add_char. cbn [from_option id]. by rewrite IH, append_char.
Qed.

Lemma read_single_quote request a ws :
  all_chars (λ c, negb (Ascii.eqb c "'")) request = false →
  read_words Single (Some a) (request +:+ "'") = Some ws →
  sum_list_with String.length ws < String.length a + String.length request.
Proof.
  revert a. induction request as [|c r IH]; intros a; cbn [all_chars]; [done|].
  change (String c r +:+ "'") with (String c (r +:+ "'")). cbn [read_words String.length].
  destruct (Ascii.eqb c "'") eqn:Ec; cbn [negb andb].
  - intros _ E%read_words_length. unfold word_length in E. cbn [from_option id] in E. lia.
  - intros Hr E. apply IH in E; [|done]. cbn [from_option id] in E. rewrite length_append in E. cbn in E. lia.
Qed.

(** The request of a disk speed check is put between single quotes as it is:
    the container gets it as its one argument exactly when it holds no single
    quote. *)
Theorem disk_speed_request_word request :
  sh_words (disk_speed_tail request) = Some ["disk_speed_check"; request] ↔
  all_chars (λ c, negb (Ascii.eqb c "'")) request = true.
Proof.
  unfold sh_words, disk_speed_tail.
  change ("disk_speed_check '" +:+ request +:+ "'") with ("disk_speed_check" +:+ String " " (String "'" (request +:+ "'"))).
  rewrite read_words_plain by auto. cbn [read_words Ascii.eqb Bool.eqb from_option id end_word].
  change (default "" None +:+ "disk_speed_check") with "disk_speed_check". split.
  - intros E. destruct (all_chars _ request) eqn:Er; [done|]. exfalso.
    destruct (read_words Single (Some "") (request +:+ "'")) as [ws|] eqn:Ew; [|done].
    apply read_single_quote in Ew; [|done]. injection E as ->. cbn in Ew. lia.
  - intros Er. by rewrite read_single_tail.
Qed.



(** ** Witnesses: libraries that refuse or find nothing *)
Section Witness.
Definition refuse {A} : result A := Bad (errorf "refused").
Definition null_ext : External := {|
  x_model := λ _, unit; x_decoder := λ _, mkDecoder (λ s, if String.eqb s "null" then Good None else Good (Some tt)) (λ _, None);
  x_install := mkDecoder (λ _, refuse) (λ _, None); x_logs := mkDecoder (λ _, refuse) (λ _, None);
  x_next_step := mkDecoder (λ _, refuse) (λ _, None); x_ntp_source := mkDecoder (λ _, refuse) (λ _, None);
  float_error := λ _, None; ValidateAdditionalNTPSource := λ _, false;
  x_image_map := λ _, refuse; x_unmarshal_args := λ _, ([], None); x_marshal_args := λ _, refuse;
  x_http_proxy := λ _, None; x_no_proxy := λ _, None; x_installer_args := λ _, None; x_version := λ _, None;
  x_birth_time := λ _ _, None;
  x_combined_output := λ _ _ _, ("", None); x_parse_float := λ _, (GoFloat.f_zero, None); x_nmap := λ _, refuse;
  x_connectivity_params := λ _, refuse; x_connectivity_report := λ _, refuse; x_interfaces := λ _, refuse;
  x_link := λ _ _, refuse; x_vips := λ _, refuse; x_verified := λ _, refuse;
  x_lookup_host := λ _ _, refuse; x_lookup_addr := λ _ _, refuse; x_ntp_request := λ _, refuse; x_ntp_response := λ _, refuse;
  x_lookup_ip := λ _ _, ([], None); x_lookup_cname := λ _ _, ("", None); x_domains := λ _, refuse; x_resolutions := λ _, refuse;
  x_apivip_request := λ _, refuse; x_apivip_response := λ _, refuse; x_raw_json := λ _, refuse; x_base64 := λ _, refuse;
  x_pem := λ _, false; x_ignition := λ _, refuse; x_marshal_ignition := λ _, refuse; x_clone := λ c, c;
  x_tang_request := λ _, refuse; x_tang_servers := λ _, refuse; x_advertisement := λ _, refuse;
  x_request_uri := λ _, None; x_tang_response := λ _ _, refuse;
  x_mac := λ _, refuse; x_lease_file := λ d _, d; x_lease_interface := λ _ _ _ _, refuse; x_last_lease := λ _ _, refuse;
  x_link_error := λ _ _, None; x_link_del := λ _ _, None; x_dhcp_request := λ _, refuse; x_dhcp_response := λ _, refuse;
  x_image_float := λ _, refuse; x_image_request := λ _, Good (mkImageRequest ["img"] 60); x_image_response := λ _, refuse;
  x_upgrade_request := λ _, refuse; x_upgrade_response := λ _, refuse;
  x_boot_request := λ _, refuse; x_statfs := λ _ _, refuse; x_s390x := false; x_reboot_request := λ _, refuse
|}.
Definition null_http : Http := {| e_http := λ _ _ _ _ _, refuse; e_stopped := λ _ _ _, None; e_new_request := λ _ _, None |}.
Definition null_config : AgentConfig :=
  mkAgentConfig (mkDryRunConfig false "" "" "" "" "") (mkConnectivityConfig "" "" "" "" "" false "") 60 ""
    (mkLoggingConfig false false false).

Lemma New_rejects_witness :
  ∃ err, run (@New null_env null_http null_ext null_config "inventory" []) [] shared_init =
    (Done (Bad err), [], shared_init).
Proof.
  apply (@New_rejects null_env null_http null_ext null_config "inventory" [] [] shared_init). discriminate.
Defined.

Lemma null_argument_panics_witness :
  run (@ValidateCommon unit "upgrade agent" 1 ["null"] (Some (@x_decoder null_ext "UpgradeAgentRequest"))) [] shared_init =
  (Panicked, [], shared_init).
Proof.
  apply (@null_argument_panics unit "upgrade agent" (@x_decoder null_ext "UpgradeAgentRequest") "null" [] shared_init).
  reflexivity.
Defined.

(** Two checks, the first of which is about to run podman. *)
Lemma one_image_check_at_a_time_witness :
  ∃ p, rtc pstep (Pool [] shared_init (map (@imageAvailability_Run null_env null_ext null_config) [["a"]; ["b"]])) p ∧
       length (List.filter (about_to is_exec) (p_procs p)) ≤ 1.
Proof.
  pose (start := Pool [] shared_init (map (@imageAvailability_Run null_env null_ext null_config) [["a"]; ["b"]])).
  destruct (pool_act 0 start) as [p|] eqn:E; [|discriminate].
  exists p. assert (H : rtc pstep start p) by (eapply rtc_once, (pool_act_sound 0), E).
  split; [exact H|].
  apply (@one_image_check_at_a_time null_env null_ext null_config [["a"]; ["b"]] [] shared_init p);
    [reflexivity|exact H].
Defined.
End Witness.
