(* ===== verification/StepsReturn.v ===== *)
(** * Which steps return (src/commands/actions)

    The actions of Actions.v return, for arguments that decode to what the service
    promises and on a host whose tools print what they document. With Completion.v:
    a runner that is asked for such steps answers every instruction while it lives. *)
From S2P Require Import Prelude GoStrings Host Config Session StepProcessor Instructions Completion Net FreeAddresses Paths Regex Shell Http Interfaces.
From S2P Require Import Connectivity Ntp ApiVip Tang Dhcp DomainResolution ImageAvailability UpgradeAgent VipsVerifier BootArtifacts Install Actions ActionFacts.

(** ** What recurs *)
Section Recursion.
Context {env : Env} {http : Http}.

(** A pointer that is there. *)
Lemma always_found {A B} o (a : A) (f : A → Go B) : o = Some a → always (f a) → always (or_panic o ≫= f).
Proof. by intros ->. Qed.

Lemma always_mtu_addresses c a b addrs : always (mtu_addresses c a b addrs).
Proof. induction addrs as [|x addrs IH]; cbn [mtu_addresses]; total. Qed.
Lemma always_create_folders_loop dir n last : always (create_folders_loop dir n last).
Proof. revert last. induction n as [|n IH]; intros last; cbn [create_folders_loop]; total. Qed.
Lemma always_copy_all files : always (copy_all files).
Proof. induction files as [|[x y] files IH]; cbn [copy_all]; total. Qed.
Lemma always_pull_attempts n t image err : always (pull_attempts n t image err).
Proof. revert err. induction n as [|n IH]; intros err; cbn [pull_attempts]; total. Qed.
Lemma always_find_manual start entries : always (find_manual start entries).
Proof. induction entries as [|x entries IH]; cbn [find_manual]; total. Qed.
Lemma always_validate_disk_list disks : always (validate_disk_list disks).
Proof. induction disks as [|x disks IH]; cbn [validate_disk_list]; total. Qed.
Lemma always_resolve_all a b domains acc : Forall is_Some domains → always (resolve_all a b domains acc).
Proof.
  intros H. revert acc. induction H as [|d domains [d' ->] _ IH]; intros acc; cbn [resolve_all]; [total|].
  destruct d' as [d'|]; total.
Qed.
Lemma always_verify_all verifier vips acc :
  (∀ v, always (verifier v)) → Forall is_Some vips → always (verify_all verifier vips acc).
Proof. intros Hv H. revert acc. induction H as [|v vips [v' ->] _ IH]; intros acc; cbn [verify_all]; total. Qed.
End Recursion.
#[export] Hint Resolve always_mtu_addresses always_create_folders_loop always_copy_all always_pull_attempts
  always_find_manual always_validate_disk_list always_resolve_all : total.

(** ** The components *)
Section Components.
Context {env : Env} {http : Http} {ext : External}.

Lemma always_Domain a b (c : string → result (list (option (option string)))) d arg :
  (∀ ds, c arg = Good ds → Forall is_Some ds) → always (DomainResolution.Run a b c d arg).
Proof. intros H. unfold DomainResolution.Run. destruct (c arg) as [ds|err]; [|total]. pose proof (H _ eq_refl). total. Qed.

Lemma always_Vips a (b : string → result (list (option verify_vip))) c dry args :
  (∀ arg vs, args !! 0 = Some arg → b arg = Good vs → Forall is_Some vs) → always (VerifyVips a b c dry args).
Proof.
  intros H. unfold VerifyVips. destruct args as [|arg [|]]; [total| |total]. unfold verifyVips.
  destruct (b arg) as [vs|err] eqn:E; [|total]. specialize (H _ _ eq_refl E).
  apply returns_bind; [apply always_verify_all; [intros v; destruct (DryRunEnabled dry); total|done]|]. intros ?. total.
Qed.

Lemma always_Image a b c cfg arg : always (ImageAvailability.Run a b c cfg arg).
Proof.
  unfold ImageAvailability.Run. destruct (b arg) as [r|err]; [|total].
  apply returns_bind; [total|]. intros now.
  apply returns_bind; [by eapply spec_always, (spec_handle_images _ _ _ (ir_Images r) _ [] ([], 0%Z))|]. intros ?. total.
Qed.
Lemma always_Upgrade a b arg : always (UpgradeAgent.Run a b arg).
Proof. total. Qed.

(** The request names the interface and both MAC addresses. *)
Definition dhcp_complete (r : dhcp_request) : Prop :=
  is_Some (Interface r) ∧ is_Some (APIVipMac r) ∧ is_Some (IngressVipMac r).
Lemma always_Dhcp a b c d e f (g : string → result dhcp_request) h arg :
  (∀ r, g arg = Good r → dhcp_complete r) → always (LeaseAllocate a b c d e f g h arg).
Proof.
  intros H. unfold LeaseAllocate. destruct (g arg) as [r|err]; [|total]. destruct (H _ eq_refl) as (H1 & H2 & H3). total.
Qed.

Lemma always_Ntp a b c d arg : chrony_prints → exit_zero_only_nil → always (Ntp.Run a b c d arg).
Proof.
  intros H1 H2. unfold Ntp.Run. assert (Hs := spec_always _ _ _ _ (returns_getNTPSources H1 H2)).
  assert (Hc := λ s, spec_always _ _ _ _ (returns_isServerConfigured a H1 H2 s)).
  total.
Qed.

Lemma always_ApiVip (a : string → result apivip_request) b c d e f g h arg :
  (∀ r, a arg = Good r → Forall is_Some (RequestHeaders r)) → always (CheckAPIConnectivity a b c d e f g h arg).
Proof.
  intros H. unfold CheckAPIConnectivity. destruct (a arg) as [r|err]; [|total].
  destruct (request_headers_some r (H _ eq_refl)) as [headers Eh].
  destruct (av_URL r); [|total]. unfold downloadIgnition. rewrite Eh. total.
Qed.

Lemma always_Tang a b c d e arg : uris_make_requests d → always (CheckTangConnectivity a b c d e arg).
Proof.
  intros H. unfold CheckTangConnectivity. destruct (a arg) as [[servers|]|err]; [|total..].
  destruct (b servers) as [tangServers|err]; [|total].
  apply returns_bind; [|intros ?; total].
  eapply spec_always, (spec_check_servers _ _ H tangServers _ []); [done|by intros _].
Qed.

Lemma always_checkers cs params nics :
  Forall (λ c, ∀ a, always (Check c a)) cs → always (Connectivity.Run cs params nics).
Proof.
  intros Hcs. unfold Connectivity.Run. apply returns_bind; [|intros; total].
  apply always_gather. intros h. unfold ProcessHost. apply returns_bind; [|intros; total].
  eapply (spec_always (λ _, True) (λ _ _, True)), (spec_gather _ _ (λ _ _, True)); [|done]. intros t Ht.
  apply list_elem_of_In, in_flat_map in Ht as (nic & _ & Ht). apply in_flat_map in Ht as (cidr & _ & Ht).
  cbv zeta in Ht. destruct (String.eqb (getIPAddressFromCIDR cidr) ""); [done|].
  rewrite List.Forall_forall in Hcs.
  apply in_app_or in Ht as [Ht|Ht].
  - apply in_flat_map in Ht as (n & _ & Ht). apply in_map_iff in Ht as (c & <- & Ht).
    apply filter_In in Ht as [Ht _]. by apply Hcs.
  - apply in_map_iff in Ht as (c & <- & Ht). apply filter_In in Ht as [Ht _]. by apply Hcs.
Qed.

Lemma always_Connectivity a b c (d : string → result (list (option host_param))) e f g dry args :
  DryRunEnabled dry = true ∨ arping_runs a →
  (∀ arg ps, args !! 0 = Some arg → d arg = Good ps → is_Some (mapM host_of ps)) →
  always (ConnectivityCheck a b c d e f g dry args).
Proof.
  intros Hdry H. unfold ConnectivityCheck, Connectivity.connectivityCheck. destruct args as [|arg [|]]; [total| |total].
  destruct (d arg) as [ps|err] eqn:E; [|total]. destruct (H _ _ eq_refl E) as [hosts Eh].
  apply returns_bind; [total|]. intros nics. rewrite Eh. apply returns_bind; [by apply spec_ret|]. intros ps'.
  apply returns_bind; [|intros ?; total].
  apply always_checkers. unfold checkers. destruct (DryRunEnabled dry); [by repeat constructor|].
  destruct Hdry as [|Ha]; [done|].
  repeat constructor; intros x; eapply spec_always;
    [apply spec_ping|by apply spec_arping|apply spec_nmap|apply spec_mtu].
Qed.

(** ** Boot artifacts *)
Definition some_response (a : option http_response * option error) : Prop := a.2 = None → is_Some a.1.

Lemma spec_download_loop roots url n attempt retry res err :
  (∀ l, is_Some (get_answer l roots url).1) → 0 < n ∨ some_response (res, err) →
  spec (λ _, True) (λ _ _, True) some_response (download_loop roots url n attempt retry res err).
Proof.
  intros Hget. revert attempt res err. induction n as [|n IH]; intros attempt res err Hn; cbn [download_loop].
  { apply spec_ret. destruct Hn as [Hn|Hn]; [by apply Nat.lt_irrefl in Hn|exact Hn]. }
  eapply (spec_bind _ _ (λ a, is_Some a.1)); [by apply spec_ask|]. intros [res' err'] [response E]. cbn in E. subst res'.
  apply (spec_bind _ _ (λ _, True)); [by apply spec_ret|]. intros response' _.
  destruct (_ && _); [apply spec_ret; intros _; by eexists|].
  apply (spec_bind _ _ (λ _, True)); [by apply spec_ask|]. intros _ _. apply IH. right; intros _; by eexists.
Qed.

(** Every attempt at the URLs of the request gets an HTTP answer. *)
Definition boot_complete (r : boot_request) : Prop :=
  ∃ dir kernel initrd rootfs, HostFsMountDir r = Some dir ∧ KernelURL r = Some kernel ∧
    InitrdURL r = Some initrd ∧ RootfsURL r = Some rootfs ∧
    ∀ l roots, is_Some (get_answer l roots kernel).1 ∧ is_Some (get_answer l roots initrd).1.

Lemma always_download roots path url n : 0 < n → (∀ l, is_Some (get_answer l roots url).1) →
  always (download roots path url n).
Proof.
  intros Hn H. unfold download. eapply spec_bind; [apply spec_download_loop; auto|].
  intros [res [err|]] Hr; [total|]. destruct (Hr eq_refl) as [res' E]. cbn in E. subst. total.
Qed.

Lemma always_artifacts pem (r : boot_request) ca : boot_complete r → always (downloadArtifactsToTempFolder pem r ca).
Proof.
  intros (dir & kernel & initrd & rootfs & Hdir & Hk & Hi & Hr & Hget). unfold downloadArtifactsToTempFolder.
  apply returns_bind; [total|]. intros [roots|err]; [|total].
  apply (always_found _ kernel); [done|].
  apply returns_bind; [apply always_download; [compute; lia|intros; apply Hget]|]. intros [err|]; [total|].
  apply (always_found _ initrd); [done|].
  apply returns_bind; [apply always_download; [compute; lia|intros; apply Hget]|]. intros [err|]; total.
Qed.

Lemma always_Boot (a : string → result boot_request) b c d args ca :
  is_Some (args !! 0) → (∀ arg r, args !! 0 = Some arg → a arg = Good r → boot_complete r) →
  always (download_Run a b c d args ca).
Proof.
  intros [arg Ha] H. unfold download_Run, run_download. apply (always_found _ arg); [done|].
  apply returns_bind; [|intros; total]. destruct (a arg) as [r|err] eqn:E; [|total].
  specialize (H _ _ Ha E). pose proof H as (dir & kernel & initrd & rootfs & Hdir & Hk & Hi & Hr & Hget).
  apply (always_found _ dir); [done|].
  apply returns_bind; [total|]. intros [|]; [total|].
  apply returns_bind; [total|]. intros [err|]; [total|].
  apply returns_bind; [by apply always_artifacts|]. intros [err|]; [total|].
  apply (always_found _ rootfs); [done|]. total.
Qed.

Lemma always_Reboot s390x a args :
  is_Some (args !! 0) → (∀ arg d, args !! 0 = Some arg → a arg = Good d → is_Some d) →
  always (reboot_Run s390x a args).
Proof.
  intros [arg Ha] H. unfold reboot_Run. apply (always_found _ arg); [done|].
  destruct (a arg) as [d|err] eqn:E; [|total]. destruct (H _ _ Ha E) as [dir ->]. total.
Qed.

(** ** Install *)
(** What the service requires of an installation request. *)
Definition install_complete (p : install_params) : Prop :=
  is_Some (Role p) ∧ is_Some (ip_InfraEnvID p) ∧ is_Some (ip_ClusterID p) ∧ is_Some (ip_HostID p) ∧
  is_Some (InstallerImage p).

Lemma always_install_Args a b c cfg p : install_complete p → always (install_Args a b c cfg p).
Proof.
  intros ([role Hr] & [infra Hi] & [cluster Hc] & [host Hh] & _). unfold install_Args, getFullInstallerCommand.
  rewrite Hr, Hi, Hc, Hh. total.
Qed.
Lemma always_install_Run a b c cfg p : install_complete p → always (install_Run a b c cfg p).
Proof.
  intros H. pose proof H as (_ & _ & _ & _ & [img Himg]). unfold install_Run.
  apply (always_found _ img); [done|]. apply returns_bind; [total|]. intros [err|]; [total|].
  apply returns_bind; [by apply always_install_Args|]. intros ?. total.
Qed.
Lemma always_validate_params a b c d e f p : always (validate_params a b c d e f p).
Proof. total. Qed.
End Components.

(** ** Dispatch *)
Section Dispatch.
Context {env : Env} {http : Http} {ext : External}.
Variable cfg : AgentConfig.

(** The first argument, if there is one, is not a JSON null. *)
Definition not_null {M} (d : Decoder M) (args : list string) : Prop :=
  ∀ a, args !! 0 = Some a → json_decode d a ≠ Good None.
(** What the first argument decodes to. *)
Definition decodes_to {A} (decode : string → result A) (args : list string) (P : A → Prop) : Prop :=
  ∀ a x, args !! 0 = Some a → decode a = Good x → P x.
(** What a valid first argument stands for. *)
Definition validates_to {M} (d : Decoder M) (args : list string) (P : M → Prop) : Prop :=
  ∀ a m, args !! 0 = Some a → json_decode d a = Good (Some m) → swagger_validate d m = None → P m.

Definition logs_complete (p : logs_params) : Prop :=
  is_Some (lp_ClusterID p) ∧ is_Some (lp_HostID p) ∧ is_Some (lp_InfraEnvID p).

(** The steps that return: what each type of step relies on. *)
Inductive sound_step : string → list string → Prop :=
| sound_inventory args : sound_step "inventory" args
| sound_connectivity args :
    not_null (x_decoder "ConnectivityCheckParams") args →
    decodes_to x_connectivity_params args (λ ps, is_Some (mapM host_of ps)) →
    DryRunEnabled (ac_dry cfg) = true ∨ arping_runs x_combined_output → sound_step "connectivity-check" args
| sound_free_addresses args :
    not_null (x_decoder "FreeAddressesRequest") args → sound_step "free-network-addresses" args
| sound_ntp args :
    not_null x_ntp_source args → chrony_prints → exit_zero_only_nil → sound_step "ntp-synchronizer" args
| sound_disk_speed args :
    not_null (x_decoder "DiskSpeedCheckRequest") args → sound_step "installation-disk-speed-check" args
| sound_api_vip args :
    not_null (x_decoder "APIVipConnectivityRequest") args →
    decodes_to x_apivip_request args (λ r, Forall is_Some (RequestHeaders r)) →
    sound_step "api-vip-connectivity-check" args
| sound_tang args :
    not_null (x_decoder "TangConnectivityRequest") args → uris_make_requests x_request_uri →
    sound_step "tang-connectivity-check" args
| sound_dhcp args :
    not_null (x_decoder "DhcpAllocationRequest") args → decodes_to x_dhcp_request args dhcp_complete →
    sound_step "dhcp-lease-allocate" args
| sound_domains args :
    not_null (x_decoder "DomainResolutionRequest") args → decodes_to x_domains args (Forall is_Some) →
    sound_step "domain-resolution" args
| sound_images args :
    not_null (x_decoder "ContainerImageAvailabilityRequest") args → sound_step "container-image-availability" args
| sound_stop args : sound_step "stop-installation" args
| sound_logs args : not_null x_logs args → validates_to x_logs args logs_complete → sound_step "logs-gather" args
| sound_install args :
    not_null x_install args → validates_to x_install args install_complete → sound_step "install" args
| sound_upgrade args : not_null (x_decoder "UpgradeAgentRequest") args → sound_step "upgrade-agent" args
| sound_boot args :
    not_null (x_decoder "DownloadBootArtifactsRequest") args → decodes_to x_boot_request args boot_complete →
    sound_step "download-boot-artifacts" args
| sound_reboot args :
    not_null (x_decoder "RebootForReclaimRequest") args → decodes_to x_reboot_request args is_Some →
    sound_step "reboot-for-reclaim" args
| sound_vips args :
    not_null (x_decoder "VerifyVipsRequest") args → decodes_to x_vips args (Forall is_Some) →
    sound_step "verify-vips" args
| sound_unknown ty args : ty ∉ map fst (stepActionMap cfg args) → sound_step ty args.

(** A runner that returns, and so do its arguments. *)
Definition runner_returns (r : result Runner) : Prop :=
  match r with Good runner => always (rn_Run runner) ∧ always (rn_Args runner) | Bad _ => True end.
Abbreviation makes m := (spec (λ _, True) (λ _ _, True) runner_returns m).

Lemma spec_ValidateCommon {M} name n args (d : Decoder M) : 0 < n → not_null d args →
  spec (λ _, True) (λ _ _, True)
    (λ r, ∀ m, r = Good m → length args = n ∧ is_Some (args !! 0) ∧
                            ∃ x, m = Some x ∧ ∀ P, validates_to d args P → P x)
    (ValidateCommon name n args (Some d)).
Proof.
  intros Hn Hd. unfold ValidateCommon. destruct (Nat.eqb_spec (length args) n) as [El|]; cbn [negb]; [|by apply spec_ret].
  destruct args as [|a args]; [by subst; apply Nat.lt_irrefl in Hn|]. specialize (Hd a eq_refl).
  apply (spec_bind _ _ (λ x, x = a)); [done|]. intros ? ->.
  destruct (json_decode d a) as [[m|]|err] eqn:Em; [|done|by apply spec_ret].
  apply spec_ret. intros m' E. destruct (swagger_validate d m) eqn:Ev; [done|]. injection E as <-.
  split_and!; [done|by eexists|]. exists m. split; [done|]. intros P HP. by eapply HP.
Qed.
Lemma spec_ValidateArgs name n args :
  spec (λ _, True) (λ _ _, True) (λ r, ∀ m, r = Good m → length args = n) (ValidateCommon (M := ()) name n args None).
Proof.
  unfold ValidateCommon. destruct (Nat.eqb_spec (length args) n) as [El|]; cbn [negb]; by apply spec_ret.
Qed.

Lemma makes_action {A} (validate : Go (result A)) (runner : A → Runner) (Q : A → Prop) :
  spec (λ _, True) (λ _ _, True) (λ r, ∀ a, r = Good a → Q a) validate →
  (∀ a, Q a → always (rn_Run (runner a)) ∧ always (rn_Args (runner a))) → makes (action validate runner).
Proof.
  intros Hv Hr. unfold action. eapply spec_bind; [exact Hv|]. intros [a|err] H; apply spec_ret; [|done].
  apply Hr. by apply H.
Qed.

Lemma spec_validate_model name type args : not_null (x_decoder type) args →
  spec (λ _, True) (λ _ _, True) (λ r, ∀ u, r = Good u → is_Some (args !! 0)) (validate_model name type args).
Proof.
  intros Hd. unfold validate_model. eapply spec_bind; [by apply (spec_ValidateCommon name 1 args); [constructor|]|].
  intros [m|err] H; apply spec_ret; [|done]. intros _ _. by destruct (H m eq_refl) as (_ & H1 & _).
Qed.

Lemma makes_simple name type command args run : not_null (x_decoder type) args →
  (is_Some (args !! 0) → always run) → makes (simple_action name type command args run).
Proof.
  intros Hd Hr. eapply makes_action; [by apply spec_validate_model|]. intros ? Ha. split; [by apply Hr|by apply spec_ret].
Qed.

Lemma always_with_arg args (f : string → Go (string * string * Z)) :
  is_Some (args !! 0) → (∀ a, args !! 0 = Some a → always (f a)) → always (with_arg args f).
Proof. intros [a Ha] Hf. apply (always_found _ a); auto. Qed.

Lemma always_on_host command Args : always Args → always (rn_Run (on_host command Args)) ∧ always (rn_Args (on_host command Args)).
Proof. intros H. split; [|done]. cbn [on_host rn_Run]. apply returns_bind; [done|]. intros ?. total. Qed.

(** *** The actions with a validation of their own *)
Lemma makes_inventory args : makes (inventory cfg args).
Proof.
  unfold inventory. apply (makes_action _ _ (λ _, is_Some (args !! 0))).
  - unfold inventory_Validate. eapply spec_bind; [apply spec_ValidateArgs|]. intros [m|err] H; [|by apply spec_ret].
    specialize (H m eq_refl). destruct args as [|a args]; [done|].
    apply (spec_bind _ _ (λ _, True)); [done|]. intros a' _. apply spec_ret. by eexists.
  - intros _ [a Ha]. apply always_on_host. unfold inventory_Args. apply (always_found _ a); [done|]. total.
Qed.

Lemma makes_ntp args : not_null x_ntp_source args → chrony_prints → exit_zero_only_nil → makes (ntpSynchronizer args).
Proof.
  intros Hd H1 H2. unfold ntpSynchronizer. apply (makes_action _ _ (λ _, is_Some (args !! 0))).
  - unfold ntp_Validate. eapply spec_bind; [apply (spec_ValidateCommon _ 1 args); [constructor|done]|].
    intros [m|err] H; [|by apply spec_ret]. destruct (H m eq_refl) as (_ & Ha & x & -> & _).
    apply (spec_bind _ _ (λ _, True)); [done|]. intros x' _. by apply spec_ret.
  - intros _ Ha. split; [|by apply spec_ret]. apply always_with_arg; [done|]. intros a _. by apply always_Ntp.
Qed.

Lemma makes_disk_speed args : not_null (x_decoder "DiskSpeedCheckRequest") args → makes (diskPerfCheck cfg args).
Proof.
  intros Hd. unfold diskPerfCheck. apply (makes_action _ _ (λ _, length args = 2)).
  - unfold disk_perf_Validate. eapply spec_bind; [apply (spec_ValidateCommon _ 2 args); [repeat constructor|done]|].
    intros [m|err] H; [|by apply spec_ret]. destruct (H m eq_refl) as (Hl & _).
    by destruct args as [|a [|b [|]]].
  - intros _ Hl. apply always_on_host. unfold disk_perf_Args. destruct args as [|a [|b [|]]]; done.
Qed.

Lemma makes_logs args : not_null x_logs args → validates_to x_logs args logs_complete → makes (logsGather cfg args).
Proof.
  intros Hd Hv. unfold logsGather. apply (makes_action _ _ (λ _, True)).
  - unfold logs_Validate. eapply spec_bind; [apply (spec_ValidateCommon _ 1 args); [constructor|done]|].
    intros [m|err] H; [|by apply spec_ret]. destruct (H m eq_refl) as (_ & _ & x & -> & Hx).
    apply (spec_bind _ _ (λ y, y = x)); [done|]. intros ? ->. destruct (Hx _ Hv) as ([c Hc] & [h Hh] & [i Hi]).
    unfold createUploadLogsCmd. by rewrite Hc, Hh, Hi.
  - intros cmd _. apply always_on_host. by apply spec_ret.
Qed.

Lemma makes_install args :
  not_null x_install args → validates_to x_install args install_complete → makes (install cfg args).
Proof.
  intros Hd Hv. unfold install. apply (makes_action _ _ install_complete).
  - unfold install_Validate. eapply spec_bind; [apply (spec_ValidateCommon _ 1 args); [constructor|done]|].
    intros [m|err] H; [|by apply spec_ret]. destruct (H m eq_refl) as (_ & _ & x & -> & Hx).
    apply (spec_bind _ _ (λ y, y = x)); [done|]. intros ? ->.
    apply (spec_bind _ _ (λ _, True)); [apply always_validate_params|]. intros [err|] _; apply spec_ret; [done|].
    intros a [= <-]. by apply Hx.
  - intros p Hp. split; [by apply always_install_Run|by apply always_install_Args].
Qed.

Lemma always_image_Run args : is_Some (args !! 0) → always (imageAvailability_Run cfg args).
Proof.
  intros Ha. unfold imageAvailability_Run. apply returns_bind; [total|].
  intros [|]; cbn [negb]; [|by apply spec_ret]. apply returns_bind; [|intros ?; total]. apply always_with_arg; [done|]. intros a _. apply always_Image.
Qed.

(** Every action of a sound step can be made, and what it makes returns. *)
Lemma makes_New ty args : sound_step ty args → makes (New cfg ty args).
Proof.
  assert (Hone : ∀ f : string → Go (string * string * Z), (∀ a, args !! 0 = Some a → always (f a)) →
                 is_Some (args !! 0) → always (with_arg args f)) by (intros; by apply always_with_arg).
  intros H. destruct H as [args|args Hd Hp Ha|args Hd|args Hd H1 H2|args Hd|args Hd Hr|args Hd Hu|args Hd Hr|args Hd Hr|args Hd
                          |args|args Hd Hv|args Hd Hv|args Hd|args Hd Hr|args Hd Hr|args Hd Hr|ty args Hty].
  - apply makes_inventory.
  - apply makes_simple; [done|]. intros _. by apply always_Connectivity.
  - eapply makes_action; [by apply spec_validate_model|]. intros _ _. by apply always_on_host, spec_ret.
  - by apply makes_ntp.
  - by apply makes_disk_speed.
  - apply makes_simple; [done|]. apply Hone. intros a Ha. apply always_ApiVip. intros r. by apply Hr.
  - apply makes_simple; [done|]. apply Hone. intros a _. by apply always_Tang.
  - apply makes_simple; [done|]. apply Hone. intros a Ha. apply always_Dhcp. intros r. by apply Hr.
  - apply makes_simple; [done|]. apply Hone. intros a Ha. apply always_Domain. intros r. by apply Hr.
  - apply makes_simple; [done|]. apply always_image_Run.
  - apply (makes_action _ _ (λ _, True)); [|intros _ _; by apply always_on_host, spec_ret].
    unfold stop_Validate. eapply spec_bind; [apply spec_ValidateArgs|]. intros ? _. by apply spec_ret.
  - by apply makes_logs.
  - by apply makes_install.
  - apply makes_simple; [done|]. apply Hone. intros a _. apply always_Upgrade.
  - apply makes_simple; [done|]. intros Ha. by apply always_Boot.
  - eapply makes_action; [by apply spec_validate_model|]. intros ? Ha. split; [by apply always_Reboot|by apply spec_ret].
  - apply makes_simple; [done|]. intros _. by apply always_Vips.
  - unfold New. destruct (List.find _ _) as [[ty' act]|] eqn:E; [|by apply spec_ret].
    apply find_some in E as [Hin Heq]. apply String.eqb_eq in Heq as <-. destruct Hty.
    apply list_elem_of_fmap. exists (ty', act). split; [done|]. by apply list_elem_of_In.
Qed.

Lemma sound_step_returns s : sound_step (s_step_type s) (s_args s) →
  @step_returns toolRunnerFactory cfg s.
Proof.
  intros H. unfold step_returns, handleSingleStepV2. eapply spec_bind; [apply (makes_New _ _ H)|].
  intros [runner|err] Hr; [|by apply spec_ret]. destruct Hr as [H1 H2]. unfold handleSingleStep.
  apply returns_bind; [exact H1|]. intros [[o e] c]. apply returns_bind; [|intros ?; by apply spec_ret].
  destruct (negb _); [|by apply spec_ret]. apply returns_bind; [exact H2|]. intros ?. by apply spec_ret.
Qed.
End Dispatch.

(** ** The agent with its actions *)
Section Agent.
Context {env : Env} {http : Http} {ext : External} {srv : Service} {connect : Connect}.
Context (unmarshalUpgradeAgentResponse : string → result string) (cfg : AgentConfig).

Notation process_step := (@process_step env srv toolRunnerFactory unmarshalUpgradeAgentResponse cfg).
Notation side_step := (@side_step env srv toolRunnerFactory unmarshalUpgradeAgentResponse cfg).

(** An instruction that is not nil and asks for a sound step. *)
Definition sound_instruction (i : option step) : Prop :=
  ∃ s, i = Some s ∧ sound_step cfg (s_step_type s) (s_args s).

End Agent.

Section Witness.
(** A service that asks for the inventory, the virtual IPs, an upgrade and for a
    step the agent does not know. *)
Definition demo_steps : list (option step) :=
  map Some [Step "inventory" "1" ["host"]; Step "verify-vips" "2" ["[]"]; Step "upgrade-agent" "3" ["{}"];
            Step "no-such-step" "4" []].
Definition demo_service : Service := {|
  e_post := λ _ _, None; e_next_steps := λ _, inl (Steps demo_steps 60 None);
  e_register := λ _ _, inl None; e_backoff := λ _, None
|}.

End Witness.
