(* ===== verification/Agent.v ===== *)
(** * The agent (src/agent/agent.go, src/commands/register_node.go,
    src/util/dry_reboot.go)

    The agent registers the host, runs the next-step runner the service asks
    for, and starts again when that ends. It ends itself in a dry run, after the
    fake reboot, and when it cannot open a session, which is fatal. *)
From S2P Require Import Prelude GoStrings Host Config Session StepProcessor Actions ActionFacts Scanner.

(** ** Who registers: the identity of the host

    The interface of scanners.ReadId: it gives an id, and does not itself
    register the host. *)
Definition is_register (r : request) : bool :=
  match r with RNet op _ => String.eqb op "V2RegisterHost" | _ => false end.
Class Identity : Type := {
  read_id : Go string;
  read_id_returns : returns (λ r, is_register r = false) no_change read_id
}.

Inductive registration : Type :=
  | Registered (command : option runner_command)
  | FatalError (e : error)
  | RegisterFuel.

Inductive agent_exit : Type := DryReboot | AgentFatal (e : error) | AgentFuel.

(** What one round of the agent's loop comes to. *)
Inductive round_end : Type := Continue | Break | RoundFatal (e : error) | RoundFuel.

(** defaultRetryDelay of agent.go *)
Definition agentRetryDelay : Z := hour.

Definition delayOnError (c : runner_command) : Z :=
  if (RetrySeconds c >? 0)%Z then int64 (RetrySeconds c * second) else agentRetryDelay.

(** The registration errors after which the host waits for ever. *)
Definition stops_registration (c : api_error_class) : bool :=
  match c with EForbidden | EConflict | ENotFound | EUnauthorized => true | EOther => false end.

Section Agent.
Context {env : Env} {srv : Service} {connect : Connect} {identity : Identity}.
Context (cfg : AgentConfig).

(** A failure to open a session is fatal to the process; [fuel] bounds the
    attempts. *)
Fixpoint RegisterHostWithRetry (fuel : nat) : Go registration :=
  match fuel with
  | O => mret RegisterFuel
  | S fuel' =>
      s ← open_session cfg;
      match s with
      | Bad err => mret (FatalError err)
      | Good _ =>
          registerResult ← RegisterHost cfg read_id;
          match registerResult with
          | inl command => mret (Registered command)
          | inr err =>
              if stops_registration (ae_class err) then block else
              _ ← Sleep (int64 (IntervalSecs cfg * second));
              RegisterHostWithRetry fuel'
          end
      end
  end.

(** util.DryRebootHappened *)
Definition DryRebootHappened (dry : DryRunConfig) : Go bool :=
  '(_, _, exitCode) ← ExecutePrivileged "stat" [FakeRebootMarkerPath dry];
  mret (exitCode =? 0)%Z.

(** commands.NextStepRunnerFactory *)
Context (nextStepRunnerFactory : AgentConfig → list string → Go (result Runner)).

(** One round; [attempts] bounds the attempts to register. *)
Definition agent_round (attempts : nat) : Go round_end :=
  reg ← RegisterHostWithRetry attempts;
  match reg with
  | RegisterFuel => mret RoundFuel
  | FatalError err => mret (RoundFatal err)
  | Registered None => _ ← Sleep agentRetryDelay; mret Continue
  | Registered (Some stepRunnerCommand) =>
      nextStepRunner ← nextStepRunnerFactory cfg (rc_args stepRunnerCommand);
      match nextStepRunner with
      | Bad _ => _ ← Sleep (delayOnError stepRunnerCommand); mret Continue
      | Good runner =>
          (* the arguments are logged *)
          _ ← rn_Args runner;
          '(_, _, exitCode) ← rn_Run runner;
          if negb (exitCode =? 0)%Z then _ ← Sleep (delayOnError stepRunnerCommand); mret Continue else
          if DryRunEnabled (ac_dry cfg) then
            rebooted ← DryRebootHappened (ac_dry cfg);
            mret (if rebooted : bool then Break else Continue)
          else mret Continue
      end
  end.

Fixpoint RunAgent (fuel attempts : nat) : Go agent_exit :=
  match fuel with
  | O => mret AgentFuel
  | S fuel' =>
      r ← agent_round attempts;
      match r with
      | Break => mret DryReboot
      | Continue => RunAgent fuel' attempts
      | RoundFatal err => mret (AgentFatal err)
      | RoundFuel => mret AgentFuel
      end
  end.
End Agent.

(** The factory of agent.go: the action itself. *)
Definition nextStepRunnerFactory {env : Env} {ext : External} : AgentConfig → list string → Go (result Runner) :=
  λ cfg args, NewNextStepRunner cfg args.

(** ** The scanner is an identity *)
Section ScannerIdentity.
Context {env : Env}.
Lemma ReadId_does_not_register product baseboard interfaces link routes :
  emits (λ r, is_register r = false) no_change (ReadId product baseboard interfaces link routes).
Proof. quiet. Qed.

Definition scanner_identity product baseboard interfaces link routes : Identity := {|
  read_id := ReadId product baseboard interfaces link routes;
  read_id_returns := spec_returns _ _ _ _ (spec_with_emits _ _ _ _ _ _
    (spec_ReadId product baseboard interfaces link routes)
    (ReadId_does_not_register product baseboard interfaces link routes))
|}.
End ScannerIdentity.

(** * Theorems *)
(** The registrations asked for so far *)
Definition registrations (l : log) : nat := length (List.filter is_register l).

Section Facts.
Context {env : Env} {srv : Service} {connect : Connect} {identity : Identity}.
Context (cfg : AgentConfig).

Definition register_request (id : string) : request :=
  RNet "V2RegisterHost" [id; InfraEnvID (ac_conn cfg); AgentVersion (ac_conn cfg)].
Definition retry_pause : request := RSleep (int64 (IntervalSecs cfg * second)).

Lemma registrations_app l t : registrations (l ++ t) = registrations l + registrations t.
Proof. unfold registrations. by rewrite List.filter_app, length_app. Qed.
Lemma no_registrations t : Forall (λ r, is_register r = false) t → registrations t = 0.
Proof. induction 1 as [|r t Hr _ IH]; [done|]. unfold registrations. simpl. by rewrite Hr. Qed.

(** An attempt to register is reads and then one request with one id. *)
Lemma run_RegisterHost l s :
  ∃ id t, Forall (λ r, is_register r = false) t ∧
    run (RegisterHost cfg read_id) l s =
      (Done (e_register (l ++ t) id), l ++ t ++ [register_request id], s).
Proof.
  assert (Hid : ∃ id t, Forall (λ r, is_register r = false) t ∧
    run (if DryRunEnabled (ac_dry cfg) then mret (ForcedHostID (ac_dry cfg)) else read_id) l s = (Done id, l ++ t, s)).
  { destruct (DryRunEnabled _).
    - exists (ForcedHostID (ac_dry cfg)), []. rewrite app_nil_r. split; [constructor|done].
    - destruct (spec_run _ _ _ _ l s read_id_returns) as (id & t & s' & E & Ht & _ & Hs).
      exists id, t. split; [done|]. rewrite E. f_equal. symmetry. by apply (rtc_no_change s). }
  destruct Hid as (id & t & Ht & E). exists id, t. split; [done|].
  unfold RegisterHost. rewrite (run_bind_done _ _ _ _ _ _ _ E). cbn [run ask]. by rewrite <-(assoc_L (++)).
Qed.

(** The session is opened by reads alone. *)
Lemma run_open_session l s :
  ∃ r t, Forall (λ r, is_register r = false) t ∧ run (open_session cfg) l s = (Done r, l ++ t, s).
Proof.
  destruct (spec_run _ _ _ _ l s (spec_New cfg (TargetURL (ac_conn cfg)) (PullSecretToken (ac_conn cfg))))
    as (r & t & s' & E & Ht & _ & Hs).
  exists r, t. split; [eapply Forall_impl; [exact Ht|]; by intros ? (op & p & ->)|].
  unfold open_session. rewrite E. f_equal. symmetry. by apply (rtc_no_change s).
Qed.

(** The answers of the service that no retry can mend *)
Definition final_refusals : list api_error_class := [EForbidden; EConflict; ENotFound; EUnauthorized].
Lemma stops_final c : stops_registration c = true ↔ c ∈ final_refusals.
Proof. unfold final_refusals. rewrite !elem_of_cons, elem_of_nil. destruct c; simpl; naive_solver. Qed.

(** What registering comes to, attempt by attempt: the errors of the service
    that are not final are each followed by the pause. *)
Inductive registering : log → outcome registration → log → Prop :=
  | reg_fuel l : registering l (Done RegisterFuel) l
  | reg_fatal l t err : Forall (λ r, is_register r = false) t →
      registering l (Done (FatalError err)) (l ++ t)
  | reg_accepted l t id c : Forall (λ r, is_register r = false) t → e_register (l ++ t) id = inl c →
      registering l (Done (Registered c)) (l ++ t ++ [register_request id])
  | reg_refused l t id err : Forall (λ r, is_register r = false) t → e_register (l ++ t) id = inr err →
      ae_class err ∈ final_refusals →
      registering l Blocked (l ++ t ++ [register_request id])
  | reg_retried l t id err o l' : Forall (λ r, is_register r = false) t → e_register (l ++ t) id = inr err →
      ae_class err ∉ final_refusals →
      registering (l ++ t ++ [register_request id; retry_pause]) o l' →
      registering l o l'.

(** C17. Registration is one attempt after another, each one request to the
    service under the id of the host: it ends with the answer of the last
    attempt, it waits for ever exactly after an answer that no retry can mend
    (forbidden, conflict, not found, unauthorized), and after any other error it
    pauses for the configured interval and tries again. It never panics and
    leaves the shared memory alone. *)
Theorem RegisterHostWithRetry_attempts fuel l s :
  ∃ o l', run (RegisterHostWithRetry cfg fuel) l s = (o, l', s) ∧ registering l o l'.
Proof.
  revert l. induction fuel as [|fuel IH]; intros l; [eexists _, _; split; [done|constructor]|].
  cbn [RegisterHostWithRetry].
  destruct (run_open_session l s) as (r & t & Ht & E). rewrite (run_bind_done _ _ _ _ _ _ _ E).
  destruct r as [se|err]; [|eexists _, _; split; [done|by constructor]].
  destruct (run_RegisterHost (l ++ t) s) as (id & t' & Ht' & E'). rewrite (run_bind_done _ _ _ _ _ _ _ E').
  rewrite (assoc_L (++)) in E' |- *. rewrite <-(assoc_L (++) l), <-(assoc_L (++) l).
  assert (Htt : Forall (λ r, is_register r = false) (t ++ t')) by by apply Forall_app.
  destruct (e_register (l ++ t ++ t') id) as [c|err] eqn:Ee.
  { eexists _, _. split; [done|]. by constructor. }
  destruct (stops_registration (ae_class err)) eqn:Es.
  { eexists _, _. split; [done|]. by econstructor; [..|apply stops_final]. }
  rewrite (run_bind_done _ _ _ _ () ((l ++ (t ++ t') ++ [register_request id]) ++ [retry_pause]) s) by done.
  replace ((l ++ (t ++ t') ++ [register_request id]) ++ [retry_pause])
    with (l ++ (t ++ t') ++ [register_request id; retry_pause]) by by rewrite <-!(assoc_L (++)).
  destruct (IH (l ++ (t ++ t') ++ [register_request id; retry_pause])) as (o & l' & -> & Hr).
  eexists _, _. split; [done|]. 
  eapply (reg_retried l (t ++ t')); [done|exact Ee|by rewrite <-stops_final, Es|done].
Qed.
(** C19. A service that turns the host away for a while and then takes it gets
    it: after the [k] retries it asks for, the host is registered with the
    command of the service, whatever the host identifies itself by. *)
Theorem registration_succeeds k command u fuel l s :
  url_Parse (TargetURL (ac_conn cfg)) = Good u →
  InsecureConnection (ac_conn cfg) = true ∨ CACertificatePath (ac_conn cfg) = "" →
  (∀ l' id, registrations l' < k → ∃ err, e_register l' id = inr err ∧ stops_registration (ae_class err) = false) →
  (∀ l' id, registrations l' = k → e_register l' id = inl command) →
  registrations l ≤ k → k < fuel + registrations l →
  ∃ l', run (RegisterHostWithRetry cfg fuel) l s = (Done (Registered command), l', s) ∧ registrations l' = S k.
Proof.
  intros Hu Hc Hlater Hnow. revert l. induction fuel as [|fuel IH]; intros l Hl Hf; [lia|].
  cbn [RegisterHostWithRetry].
  destruct (open_session_ok cfg u l s Hu Hc) as [se E]. rewrite (run_bind_done _ _ _ _ _ _ _ E).
  destruct (run_RegisterHost l s) as (id & t & Ht & E'). rewrite (run_bind_done _ _ _ _ _ _ _ E').
  assert (Hr : registrations (l ++ t) = registrations l) by (rewrite registrations_app, (no_registrations t); [lia|done]).
  assert (Hr' : ∀ t', registrations (l ++ t ++ register_request id :: t') = S (registrations l + registrations t')).
  { intros t'. rewrite !registrations_app, (no_registrations t Ht). unfold registrations. simpl. lia. }
  destruct (decide (registrations l = k)) as [Hk|Hk].
  - rewrite Hnow by congruence. eexists. split; [done|]. rewrite Hr'. change (registrations []) with 0. lia.
  - destruct (Hlater (l ++ t) id) as (err & -> & ->); [lia|].
    rewrite (run_bind_done _ _ _ _ () ((l ++ t ++ [register_request id]) ++ [retry_pause]) s) by done.
    replace ((l ++ t ++ [register_request id]) ++ [retry_pause])
      with (l ++ t ++ [register_request id; retry_pause]) by by rewrite <-!(assoc_L (++)).
    apply IH; rewrite Hr'; change (registrations [retry_pause]) with 0; lia.
Qed.

(** The delay after a failed round is positive and at most that of the service,
    or an hour, as long as the service asks for less than 292 years. *)
Lemma delayOnError_bounds c :
  (RetrySeconds c <= 9223372036)%Z →
  delayOnError c = (if decide (0 < RetrySeconds c)%Z then RetrySeconds c * second else hour)%Z ∧
  (0 < delayOnError c)%Z.
Proof.
  intros H. unfold delayOnError, agentRetryDelay, hour, second. destruct (decide _) as [Hp|Hp].
  - rewrite (proj2 (Z.gtb_lt _ _)) by lia. rewrite int64_id; [lia|unfold int64_min, int64_max; lia].
  - destruct (_ >? 0)%Z eqn:E; [apply Z.gtb_lt in E; lia|]. lia.
Qed.

(** The agent gives up registering only when the session cannot be opened, which
    is then the last thing it tried. *)
Lemma register_fatal n l s err l' s' :
  run (RegisterHostWithRetry cfg n) l s = (Done (FatalError err), l', s') →
  ∃ l0 s0, run (open_session cfg) l0 s0 = (Done (Bad err), l', s').
Proof.
  revert l s. induction n as [|n IH]; intros l s; [done|]. cbn [RegisterHostWithRetry]. rewrite run_bind.
  destruct (run (open_session cfg) l s) as [[[[se|e]| |] l1] s1] eqn:E; [|by intros [= <- <- <-]; eauto|done..].
  rewrite run_bind. destruct (run (RegisterHost cfg read_id) l1 s1) as [[[[c|e]| |] l2] s2]; [done| |done..].
  destruct (stops_registration _); [done|]. rewrite run_bind. apply IH.
Qed.

(** What ends the agent in the round that ends it. *)
Definition agent_ends (r : agent_exit) (l' : log) (s' : shared) : Prop :=
  match r with
  | DryReboot =>
      DryRunEnabled (ac_dry cfg) = true ∧
      ∃ l0, l' = l0 ++ [privileged "stat" [FakeRebootMarkerPath (ac_dry cfg)]] ∧
        getExitCode (e_run l0 "nsenter" ((buildPrivilegedCommand "stat" [FakeRebootMarkerPath (ac_dry cfg)]).2)).2 = 0%Z
  | AgentFatal err =>
      cannot_connect cfg ∧ ∃ l0 s0, run (open_session cfg) l0 s0 = (Done (Bad err), l', s')
  | AgentFuel => True
  end.

Lemma round_ends factory attempts l s r l' s' :
  run (agent_round cfg factory attempts) l s = (Done r, l', s') →
  match r with
  | Break => agent_ends DryReboot l' s'
  | RoundFatal err => agent_ends (AgentFatal err) l' s'
  | _ => True
  end.
Proof.
  unfold agent_round. rewrite run_bind.
  destruct (run (RegisterHostWithRetry cfg attempts) l s) as [[[[[c|]|e|]| |] l2] s2] eqn:E;
    [|by intros [= <- _ _]| |by intros [= <- _ _]|done..].
  2: { intros [= <- <- <-]. apply register_fatal in E as (l0 & s0 & E). split; [|by exists l0, s0].
       destruct (spec_run _ _ _ _ l0 s0 (open_session_fails cfg)) as (o & t & s1 & E' & _ & HQ & _).
       rewrite E in E'. injection E' as <- _ _. by apply (HQ e). }
  rewrite run_bind. destruct (run (factory cfg (rc_args c)) l2 s2) as [[[[runner|e]| |] l3] s3];
    [|by intros [= <- _ _]|done..].
  rewrite run_bind. destruct (run (rn_Args runner) l3 s3) as [[[args| |] l4] s4]; [|done..].
  rewrite run_bind. destruct (run (rn_Run runner) l4 s4) as [[[[[o e] code]| |] l5] s5]; [|done..].
  destruct (negb _); [by intros [= <- _ _]|]. destruct (DryRunEnabled (ac_dry cfg)) eqn:Ed; [|by intros [= <- _ _]].
  unfold DryRebootHappened, ExecutePrivileged, Execute. cbn [buildPrivilegedCommand]. rewrite !run_bind.
  cbn [run ask buildPrivilegedCommand snd]. destruct (e_run l5 _ _) as [[stdout stderr] err] eqn:Er. cbn.
  destruct (getExitCode err =? 0)%Z eqn:Ec; intros [= <- <- <-]; [|done]. split; [done|].
  exists l5. split; [done|]. cbn in Er |- *. rewrite Er. by apply Z.eqb_eq.
Qed.

(** C29. The agent ends, unless it panics, only in two ways: in a dry run, when the
    marker of the fake reboot is found, the query for it being the last thing it
    does; and, in any run, when a session with the service cannot be opened, since
    its address does not parse or the CA certificates cannot be read (log.Fatalf). *)
Theorem RunAgent_ends factory fuel attempts l s r l' s' :
  run (RunAgent cfg factory fuel attempts) l s = (Done r, l', s') → agent_ends r l' s'.
Proof.
  revert l s. induction fuel as [|fuel IH]; intros l s; [by intros [= <- _ _]|]. cbn [RunAgent]. rewrite run_bind.
  destruct (run (agent_round cfg factory attempts) l s) as [[[r1| |] l1] s1] eqn:E; [|done..].
  apply round_ends in E. destruct r1; [apply IH|by intros [= <- <- <-]..].
Qed.
End Facts.

(** ** The next-step runner *)
Section NextStep.
Context {env : Env} {ext : External}.

(** A round of the agent starts the container of the next-step runner with
    the ids of the service, after removing the previous container, which it does
    twice: the arguments are computed for the log and again for the run. *)
Theorem next_step_removes_then_runs cfg params infraEnvID hostID l s :
  np_InfraEnvID params = Some infraEnvID → np_HostID params = Some hostID →
  let runner := on_host "podman" (nextStep_Args cfg params) in
  let remove := privileged "podman" ["rm"; "-i"; containerName] in
  ∃ res, run (_ ← rn_Args runner; rn_Run runner) l s =
    (Done res, l ++ [remove; remove;
       privileged "podman" (nextStep_words cfg (StringValue (np_AgentVersion params)) infraEnvID hostID)], s).
Proof.
  intros Hi Hh runner remove.
  assert (Ha : ∀ l, run (nextStep_Args cfg params) l s =
    (Done (nextStep_words cfg (StringValue (np_AgentVersion params)) infraEnvID hostID), l ++ [remove], s)).
  { intros l0. unfold nextStep_Args, cleanupPrevious. rewrite Hi, Hh.
    unfold ExecutePrivileged, Execute. cbn [buildPrivilegedCommand]. rewrite !run_bind. cbn [run ask].
    by destruct (e_run _ _ _) as [[? ?] ?]. }
  unfold runner, on_host. cbn [rn_Args rn_Run]. rewrite run_bind, Ha, run_bind, Ha.
  unfold ExecutePrivileged, Execute. cbn [buildPrivilegedCommand]. rewrite run_bind. cbn [run ask].
  destruct (e_run _ _ _) as [[o e] err]. eexists. rewrite <-!(assoc_L (++)). done.
Qed.
End NextStep.

(** * A concrete agent *)
Module AgentDemo.
Definition command : runner_command := RunnerCommand "next-step-runner" ["{}"] 30.
Definition identity {env : Env} : Identity := {| read_id := mret "id"; read_id_returns := I |}.
(** The service fails once, then takes the host. *)
Definition srv : Service := {|
  e_post := λ _ _, None;
  e_next_steps := λ _, inl (Steps [] 60 None);
  e_register := λ l _, if Nat.ltb (registrations l) 1 then inr (ApiError EOther None "unavailable") else inl (Some command);
  e_backoff := λ _, None
|}.
Definition host : Env := cmd_host (λ _ _ _, ("", "", None)).
Definition cfg : AgentConfig :=
  mkAgentConfig (mkDryRunConfig true "forced" "" "" "" "/tmp/rebooted")
    (mkConnectivityConfig "https://svc" "" "env" "v1" "" false "") 60 "host" (mkLoggingConfig false true false).
Definition factory : AgentConfig → list string → Go (result Runner) :=
  λ _ _, mret (Good (mkRunner (mret ("", "", 0%Z)) "podman" (mret []))).
Definition attempt : request := RNet "V2RegisterHost" ["forced"; "env"; "v1"].
End AgentDemo.

Section Witnesses.
Import AgentDemo.
Lemma registration_succeeds_witness :
  ∃ l', run (@RegisterHostWithRetry host srv plain_connect (@identity host) cfg 2) [] shared_init =
    (Done (Registered (Some command)), l', shared_init) ∧ registrations l' = 2.
Proof.
  apply (@registration_succeeds host srv plain_connect (@identity host) cfg 1 (Some command) (mkUrl "" "https://svc") 2 []
           shared_init); [reflexivity|right; reflexivity| | |apply le_0_n|apply le_n].
  - intros l' id H. exists (ApiError EOther None "unavailable"). split; [|reflexivity]. simpl.
    destruct (Nat.ltb_spec (registrations l') 1) as [_|Hn]; [reflexivity|exfalso; lia].
  - intros l' id H. simpl. rewrite H. reflexivity.
Defined.

Lemma RunAgent_ends_witness :
  DryRunEnabled (ac_dry cfg) = true ∧
  ∃ l0, [attempt; RSleep (60 * second); attempt; privileged "stat" ["/tmp/rebooted"]] =
      l0 ++ [privileged "stat" ["/tmp/rebooted"]] ∧
    getExitCode (e_run (Env := host) l0 "nsenter" ((buildPrivilegedCommand "stat" ["/tmp/rebooted"]).2)).2 = 0%Z.
Proof.
  apply (@RunAgent_ends host srv plain_connect (@identity host) cfg factory 1 2 [] shared_init DryReboot _ shared_init).
  vm_compute. reflexivity.
Defined.

Lemma next_step_removes_then_runs_witness :
  let params := mkNextStepParams (Some "v") (Some "h") (Some "i") in
  let remove := privileged "podman" ["rm"; "-i"; containerName] in
  ∃ res, run (_ ← rn_Args (@on_host host "podman" (@nextStep_Args host cfg params));
              rn_Run (@on_host host "podman" (@nextStep_Args host cfg params))) [] shared_init =
    (Done res, [remove; remove; privileged "podman" (nextStep_words cfg "v" "i" "h")], shared_init).
Proof.
  intros params remove.
  apply (@next_step_removes_then_runs host cfg params "i" "h" [] shared_init); reflexivity.
Defined.
End Witnesses.
