(* ===== verification/LogsSender.v ===== *)
(** * The logs sender (src/logs_sender/send_logs.go)

    Gathers the logs of the host into a temporary folder, archives and uploads
    them, and reports its progress to the service. On the bootstrap host another
    goroutine uploads what there is of the installer's logs while these are
    gathered: GatherInstallerLogs runs both by turns. *)
From S2P Require Import Prelude GoStrings Host Paths Config Session.

(** config.LogsSenderConfig *)
Record LogsSenderConfig : Type := mkLogsSenderConfig {
  lc_logging : LoggingConfig; lc_agent : AgentConfig; Tags : list string; Services : list string; Since : string;
  lc_HostID : string; lc_ClusterID : string; lc_InfraEnvID : string;
  lc_TargetURL : string; lc_PullSecretToken : string; CleanWhenDone : bool; IsBootstrap : bool; InstallerGatherlogging : bool; MastersIPs : string
}.

Definition logsDir : string := "/var/log".
Definition installerGatherBin : string := "/usr/local/bin/installer-gather.sh".
Definition ovsGatherBin : string := "/usr/local/bin/ovs-installer-gather.sh".
Definition installerGatherArchivePreifx : string := "/root/log-bundle-".
Definition lsblk : string := "/usr/bin/lsblk".
Definition findmnt : string := "/usr/bin/findmnt".
Definition ls : string := "/bin/ls".
Definition pvdisplay : string := "/usr/sbin/pvdisplay".
Definition vgdisplay : string := "/usr/sbin/vgdisplay".
Definition lvdisplay : string := "/usr/sbin/lvdisplay".

(** models.LogsState *)
Definition LogsStateRequested : string := "requested".
Definition LogsStateCollecting : string := "collecting".
Definition LogsStateCompleted : string := "completed".

(** The service, for logs. *)
Class LogsService : Type := {
  e_upload_logs : log → list string → option error;
  e_logs_progress : log → list string → option error
}.

(** The interface LogsSender. An error that is nil, one or a go-multierror is
    the list of what it holds. *)
Class LogsSender : Type := {
  l_Execute : string → list string → Go (string * string * Z);
  l_ExecutePrivileged : string → list string → Go (string * string * Z);
  l_ExecuteOutputToFile : string → string → list string → Go (string * Z);
  l_ExecutePrivilegedToFile : string → string → list string → Go (string * Z);
  l_CreateFolderIfNotExist : string → Go (option error);
  l_FileUploader : string → Go (option error);
  l_LogProgressReport : string → Go (option error);
  l_GatherInstallerLogs : string → Go (list error);
  l_GatherErrorLogs : string → Go (list error)
}.

(** multierror.Append of what may be nil *)
Definition append_error (res : list error) (err : option error) : list error :=
  match err with Some e => res ++ [e] | None => res end.

Section Gathering.
Context {env : Env} {l : LogsSender}.

Definition logDisksByCategory (category logfile : string) (res : list error) : Go (list error) :=
  LogPrivilegedCommandOutput logfile res ("Disk mapping by " +:+ category) ls ["-l"; "/dev/disk/by-" +:+ category].

Definition getMountLogs (outputFilePath : string) : Go (list error) :=
  created ← ask (RFsOp "Create" [outputFilePath]) (λ l, e_create l outputFilePath);
  match created with
  | Some err => mret [err]
  | None =>
      r1 ← LogPrivilegedCommandOutput outputFilePath [] "List block devices" lsblk
             ["-o"; "NAME,MAJ:MIN,SIZE,TYPE,FSTYPE,KNAME,MODEL,UUID,WWN,HCTL,VENDOR,STATE,TRAN,PKNAME"];
      r2 ← LogPrivilegedCommandOutput outputFilePath r1 "List mounts" findmnt ["--df"];
      r3 ← logDisksByCategory "id" outputFilePath r2;
      r4 ← logDisksByCategory "path" outputFilePath r3;
      r5 ← LogPrivilegedCommandOutput outputFilePath r4 "Running pvdisplay" pvdisplay ["-v"];
      r6 ← LogPrivilegedCommandOutput outputFilePath r5 "Running vgdisplay" vgdisplay ["-v"];
      LogPrivilegedCommandOutput outputFilePath r6 "Running lvdisplay" lvdisplay ["-v"]
  end.

Definition getDmesgLogs (outputFilePath : string) : Go (option error) :=
  '(stderr, exitCode) ← l_ExecuteOutputToFile outputFilePath "dmesg" ["-T"];
  mret (if negb (exitCode =? 0)%Z then Some (errorf stderr) else None).

(** One line of the list of dumps; the error ends the loop. *)
Definition dump_core (targetDir dump : string) : Go (option error) :=
  let fields := Fields dump in
  pid ← or_panic (fields !! 4);
  exe ← or_panic (fields !! 9);
  let outputFile := path_join [targetDir; "coredump_exe_" +:+ Base exe +:+ "_pid_" +:+ pid] in
  '(_, stderr, exitCode) ← l_ExecutePrivileged "coredumpctl" ["dump"; pid; "--output"; outputFile];
  mret (if negb (exitCode =? 0)%Z then Some (errorf stderr) else None).

Fixpoint dump_cores (targetDir : string) (dumps : list string) : Go (option error) :=
  match dumps with
  | [] => mret None
  | dump :: dumps' =>
      err ← dump_core targetDir dump;
      match err with Some e => mret (Some e) | None => dump_cores targetDir dumps' end
  end.

Definition getCoreDumps (targetDir : string) : Go (option error) :=
  '(stdout, stderr, exitCode) ← l_ExecutePrivileged "coredumpctl" ["list"; "--no-legend"];
  if negb (exitCode =? 0)%Z then mret None else
  dump_cores targetDir (Split (TrimSuffix stdout nls) nl).

Definition getJournalLogs (since outputFilePath : string) (journalFilterParams : list string) : Go (option error) :=
  let args := ["-D"; "/var/log/journal/"; "--all"] ++
    (if negb (String.eqb since "") then ["--since"; since] else []) ++ journalFilterParams in
  '(stderr, exitCode) ← l_ExecutePrivilegedToFile outputFilePath "journalctl" args;
  mret (if negb (exitCode =? 0)%Z then Some (errorf stderr) else None).

Definition uploadLogs (inputPath archivePath : string) : Go (option error) :=
  _ ← l_LogProgressReport LogsStateCollecting;
  '(_, errOut, execCode) ← l_Execute "tar" ["-czvf"; archivePath; "-C"; Dir inputPath; Base inputPath];
  if negb (execCode =? 0)%Z then mret (Some (errorf errOut)) else
  l_FileUploader archivePath.

Section Send.
Context (cfg : LogsSenderConfig).
Definition archivePath : string := logsDir +:+ "/logs.tar.gz".
Definition logsTmpFilesDir : string := path_join [logsDir; "logs_host_" +:+ lc_HostID cfg].

(** The journal of each tag *)
Definition tag_logs (res : list error) (tag : string) : Go (list error) :=
  err ← getJournalLogs (Since cfg) (path_join [logsTmpFilesDir; tag +:+ ".logs"]) ["TAG=" +:+ tag];
  mret (append_error res err).

(** The journal of each service that exists *)
Definition service_logs (res : list error) (service : string) : Go (list error) :=
  let serviceName := service +:+ ".service" in
  '(stdout, _, _) ← l_ExecutePrivileged "systemctl" ["list-units"; "--all"; "--no-legend"; serviceName];
  if negb (Contains stdout serviceName) then mret res else
  err ← getJournalLogs (Since cfg) (path_join [logsTmpFilesDir; service +:+ ".logs"]) ["-u"; service];
  mret (append_error res err).

(** What is gathered before the upload, and the errors met. *)
Definition gather_logs : Go (list error) :=
  mounts ← getMountLogs (path_join [logsTmpFilesDir; "mount.logs"]);
  tagged ← foldP tag_logs (Tags cfg) mounts;
  serviced ← foldP service_logs (Services cfg) tagged;
  errs ← (if InstallerGatherlogging cfg
          then es ← l_GatherErrorLogs logsTmpFilesDir; mret (serviced ++ es) else mret serviced);
  if InstallerGatherlogging cfg && IsBootstrap cfg
  then es ← l_GatherInstallerLogs logsTmpFilesDir; mret (errs ++ es) else mret errs.

Definition clean_up : Go () :=
  if CleanWhenDone cfg then
    _ ← FsOp "RemoveAll" [logsTmpFilesDir]; _ ← FsOp "Remove" [archivePath]; mret ()
  else mret ().

(** The body after the deferred clean-up. *)
Definition send_body : Go (option error * string) :=
  folder ← l_CreateFolderIfNotExist logsTmpFilesDir;
  match folder with
  | Some err => mret (Some err, "")
  | None =>
      errs ← gather_logs;
      report ← (match errs with
                | [] => mret ""
                | _ => let report := multierror_Error errs in
                       _ ← WriteFile (path_join [logsTmpFilesDir; "report.logs"]) report; mret report
                end);
      err ← uploadLogs logsTmpFilesDir archivePath;
      match err with
      | Some e => mret (Some e, report)
      | None => _ ← l_LogProgressReport LogsStateCompleted; mret (None, report)
      end
  end.

Definition SendLogs : Go (option error * string) :=
  _ ← l_LogProgressReport LogsStateRequested;
  defer clean_up send_body.
End Send.
End Gathering.

(** ** The executer *)
Section Executer.
Context {env : Env} {service : LogsService}.
Context (cfg : LogsSenderConfig).
(** time.Time.Format with the layout 20060102150405, in the zone of the host *)
Variable format_time : Z → string.

Definition CreateFolderIfNotExist (folder : string) : Go (option error) :=
  st ← Stat folder;
  match st with
  | Bad err => if is_not_exist err then FsOp "MkdirAll" [folder] else mret None
  | Good _ => mret None
  end.

Definition upload_request (filePath : string) : request :=
  RNet "V2UploadLogs" [lc_ClusterID cfg; lc_HostID cfg; lc_InfraEnvID cfg; "host"; filePath].
Definition FileUploader (filePath : string) : Go (option error) :=
  opened ← Open filePath;
  match opened with
  | Some err => mret (Some err)
  | None => ask (upload_request filePath) (λ l, e_upload_logs l [filePath])
  end.

Definition progress_request (progress : string) : request :=
  RNet "V2UpdateHostLogsProgress" [lc_InfraEnvID cfg; lc_HostID cfg; progress].
Definition LogProgressReport (progress : string) : Go (option error) :=
  ask (progress_request progress) (λ l, e_logs_progress l [progress]).

(** The methods that do not need the others *)
Definition executer_base (errors_of installer_of : string → Go (list error)) : LogsSender := {|
  l_Execute := Execute;
  l_ExecutePrivileged := ExecutePrivileged;
  l_ExecuteOutputToFile := ExecuteOutputToFile;
  l_ExecutePrivilegedToFile := ExecutePrivilegedToFile;
  l_CreateFolderIfNotExist := CreateFolderIfNotExist;
  l_FileUploader := FileUploader;
  l_LogProgressReport := LogProgressReport;
  l_GatherErrorLogs := errors_of;
  l_GatherInstallerLogs := installer_of
|}.
#[local] Instance simple_executer : LogsSender := executer_base (λ _, mret []) (λ _, mret []).

Definition GatherErrorLogs (targetDir : string) : Go (list error) :=
  e1 ← getDmesgLogs (path_join [targetDir; "dmesg.logs"]);
  e2 ← getCoreDumps targetDir;
  e3 ← getJournalLogs (Since cfg) (path_join [targetDir; "journal.logs"]) [];
  mret (append_error (append_error (append_error [] e1) e2) e3).

(** A script of installer-gather: anything on stderr is an error. *)
Definition script_error (stdErr : string) (exitCode : Z) : option error :=
  if negb (String.eqb stdErr "") || negb (exitCode =? 0)%Z then Some (errorf stdErr) else None.

(** What GatherInstallerLogs runs itself, between starting the partial
    collection and waiting for it. *)
Definition gather_scripts (gatherID targetDir : string) : Go (list error) :=
  let args := ["--id"; gatherID] ++ Split (MastersIPs cfg) "," in
  '(_, e1, c1) ← Execute ovsGatherBin args;
  '(_, e2, c2) ← ExecutePrivileged installerGatherBin args;
  '(_, e3, c3) ← ExecutePrivileged "mv" [installerGatherArchivePreifx +:+ gatherID +:+ ".tar.gz"; targetDir];
  mret (append_error (append_error (append_error [] (script_error e1 c1)) (script_error e2 c2))
          (if negb (c3 =? 0)%Z then Some (errorf e3) else None)).

(** *** The partial collection: another goroutine

    The wait group and the context of the two goroutines. *)
Record sync : Type := Sync { wg : Z; collect_cancelled : bool }.
Abbreviation Both := (proc request (shared * sync)).

(** A negative counter panics. *)
Definition wg_Add (n : Z) : Both () :=
  count ← shared_do (λ s, ((wg s.2 + n)%Z, (s.1, Sync (wg s.2 + n) (collect_cancelled s.2))));
  if (count <? 0)%Z then panic else mret ().
Definition wg_Done : Both () := wg_Add (-1).
Definition collectContextCancel : Both () := shared_do (λ s, ((), (s.1, Sync (wg s.2) true))).
(** [fuel] bounds how often the counter is looked at; [false] when it runs out. *)
Fixpoint wg_Wait (fuel : nat) : Both bool :=
  match fuel with
  | O => mret false
  | S fuel' =>
      count ← shared_do (λ s, (wg s.2, s));
      if (count =? 0)%Z then mret true else wg_Wait fuel'
  end.

Definition minute : Z := 60 * 1000000000.
Definition partial_archive (targetDir : string) : string :=
  path_join [path_join [targetDir; "partial"]; "log-bundle-partial.tar.gz"].

(** The loop: a tick or the end of the context, whichever the select takes;
    [fuel] bounds the rounds, after which the goroutine makes no more progress. *)
Fixpoint collect_loop (fuel : nat) (targetDir gatherId : string) : Both () :=
  match fuel with
  | O => block
  | S fuel' =>
      tick ← lift (ask (RSleep minute) e_timer_fired);
      cancelled ← shared_do (λ s, (collect_cancelled s.2, s));
      if cancelled && negb tick then
        _ ← lift (FsOp "RemoveAll" [path_join [targetDir; "partial"]]); mret ()
      else
        let inputPath := "/tmp/artifacts-" +:+ gatherId in
        '(_, errOut, execCode) ← lift (Execute "tar"
          ["-czvf"; partial_archive targetDir; "-C"; Dir inputPath; Base inputPath]);
        if negb (execCode =? 0)%Z then collect_loop fuel' targetDir gatherId else
        _ ← lift (uploadLogs targetDir (logsDir +:+ "/logs.tar.gz"));
        collect_loop fuel' targetDir gatherId
  end.

Definition CollectPartialLogs (fuel : nat) (targetDir gatherId : string) : Both () :=
  defer wg_Done (
    err ← lift (CreateFolderIfNotExist (path_join [targetDir; "partial"]));
    match err with
    | Some _ => mret ()
    | None => collect_loop fuel targetDir gatherId
    end).

(** The goroutine of the caller from the [go] statement on. *)
Definition gather_after_go (fuel : nat) (targetDir gatherID : string) : Both (list error * bool) :=
  _ ← wg_Add 1;
  errs ← lift (gather_scripts gatherID targetDir);
  _ ← collectContextCancel;
  waited ← wg_Wait fuel;
  mret (errs, waited).

(** The two goroutines by turns, the scheduler's choice ([true]: the partial
    collection). The method returns when the caller does; a panic of the other
    goroutine ends the process, with code 2 and without the functions the caller
    has deferred; when the turns are over both are still at work. *)
Fixpoint by_turns {A B} (turns : list bool) (c : Both A) (k : Both B) (y : sync) : Go B :=
  match c, k, turns with
  | PPanic, _, _ => exit_process 2
  | _, PRet b, _ => mret b
  | _, PPanic, _ => panic
  | PAsk r f c', _, true :: turns' => PAsk r f (λ x, by_turns turns' (c' x) k y)
  | PState f c', _, true :: turns' =>
      PState (λ s, (((f (s, y)).1, (f (s, y)).2.2), (f (s, y)).2.1)) (λ x, by_turns turns' (c' x.1) k x.2)
  | _, PAsk r f k', false :: turns' => PAsk r f (λ x, by_turns turns' c (k' x) y)
  | _, PState f k', false :: turns' =>
      PState (λ s, (((f (s, y)).1, (f (s, y)).2.2), (f (s, y)).2.1)) (λ x, by_turns turns' c (k' x.1) x.2)
  | _, _, _ :: turns' => by_turns turns' c k y
  | _, _, [] => block
  end.

(** [length turns] is enough fuel for both: every round takes a turn. *)
Definition GatherInstallerLogs (targetDir : string) : Go (list error) :=
  now ← Now;
  choices ← ask RSchedule e_schedule;
  let gatherID := format_time now in
  let turns := map (Nat.eqb 0) choices in
  '(errs, waited) ← by_turns turns (CollectPartialLogs (length turns) targetDir gatherID)
      (gather_after_go (length turns) targetDir gatherID) (Sync 0 false);
  if (waited : bool) then mret errs else block.
End Executer.

Definition LogsSenderExecuter {env : Env} {service : LogsService} (format_time : Z → string)
    (cfg : LogsSenderConfig) : LogsSender :=
  executer_base cfg (GatherErrorLogs cfg) (GatherInstallerLogs cfg format_time).

Section Main.
Context {env : Env} {service : LogsService} {connect : Connect}.
Variable format_time : Z → string.

(** getClient: a failure is fatal to the process. *)
Definition getClient (cfg : LogsSenderConfig) (inventoryUrl pullSecretToken : string) : Go (result session) :=
  New (lc_agent cfg) inventoryUrl pullSecretToken.

(** Main: the exit code (os.Exit(-1) is 255) and what is printed. *)
Definition Main (cfg : LogsSenderConfig) : Go (Z * string) :=
  client ← getClient cfg (lc_TargetURL cfg) (lc_PullSecretToken cfg);
  match client with
  | Bad err => mret (1%Z, "")
  | Good _ =>
      '(err, report) ← SendLogs (l := LogsSenderExecuter format_time cfg) cfg;
      mret (match err with
            | Some e => (255%Z, "Failed to run send logs  " +:+ err_msg e +:+ nls)
            | None => (0%Z, "Logs were sent" +:+ nls +:+ report +:+ nls)
            end)
  end.
End Main.

(** * Theorems *)
(** What the service learns of the sending: the progress and the upload. *)
Definition milestone (r : request) : option string :=
  match r with
  | RNet op args => if String.eqb op "V2UploadLogs" then Some "upload"
                    else if String.eqb op "V2UpdateHostLogsProgress" then last args else None
  | _ => None
  end.
Definition milestones (t : log) : list string := omap milestone t.
Notation silent := (λ r : request, milestone r = None).

(** Of a partial upload the service learns that logs are collected and, when the
    archive can be made, of an upload. *)
Fixpoint partial_uploads (ready : bool) (ms : list string) : bool :=
  match ms with
  | [] => true
  | m :: ms' => if String.eqb m LogsStateCollecting then partial_uploads true ms'
                else String.eqb m "upload" && ready && partial_uploads false ms'
  end.

Lemma milestones_app t t' : milestones (t ++ t') = milestones t ++ milestones t'.
Proof. apply omap_app. Qed.
Lemma silent_milestones t : Forall silent t → milestones t = [].
Proof. induction 1 as [|r t Hr _ IH]; [done|]. unfold milestones in *. cbn. by rewrite Hr. Qed.

Section Facts.
Context {env : Env} {service : LogsService}.
Variable format_time : Z → string.
Context (cfg : LogsSenderConfig).
#[local] Instance executer : LogsSender := LogsSenderExecuter format_time cfg.

(** Descends through the methods of the executer. *)
Ltac quiet_methods :=
  repeat (first [ progress cbn [l_Execute l_ExecutePrivileged l_ExecuteOutputToFile l_ExecutePrivilegedToFile
                    l_CreateFolderIfNotExist l_FileUploader l_LogProgressReport l_GatherInstallerLogs
                    l_GatherErrorLogs executer LogsSenderExecuter executer_base simple_executer]
                | quiet_step ]).

Lemma silent_dump_cores errors_of installer_of d dumps :
  emits silent no_change (dump_cores (l := executer_base cfg errors_of installer_of) d dumps).
Proof. induction dumps as [|x dumps IH]; cbn [dump_cores]; quiet_methods. Qed.
#[local] Hint Resolve silent_dump_cores : quiet.
Lemma silent_clean_up : emits silent no_change (clean_up cfg).
Proof. quiet. Qed.

Lemma run_silent {A} (m : Go A) l s :
  emits silent no_change m → ∃ o t, run m l s = (o, l ++ t, s) ∧ milestones t = [].
Proof.
  intros Hm. destruct (pspec_run _ _ _ m l s Hm) as (o & t & s' & E & Ht & Hs & _).
  exists o, t. split; [by rewrite E, (rtc_no_change _ _ Hs)|by apply silent_milestones].
Qed.

Lemma run_progress p l s :
  run (LogProgressReport cfg p) l s = (Done (e_logs_progress l [p]), l ++ [progress_request cfg p], s).
Proof. done. Qed.

(** The upload: what the service learns of it, by its outcome. *)
Lemma run_uploadLogs input archive l s :
  ∃ o t, run (uploadLogs input archive) l s = (o, l ++ t, s) ∧
    match o with
    | Done None => milestones t = [LogsStateCollecting; "upload"]
    | Done (Some _) => milestones t = [LogsStateCollecting] ∨ milestones t = [LogsStateCollecting; "upload"]
    | _ => False
    end.
Proof.
  unfold uploadLogs.
  cbn [l_LogProgressReport l_Execute l_FileUploader executer LogsSenderExecuter executer_base].
  rewrite (run_bind_done _ _ _ _ _ _ _ (run_progress LogsStateCollecting l s)).
  unfold Execute, FileUploader, Open. rewrite !run_bind. cbn [run ask].
  destruct (e_run _ _ _) as [[o e] err]. cbn [run mret proc_ret].
  destruct (negb _); [eexists _, _; rewrite <-!(assoc_L (++)); split; [done|by left]|].
  rewrite run_bind. cbn [run ask]. destruct (e_open _ _) as [err'|].
  - eexists _, _; rewrite <-!(assoc_L (++)); split; [done|by left].
  - cbn [run ask]. eexists _, _; rewrite <-!(assoc_L (++)); split; [done|].
    destruct (e_upload_logs _ _); [by right|done].
Qed.

(** *** What the partial collection tells the service *)
(** The milestones of a goroutine that reports, [ready] when it has said that it
    collects and not uploaded since. *)
Fixpoint reports {A} (ready : bool) (m : proc request (shared * sync) A) : Prop :=
  match m with
  | PAsk r f k =>
      match milestone r with
      | None => ∀ l, reports ready (k (f l))
      | Some w => (w = LogsStateCollecting ∧ ∀ l, reports true (k (f l))) ∨
                  (w = "upload" ∧ ready = true ∧ ∀ l, reports false (k (f l)))
      end
  | PState f k => ∀ s, (f s).2.1 = s.1 ∧ reports ready (k (f s).1)
  | _ => True
  end.
Notation keeps := (λ s s' : shared * sync, s'.1 = s.1).

(** A run tells the service no more than partial uploads, and leaves the shared
    memory alone. *)
Definition tells {A} (ready : bool) (m : Go A) : Prop := ∀ l s,
  ∃ o t, run m l s = (o, l ++ t, s) ∧ partial_uploads ready (milestones t) = true.

Lemma tells_end {A} ready (m : Go A) o : (∀ l s, run m l s = (o, l, s)) → tells ready m.
Proof. intros E l s. exists o, []. by rewrite E, app_nil_r. Qed.
Lemma tells_ask {A X} ready ready' r (f : log → X) (k : X → Go A) :
  (∀ ms, partial_uploads ready' ms = true → partial_uploads ready (milestones [r] ++ ms) = true) →
  (∀ l, tells ready' (k (f l))) → tells ready (PAsk r f k).
Proof.
  intros Hr Hk l s. cbn [run]. destruct (Hk l (l ++ [r]) s) as (o & t & E & Ht).
  exists o, ([r] ++ t). rewrite E, milestones_app. rewrite <-(assoc_L (++)). split; [done|by apply Hr].
Qed.
Lemma tells_state {A X} ready (f : shared → X * shared) (k : X → Go A) :
  (∀ s, (f s).2 = s ∧ tells ready (k (f s).1)) → tells ready (PState f k).
Proof.
  intros H l s. cbn [run]. destruct (H s) as [E Hk]. destruct (f s) as [x s']. cbn in *. subst s'. apply Hk.
Qed.
Lemma tells_exit {A} ready code : tells ready (exit_process code : Go A).
Proof. intros l s. by exists Blocked, [RExit code]. Qed.

Lemma tells_by_turns {A B} turns : ∀ (c : proc request (shared * sync) A) (k : proc request (shared * sync) B) ready y,
  reports ready c → emits silent keeps k → tells ready (by_turns turns c k y).
Proof.
  induction turns as [|turn turns IH]; intros c k ready y Hc Hk.
  { destruct c; cbn [by_turns]; try apply tells_exit; destruct k; by eapply tells_end. }
  destruct c as [a| | |X r f c'|X f c']; cbn [by_turns]; try apply tells_exit;
    destruct k as [b| | |Y r' f' k'|Y f' k']; try (by eapply tells_end); destruct turn; try (by apply IH).
  all: try (apply tells_state; intros s; cbn [fst snd]; first
      [by destruct (Hk (s, y)) as [E H]; split; [|apply IH]|by destruct (Hc (s, y)) as [E H]; split; [|apply IH]]).
  all: try (destruct Hk as [Hr Hk];
      apply (tells_ask _ ready); [intros ms; unfold milestones; cbn; by rewrite Hr|intros l; by apply IH]).
  all: cbn [reports] in Hc; destruct (milestone r) as [w|] eqn:Hw;
      [destruct Hc as [[-> Hc]|(-> & -> & Hc)]; eapply tells_ask|apply (tells_ask _ ready)];
      try (intros ms Hms; unfold milestones; cbn; rewrite Hw; exact Hms); intros l; by apply IH.
Qed.

Lemma uploads_ready ms : partial_uploads false ms = true → partial_uploads true ms = true.
Proof. destruct ms as [|m ms]; cbn; [done|]. destruct (String.eqb m LogsStateCollecting); [done|]. by rewrite andb_false_r. Qed.
Lemma uploads_app ready ms ms' :
  partial_uploads ready ms = true → partial_uploads false ms' = true → partial_uploads ready (ms ++ ms') = true.
Proof.
  intros H H'. revert ready H. induction ms as [|m ms IH]; intros ready; cbn [app partial_uploads].
  - intros _. destruct ready; [by apply uploads_ready|done].
  - destruct (String.eqb m LogsStateCollecting); [apply IH|]. rewrite !andb_true_iff. intros [H1 H2]. auto.
Qed.
Lemma tells_bind {A B} (m : Go A) (f : A → Go B) :
  tells false m → (∀ a, tells false (f a)) → tells false (m ≫= f).
Proof.
  intros Hm Hf l s. destruct (Hm l s) as (o & t & E & Ht). rewrite run_bind, E.
  destruct o as [a| |]; [|by eexists _, t..]. destruct (Hf a (l ++ t) s) as (o' & t' & E' & Ht').
  exists o', (t ++ t'). rewrite E', <-(assoc_L (++)), milestones_app. split; [done|by apply uploads_app].
Qed.
Lemma silent_tells {A} (m : Go A) : emits silent no_change m → tells false m.
Proof. intros Hm l s. destruct (run_silent m l s Hm) as (o & t & E & Ht). exists o, t. by rewrite Ht. Qed.

(** The partial collection and the method that starts it *)
Lemma reports_lift {A B} ready (m : Go A) (f : A → proc request (shared * sync) B) d :
  returns silent no_change m → (∀ a, reports ready (defer d (f a))) → reports ready (defer d (lift m ≫= f)).
Proof.
  unfold mbind, proc_bind. intros Hm Hf. revert Hm.
  induction m as [a| | |X r g k IH|X g k IH]; cbn [spec lift proc_bind_go defer reports]; [auto|done..| |].
  - intros [Hr Hk]. rewrite Hr. auto.
  - intros Hk s. destruct (Hk s.1) as [E H]. cbn [fst snd]. by split; [|apply IH].
Qed.
Lemma reports_ready {A} (m : proc request (shared * sync) A) : reports false m → reports true m.
Proof.
  induction m as [a| | |X r f k IH|X f k IH]; cbn [reports]; auto.
  - destruct (milestone r); [intros [H|(_ & ? & _)]; [by left|done]|auto].
  - intros H s. destruct (H s). auto.
Qed.
Lemma reports_upload {A} dir archive (f : option error → proc request (shared * sync) A) d ready :
  (∀ res, reports false (defer d (f res))) →
  reports ready (defer d (lift (uploadLogs (l := simple_executer cfg) dir archive) ≫= f)).
Proof.
  intros Hf. unfold uploadLogs. cbn [l_LogProgressReport l_Execute l_FileUploader simple_executer executer_base].
  left. split; [done|]. intros l. cbn. intros l1. destruct (e_run _ _ _) as [[o e] err]. cbn.
  destruct (negb _); cbn; [by apply reports_ready|]. intros l2. destruct (e_open _ _); cbn; [by apply reports_ready|].
  right. auto.
Qed.

Lemma reports_collection fuel dir id : reports false (CollectPartialLogs cfg fuel dir id).
Proof.
  assert (Hdone : ∀ ready, reports ready (defer wg_Done (mret ()))).
  { intros ready s. split; [done|]. cbn. by destruct (_ <? 0)%Z. }
  unfold CollectPartialLogs. apply reports_lift; [unfold CreateFolderIfNotExist; prog_steps|].
  intros [err|]; [apply Hdone|].
  induction fuel as [|fuel IH]; cbn [collect_loop]; [done|].
  apply reports_lift; [done|]. intros tick s. split; [done|]. cbn [fst shared_do proc_bind proc_bind_go].
  destruct (collect_cancelled s.2 && negb tick); apply reports_lift; [done|intros _; apply Hdone|prog_steps|].
  intros [[o e] c]. destruct (negb _); [done|]. by apply reports_upload.
Qed.

Lemma silent_wg_Wait fuel : emits silent keeps (wg_Wait fuel).
Proof. induction fuel as [|fuel IH]; [done|]. intros s. split; [done|]. cbn. by destruct (_ =? 0)%Z. Qed.
Lemma silent_gather_after_go fuel dir id : emits silent keeps (gather_after_go cfg fuel dir id).
Proof.
  apply emits_bind; [intros s; split; [done|]; cbn; by destruct (_ <? 0)%Z|intros _].
  apply emits_bind.
  { assert (H : returns silent no_change (gather_scripts cfg id dir)).
    { unfold gather_scripts, ExecutePrivileged. cbn [buildPrivilegedCommand]. prog_steps. }
    revert H. generalize (gather_scripts cfg id dir). intros m.
    induction m as [a| | |X r g k IH|X g k IH]; cbn [spec pspec lift]; [done..| |].
    - intros [Hr Hk]. auto.
    - intros Hk s. destruct (Hk s.1) as [E H]. cbn [fst snd]. auto. }
  intros errs. apply emits_bind; [done|]. intros _. apply emits_bind; [apply silent_wg_Wait|done].
Qed.
Lemma tells_GatherInstallerLogs dir : tells false (GatherInstallerLogs cfg format_time dir).
Proof.
  unfold GatherInstallerLogs. apply tells_bind; [by apply silent_tells|]. intros now.
  apply tells_bind; [by apply silent_tells|]. intros choices. apply tells_bind.
  - apply tells_by_turns; [apply reports_collection|apply silent_gather_after_go].
  - intros [errs []]; by eapply tells_end.
Qed.

(** The gathering: what it tells the service are partial uploads, of the
    installer's logs. *)
Lemma run_gather_logs l s :
  ∃ o t, run (gather_logs cfg) l s = (o, l ++ t, s) ∧ partial_uploads false (milestones t) = true ∧
    (InstallerGatherlogging cfg && IsBootstrap cfg = false → milestones t = []).
Proof.
  destruct (InstallerGatherlogging cfg && IsBootstrap cfg) eqn:Hb.
  - assert (H : tells false (gather_logs cfg)).
    { unfold gather_logs. rewrite Hb. do 4 (apply tells_bind; [apply silent_tells; quiet_methods|intros ?]).
      apply tells_bind; [apply tells_GatherInstallerLogs|]. intros es. by eapply tells_end. }
    destruct (H l s) as (o & t & E & Ht). by exists o, t.
  - destruct (run_silent (gather_logs cfg) l s) as (o & t & E & Ht).
    { unfold gather_logs. rewrite Hb. quiet_methods. }
    exists o, t. by rewrite Ht.
Qed.

(** The body: folder, gathering, report, upload. [partial] is what the partial
    collection tells. *)
Definition partial_reports (partial : list string) : Prop :=
  partial_uploads false partial = true ∧ (InstallerGatherlogging cfg && IsBootstrap cfg = false → partial = []).

Lemma run_send_body l s :
  ∃ o t partial, run (send_body cfg) l s = (o, l ++ t, s) ∧ partial_reports partial ∧
    match o with
    | Done (None, _) => milestones t = partial ++ [LogsStateCollecting; "upload"; LogsStateCompleted]
    | Done (Some _, _) => ∃ ms, milestones t = partial ++ ms ∧
                                ms ∈ [[]; [LogsStateCollecting]; [LogsStateCollecting; "upload"]]
    | _ => milestones t = partial
    end.
Proof.
  unfold send_body.
  destruct (run_silent (l_CreateFolderIfNotExist (logsTmpFilesDir cfg)) l s) as (o1 & t1 & E1 & H1); [quiet_methods|].
  rewrite run_bind, E1.
  destruct o1 as [[err|]| |];
    [exists (Done (Some err, "")), t1, []; split; [done|]; split; [done|]; exists []; by rewrite H1; split; [|left]
    | |by eexists _, t1, []..].
  destruct (run_gather_logs (l ++ t1) s) as (o2 & t2 & E2 & H2).
  rewrite run_bind, E2, <-!(assoc_L (++)).
  destruct o2 as [errs| |];
    [|by eexists _, (t1 ++ t2), (milestones t2); split; [done|]; split; [done|]; rewrite milestones_app, H1..].
  match goal with |- context [run (?m ≫= _) _ _] => destruct (run_silent m (l ++ t1 ++ t2) s) as (o3 & t3 & E3 & H3) end.
  { destruct errs; quiet_methods. }
  rewrite run_bind, E3, <-!(assoc_L (++)).
  destruct o3 as [report| |];
    [|by eexists _, (t1 ++ t2 ++ t3), (milestones t2); split; [done|]; split; [done|];
        rewrite !milestones_app, H1, H3, app_nil_r..].
  destruct (run_uploadLogs (logsTmpFilesDir cfg) archivePath (l ++ t1 ++ t2 ++ t3) s) as (o4 & t4 & E4 & H4).
  rewrite run_bind, E4. destruct o4 as [[err|]| |]; [| |done..].
  - eexists _, ((t1 ++ t2 ++ t3) ++ t4), (milestones t2). rewrite <-!(assoc_L (++)). split; [done|]. split; [done|].
    exists (milestones t4). rewrite !milestones_app, H1, H3. split; [done|].
    destruct H4 as [-> | ->]; [right; left|right; right; left].
  - cbn [l_LogProgressReport executer LogsSenderExecuter executer_base].
    rewrite (run_bind_done _ _ _ _ _ _ _ (run_progress LogsStateCompleted _ s)).
    eexists _, ((t1 ++ t2 ++ t3) ++ t4 ++ [progress_request cfg LogsStateCompleted]), (milestones t2).
    rewrite <-!(assoc_L (++)). split; [done|]. split; [done|].
    by rewrite !milestones_app, H1, H3, H4.
Qed.

Lemma run_clean_up l s :
  run (clean_up cfg) l s = (Done (), l ++ (if CleanWhenDone cfg
    then [RFsOp "RemoveAll" [logsTmpFilesDir cfg]; RFsOp "Remove" [archivePath]] else []), s).
Proof.
  unfold clean_up. destruct (CleanWhenDone cfg); [|by rewrite app_nil_r].
  unfold FsOp. rewrite !run_bind. cbn [run ask]. rewrite run_bind. cbn [run ask]. by rewrite <-(assoc_L (++)).
Qed.


(** The list of core dumps can be read: coredumpctl fails, or every line has the
    ten fields that are indexed. *)
Definition dumps_listed (answer : string * string * option error) : Prop :=
  getExitCode answer.2 ≠ 0%Z ∨
  Forall (λ dump, 10 <= length (Fields dump)) (Split (TrimSuffix answer.1.1 nls) nl).
Definition list_dumps : list string := (buildPrivilegedCommand "coredumpctl" ["list"; "--no-legend"]).2.

(** Gathering returns unless the list of core dumps is unreadable or the partial
    collection takes part. *)
Lemma getJournalLogs_returns since f p : returns (λ _, True) no_change (getJournalLogs since f p).
Proof.
  unfold getJournalLogs. cbn [l_ExecutePrivilegedToFile executer LogsSenderExecuter executer_base].
  unfold ExecutePrivilegedToFile, ExecuteOutputToFile. cbn [buildPrivilegedCommand]. prog_steps.
Qed.
Lemma dump_cores_returns errors_of installer_of d dumps :
  Forall (λ dump, 10 <= length (Fields dump)) dumps →
  returns (λ _, True) no_change (dump_cores (l := executer_base cfg errors_of installer_of) d dumps).
Proof.
  induction 1 as [|dump dumps Hd _ IH]; cbn [dump_cores]; [done|].
  apply returns_bind; [|by intros []]. unfold dump_core.
  apply returns_bind; [apply returns_or_panic, lookup_lt_is_Some; lia|]. intros pid.
  apply returns_bind; [apply returns_or_panic, lookup_lt_is_Some; lia|]. intros exe.
  cbn [l_ExecutePrivileged executer_base]. prog_steps.
Qed.
Lemma GatherErrorLogs_returns dir :
  (∀ l, dumps_listed (e_run l "nsenter" list_dumps)) → returns (λ _, True) no_change (GatherErrorLogs cfg dir).
Proof.
  intros Hd. unfold GatherErrorLogs.
  apply returns_bind; [unfold getDmesgLogs; cbn [l_ExecuteOutputToFile simple_executer executer_base];
    unfold ExecuteOutputToFile; prog_steps|]. intros e1.
  apply returns_bind.
  { unfold getCoreDumps. cbn [l_ExecutePrivileged simple_executer executer_base].
    apply (spec_bind _ _ (λ '(stdout, _, code), code ≠ 0%Z ∨
      Forall (λ dump, 10 <= length (Fields dump)) (Split (TrimSuffix stdout nls) nl))).
    - unfold ExecutePrivileged, Execute. cbn [buildPrivilegedCommand]. split; [done|]. intros l.
      specialize (Hd l). unfold list_dumps, dumps_listed in Hd. cbn [buildPrivilegedCommand snd] in Hd.
      destruct (e_run _ _ _) as [[o e] err]. exact Hd.
    - intros [[stdout e] c] H. destruct (Z.eqb_spec c 0) as [->|Hc]; cbn [negb]; [|done].
      apply dump_cores_returns. by destruct H. }
  intros e2. apply returns_bind; [|done].
  unfold getJournalLogs. cbn [l_ExecutePrivilegedToFile simple_executer executer_base].
  unfold ExecutePrivilegedToFile, ExecuteOutputToFile. cbn [buildPrivilegedCommand]. prog_steps.
Qed.
Lemma gather_logs_returns :
  InstallerGatherlogging cfg && IsBootstrap cfg = false →
  (InstallerGatherlogging cfg = true → ∀ l, dumps_listed (e_run l "nsenter" list_dumps)) →
  returns (λ _, True) no_change (gather_logs cfg).
Proof.
  intros Hi Hd. unfold gather_logs. rewrite Hi.
  assert (Hc : ∀ f r d c a, returns (λ _, True) no_change (LogPrivilegedCommandOutput f r d c a)).
  { intros. unfold LogPrivilegedCommandOutput, loglnToFile, logToFile, FsOp. prog_steps. }
  apply returns_bind; [unfold getMountLogs, logDisksByCategory; prog_steps|]. intros mounts.
  apply returns_bind; [apply returns_foldP; intros res tag; unfold tag_logs;
    apply returns_bind; [apply getJournalLogs_returns|done]|]. intros tagged.
  apply returns_bind.
  { apply returns_foldP. intros res name. unfold service_logs.
    cbn [l_ExecutePrivileged executer LogsSenderExecuter executer_base]. apply returns_bind; [prog_steps|].
    intros [[stdout e] c]. destruct (negb _); [done|]. apply returns_bind; [apply getJournalLogs_returns|done]. }
  intros serviced. apply returns_bind; [|done]. destruct (InstallerGatherlogging cfg); [|done].
  apply returns_bind; [by apply GatherErrorLogs_returns, Hd|done].
Qed.

(** C20. The logs reach a service that takes them: on a host where the folder
    is there, tar works and the archive can be opened, sending succeeds whatever
    fails in gathering, and the report of what went wrong is returned. The
    installer's logs of the bootstrap host, which the partial collection goes
    with, must not be asked for; and where the error logs are, coredumpctl must
    fail or list every dump with ten fields, for a shorter line makes the sender
    panic. *)
Theorem logs_are_sent l s :
  InstallerGatherlogging cfg && IsBootstrap cfg = false →
  (InstallerGatherlogging cfg = true → ∀ l', dumps_listed (e_run l' "nsenter" list_dumps)) →
  (∀ l', is_good (e_stat l' (logsTmpFilesDir cfg)) = true) →
  (∀ l' args, (e_run l' "tar" args).2 = None) →
  (∀ l', e_open l' archivePath = None) →
  (∀ l', e_upload_logs l' [archivePath] = None) →
  ∃ report l', run (SendLogs cfg) l s = (Done (None, report), l', s).
Proof.
  intros Hi Hd Hstat Htar Hopen Hup. unfold SendLogs. cbn [l_LogProgressReport executer LogsSenderExecuter executer_base].
  rewrite (run_bind_done _ _ _ _ _ _ _ (run_progress LogsStateRequested l s)), run_defer.
  generalize (l ++ [progress_request cfg LogsStateRequested]). clear l. intros l.
  assert (E : ∃ report l', run (send_body cfg) l s = (Done (None, report), l', s)).
  { unfold send_body. cbn [l_CreateFolderIfNotExist executer LogsSenderExecuter executer_base].
    unfold CreateFolderIfNotExist, Stat. rewrite run_bind, run_bind. cbn [run ask].
    specialize (Hstat l). destruct (e_stat l _) as [i|e]; [|discriminate Hstat]. cbn [run mret proc_ret].
    destruct (spec_run _ _ _ _ (l ++ [RFile "Stat" (logsTmpFilesDir cfg)]) s (gather_logs_returns Hi Hd))
      as (errs & t & s' & E & _ & _ & Hs). rewrite <-(rtc_no_change _ _ Hs) in E.
    rewrite (run_bind_done _ _ _ _ _ _ _ E). rewrite run_bind.
    match goal with |- context [run ?m ?l1 s] =>
      assert (Er : ∃ report l', run m l1 s = (Done report, l', s)) by (destruct errs; eexists _, _; done) end.
    destruct Er as (report & l2 & ->).
    assert (Eu : ∃ l', run (uploadLogs (logsTmpFilesDir cfg) archivePath) l2 s = (Done None, l', s)).
    { unfold uploadLogs. cbn [l_LogProgressReport l_Execute l_FileUploader executer LogsSenderExecuter executer_base].
      rewrite (run_bind_done _ _ _ _ _ _ _ (run_progress LogsStateCollecting l2 s)).
      unfold Execute, FileUploader, Open. rewrite !run_bind. cbn [run ask].
      match goal with |- context [e_run ?l0 "tar" ?a] => specialize (Htar l0 a); destruct (e_run l0 "tar" a) as [[o e] err] end.
      cbn in Htar. subst err. cbn [getExitCode run mret proc_ret]. change (negb (0 =? 0)%Z) with false. cbv iota.
      rewrite run_bind. cbn [run ask]. rewrite Hopen. cbn [run ask]. rewrite Hup. by eexists. }
    destruct Eu as [l3 E3]. rewrite (run_bind_done _ _ _ _ _ _ _ E3).
    cbn [l_LogProgressReport executer LogsSenderExecuter executer_base].
    rewrite (run_bind_done _ _ _ _ _ _ _ (run_progress LogsStateCompleted l3 s)). by eexists _, _. }
  destruct E as (report & l' & ->). rewrite run_clean_up. by eexists _, _.
Qed.

(** A list of core dumps that is empty makes the sender panic: the fields of a
    line that has none are indexed. *)
Lemma empty_dump_list_panics d l s stdout :
  (e_run l "nsenter" (buildPrivilegedCommand "coredumpctl" ["list"; "--no-legend"]).2) = (stdout, "", None) →
  Fields stdout = [] → Split (TrimSuffix stdout nls) nl = [stdout] →
  (run (getCoreDumps d) l s).1.1 = Panicked.
Proof.
  intros E Hf Hs. unfold getCoreDumps. cbn [l_ExecutePrivileged executer LogsSenderExecuter executer_base].
  unfold ExecutePrivileged, Execute. cbn [buildPrivilegedCommand]. rewrite !run_bind. cbn [run ask buildPrivilegedCommand snd] in *.
  rewrite E. cbn [getExitCode run mret proc_ret]. change (negb (0 =? 0)%Z) with false. cbv iota.
  rewrite Hs. cbn [dump_cores]. unfold dump_core. rewrite Hf. done.
Qed.

(** ** The partial collection *)
(** *** When the folder can be made

    Where the two goroutines are: [collecting seen m] is what the collection has
    left to do, [seen] when it knows that the context is cancelled, and only then
    does it count itself off; the caller is [before] it counts the goroutine,
    [gathering] until it cancels the context, then [waiting], [zero] when it has
    read a counter of zero. None of them panics or changes the counter or the
    context otherwise. *)
Notation both := (proc request (shared * sync)).
Notation gathered := (list error * bool)%type.

Fixpoint ending {A} (m : both A) : Prop :=
  match m with
  | PRet _ => True
  | PPanic => False
  | PBlock => True
  | PAsk r f k => ∀ l, ending (k (f l))
  | PState f k => ∀ s, (f s).2.2 = s.2 ∧ ending (k (f s).1)
  end.
Fixpoint collecting {A} (seen : bool) (m : both A) : Prop :=
  match m with
  | PRet _ => False
  | PPanic => False
  | PBlock => True
  | PAsk r f k => ∀ l, collecting seen (k (f l))
  | PState f k =>
      (∀ s, (f s).2.2 = s.2 ∧ collecting (seen || collect_cancelled s.2) (k (f s).1)) ∨
      (seen = true ∧ ∀ s, (f s).2.2 = Sync (wg s.2 - 1) (collect_cancelled s.2) ∧
                          (1 <= wg s.2 → ending (k (f s).1))%Z)
  end.
Fixpoint waiting (zero : bool) (m : both gathered) : Prop :=
  match m with
  | PRet res => res.2 = true → zero = true
  | PPanic => False
  | PBlock => True
  | PAsk r f k => ∀ l, waiting zero (k (f l))
  | PState f k => ∀ s, (f s).2.2 = s.2 ∧ waiting (zero || (wg s.2 =? 0)%Z) (k (f s).1)
  end.
Fixpoint gathering (m : both gathered) : Prop :=
  match m with
  | PRet _ => False
  | PPanic => False
  | PBlock => True
  | PAsk r f k => ∀ l, gathering (k (f l))
  | PState f k =>
      (∀ s, (f s).2.2 = s.2 ∧ gathering (k (f s).1)) ∨
      (∀ s, (f s).2.2 = Sync (wg s.2) true ∧ waiting false (k (f s).1))
  end.
Definition before (m : both gathered) : Prop :=
  match m with
  | PState f k => ∀ s, (f s).2.2 = Sync (wg s.2 + 1) (collect_cancelled s.2) ∧ (0 <= wg s.2 → gathering (k (f s).1))%Z
  | _ => False
  end.

(** The states of the wait group and the context, with those of the goroutines. *)
Definition collection (c k : both gathered) (y : sync) : Prop :=
  (y = Sync 0 false ∧ collecting false c ∧ before k) ∨
  (y = Sync 1 false ∧ collecting false c ∧ gathering k) ∨
  (y = Sync 1 true ∧ collecting true c ∧ waiting false k) ∨
  (y = Sync 0 true ∧ ending c ∧ ∃ zero, waiting zero k).
Definition collection_inv (p : pool request (shared * sync) gathered) : Prop :=
  ∃ c k, p_procs p = [c; k] ∧ collection c k (p_shared p).2.

Lemma collecting_seen {A} (m : both A) : collecting false m → collecting true m.
Proof.
  induction m as [a| | |X r f k IH|X f k IH]; cbn [collecting]; auto.
  intros [H|[H _]]; [left|done]. intros s0. destruct (H s0) as [H1 H2]. split; [done|]. simpl in *.
  destruct (collect_cancelled s0.2); auto.
Qed.
Lemma collection_ask_collector {X} r (f : log → X) c k y l :
  collection (PAsk r f c) k y → collection (c (f l)) k y.
Proof. unfold collection. cbn [collecting ending]. naive_solver. Qed.
Lemma collection_ask_caller {X} r (f : log → X) c k y l :
  collection c (PAsk r f k) y → collection c (k (f l)) y.
Proof. unfold collection. cbn [before gathering waiting]. naive_solver. Qed.

Lemma collection_state_collector {X} (f : shared * sync → X * (shared * sync)) c k s :
  collection (PState f c) k s.2 → collection (c (f s).1) k (f s).2.2.
Proof.
  intros [(Hy & Hc & Hk)|[(Hy & Hc & Hk)|[(Hy & Hc & Hk)|(Hy & Hc & Hk)]]]; cbn [collecting ending] in Hc.
  - destruct Hc as [Hc|[? _]]; [|done]. destruct (Hc s) as [E H]. rewrite Hy in H, E. rewrite E. by left.
  - destruct Hc as [Hc|[? _]]; [|done]. destruct (Hc s) as [E H]. rewrite Hy in H, E. rewrite E. by right; left.
  - destruct Hc as [Hc|[_ Hc]]; destruct (Hc s) as [E H]; rewrite Hy in H, E; rewrite E.
    + by right; right; left.
    + right; right; right. split; [done|]. split; [apply H; simpl; lia|by exists false].
  - destruct (Hc s) as [E H]. rewrite E, Hy. by right; right; right.
Qed.

Lemma collection_state_caller {X} (f : shared * sync → X * (shared * sync)) c k s :
  collection c (PState f k) s.2 → collection c (k (f s).1) (f s).2.2.
Proof.
  intros [(Hy & Hc & Hk)|[(Hy & Hc & Hk)|[(Hy & Hc & Hk)|(Hy & Hc & zero & Hk)]]];
    cbn [before gathering waiting] in Hk.
  - destruct (Hk s) as [E H]. rewrite Hy in H, E. rewrite E. right; left. split; [done|].
    split; [done|]. apply H. simpl. lia.
  - destruct Hk as [Hk|Hk]; destruct (Hk s) as [E H]; rewrite Hy in E; rewrite E.
    + by right; left.
    + right; right; left. split; [done|]. split; [by apply collecting_seen|done].
  - destruct (Hk s) as [E H]. rewrite Hy in H, E. rewrite E. by right; right; left.
  - destruct (Hk s) as [E H]. rewrite E, Hy. right; right; right. split; [done|]. split; [done|]. by eexists.
Qed.

Lemma collection_inv_step p p' : pstep p p' → collection_inv p → collection_inv p'.
Proof.
  intros Hstep (c & k & Hp & H).
  destruct Hstep as [l s l1 l2 X r f x|l s l1 l2 X f x]; cbn [p_procs p_shared] in *;
    destruct l1 as [|c' [|k' l1]]; cbn [app] in Hp; try (destruct l1; discriminate Hp).
  - injection Hp as <- ->. eexists _, _. split; [done|]. by eapply collection_ask_collector in H.
  - injection Hp as -> <- ->. eexists _, _. split; [done|]. by eapply collection_ask_caller in H.
  - injection Hp as <- ->. eexists _, _. split; [done|]. by apply collection_state_collector.
  - injection Hp as -> <- ->. eexists _, _. split; [done|]. by apply collection_state_caller.
Qed.
Lemma collecting_mono {A} seen b (m : both A) : collecting seen m → collecting (seen || b) m.
Proof. destruct seen, b; try done. apply collecting_seen. Qed.

(** A computation that touches neither counter nor context *)
Lemma collecting_lift {A B} seen P G (Q : A → Prop) (m : Go A) (f : A → both B) d :
  spec P G Q m → (∀ a, Q a → collecting seen (defer d (f a))) → collecting seen (defer d (lift m ≫= f)).
Proof.
  unfold mbind, proc_bind. intros Hm Hf. revert Hm.
  induction m as [a| | |X r g k IH|X g k IH]; cbn [spec lift proc_bind_go defer collecting]; [auto|done..| |].
  - intros [_ Hk] l. apply IH, Hk.
  - intros Hk. left. intros s0. split; [done|]. apply collecting_mono, IH, Hk.
Qed.
Lemma gathering_lift {A} P G (Q : A → Prop) (m : Go A) (f : A → both gathered) :
  spec P G Q m → (∀ a, Q a → gathering (f a)) → gathering (lift m ≫= f).
Proof.
  unfold mbind, proc_bind. intros Hm Hf. revert Hm.
  induction m as [a| | |X r g k IH|X g k IH]; cbn [spec lift proc_bind_go gathering]; [auto|done..| |].
  - intros [_ Hk] l. apply IH, Hk.
  - intros Hk. left. intros s0. split; [done|]. apply IH, Hk.
Qed.

Lemma ending_ret {A B} (m : both A) (b : B) : ending m → ending (_ ← m; mret b).
Proof.
  unfold mbind, proc_bind. induction m as [a| | |X r g k IH|X g k IH]; cbn [ending proc_bind_go]; auto.
  intros H s0. destruct (H s0). auto.
Qed.
Lemma collecting_ret {A B} seen (m : both A) (b : B) : collecting seen m → collecting seen (_ ← m; mret b).
Proof.
  unfold mbind, proc_bind. revert seen. induction m as [a| | |X r g k IH|X g k IH]; intros seen;
    cbn [collecting proc_bind_go]; try done; [auto|].
  intros [H|[Hs H]]; [left|right; split; [done|]]; intros s0; destruct (H s0) as [E Hk]; (split; [done|]).
  - auto.
  - intros Hw. by apply ending_ret, Hk.
Qed.

Lemma waiting_wg_Wait fuel zero (errs : list error) : waiting zero (waited ← wg_Wait fuel; mret (errs, waited)).
Proof.
  revert zero. induction fuel as [|fuel IH]; intros zero; cbn [wg_Wait]; [done|].
  intros s0. split; [done|]. cbn [fst shared_do proc_bind proc_bind_go].
  destruct (wg s0.2 =? 0)%Z; [intros _; by rewrite orb_true_r|apply IH].
Qed.

(** The parts that run themselves always return. *)
Lemma uploadLogs_returns input archive :
  returns (λ _, True) no_change (uploadLogs (l := simple_executer cfg) input archive).
Proof.
  unfold uploadLogs. cbn [l_LogProgressReport l_Execute l_FileUploader simple_executer executer_base].
  unfold LogProgressReport, FileUploader. prog_steps.
Qed.
Lemma gather_scripts_returns id dir : returns (λ _, True) no_change (gather_scripts cfg id dir).
Proof. unfold gather_scripts, ExecutePrivileged. cbn [buildPrivilegedCommand]. prog_steps. Qed.

Lemma collecting_loop fuel dir id : collecting false (defer wg_Done (collect_loop cfg fuel dir id)).
Proof.
  induction fuel as [|fuel IH]; cbn [collect_loop]; [done|].
  eapply (collecting_lift _ (λ _, True) no_change (λ _, True)); [done|]. intros tick _. left. intros s0.
  split; [done|]. cbn [fst shared_do proc_bind proc_bind_go].
  assert (Hround : ∀ seen, collecting seen (defer wg_Done (
    '(_, errOut, execCode) ← lift (Execute "tar"
       ["-czvf"; partial_archive dir; "-C"; Dir ("/tmp/artifacts-" +:+ id); Base ("/tmp/artifacts-" +:+ id)]);
    if negb (execCode =? 0)%Z then collect_loop cfg fuel dir id else
    _ ← lift (uploadLogs (l := simple_executer cfg) dir (logsDir +:+ "/logs.tar.gz"));
    collect_loop cfg fuel dir id))).
  { intros seen. apply (collecting_mono false seen) in IH.
    eapply (collecting_lift _ (λ _, True) no_change (λ _, True)); [by apply spec_Execute|].
    intros [[o e] c] _. destruct (negb _); [done|].
    eapply collecting_lift; [apply uploadLogs_returns|done]. }
  destruct (collect_cancelled s0.2); cbn [andb]; [destruct tick; cbn [negb]|]; [apply Hround| |apply Hround].
  eapply (collecting_lift _ (λ _, True) no_change (λ _, True)); [done|]. intros _ _.
  right. split; [done|]. intros s1. split; [done|]. intros Hw. cbn.
  destruct (Z.ltb_spec (wg s1.2 + -1) 0); [lia|done].
Qed.

Definition collector (fuel : nat) (dir id : string) : both gathered :=
  _ ← CollectPartialLogs cfg fuel dir id; mret ([], true).

Lemma collecting_collector fuel dir id :
  (∀ l, is_good (e_stat l (path_join [dir; "partial"])) = true) ∨
  (∀ l, e_fs_op l "MkdirAll" [path_join [dir; "partial"]] = None) →
  collecting false (collector fuel dir id).
Proof.
  intros Hmk. unfold collector, CollectPartialLogs. apply collecting_ret.
  eapply (collecting_lift _ (λ _, True) no_change (λ o, o = None)); [|intros err ->; apply collecting_loop].
  unfold CreateFolderIfNotExist, Stat, FsOp. split; [done|]. intros l.
  destruct Hmk as [Hst|Hmk]; [specialize (Hst l)|]; cbn [proc_bind proc_bind_go];
    destruct (e_stat l _) as [i|e]; [done|discriminate Hst|done|].
  destruct (is_not_exist e); [|done]. split; [done|]. intros l'. apply Hmk.
Qed.

Lemma before_caller fuel dir id : before (gather_after_go cfg fuel dir id).
Proof.
  intros s0. split; [done|]. intros Hw. cbn [fst shared_do proc_bind proc_bind_go].
  destruct (Z.ltb_spec (wg s0.2 + 1) 0); [lia|].
  eapply gathering_lift; [apply gather_scripts_returns|]. intros errs _. right. intros s1. split; [done|].
  apply waiting_wg_Wait.
Qed.

(** C9. When the folder of the partial logs can be made, counting the goroutine
    late does no harm: in every interleaving the counter of the wait group is
    never negative, neither goroutine panics, and when the caller has waited the
    partial collection has been cancelled and has counted itself off. *)
Theorem partial_collection_is_waited_for fuel fuel' dir id l s p :
  (∀ l, is_good (e_stat l (path_join [dir; "partial"])) = true) ∨
  (∀ l, e_fs_op l "MkdirAll" [path_join [dir; "partial"]] = None) →
  rtc pstep (Pool l (s, Sync 0 false) [collector fuel dir id; gather_after_go cfg fuel' dir id]) p →
  (0 <= wg (p_shared p).2)%Z ∧ PPanic ∉ p_procs p ∧
  ∀ c errs, p_procs p = [c; PRet (errs, true)] → (p_shared p).2 = Sync 0 true ∧ ending c.
Proof.
  intros Hmk Hrun.
  assert (H : collection_inv p).
  { refine (invariant_rtc _ _ _ _ collection_inv_step Hrun _).
    exists (collector fuel dir id), (gather_after_go cfg fuel' dir id). split; [done|].
    left. split; [done|]. split; [by apply collecting_collector|apply before_caller]. }
  destruct H as (c & k & Hp & H). rewrite Hp. split_and!.
  - destruct H as [(-> & _)|[(-> & _)|[(-> & _)|(-> & _)]]]; simpl; lia.
  - intros Hin. rewrite !elem_of_cons in Hin. destruct Hin as [<- |[<- |Hin]]; [..|by apply not_elem_of_nil in Hin];
      revert H; unfold collection; cbn [collecting ending before gathering waiting]; naive_solver.
  - intros c' errs E. injection E as <- ->. revert H. unfold collection. cbn [before gathering waiting snd].
    naive_solver.
Qed.
(** The goroutine of the partial collection is started before it is counted:
    when its folder cannot be made, there is an interleaving in which it ends
    before the caller has counted it, the counter of the wait group becomes
    negative and the goroutine panics, and with it the logs sender. *)
Theorem partial_collection_can_panic fuel fuel' dir id l s e e' :
  let partial := path_join [dir; "partial"] in
  e_stat l partial = Bad e → is_not_exist e = true →
  e_fs_op (l ++ [RFile "Stat" partial]) "MkdirAll" [partial] = Some e' →
  ∃ p, rtc pstep (Pool l (s, Sync 0 false) [collector fuel dir id; gather_after_go cfg fuel' dir id]) p ∧
    PPanic ∈ p_procs p.
Proof.
  intros partial Hst He Hmk.
  assert (E : collector fuel dir id =
    PAsk (RFile "Stat" partial) (λ l, e_stat l partial) (λ st, _ ← defer wg_Done (
      err ← lift (match st with
                  | Bad err => if is_not_exist err then FsOp "MkdirAll" [partial] else mret None
                  | Good _ => mret None
                  end);
      match err with Some _ => mret () | None => collect_loop cfg fuel dir id end); mret ([], true))) by reflexivity.
  rewrite E. clear E. eexists. split.
  - eapply rtc_l; [apply (pstep_ask _ _ [])|]. cbv beta. rewrite Hst, He.
    eapply rtc_l; [apply (pstep_ask _ _ [])|]. cbv beta. rewrite Hmk.
    eapply rtc_l; [apply (pstep_state _ _ [])|]. apply rtc_refl.
  - left.
Qed.
End Facts.

(** * A concrete host *)
Module LogsDemo.
Definition info : file_info := FileInfo "logs" true false 0 0 0.
(** Everything works, but the folder partial cannot be made. *)
Definition host : Env := {|
  e_run := λ _ _ _, ("", "", None);
  e_run_to_file := λ _ _ _ _, ("no journal", Some (Err (KExit 1) "exit status 1"));
  e_create := λ _ _, None;
  e_read_file := λ _ _, Bad enoent;
  e_stat := λ _ p, if HasSuffix p "partial" then Bad enoent else Good info;
  e_read_dir := λ _ _, Bad enoent;
  e_eval_symlinks := λ _ _, Bad enoent;
  e_abs := λ _ p, Good p;
  e_open := λ _ _, None;
  e_read_full := λ _ _ _, None;
  e_write_file := λ _ _ _, None;
  e_fs_op := λ _ _ _, Some (errorf "read-only file system");
  e_now := λ _, 0%Z;
  e_timer_fired := λ _, true;
  e_schedule := λ _, []
|}.
Definition service : LogsService := {| e_upload_logs := λ _ _, None; e_logs_progress := λ _ _, None |}.
Definition agent : AgentConfig :=
  mkAgentConfig (mkDryRunConfig false "" "" "" "" "")
    (mkConnectivityConfig "https://svc" "" "env" "v1" "" false "") 60 "host" (mkLoggingConfig false true false).
Definition cfg : LogsSenderConfig :=
  mkLogsSenderConfig (mkLoggingConfig false true false) agent ["agent"] [] "" "host" "cluster" "env" "https://svc" "" true false false "".
Definition format (t : Z) : string := "20240101000000".
(** The bootstrap host: the folders are there, the commands work, and the
    partial collection gets enough turns for one upload. *)
Definition bootstrap_cfg : LogsSenderConfig :=
  mkLogsSenderConfig (mkLoggingConfig false true false) agent ["agent"] [] "" "host" "cluster" "env" "https://svc" ""
    true true true "10.0.0.2".
Definition bootstrap_host : Env := {|
  e_run := λ _ _ args, (if bool_decide ("coredumpctl" ∈ args) then "" else "", "",
                        if bool_decide ("coredumpctl" ∈ args) then Some (Err (KExit 1) "no dumps") else None);
  e_run_to_file := λ _ _ _ _, ("", None);
  e_create := λ _ _, None;
  e_read_file := λ _ _, Bad enoent;
  e_stat := λ _ _, Good info;
  e_read_dir := λ _ _, Bad enoent;
  e_eval_symlinks := λ _ _, Bad enoent;
  e_abs := λ _ p, Good p;
  e_open := λ _ _, None;
  e_read_full := λ _ _ _, None;
  e_write_file := λ _ _ _, None;
  e_fs_op := λ _ _ _, None;
  e_now := λ _, 0%Z;
  e_timer_fired := λ l, negb (existsb (λ r, bool_decide (milestone r = Some "upload")) l);
  e_schedule := λ _, replicate 9 0 ++ replicate 8 1 ++ replicate 20 0 ++ replicate 5 1
|}.
(** A worker whose error logs are asked for, and one core dump *)
Definition worker_cfg : LogsSenderConfig :=
  mkLogsSenderConfig (mkLoggingConfig false true false) agent ["agent"] [] "" "host" "cluster" "env" "https://svc" ""
    true false true "".
Definition dumps_host : Env := {|
  e_run := λ _ _ args, (if bool_decide (args = list_dumps)
    then "Mon 2024-01-01 00:00:00 UTC 17 0 0 SIGSEGV present /usr/bin/podman" +:+ nls else "", "", None);
  e_run_to_file := λ _ _ _ _, ("no journal", Some (Err (KExit 1) "exit status 1"));
  e_create := λ _ _, None;
  e_read_file := λ _ _, Bad enoent;
  e_stat := λ _ _, Good info;
  e_read_dir := λ _ _, Bad enoent;
  e_eval_symlinks := λ _ _, Bad enoent;
  e_abs := λ _ p, Good p;
  e_open := λ _ _, None;
  e_read_full := λ _ _ _, None;
  e_write_file := λ _ _ _, None;
  e_fs_op := λ _ _ _, None;
  e_now := λ _, 0%Z;
  e_timer_fired := λ _, true;
  e_schedule := λ _, []
|}.
End LogsDemo.

Section Witnesses.
Import LogsDemo.
(** A partial upload before the final one *)
Example bootstrap_run :
  let '(o, t, _) := run (@SendLogs bootstrap_host (@LogsSenderExecuter bootstrap_host service format bootstrap_cfg)
                           bootstrap_cfg) [] shared_init in
  o = Done (None, "") ∧
  milestones t = [LogsStateRequested; LogsStateCollecting; "upload"; LogsStateCollecting; "upload"; LogsStateCompleted].
Proof. vm_compute. split; reflexivity. Qed.

Lemma logs_are_sent_witness :
  ∃ report l', run (@SendLogs dumps_host (@LogsSenderExecuter dumps_host service format worker_cfg) worker_cfg)
    [] shared_init = (Done (None, report), l', shared_init).
Proof.
  apply (@logs_are_sent dumps_host service format worker_cfg [] shared_init); try reflexivity.
  intros _ l'. right. vm_compute. repeat constructor.
Defined.


Lemma partial_collection_can_panic_witness :
  ∃ p, rtc pstep (Pool [] (shared_init, Sync 0 false)
      [@collector host service cfg 3 "/var/log/logs_host_host" "1";
       @gather_after_go host cfg 3 "/var/log/logs_host_host" "1"]) p ∧ PPanic ∈ p_procs p.
Proof.
  apply (@partial_collection_can_panic host service cfg 3 3 "/var/log/logs_host_host" "1" [] shared_init
           enoent (errorf "read-only file system")); reflexivity.
Defined.

Lemma partial_collection_is_waited_for_witness :
  let p := Pool [] (shared_init, Sync 0 false)
      [@collector null_env service cfg 3 "/var/log/logs_host_host" "1";
       @gather_after_go null_env cfg 3 "/var/log/logs_host_host" "1"] in
  (0 <= wg (p_shared p).2)%Z ∧ PPanic ∉ p_procs p ∧
  ∀ c errs, p_procs p = [c; PRet (errs, true)] → (p_shared p).2 = Sync 0 true ∧ ending c.
Proof.
  intros p. apply (@partial_collection_is_waited_for null_env service cfg 3 3 "/var/log/logs_host_host" "1" []
           shared_init); [right; reflexivity|apply rtc_refl].
Defined.
End Witnesses.
