(* ===== verification/Args.v ===== *)
(** * Configuration of the programs (src/config)

    Each program registers its flags, with the dry-run flags defaulting to
    environment variables, parses its command line and fills its configuration
    record; what is wrong ends the program. *)
From S2P Require Import Prelude GoStrings Host Config LogsSender Flags.

(** What processing the arguments comes to: a configuration, or the exit code
    of the program (log.Fatal: 1, help: 0, a wrong command line: 2). *)
Inductive processed (A : Type) : Type :=
  | Configured (a : A) (rest : list string)
  | Exits (code : Z).
Arguments Configured {_} _ _.
Arguments Exits {_} _.

Section Args.
(** os.LookupEnv *)
Variable lookupEnv : string → option string.

(** os.Getenv *)
Definition Getenv (key : string) : string := default "" (lookupEnv key).

(** *** envconfig.Process("dryconfig", _), of github.com/kelseyhightower/envconfig *)
Definition env_value (alt : string) : option string :=
  match lookupEnv ("DRYCONFIG_" +:+ alt) with Some v => Some v | None => lookupEnv alt end.
(** A variable that is set must parse. *)
Definition env_bool (alt : string) : option bool :=
  match env_value alt with None => Some false | Some v => ParseBool v end.
Definition env_string (alt : string) : string := default "" (env_value alt).

Definition envconfig_Process : option DryRunConfig :=
  enabled ← env_bool "DRY_ENABLE";
  Some (mkDryRunConfig enabled (env_string "DRY_HOST_ID") (env_string "DRY_FORCED_HOST_IPV4")
          (env_string "DRY_FORCED_MAC_ADDRESS") (env_string "DRY_FORCED_HOSTNAME")
          (env_string "DRY_FAKE_REBOOT_MARKER_PATH")).

(** [None]: the error of envconfig. *)
Definition RegisterDryRunArgs : option (list (string * flag_value)) :=
  d ← envconfig_Process;
  Some [("dry-run", FBool (DryRunEnabled d)); ("force-id", FString (ForcedHostID d));
        ("force-mac", FString (ForcedMacAddress d)); ("force-hostname", FString (ForcedHostname d));
        ("forced-ipv4", FString (ForcedHostIPv4 d));
        ("fake-reboot-marker-path", FString (FakeRebootMarkerPath d))].
Definition dry_config (v : flag_set) : DryRunConfig :=
  mkDryRunConfig (get_bool v "dry-run") (get_string v "force-id") (get_string v "forced-ipv4")
    (get_string v "force-mac") (get_string v "force-hostname") (get_string v "fake-reboot-marker-path").

Definition RegisterLoggingArgs : list (string * flag_value) :=
  [("with-journal-logging", FBool true); ("with-text-logging", FBool false); ("with-stdout-logging", FBool false)].
Definition logging_config (v : flag_set) : LoggingConfig :=
  mkLoggingConfig (get_bool v "with-text-logging") (get_bool v "with-journal-logging")
    (get_bool v "with-stdout-logging").

(** Registration, flag.Parse and the help flag; then the configuration. *)
Definition with_flags {A} (flags : list (string * flag_value)) (args : list string)
    (configure : flag_set → list string → list string → processed A) : processed A :=
  match RegisterDryRunArgs with
  | None => Exits 1
  | Some dry =>
      match parse_flags (list_to_map (dry ++ flags ++ [("help", FBool false)])) [] args with
      | Parsed v seen rest => if get_bool v "help" then Exits 0 else configure v seen rest
      | HelpWanted => Exits 0
      | BadUsage => Exits 2
      end
  end.

(** *** agent_config.go *)
Definition agent_flags : list (string * flag_value) :=
  RegisterLoggingArgs ++
  [("url", FString ""); ("infra-env-id", FString ""); ("agent-version", FString ""); ("interval", FInt 60);
   ("cacert", FString ""); ("insecure", FBool false); ("host-id", FString "")].
Definition ProcessArgs (args : list string) : processed AgentConfig :=
  with_flags agent_flags args (λ v _ rest,
    if String.eqb (get_string v "url") "" then Exits 1 else
    if String.eqb (get_string v "infra-env-id") "" then Exits 1 else
    Configured (mkAgentConfig (dry_config v)
      (mkConnectivityConfig (get_string v "url") "" (get_string v "infra-env-id") (get_string v "agent-version")
         (Getenv "PULL_SECRET_TOKEN") (get_bool v "insecure") (get_string v "cacert"))
      (get_int v "interval") (get_string v "host-id") (logging_config v)) rest).

(** *** subprocess_config.go, inventory_config.go *)
Definition ProcessSubprocessArgs (extra : list (string * flag_value)) (args : list string) :
    processed (SubprocessConfig * flag_set) :=
  with_flags (RegisterLoggingArgs ++ extra) args (λ v _ rest,
    Configured (mkSubprocessConfig (logging_config v) (dry_config v), v) rest).

Definition ProcessInventoryConfigArgs (args : list string) : processed InventoryConfig :=
  with_flags (RegisterLoggingArgs ++ [("gpu-config-file", FString "")]) args (λ v _ rest,
    Configured (mkInventoryConfig (dry_config v) (logging_config v) (get_string v "gpu-config-file")) rest).

(** *** logs_sender_config.go *)
Definition logs_flags (text journal : bool) : list (string * flag_value) :=
  [("with-journal-logging", FBool journal); ("with-text-logging", FBool text); ("since", FString "");
   ("url", FString ""); ("cluster-id", FString ""); ("infra-env-id", FString ""); ("host-id", FString "host-id");
   ("pull-secret-token", FString ""); ("dont-clean", FBool false); ("bootstrap", FBool false);
   ("with-installer-gather-logging", FBool false); ("cacert", FString ""); ("insecure", FBool false);
   ("masters-ips", FString "")].
Definition logs_config (v : flag_set) : LogsSenderConfig :=
  let token := get_string v "pull-secret-token" in
  let bootstrap := get_bool v "bootstrap" in
  mkLogsSenderConfig
    (mkLoggingConfig (get_bool v "with-text-logging") (get_bool v "with-journal-logging") false)
    (mkAgentConfig (dry_config v)
       (mkConnectivityConfig "" "" "" "" "" (get_bool v "insecure") (get_string v "cacert")) 0 ""
       (mkLoggingConfig false false false))
    ["agent"; "installer"] (["ironic-agent"] ++ (if bootstrap then ["bootkube"] else []))
    (get_string v "since") (get_string v "host-id") (get_string v "cluster-id") (get_string v "infra-env-id")
    (get_string v "url") (if String.eqb token "" then Getenv "PULL_SECRET_TOKEN" else token)
    (negb (get_bool v "dont-clean")) bootstrap (get_bool v "with-installer-gather-logging")
    (get_string v "masters-ips").
Definition ProcessLogsSenderConfigArgs (text journal : bool) (args : list string) : processed LogsSenderConfig :=
  with_flags (logs_flags text journal) args (λ v seen rest,
    if forallb (λ req, existsb (String.eqb req) seen) ["host-id"; "cluster-id"; "url"]
    then Configured (logs_config v) rest else Exits 2).
End Args.

Definition no_env (key : string) : option string := None.
Example agent_args_1 :
  ProcessArgs no_env ["--url"; "http://svc"; "-infra-env-id=i"; "--host-id"; "h"; "--insecure"; "--agent-version"; "v"] =
  Configured (mkAgentConfig (mkDryRunConfig false "" "" "" "" "")
    (mkConnectivityConfig "http://svc" "" "i" "v" "" true "") 60 "h" (mkLoggingConfig false true false)) [].
Proof. vm_compute. reflexivity. Qed.
Example agent_args_2 :
  map (ProcessArgs no_env) [["--url"; "u"]; ["--help"]; ["--nope"]; ["--interval"; "x"]] =
  [Exits 1; Exits 0; Exits 2; Exits 2].
Proof. vm_compute. reflexivity. Qed.
(** A variable that is set but empty is an error. *)
Example empty_env_is_fatal :
  ProcessArgs (λ k, if String.eqb k "DRY_ENABLE" then Some "" else None) ["--url"; "u"; "--infra-env-id"; "i"] = Exits 1.
Proof. vm_compute. reflexivity. Qed.
