(* ===== verification/Logging.v ===== *)
(** * Logging (src/util/logging.go, pkg/journalLogger/journal.go)

    Where the log of a program goes, and the priorities of the journal. *)
From S2P Require Import Prelude GoStrings Host.

(** ** The journal hook *)
Inductive level : Type :=
  | PanicLevel | FatalLevel | ErrorLevel | WarnLevel | InfoLevel | DebugLevel | TraceLevel
  | OtherLevel.
(** syslog priorities of journald *)
Inductive priority : Type :=
  | PriorityEmerg | PriorityAlert | PriorityCrit | PriorityErr | PriorityWarning | PriorityNotice
  | PriorityInfo | PriorityDebug.

(** journalHook: the fields sent with each message. *)
Record journalHook : Type := mkJournalHook { hook_fields : list (string * string) }.
Definition NewJournalHook (fields : list (string * string)) : journalHook := mkJournalHook fields.

Definition getPriority (l : level) : priority :=
  match l with
  | TraceLevel | DebugLevel => PriorityDebug
  | InfoLevel => PriorityInfo
  | WarnLevel => PriorityWarning
  | ErrorLevel => PriorityErr
  | FatalLevel => PriorityCrit
  | PanicLevel => PriorityEmerg
  | OtherLevel => PriorityInfo
  end.

(** logrus.AllLevels *)
Definition Levels : list level :=
  [PanicLevel; FatalLevel; ErrorLevel; WarnLevel; InfoLevel; DebugLevel; TraceLevel].

(** What is sent to the journal *)
Record journal_entry : Type := mkEntry { je_message : string; je_priority : priority; je_fields : list (string * string) }.
(** Fire: [line] is the formatted entry, [send] the journal. *)
Definition Fire (send : journal_entry → option error) (hook : journalHook) (line : result string) (l : level) :
    option error * list journal_entry :=
  match line with
  | Bad err => (Some err, [])
  | Good msg => let e := mkEntry msg (getPriority l) (hook_fields hook) in (send e, [e])
  end.

(** ** The logger *)
Inductive output : Type := ToStderr | ToDiscard | ToFile (path : string) | ToStdoutAndFile (path : string).
Record logger : Type := mkLogger { lg_out : output; lg_caller : bool; lg_hooks : list journalHook }.
(** logrus.New *)
Definition new_logger : logger := mkLogger ToStderr false [].

Definition configureLogger (l : logger) : logger := mkLogger (lg_out l) true (lg_hooks l).
Definition SetOutput (l : logger) (o : output) : logger := mkLogger o (lg_caller l) (lg_hooks l).
Definition setTextLogging (path : string) (l : logger) : logger := SetOutput l (ToFile path).
Definition setTextAndStdoutLogging (path : string) (l : logger) : logger := SetOutput l (ToStdoutAndFile path).
Definition setNullWriter (l : logger) : logger := SetOutput l ToDiscard.
Definition SetJournalLogging (l : logger) (fields : list (string * string)) : logger :=
  mkLogger (lg_out l) (lg_caller l) (lg_hooks l ++ [NewJournalHook fields]).

(** The last element of the path of a source file *)
Definition formatFilePath (path : string) : string := default "" (last (Split path "/")).

Section Logging.
Context {env : Env}.
(** The path of the log file, once it is open for appending. *)
Definition getLogFileWriter (name : string) : Go (result string) :=
  let fname := "/var/log/" +:+ name +:+ ".log" in
  err ← FsOp "OpenFile" [fname; "append"];
  mret (match err with Some e => Bad e | None => Good fname end).

Definition setLogging (l : logger) (name : string) (textLogging journalLogging stdOutLogging : bool) (hostID : string) :
    Go logger :=
  let l := configureLogger l in
  l ← (if textLogging then
         file ← getLogFileWriter name;
         mret (match file with
               | Good path => if stdOutLogging then setTextAndStdoutLogging path l else setTextLogging path l
               | Bad _ => l
               end)
       else mret (if negb stdOutLogging then setNullWriter l else l));
  mret (if journalLogging then SetJournalLogging l [("TAG", "agent"); ("DRY_AGENT_ID", hostID)] else l).

Definition SetLogging (name : string) (textLogging journalLogging stdoutLogging : bool) (hostID : string) : Go logger :=
  setLogging new_logger name textLogging journalLogging stdoutLogging hostID.
Definition NewJournalLogger (name hostID : string) : Go logger :=
  setLogging new_logger name false true false hostID.
End Logging.

(** ** Facts *)
(** More severe levels have priorities at least as urgent. *)
Definition level_number (l : level) : nat :=
  match l with
  | PanicLevel => 0 | FatalLevel => 1 | ErrorLevel => 2 | WarnLevel => 3 | InfoLevel => 4
  | DebugLevel => 5 | TraceLevel => 6 | OtherLevel => 7
  end.
Definition priority_number (p : priority) : nat :=
  match p with
  | PriorityEmerg => 0 | PriorityAlert => 1 | PriorityCrit => 2 | PriorityErr => 3 | PriorityWarning => 4
  | PriorityNotice => 5 | PriorityInfo => 6 | PriorityDebug => 7
  end.
Lemma getPriority_monotone a b :
  a ∈ Levels → b ∈ Levels → level_number a ≤ level_number b →
  priority_number (getPriority a) ≤ priority_number (getPriority b).
Proof. intros _ Hb. destruct a, b; simpl; try lia. all: unfold Levels in Hb; set_solver. Qed.

Section LoggingFacts.
Context {env : Env}.

(** Where the log goes: without text logging, nowhere, or to standard error
    when logging to standard output is asked for; with it, to the file of the
    program (and standard output), or to standard error when the file cannot be
    opened. The journal hears of everything exactly when it is asked for. *)
Theorem SetLogging_output name text journal stdout hostID l s :
  ∃ lg t, run (SetLogging name text journal stdout hostID) l s = (Done lg, l ++ t, s) ∧
    let path := "/var/log/" +:+ name +:+ ".log" in
    lg_out lg = match text, stdout, e_fs_op l "OpenFile" [path; "append"] with
                | false, false, _ => ToDiscard
                | false, true, _ => ToStderr
                | true, _, Some _ => ToStderr
                | true, false, None => ToFile path
                | true, true, None => ToStdoutAndFile path
                end ∧
    lg_hooks lg = (if journal then [mkJournalHook [("TAG", "agent"); ("DRY_AGENT_ID", hostID)]] else []) ∧
    t = (if text then [RFsOp "OpenFile" [path; "append"]] else []).
Proof.
  unfold SetLogging, setLogging. set (path := "/var/log/" +:+ name +:+ ".log"). destruct text.
  - unfold getLogFileWriter, FsOp. fold path. rewrite !run_bind. cbn [run ask]. destruct (e_fs_op l "OpenFile" [path; "append"]) as [e|];
      (eexists _, [_]; split; [reflexivity|]); by destruct stdout, journal.
  - eexists _, []. rewrite app_nil_r. split; [reflexivity|]. by destruct stdout, journal.
Qed.
End LoggingFacts.
