(* ===== verification/Programs.v ===== *)
(** * The programs (src/agent/main, the main packages of the checks, and the
    Main functions of the components)

    Every program is the one binary under another name: it processes its
    arguments, sets up its log, runs its component, prints its answer and exits
    with its exit code. *)
From S2P Require Import Prelude GoStrings Host Config Session StepProcessor Paths Flags Args Logging.
From S2P Require Import Ntp ApiVip Dhcp DomainResolution ImageAvailability Connectivity DiskSpeed FreeAddresses.
From S2P Require Import Install Actions ActionFacts Agent LogsSender.

(** What a program does last: what it prints to standard output and standard
    error, and the code it exits with. *)
Record program_end : Type := Ended { pe_stdout : string; pe_stderr : string; pe_code : Z }.
#[export] Instance program_end_eq_dec : EqDecision program_end.
Proof. solve_decision. Defined.
Definition silently (code : Z) : Go program_end := mret (Ended "" "" code).

Section Programs.
Context {env : Env} {http : Http.Http} {ext : External}.
Variable lookupEnv : string → option string.

Definition set_logging (name : string) (lc : LoggingConfig) (d : DryRunConfig) : Go logger :=
  SetLogging name (TextLogging lc) (JournalLogging lc) (StdoutLogging lc) (ForcedHostID d).

Definition print_answer (check : Go (string * string * Z)) : Go program_end :=
  '(stdout, stderr, exitCode) ← check; mret (Ended stdout stderr exitCode).

(** ** The checks that take one argument *)
Definition one_argument_main (name : string) (wrong : Z)
    (check : SubprocessConfig → string → Go (string * string * Z)) (args : list string) : Go program_end :=
  match ProcessSubprocessArgs lookupEnv [] args with
  | Exits code => silently code
  | Configured (cfg, _) rest =>
      _ ← set_logging name (sc_logging cfg) (sc_dry cfg);
      match rest with
      | [a] => print_answer (check cfg a)
      | _ => silently wrong
      end
  end.

Definition apivip_main : list string → Go program_end :=
  one_argument_main "apivip_check" (-1) (λ _, CheckAPIConnectivity x_apivip_request x_apivip_response x_raw_json
    x_base64 x_pem x_ignition x_marshal_ignition x_clone).
Definition connectivity_main : list string → Go program_end :=
  one_argument_main "connectivity-check" (-1) (λ cfg a, ConnectivityCheck x_combined_output x_parse_float x_nmap
    x_connectivity_params x_connectivity_report x_interfaces x_link (sc_dry cfg) [a]).
Definition dhcp_main : list string → Go program_end :=
  one_argument_main "dhcp_lease_allocate" (-1) (λ _, LeaseAllocate x_mac x_lease_file x_lease_interface x_last_lease
    x_link_error x_link_del x_dhcp_request x_dhcp_response).
(** The answer in a dry run, in which the time sources are not asked *)
Definition DryRunNtp : string * string * Z := ("{" +:+ dqs +:+ "ntp_sources" +:+ dqs +:+ ": []}", "", 0%Z).
Definition ntp_main : list string → Go program_end :=
  one_argument_main "ntp_synchronizer" 1 (λ cfg a,
    if DryRunEnabled (sc_dry cfg) then mret DryRunNtp
    else Ntp.Run x_lookup_host x_lookup_addr x_ntp_request x_ntp_response a).

Section FreeAddressesMain.
Variable unmarshal_free : string → result (list string).
Variable marshal_free : list FreeNetworkAddresses → result string.
Definition free_addresses_Main (fuel : nat) : list string → Go program_end :=
  one_argument_main "free_addresses" (-1) (λ _, GetFreeAddresses x_nmap unmarshal_free marshal_free fuel).
End FreeAddressesMain.

(** ** The checks whose request is a flag *)
Definition request_main (name : string) (check : SubprocessConfig → string → Go (string * string * Z))
    (args : list string) : Go program_end :=
  match ProcessSubprocessArgs lookupEnv [("request", FString "")] args with
  | Exits code => silently code
  | Configured (cfg, v) _ =>
      let request := get_string v "request" in
      if String.eqb request "" then silently 1 else
      _ ← set_logging name (sc_logging cfg) (sc_dry cfg);
      print_answer (check cfg request)
  end.
Definition domain_resolution_main : list string → Go program_end :=
  request_main "domain_resolution" (λ _, DomainResolution.Run x_lookup_ip x_lookup_cname x_domains x_resolutions).
Definition image_availability_main : list string → Go program_end :=
  request_main "container_image_availability" (λ cfg, ImageAvailability.Run x_image_float x_image_request x_image_response cfg).

(** ** The disk speed check: its last argument is the request *)
Section DiskSpeedMain.
Variable unmarshal_request : string → result (option string).
Variable unmarshal_fio : string → result (list Z).
Variable marshal_response : Z → string → result string.
Definition disk_speed_Main (args : list string) : Go program_end :=
  match ProcessSubprocessArgs lookupEnv [] args with
  | Exits code => silently code
  | Configured (cfg, _) rest =>
      _ ← set_logging "disk-speed-check" (sc_logging cfg) (sc_dry cfg);
      print_answer (FioPerfCheck unmarshal_request unmarshal_fio marshal_response cfg (default "" (last rest)))
  end.
End DiskSpeedMain.

(** ** The inventory and the logs sender *)
Definition inventory_Main (create : InventoryConfig → Go string) (args : list string) : Go program_end :=
  match ProcessInventoryConfigArgs lookupEnv args with
  | Exits code => silently code
  | Configured cfg _ =>
      _ ← set_logging "inventory" (ic_logging cfg) (ic_dry cfg);
      out ← create cfg; mret (Ended out "" 0)
  end.
Definition logs_sender_Main {service : LogsService} {connect : Connect} (format_time : Z → string)
    (args : list string) : Go program_end :=
  match ProcessLogsSenderConfigArgs lookupEnv true true args with
  | Exits code => silently code
  | Configured cfg _ =>
      _ ← set_logging "logs-sender" (lc_logging cfg) (ac_dry (lc_agent cfg));
      '(code, out) ← LogsSender.Main format_time cfg;
      mret (Ended out "" code)
  end.

(** ** The agent and the next-step runner *)
Section AgentPrograms.
Context {srv : Service} {connect : Connect} {identity : Identity}.
(** encoding/json into models.UpgradeAgentResponse; the [result] field. *)
Variable fuel attempts : nat.

Definition agent_Main (args : list string) : Go program_end :=
  match ProcessArgs lookupEnv args with
  | Exits code => silently code
  | Configured cfg _ =>
      _ ← set_logging "agent_registration" (ac_logging cfg) (ac_dry cfg);
      r ← RunAgent cfg nextStepRunnerFactory fuel attempts;
      match r with
      | DryReboot => silently 0
      | AgentFatal _ => silently 1
      | AgentFuel => block
      end
  end.

(** In a dry run the main goroutine looks for the marker of the fake reboot,
    once a second, and cancels the processing of steps, which is another
    goroutine (DryRun.v runs both); [false] when the fuel runs out. *)
Fixpoint watch_reboot (fuel : nat) (cfg : AgentConfig) : Go bool :=
  match fuel with
  | O => mret false
  | S fuel' =>
      happened ← DryRebootHappened (ac_dry cfg);
      if (happened : bool) then _ ← cancel; mret true
      else _ ← Sleep second; watch_reboot fuel' cfg
  end.

(** Otherwise it waits for the processing of steps to end. *)
Definition next_step_runner_Main (args : list string) : Go program_end :=
  match ProcessArgs lookupEnv args with
  | Exits code => silently code
  | Configured cfg _ =>
      _ ← set_logging "agent_next_step_runner" (ac_logging cfg) (ac_dry cfg);
      if DryRunEnabled (ac_dry cfg) then
        over ← watch_reboot fuel cfg;
        if (over : bool) then silently 0 else block
      else
        r ← ProcessSteps cfg fuel attempts;
        match r with
        | ExitFatal => silently 1
        | OutOfFuel => block
        | _ => silently 0
        end
  end.
End AgentPrograms.

(** ** One binary, many names (src/agent/main/main.go) *)
Definition binary_names : list string :=
  ["agent"; "free_addresses"; "inventory"; "logs_sender"; "next_step_runner"; "disk_speed_check"].
(** getMapKeysSorted *)
Definition getMapKeysSorted (names : list string) : list string := Sort.sort_by (λ n, n) names.
Definition main (program : string → list string → Go program_end) (argv : list string) : Go (program_end + string) :=
  match argv with
  | [] => mret (inr "No arguments were passed to the agent")
  | argv0 :: args =>
      let binaryName := Base argv0 in
      if existsb (String.eqb binaryName) binary_names then inl <$> program binaryName args
      else mret (inr ("unknown binary name " +:+ binaryName +:+ ", expected one of " +:+
                      Join (getMapKeysSorted binary_names) ", "))
  end.
End Programs.

(** * Theorems *)
(** ** The command line of the next-step runner and its configuration *)
(** A setting of a flag that is registered under its name. *)
Lemma fits_string v name text old :
  good_name name = true → v !! name = Some (FString old) → fits v (Separate name text).
Proof. intros Hn Hv. split; [done|]. by exists (FString old), (FString text). Qed.
Lemma fits_joined v name text old :
  good_name name = true → v !! name = Some (FString old) → fits v (Joined name text).
Proof. intros Hn Hv. split; [done|]. by exists (FString old), (FString text). Qed.
Lemma fits_bool v name b old :
  good_name name = true → v !! name = Some (FBool old) → fits v (Joined name (FormatBool b)).
Proof. intros Hn Hv. split; [done|]. exists (FBool old), (FBool b). split; [done|]. by destruct b. Qed.

Ltac fits_setting :=
  lazymatch goal with
  | |- fits ?v (Separate ?n ?t) => apply (fits_string v n t ""); [reflexivity|vm_compute; reflexivity]
  | |- fits ?v (Joined ?n (FormatBool ?b)) => apply (fits_bool v n b false); [reflexivity|vm_compute; reflexivity]
  | |- fits ?v (Joined ?n ?t) => apply (fits_joined v n t ""); [reflexivity|vm_compute; reflexivity]
  end.

Section NextStepConfiguration.
Variable lookupEnv : string → option string.

(** What the agent passes on *)
Definition runner_settings (url infraEnvID hostID agentVersion : string) (insecure : bool) (cacert : string) : list setting :=
  [Separate "url" url; Separate "infra-env-id" infraEnvID; Separate "host-id" hostID;
   Separate "agent-version" agentVersion; Joined "insecure" (FormatBool insecure)] ++
  (if nonempty cacert then [Separate "cacert" cacert] else []).

Definition dry_flags (d : DryRunConfig) : list (string * flag_value) :=
  [("dry-run", FBool (DryRunEnabled d)); ("force-id", FString (ForcedHostID d));
   ("force-mac", FString (ForcedMacAddress d)); ("force-hostname", FString (ForcedHostname d));
   ("forced-ipv4", FString (ForcedHostIPv4 d)); ("fake-reboot-marker-path", FString (FakeRebootMarkerPath d))].
Lemma RegisterDryRunArgs_dry d :
  envconfig_Process lookupEnv = Some d → RegisterDryRunArgs lookupEnv = Some (dry_flags d).
Proof. intros E. unfold RegisterDryRunArgs. by rewrite E. Qed.

Lemma ParseBool_FormatBool b : ParseBool (FormatBool b) = Some b.
Proof. by destruct b. Qed.

Lemma apply_setting_eq v s old new :
  v !! setting_name s = Some old → set_value old (setting_text s) = Some new →
  apply_setting v s = <[setting_name s := new]> v.
Proof. intros H1 H2. unfold apply_setting. rewrite H1. cbn [mbind option_bind]. by rewrite H2. Qed.

Definition all_agent_flags (d : DryRunConfig) : flag_set :=
  list_to_map (dry_flags d ++ agent_flags ++ [("help", FBool false)]).

Lemma runner_settings_fit d url infraEnvID hostID agentVersion insecure cacert :
  all_fit (all_agent_flags d) (runner_settings url infraEnvID hostID agentVersion insecure cacert).
Proof.
  destruct d as [d1 d2 d3 d4 d5 d6]. unfold runner_settings.
  destruct insecure, (nonempty cacert); cbn [app all_fit]; repeat (lazymatch goal with |- _ ∧ _ => split end); try exact I; fits_setting.
Qed.

Lemma runner_settings_values d url infraEnvID hostID agentVersion insecure cacert :
  let v := fold_left apply_setting (runner_settings url infraEnvID hostID agentVersion insecure cacert) (all_agent_flags d) in
  get_bool v "help" = false ∧ get_string v "url" = url ∧ get_string v "infra-env-id" = infraEnvID ∧
  get_string v "agent-version" = agentVersion ∧ get_bool v "insecure" = insecure ∧ get_string v "cacert" = cacert ∧
  get_int v "interval" = 60%Z ∧ get_string v "host-id" = hostID ∧ dry_config v = d ∧
  logging_config v = mkLoggingConfig false true false.
Proof.
  destruct d as [d1 d2 d3 d4 d5 d6]. unfold runner_settings, nonempty.
  destruct insecure, (String.eqb_spec cacert "") as [->|_]; cbn [negb app fold_left]; vm_compute; split_and!; reflexivity.
Qed.

(** C34. The next-step runner that a round of the agent starts reads from its
    command line the configuration the agent has for it: the address of the
    service, the ids and the image the service sent, the certificate and the
    check of the connection are the same, whatever characters are in them; the
    polling interval and the logging options of the agent are not passed on. *)
Theorem next_step_runner_configuration cfg agentVersion infraEnvID hostID d :
  envconfig_Process lookupEnv = Some d → TargetURL (ac_conn cfg) ≠ "" → infraEnvID ≠ "" →
  ∃ podman_words args,
    nextStep_words cfg agentVersion infraEnvID hostID = podman_words ++ ["next_step_runner"] ++ args ∧
    ProcessArgs lookupEnv args = Configured
      (mkAgentConfig d
         (mkConnectivityConfig (TargetURL (ac_conn cfg)) "" infraEnvID agentVersion (Getenv lookupEnv "PULL_SECRET_TOKEN")
            (InsecureConnection (ac_conn cfg)) (CACertificatePath (ac_conn cfg)))
         60 hostID (mkLoggingConfig false true false)) [].
Proof.
  intros Hd Hu Hi.
  set (l := runner_settings (TargetURL (ac_conn cfg)) infraEnvID hostID agentVersion
              (InsecureConnection (ac_conn cfg)) (CACertificatePath (ac_conn cfg))).
  exists (take (if nonempty (CACertificatePath (ac_conn cfg)) then 43 else 41) (nextStep_words cfg agentVersion infraEnvID hostID)),
    (flat_map (setting_words "--") l). split.
  - unfold nextStep_words, l, runner_settings. destruct (nonempty (CACertificatePath (ac_conn cfg))); reflexivity.
  - unfold ProcessArgs, with_flags. rewrite (RegisterDryRunArgs_dry d Hd). fold (all_agent_flags d).
    rewrite <-(app_nil_r (flat_map _ l)), (parse_settings "--"); [|by right|apply runner_settings_fit]. cbn [parse_flags].
    pose proof (runner_settings_values d (TargetURL (ac_conn cfg)) infraEnvID hostID agentVersion
      (InsecureConnection (ac_conn cfg)) (CACertificatePath (ac_conn cfg))) as H. cbv zeta in H. fold l in H.
    destruct H as (-> & E1 & E2 & -> & -> & -> & -> & -> & -> & ->). rewrite E1, E2.
    apply String.eqb_neq in Hu as ->. by apply String.eqb_neq in Hi as ->.
Qed.
End NextStepConfiguration.

(** ** The command line of the logs sender *)
(** A word that neither the template nor the shell-less splitting changes *)
Definition plain (w : string) : Prop :=
  w ≠ "" ∧ all_chars (λ c, negb (is_space c)) w = true ∧ html_escape w = w.

Lemma plain_bool b : plain (FormatBool b).
Proof. by destruct b. Qed.
Lemma Fields_lit_word lit w s :
  all_chars (λ c, negb (is_space c)) (lit +:+ w) = true → w ≠ "" →
  Fields (lit +:+ (w +:+ String " " s)) = (lit +:+ w) :: Fields s.
Proof.
  intros H Hw. rewrite append_assoc, Fields_space, Fields_word; [done|done|].
  destruct lit; [done|discriminate].
Qed.
Lemma Fields_blank s : Fields (String " " s) = Fields s.
Proof. done. Qed.

Section LogsConfiguration.
Variable lookupEnv : string → option string.
Context (cfg : AgentConfig) (url clusterID hostID infraEnvID image masters cacert : string) (insecure bootstrap gather : bool).
Hypothesis Hurl : plain url.
Hypothesis Hcluster : plain clusterID.
Hypothesis Hhost : plain hostID.
Hypothesis Henv : plain infraEnvID.
Hypothesis Himage : plain image.
Hypothesis Hmasters : masters = "" ∨ plain masters.
Hypothesis Hcacert : cacert = "" ∨ plain cacert.

Definition logs_settings : list (string * setting) :=
  [("-", Separate "url" url); ("-", Separate "cluster-id" clusterID); ("-", Separate "host-id" hostID);
   ("-", Separate "infra-env-id" infraEnvID); ("--", Joined "insecure" (FormatBool insecure));
   ("-", Joined "bootstrap" (FormatBool bootstrap));
   ("-", Joined "with-installer-gather-logging" (FormatBool gather))] ++
  (if nonempty masters then [("-", Joined "masters-ips" masters)] else []) ++
  (if nonempty cacert then [("--", Separate "cacert" cacert)] else []).

Definition logs_command : string :=
  logs_template url clusterID hostID infraEnvID image (FormatBool insecure) (FormatBool bootstrap) (FormatBool gather)
    masters cacert.

(** The command line from its end: what is left after each word. *)
Definition rest_cacert : string := if nonempty cacert then " --cacert " +:+ cacert +:+ " " else "".
Definition rest_masters : string := (if nonempty masters then " -masters-ips=" +:+ masters +:+ " " else "") +:+ rest_cacert.
Definition rest_gather : string := "-with-installer-gather-logging=" +:+ FormatBool gather +:+ rest_masters.
Definition rest_bootstrap : string := "-bootstrap=" +:+ FormatBool bootstrap +:+ String " " rest_gather.
Definition rest_insecure : string := "--insecure=" +:+ FormatBool insecure +:+ String " " rest_bootstrap.
Definition rest_ids : string :=
  "-url " +:+ url +:+ " -cluster-id " +:+ clusterID +:+ " -host-id " +:+ hostID +:+
  " -infra-env-id " +:+ infraEnvID +:+ String " " rest_insecure.

Lemma Fields_separate name w s :
  all_chars (λ c, negb (is_space c)) name = true → name ≠ "" → plain w →
  Fields (name +:+ String " " (w +:+ String " " s)) = name :: w :: Fields s.
Proof.
  intros H1 H2 (W1 & W2 & _). rewrite Fields_space, (Fields_word name) by done.
  rewrite Fields_space, (Fields_word w) by done. done.
Qed.
Lemma Fields_joined name w s :
  all_chars (λ c, negb (is_space c)) name = true → plain w →
  Fields (name +:+ (w +:+ String " " s)) = (name +:+ w) :: Fields s.
Proof. intros H1 (W1 & W2 & _). apply Fields_lit_word; [|done]. by rewrite all_chars_app, H1, W2. Qed.
Lemma Fields_joined_end name w :
  all_chars (λ c, negb (is_space c)) name = true → plain w → Fields (name +:+ w) = [name +:+ w].
Proof.
  intros H1 (W1 & W2 & _). apply Fields_word; [by rewrite all_chars_app, H1, W2|]. by destruct name, w.
Qed.

Lemma Fields_rest_gather :
  Fields rest_gather = ("-with-installer-gather-logging=" +:+ FormatBool gather) ::
    (if nonempty masters then ["-masters-ips=" +:+ masters] else []) ++
    (if nonempty cacert then ["--cacert"; cacert] else []).
Proof.
  assert (Hc : nonempty cacert = true → Fields rest_cacert = ["--cacert"; cacert]).
  { intros Hn. unfold rest_cacert. rewrite Hn. destruct Hcacert as [->|Hp]; [done|].
    change (Fields ("--cacert" +:+ String " " (cacert +:+ String " " "")) = ["--cacert"; cacert]). by rewrite Fields_separate. }
  unfold rest_gather, rest_masters. destruct (nonempty masters) eqn:Hm.
  - destruct Hmasters as [->|Hp]; [done|].
    rewrite <-!append_assoc. refine (eq_trans (Fields_joined _ _ _ _ (plain_bool gather)) _); [done|]. f_equal.
    refine (eq_trans (Fields_joined "-masters-ips=" masters rest_cacert eq_refl Hp) _). f_equal.
    destruct (nonempty cacert) eqn:Hn; [by apply Hc|]. unfold rest_cacert. by rewrite Hn.
  - change ("" +:+ rest_cacert) with rest_cacert. destruct (nonempty cacert) eqn:Hn.
    + assert (E : rest_cacert = String " " ("--cacert" +:+ String " " (cacert +:+ String " " "")))
        by (unfold rest_cacert; by rewrite Hn).
      specialize (Hc eq_refl). rewrite E in Hc |- *.
      refine (eq_trans (Fields_joined "-with-installer-gather-logging=" _ _ eq_refl (plain_bool gather)) _).
      f_equal. exact Hc.
    + unfold rest_cacert. rewrite Hn, append_nil_r. by apply Fields_joined_end, plain_bool.
Qed.

Lemma Fields_rest_ids : Fields rest_ids = flat_map dashed_words logs_settings.
Proof.
  unfold rest_ids.
  refine (eq_trans (Fields_separate "-url" url _ eq_refl _ Hurl) _); [done|].
  refine (eq_trans (f_equal (λ l, "-url" :: url :: l) (Fields_separate "-cluster-id" clusterID _ eq_refl _ Hcluster)) _); [done|].
  refine (eq_trans (f_equal (λ l, "-url" :: url :: "-cluster-id" :: clusterID :: l)
    (Fields_separate "-host-id" hostID _ eq_refl _ Hhost)) _); [done|].
  refine (eq_trans (f_equal (λ l, "-url" :: url :: "-cluster-id" :: clusterID :: "-host-id" :: hostID :: l)
    (Fields_separate "-infra-env-id" infraEnvID rest_insecure eq_refl _ Henv)) _); [done|].
  unfold rest_insecure, rest_bootstrap.
  rewrite (Fields_joined "--insecure=" _ _ eq_refl (plain_bool insecure)),
    (Fields_joined "-bootstrap=" _ _ eq_refl (plain_bool bootstrap)).
  rewrite Fields_rest_gather. unfold logs_settings.
  by destruct (nonempty masters), (nonempty cacert).
Qed.
Lemma escape_or_empty w : w = "" ∨ plain w → html_escape w = w.
Proof. intros [->|(_ & _ & E)]; [done|exact E]. Qed.

Lemma Fields_program a b c d e image' rest :
  Fields (a +:+ b +:+ c +:+ d +:+ e +:+ image' +:+ " logs_sender " +:+ rest) =
  Fields (a +:+ b +:+ c +:+ d +:+ e +:+ image') ++ "logs_sender" :: Fields rest.
Proof.
  change (" logs_sender " +:+ rest) with (String " " ("logs_sender" +:+ String " " rest)).
  by rewrite !append_assoc, Fields_space, Fields_space.
Qed.

Lemma Fields_logs_command :
  ∃ podman_words, Fields logs_command = podman_words ++ ["logs_sender"] ++ flat_map dashed_words logs_settings.
Proof.
  rewrite <-Fields_rest_ids. unfold logs_command, logs_template. cbv zeta.
  rewrite (proj2 (proj2 Hurl)), (proj2 (proj2 Hcluster)), (proj2 (proj2 Hhost)), (proj2 (proj2 Henv)),
    (proj2 (proj2 Himage)), !(proj2 (proj2 (plain_bool _))), (escape_or_empty masters Hmasters),
    !(escape_or_empty cacert Hcacert).
  eexists. refine (eq_trans (Fields_program _ _ _ _ _ _ rest_ids) _). reflexivity.
Qed.

Definition all_logs_flags (d : DryRunConfig) : flag_set :=
  list_to_map (dry_flags d ++ logs_flags true true ++ [("help", FBool false)]).

Lemma logs_settings_dashes : Forall dashes_ok logs_settings.
Proof.
  clear. unfold logs_settings. destruct (nonempty masters), (nonempty cacert);
    repeat (constructor; [by (left + right)|]); constructor.
Qed.
Lemma logs_settings_fit d : all_fit (all_logs_flags d) (map snd logs_settings).
Proof.
  clear. destruct d as [d1 d2 d3 d4 d5 d6]. unfold logs_settings.
  destruct insecure, bootstrap, gather, (nonempty masters), (nonempty cacert); cbn [app map snd all_fit];
    repeat (lazymatch goal with |- _ ∧ _ => split end); try exact I;
    lazymatch goal with
    | |- fits _ (Separate "host-id" _) => apply (fits_string _ _ _ "host-id"); [reflexivity|vm_compute; reflexivity]
    | |- _ => fits_setting
    end.
Qed.

(** What the logs sender makes of its arguments *)
Definition expected_logs_config (d : DryRunConfig) : LogsSenderConfig :=
  mkLogsSenderConfig (mkLoggingConfig true true false)
    (mkAgentConfig d (mkConnectivityConfig "" "" "" "" "" insecure cacert) 0 "" (mkLoggingConfig false false false))
    ["agent"; "installer"] (["ironic-agent"] ++ (if bootstrap then ["bootkube"] else [])) "" hostID clusterID infraEnvID url
    (Getenv lookupEnv "PULL_SECRET_TOKEN") true bootstrap gather masters.

Lemma logs_settings_values d :
  let v := fold_left apply_setting (map snd logs_settings) (all_logs_flags d) in
  get_bool v "help" = false ∧ logs_config lookupEnv v = expected_logs_config d.
Proof.
  clear. destruct d as [d1 d2 d3 d4 d5 d6]. unfold logs_settings, expected_logs_config, nonempty.
  destruct insecure, bootstrap, gather, (String.eqb_spec masters "") as [->|_], (String.eqb_spec cacert "") as [->|_];
    cbn [negb app map snd fold_left]; vm_compute; split; reflexivity.
Qed.

Lemma parse_logs_command d :
  envconfig_Process lookupEnv = Some d →
  ProcessLogsSenderConfigArgs lookupEnv true true (flat_map dashed_words logs_settings) =
  Configured (expected_logs_config d) [].
Proof.
  clear Hurl Hcluster Hhost Henv Himage Hmasters Hcacert. intros Hd.
  unfold ProcessLogsSenderConfigArgs, with_flags. rewrite (RegisterDryRunArgs_dry _ d Hd). fold (all_logs_flags d).
  rewrite <-(app_nil_r (flat_map _ _)), parse_dashed; [|apply logs_settings_dashes|apply logs_settings_fit].
  cbn [parse_flags]. destruct (logs_settings_values d) as [-> ->].
  assert (forallb (λ req, existsb (String.eqb req) ([] ++ map setting_name (map snd logs_settings)))
            ["host-id"; "cluster-id"; "url"] = true) as -> by (unfold logs_settings; reflexivity).
  done.
Qed.
End LogsConfiguration.

(** C35. The command line that the logs_gather action builds from its template
    and splits at white space starts the logs sender with the configuration of
    the request: the service, the ids, the certificate, the check of the
    connection, the kind of collection and the masters, provided that the words
    put in the template hold neither white space nor characters that the HTML
    template escapes, and that the required ones are not empty. *)
Theorem logs_sender_configuration lookupEnv cfg p clusterID hostID infraEnvID d :
  let masters := Join (lp_MasterIps p) "," in
  let conn := ac_conn cfg in
  lp_ClusterID p = Some clusterID → lp_HostID p = Some hostID → lp_InfraEnvID p = Some infraEnvID →
  Forall plain [TargetURL conn; clusterID; hostID; infraEnvID; AgentVersion conn] →
  Forall (λ w, w = "" ∨ plain w) [masters; CACertificatePath conn] →
  envconfig_Process lookupEnv = Some d →
  ∃ command podman_words args,
    createUploadLogsCmd cfg p = mret command ∧
    Fields command = podman_words ++ ["logs_sender"] ++ args ∧
    ProcessLogsSenderConfigArgs lookupEnv true true args =
      Configured (expected_logs_config lookupEnv (TargetURL conn) clusterID hostID infraEnvID masters
        (CACertificatePath conn) (InsecureConnection conn) (default false (lp_Bootstrap p)) (lp_InstallerGather p) d) [].
Proof.
  intros masters conn E1 E2 E3 Hp He Hd.
  rewrite !Forall_cons in Hp. destruct Hp as (H1 & H2 & H3 & H4 & H5 & _).
  rewrite !Forall_cons in He. destruct He as (H6 & H7 & _).
  destruct (Fields_logs_command (TargetURL conn) clusterID hostID infraEnvID (AgentVersion conn) masters
    (CACertificatePath conn) (InsecureConnection conn) (default false (lp_Bootstrap p)) (lp_InstallerGather p)
    H1 H2 H3 H4 H5 H6 H7) as [podman Hpodman].
  eexists _, podman, _. split; [|split; [exact Hpodman|by apply parse_logs_command]].
  unfold createUploadLogsCmd. by rewrite E1, E2, E3.
Qed.

(** ** Witnesses *)
Definition demo_agent (cacert : string) : AgentConfig :=
  mkAgentConfig (mkDryRunConfig false "" "" "" "" "")
    (mkConnectivityConfig "https://api.example:8090" "" "infra" "quay.io/agent:v1" "token" true cacert) 60 "host"
    (mkLoggingConfig false true false).
Definition demo_dry : DryRunConfig := mkDryRunConfig false "" "" "" "" "".

Lemma next_step_runner_configuration_witness :
  ∃ podman_words args,
    nextStep_words (demo_agent "/etc/ca.pem") "quay.io/agent:v2" "infra" "a host" = podman_words ++ ["next_step_runner"] ++ args ∧
    ProcessArgs no_env args = Configured
      (mkAgentConfig demo_dry
         (mkConnectivityConfig "https://api.example:8090" "" "infra" "quay.io/agent:v2" "" true "/etc/ca.pem")
         60 "a host" (mkLoggingConfig false true false)) [].
Proof.
  apply (next_step_runner_configuration no_env (demo_agent "/etc/ca.pem") "quay.io/agent:v2" "infra" "a host" demo_dry);
    [reflexivity|discriminate|discriminate].
Defined.

Lemma logs_sender_configuration_witness :
  let p := mkLogsParams (Some true) (Some "cluster") (Some "host") (Some "infra") true ["10.0.0.1"; "10.0.0.2"] in
  ∃ command podman_words args,
    createUploadLogsCmd (demo_agent "") p = mret command ∧
    Fields command = podman_words ++ ["logs_sender"] ++ args ∧
    ProcessLogsSenderConfigArgs no_env true true args =
      Configured (expected_logs_config no_env "https://api.example:8090" "cluster" "host" "infra" "10.0.0.1,10.0.0.2"
        "" true true true demo_dry) [].
Proof.
  intros p. apply (logs_sender_configuration no_env (demo_agent "") p "cluster" "host" "infra" demo_dry);
    try reflexivity.
  - repeat (constructor; [repeat split; discriminate|]); constructor.
  - constructor; [right; repeat split; discriminate|]. constructor; [by left|constructor].
Defined.

(** An unknown program name is reported with the known ones in order. *)
Example main_unknown : ∀ program, main program ["/usr/bin/foo"] = mret (inr
  "unknown binary name foo, expected one of agent, disk_speed_check, free_addresses, inventory, logs_sender, next_step_runner").
Proof. intros program. vm_compute. reflexivity. Qed.
