(* ===== verification/DryRun.v ===== *)
(** * The dry run of the next-step runner (src/next_step_runner/main.go)

    In a dry run the main goroutine looks once a second for the marker of the fake
    reboot, while another goroutine handles the steps, which start goroutines of
    their own. The process ends when the main goroutine has found the marker, and
    before that when a goroutine panics or a session cannot be opened. *)
From S2P Require Import Prelude GoStrings Host Config Session StepProcessor Instructions Agent Programs.

(** ** The process *)
Section DryRun.
Context {env : Env} {srv : Service} {connect : Connect}.

(** The main goroutine after [go commands.ProcessSteps(...)]; it ends the process
    when it returns. *)
Definition dry_main (fuel : nat) (cfg : AgentConfig) : Go () :=
  over ← watch_reboot fuel cfg;
  if (over : bool) then mret () else block.

Definition dry_initial (fuel attempts : nat) (cfg : AgentConfig) : pool request shared () :=
  Pool [] shared_init [dry_main fuel cfg; main_loop cfg fuel attempts].
End DryRun.

(** ** Facts *)
Section Facts.
Context {env : Env} {srv : Service} {connect : Connect} {factory : ToolRunnerFactory} {laws : FactoryLaws}.
Context (unmarshalUpgradeAgentResponse : string → result string).
Context (cfg : AgentConfig).

(** The query for the marker was answered with success. *)
Definition marker_query : request := privileged "stat" [FakeRebootMarkerPath (ac_dry cfg)].
Definition marker_found (l : log) : Prop :=
  ∃ l1, (l1 ++ [marker_query]) `prefix_of` l ∧
    getExitCode (e_run l1 "nsenter" ((buildPrivilegedCommand "stat" [FakeRebootMarkerPath (ac_dry cfg)]).2)).2 = 0%Z.

Lemma marker_found_later l l' : l `prefix_of` l' → marker_found l → marker_found l'.
Proof. intros Hl (l1 & H & E). exists l1. split; [by etrans|done]. Qed.
#[local] Instance reboot_reason : OtherReason := {| other_reason := marker_found; other_reason_later := marker_found_later |}.

Notation session_inv := (session_inv unmarshalUpgradeAgentResponse).

Lemma rg_watch_reboot fuel w :
  session_inv w → rg session_inv (λ over w', over = true → marker_found w'.1) (watch_reboot fuel cfg) w.
Proof.
  revert w. induction fuel as [|fuel IH]; intros w HI; [done|]. cbn [watch_reboot].
  eapply (rg_bind _ (λ happened w', session_inv w' ∧ (happened = true → marker_found w'.1))).
  - destruct w as [l s]. unfold DryRebootHappened, ExecutePrivileged, Execute. simpl.
    split; [by apply session_inv_log|]. intros [l' s'] Hl HI'. simpl in *.
    destruct (e_run l _ _) as [[o e] err] eqn:Er. simpl. split; [done|]. intros Hc%Z.eqb_eq.
    exists l. split; [exact Hl|]. simpl. by rewrite Er.
  - intros [|] w' _ [HI' Hm]; simpl.
    + assert (Hfound : marker_found w'.1) by by apply Hm. split; [split; [apply HI'|by right]|].
      intros w'' Hl _ _. by eapply marker_found_later.
    + split; [destruct w'; by apply session_inv_log|]. intros w'' _. apply IH.
Qed.

Lemma rg_dry_main fuel w : session_inv w → rg session_inv (λ _ w', marker_found w'.1) (dry_main fuel cfg) w.
Proof.
  intros HI. eapply rg_bind; [by apply rg_watch_reboot|]. intros [|] w' _ H; [by apply H|done].
Qed.

Lemma dry_main_reason fuel : emits (exit_reason cfg) (λ _ _, True) (dry_main fuel cfg).
Proof.
  unfold dry_main. apply emits_bind; [|by intros []]. induction fuel as [|fuel IH]; [done|]. cbn [watch_reboot].
  apply emits_bind; [unfold DryRebootHappened; apply emits_bind; [by apply emits_ExecutePrivileged|by intros [[o e] c]]|].
  intros []; apply emits_bind; [done|intros _; done|done|intros _; exact IH].
Qed.

(** C22. Why a dry run ends: in every interleaving of the main goroutine, the loop
    that asks for steps and the goroutines of the steps, the process has ended only
    when the marker of the fake reboot was found, when a session could not be opened
    (the address does not parse or the CA certificates cannot be read: log.Fatalf,
    exit code 1), or when a goroutine has panicked; the loop over the steps may come
    to its end without ending the process. The context is cancelled only for the
    marker or after a successful upgrade was reported, and the reply cache holds
    only what the service has accepted. *)
Theorem dry_run_ends_after_reboot fuel attempts p :
  rtc (process_step unmarshalUpgradeAgentResponse cfg) (dry_initial fuel attempts cfg) p →
  (ended p →
     marker_found (p_log p) ∨ ((∃ code, RExit code ∈ p_log p) ∧ cannot_connect cfg) ∨ Exists (λ m, m = PPanic) (p_procs p)) ∧
  (∀ code, RExit code ∈ p_log p → code = 1%Z) ∧
  (sh_cancelled (p_shared p) = true →
     marker_found (p_log p) ∨
     ∃ reply, r_step_type reply = "upgrade-agent" ∧
       unmarshalUpgradeAgentResponse (r_output reply) = Good "success" ∧ reported (p_log p) reply) ∧
  (∀ stepType output expiry,
     sh_cache (p_shared p) !! stepType = Some (output, expiry) → acked (p_log p) stepType output).
Proof.
  intros Hrun%process_agent.
  assert (Hok : agent_ok unmarshalUpgradeAgentResponse [λ _ w', marker_found w'.1; λ _ _, True] p).
  { apply (invariant_rtc _ _ _ _ (agent_step_ok _ _ _) Hrun). exists []. split; [apply session_inv_init|].
    constructor; [intros w' _; apply rg_dry_main|]. constructor; [intros w' _; apply rg_main_loop|constructor]. }
  assert (Hex : exits_so cfg p).
  { apply (invariant_rtc _ _ _ _ (exits_so_step _ _) Hrun). split; [constructor|].
    repeat constructor; [apply dry_main_reason|apply main_loop_reason]. }
  destruct Hok as (Qs & HI & Hprocs). destruct Hex as [Hlog _]. rewrite Forall_forall in Hlog. cbn [app] in Hprocs.
  apply Forall2_cons_inv_l in Hprocs as (main & gs & Hmain & _ & Hp). split_and!.
  - intros [Hm|[Hm|Hm]]; [left|by right; right|right; left].
    + rewrite Hp in Hm. injection Hm as ->. apply (Hmain _ (reflexivity _) HI).
    + apply Exists_exists in Hm as (r & Hin & Hr). destruct r; try done. split; [by eexists|]. apply (Hlog _ Hin).
  - intros code Hin. apply (Hlog _ Hin).
  - intros Hc. destruct (proj2 HI Hc) as [(reply & Hr%restart_upgrade & Hrep)|H]; [right|by left]. exists reply. naive_solver.
  - apply (proj1 HI).
Qed.
End Facts.

(** ** A dry run on a host where the installer has left its marker at once *)
Module DryRunDemo.
Import StepDemo.
Definition host : Env := AgentDemo.host.
Definition cfg : AgentConfig := AgentDemo.cfg.
(** The main goroutine finds the marker and cancels while nothing else runs. *)
Definition end_of_run : pool request shared () :=
  Pool [marker_query cfg] (Shared ∅ true [] false false) [PRet (); @main_loop host srv plain_connect cfg 3 3].
Ltac not_ended :=
  intros [H|[H|H]]; [discriminate H|repeat (apply Exists_cons in H as [H|H]; [discriminate H|])|
                     repeat (apply Exists_cons in H as [H|H]; [discriminate H|])]; by apply Exists_nil in H.
Lemma reaches_end :
  rtc (@process_step host srv factory Good cfg) (@dry_initial host srv plain_connect 3 3 cfg) end_of_run.
Proof.
  eapply rtc_l; [split; [not_ended|apply agent_act, (pool_act_sound 0); reflexivity]|].
  eapply rtc_l; [split; [not_ended|apply agent_act, (pool_act_sound 0); reflexivity]|]. reflexivity.
Qed.
End DryRunDemo.

Section Witness.
Import StepDemo DryRunDemo.
#[local] Existing Instance laws.

Lemma dry_run_ends_after_reboot_witness :
  ended end_of_run ∧
  (@marker_found host cfg (p_log end_of_run) ∨
   ((∃ code, RExit code ∈ p_log end_of_run) ∧ @cannot_connect host plain_connect cfg) ∨
   Exists (λ m, m = PPanic) (p_procs end_of_run)).
Proof.
  assert (He : ended end_of_run) by (left; reflexivity). split; [exact He|].
  destruct (@dry_run_ends_after_reboot host srv plain_connect factory laws Good cfg 3 3 end_of_run reaches_end)
    as [H _]. exact (H He).
Defined.
End Witness.
